(* ===== verification/_CoqProject ===== *)
-Q . S2P
Prelude.v
NodeTypes.v
DeepCopy.v
Json.v
GoTime.v
Requests.v
Effects.v
Plugins.v
Messages.v
Config.v
Logging.v
HcLog.v
LoadConfig.v
Utils.v
Webhook.v
DrainManager.v
Serving.v
Monitor.v
RebootManager.v
NodeController.v
Startup.v
Traces.v
Protocol.v
Safety.v
Behaviour.v
Exclusion.v
History.v
Progress.v
Rebooting.v
ApiServer.v
WireModel.v
Scenarios.v
Samples.v
