(* ===== verification/Prelude.v ===== *)
(** * node-drain: a verification library

    node-drain is a Kubernetes operator that empties cluster nodes one at a time,
    reboots them if their operating system asks for it, and puts them back.  A
    user states what a node should be in the spec of a cluster-scoped [Node]
    object (Active, Cordoned, Drained, RebootIfRequired); the operator moves the
    machine there and reports where it is in the object's status (OK, Cordoned,
    Queued, Next, Draining, Drained, Rebooting, Undraining).

    ** The program and its model

    - [src/internal/controller/node_controller.go]: [Reconcile] and its helpers
      read the kube node and the drain node of a name and take one step.
      [NodeController.v] has one definition per function; the long [Reconcile] is
      split at its early returns into [reconcileDeleted], [reconcileLive],
      [reconcileSpec], [reconcileWork] ([rebootGate], [drain], [reconcileReboot])
      and [reconcileQueued].
    - [src/internal/utils/drain-manager.go]: loads plugins, asks them whether the
      cluster is healthy and a drain is acceptable, runs their hooks
      ([DrainManager.v]), and copies what they print to the log ([Monitor.v], with
      [TrimSpace] and the line scanner).
    - [src/internal/utils/reboot-manager.go], [utils.go]: helper pods that test for
      and cause a reboot.  [RebootManager.v], [Utils.v].
    - [src/api/plugins]: the plugin interface with its gRPC client and server, and
      [src/examples/plugin] ([Plugins.v]); the generated messages, hidden fields
      with presence bits ([Messages.v]); the generated service with its handlers and
      client, [Serve] and the two go-plugin configurations ([Serving.v]).
    - [src/api/v1/node_types.go]: [NodeTypes.v]; its generated deep copies
      ([zz_generated.deepcopy.go]): [DeepCopy.v].
    - [src/internal/config]: the configuration and its accessors ([Config.v]), its
      loading in layers ([LoadConfig.v]), the process logger and the named loggers
      ([Logging.v]).  [src/internal/utils/hclog.go]: [HcLog.v].
    - [src/internal/webhook/v1]: [Webhook.v].
    - [src/cmd/main.go] with the registration of the API types
      ([src/api/v1/groupversion_info.go]), [SetupWithManager],
      [SetupNodeWebhookWithManager] and [NewNodeReconciler] in full: [Startup.v].
    - Of Go's library, [encoding/json]'s decoder, which decides who owns a cordon
      and what a log line says ([Json.v]), and [time.Parse] ([GoTime.v]).

    ** Effects

    A Go function that talks to the outside is a computation [M W A] over a world
    [W] ([Effects.v]): it performs a list of interactions and returns a value or an
    error.  The interactions are the requests of [Requests.v] (API server, clock,
    plugins, kubectl's drain library, file system).  [Env W] says only that every
    request has some answer, so theorems over all [Env] hold whatever fails.  What
    is assumed of libraries is stated as classes next to their first use:
    [WaitLaws] and [WaitPrompt] (polling), [PodsGetLaws], [ApiEcho] (a patch
    returns the values written, and what it did not change as it was sent) and
    [ApiStore] (only status patches change a status), [RpcTransport],
    [ControllerUtilLaws], [OwnerReferenceLaws], [ProtoImplLaws] and [ProtoLaws]
    (protobuf), [GrpcLaws], [GoPluginLaws] and
    [PluginProcess] (gRPC and go-plugin, from which [RpcTransport] follows),
    [ZapLaws] and [ZapLoggerLaws] (zap), [LevelNamesLaws] (hclog), [KoanfLaws],
    [MapOrderLaws] and [GrowSliceLaws] (Go's runtime), [DeepCopyLaws] of the
    library's structs.  In the controller objects are immutable values: a helper
    that mutates and patches an object takes it and returns what the client left
    in it; in the source every failed patch ends the reconciliation, so no stale
    local object is ever used, and the base of a patch is a deep copy, which
    [DeepCopy.v] shows to be out of reach of later writes.  The controller's own
    log output is left out.  [Startup.v] has a monad of its own, with the package
    variables of the configuration and the loggers, the arrays behind slices, and
    the ways a process ends.  Code that may panic returns an [outcome].

    ** What is proved

    - [Protocol.v]: [permitted] describes what a reconciliation may do after what it
      has seen; [Reconcile_protocol] shows that every run respects it, by
      weakest-precondition style triples, one per function.  [Safety.v] draws the
      consequences: when pods may be evicted, a reboot pod created, a cordon set or
      removed, a status or a spec written, a finalizer removed, and that the status
      follows the abstract [lifecycle].
    - [Traces.v]: the interactions of a run are the answers of the worlds it goes
      through, so that it can be followed and cut off at any of them.
    - [Exclusion.v]: the system of the API store, users and reconciliations cut off
      anywhere never has two nodes in the states Next, Draining, Drained, Rebooting
      and Undraining ([mutual_exclusion]).  This is of executions in which what the
      controller reads is current and nobody asks for a drain of an object without a
      status ([observed]); neither is guaranteed by the program, and
      [stale_listing_breaks_exclusion] and [fresh_drain_skips_queue] show what
      happens without.
    - [History.v]: the same system with its steps recorded.  Wherever a node is found,
      the step that brought it there happened under the conditions of its stage
      ([stage_history]): who is past the gate was admitted by it, in this or an
      earlier run of the controller, who is Rebooting wanted it, and so on.
    - [Progress.v] and [Rebooting.v]: in any environment, reconciliations whose
      interactions go well ([favourable]) do their work, return without an error and
      ask to be called again, and so requested drains, undrains and reboots complete.
    - [Messages.v]: the messages implement records of optional fields.  [Serving.v]:
      what the operator's client asks of a plugin process is what the plugin's own
      methods answer ([plugin_served]).  [WireModel.v]: instances of the libraries
      they are stated over.
    - [Behaviour.v]: functional specifications of cordon ownership, the reboot check
      interval, the queue, a drain that skips it, and a dead end of the state machine.
    - [Startup.v]: a start follows a fixed plan, step by step, and each server gets
      its own TLS options although their slices share a prefix.
    - [Monitor.v], [HcLog.v], [Logging.v], [LoadConfig.v], [DeepCopy.v],
      [DrainManager.v], [RebootManager.v], [Plugins.v], [Config.v], [Webhook.v] end
      with the specifications of their components: no line of plugin output is lost
      unless it is too long, which lines bring the process down, that named loggers
      do not disturb each other, which layer of the configuration counts, that
      copies share no memory.
    - [ApiServer.v], [Scenarios.v] and [Samples.v]: an executable model cluster,
      concrete runs, instances of the library interfaces, and a witness for each
      theorem with hypotheses.  No property of the operator is stated of the model
      cluster; it shows that the hypotheses can hold together.

    ** Bounds

    Recursion is structural but for the JSON decoder, whose fuel is one more than
    the length of the input; [Unmarshal_fuel] in [Json.v] shows that more makes no
    difference.  The polling loop of the model cluster runs as often as the timeout
    allows.  Durations are unbounded integers; the program only adds constants to
    the clock.

    ** Not modelled

    The controller's own log output; protobuf encoding, gRPC and go-plugin themselves
    and the reflection boilerplate of the generated messages, which only calls the
    protobuf library; the informer cache as a component (reads may be stale wherever
    it is not said that they are current); more than one controller process at a time
    (the deployment uses leader election); the shell helpers of the end-to-end tests
    ([src/test]).

    ** Plan

    Next: a print and parse round trip for [Json.v]; progress through runs that fail
    or are refused for a while before they go well.

    This file holds what all others share: Go errors, time, strings, tactics. *)

From stdpp Require Import base gmap strings list.
From Stdlib Require Import ZArith Lia.

(** ** Go errors

    A Go [error] value as the program builds and inspects it: an API
    [StatusError] carries a machine readable reason, [fmt.Errorf] without [%w]
    gives a plain message, with a final [%w] it wraps another error behind a
    prefix, and [errors.Join] holds several. *)
Inductive error :=
  | StatusError (notFound : bool) (msg : string)
  | ErrorString (msg : string)
  | WrapError (prefix : string) (e : error)
  | JoinError (es : list error).

(** The newline rune, which a string literal cannot hold readably. *)
Definition newline : string := String (Ascii.ascii_of_nat 10) EmptyString.

(** [strings.Join]. *)
Fixpoint strings_Join (l : list string) (sep : string) : string :=
  match l with
  | [] => EmptyString
  | [s] => s
  | s :: l' => (s +:+ sep +:+ strings_Join l' sep)%string
  end.

(** The [Error()] method. *)
Fixpoint Error (e : error) : string :=
  match e with
  | StatusError _ m => m
  | ErrorString m => m
  | WrapError p e' => (p +:+ Error e')%string
  | JoinError es => strings_Join (map Error es) newline
  end.

(** [errors.As] for an API status: the first [StatusError] of the tree, depth
    first, which is what [apierrors.IsNotFound] asks for its reason. *)
Fixpoint as_status (e : error) : option bool :=
  match e with
  | StatusError nf _ => Some nf
  | ErrorString _ => None
  | WrapError _ e' => as_status e'
  | JoinError es =>
      (fix go (l : list error) : option bool :=
         match l with
         | [] => None
         | x :: l' => match as_status x with Some b => Some b | None => go l' end
         end) es
  end.

Definition IsNotFound (e : error) : bool :=
  match as_status e with Some b => b | None => false end.

(** ** Panics

    A call that may panic besides returning a value or an error; a panic is not
    an error value, nothing in the program recovers from one. *)
Inductive outcome (E A : Type) :=
  | Returns (a : A)
  | Fails (e : E)
  | Panics.
Arguments Returns {E A} a.
Arguments Fails {E A} e.
Arguments Panics {E A}.

Global Instance outcome_ret {E} : MRet (outcome E) := fun A a => Returns a.
Global Instance outcome_bind {E} : MBind (outcome E) := fun A B f m =>
  match m with Returns a => f a | Fails e => Fails e | Panics => Panics end.

(** [if err != nil { return fmt.Errorf(prefix + "%w", err) }]. *)
Definition wrapped {A} (prefix : string) (r : error + A) : outcome error A :=
  match r with inl e => Fails (WrapError prefix e) | inr a => Returns a end.

(** ** Strings *)

Fixpoint strip_prefix (p s : string) : option string :=
  match p, s with
  | EmptyString, _ => Some s
  | String a p', String b s' => if Ascii.eqb a b then strip_prefix p' s' else None
  | String _ _, EmptyString => None
  end.

(** [strings.HasPrefix]. *)
Definition HasPrefix (s prefix : string) : bool :=
  match strip_prefix prefix s with Some _ => true | None => false end.

(** [filepath.Ext]: the suffix from the last dot of the last path element. *)
Fixpoint has_slash (s : string) : bool :=
  match s with
  | EmptyString => false
  | String c r => Ascii.eqb c (Ascii.ascii_of_nat 47) || has_slash r
  end.

Fixpoint Ext (s : string) : string :=
  match s with
  | EmptyString => EmptyString
  | String c r =>
      let e := Ext r in
      if negb (String.eqb e EmptyString) then e
      else if Ascii.eqb c (Ascii.ascii_of_nat 46) && negb (has_slash r) then s
      else EmptyString
  end.

(** ** Durations and instants

    [time.Duration] is an [int64] of nanoseconds; the constants the program
    uses are far from its bounds. *)
Definition Second : Z := 1000000000.
Definition Minute : Z := 60 * Second.
Definition Hour : Z := 60 * Minute.

(** [time.Time] as nanoseconds since the zero instant of Go (year 1, UTC), so
    [IsZero] is equality with 0. *)
Definition Time := Z.
Definition IsZero (t : Time) : bool := (t =? 0)%Z.
Definition Before (t u : Time) : bool := (t <? u)%Z.

(** ** Lists *)

(** [strings.Join] never loses an element: a joined nonempty list of nonempty
    strings is nonempty. *)
Lemma strings_Join_cons s s' l sep :
  strings_Join (s :: s' :: l) sep = (s +:+ sep +:+ strings_Join (s' :: l) sep)%string.
Proof. reflexivity. Qed.

Lemma surjective_pairing_3 {A B C} (p : A * B * C) : p = (p.1.1, p.1.2, p.2).
Proof. by destruct p as [[] ?]. Qed.

(** ** Automation *)

(** Turns boolean facts about the program's tests into propositions. *)
Ltac boolify :=
  repeat match goal with
  | H : negb _ = true |- _ => apply negb_true_iff in H
  | H : negb _ = false |- _ => apply negb_false_iff in H
  | H : (_ && _)%bool = true |- _ => apply andb_true_iff in H; destruct H
  | H : (_ || _)%bool = false |- _ => apply orb_false_iff in H; destruct H
  | H : String.eqb _ _ = true |- _ => apply String.eqb_eq in H
  | H : String.eqb _ _ = false |- _ => apply String.eqb_neq in H
  end.
