(* ===== verification/NodeTypes.v ===== *)
(** * The drain.k8s.slyng.dk/v1 API types (src/api/v1/node_types.go)

    The desired state [NodeState] and the observed state [NodeCurrentState] of
    a managed node, the [Node] object with its spec and status, and the two
    classifications the controller branches on: [Drain] and [WorkState].  Both
    state types are Go strings, so they are strings here: a value outside the
    declared constants (the empty string of an object whose status was never
    written, in particular) is a value of the model too. *)

From stdpp Require Import base strings list.
From S2P Require Import Prelude.

Local Open Scope string_scope.

(** ** Desired state *)

Definition NodeState := string.

Definition NodeStateActive : NodeState := "Active".
Definition NodeStateCordoned : NodeState := "Cordoned".
Definition NodeStateDrained : NodeState := "Drained".
Definition NodeStateRebootIfRequired : NodeState := "RebootIfRequired".

(** [func (c NodeState) Drain() bool]: the desired states that ask for the
    node to be emptied. *)
Definition Drain (c : NodeState) : bool :=
  if (c =? NodeStateDrained) || (c =? NodeStateRebootIfRequired) then true
  else false.

Record NodeSpec := mkNodeSpec { State : NodeState }.

(** ** Observed state *)

Definition NodeCurrentState := string.

Definition NodeCurrentStateOk : NodeCurrentState := "OK".
Definition NodeCurrentStateCordoned : NodeCurrentState := "Cordoned".
Definition NodeCurrentStateQueued : NodeCurrentState := "Queued".
Definition NodeCurrentStateNext : NodeCurrentState := "Next".
Definition NodeCurrentStateDraining : NodeCurrentState := "Draining".
Definition NodeCurrentStateDrained : NodeCurrentState := "Drained".
Definition NodeCurrentStateUndraining : NodeCurrentState := "Undraining".
Definition NodeCurrentStateRebooting : NodeCurrentState := "Rebooting".

(** [func (c NodeCurrentState) WorkState() bool]: every value but OK, Cordoned
    and Queued, the default case of the source included. *)
Definition WorkState (c : NodeCurrentState) : bool :=
  if (c =? NodeCurrentStateOk) || (c =? NodeCurrentStateCordoned)
     || (c =? NodeCurrentStateQueued) then false
  else true.

Definition GetNodeCurrentStates : list NodeCurrentState :=
  [NodeCurrentStateOk; NodeCurrentStateCordoned; NodeCurrentStateQueued;
   NodeCurrentStateNext; NodeCurrentStateDraining; NodeCurrentStateDrained;
   NodeCurrentStateUndraining; NodeCurrentStateRebooting].

(** [metav1.Condition] with the inlined [LastCheckTime]. *)
Record Condition := mkCondition {
  Condition_Type : string;
  Condition_Status : string;
  ObservedGeneration : Z;
  LastTransitionTime : Time;
  Reason : string;
  Message : string;
  LastCheckTime : option Time
}.

Record NodeStatus := mkNodeStatus {
  Conditions : list Condition;
  RebootRequiredLastChecked : option Time;
  RebootRequired : option bool;
  Drained : bool;
  CurrentState : NodeCurrentState;
  BootID : string
}.

(** The zero value of the Go struct: the status of an object nobody has
    written a status for. *)
Definition zeroNodeStatus : NodeStatus :=
  mkNodeStatus [] None None false EmptyString EmptyString.

(** ** The object

    Of the metadata the program reads the name, the deletion timestamp and the
    finalizers, and writes an owner reference (to the kube node of that name). *)
Record Node := mkNode {
  Name : string;
  DeletionTimestamp : option Time;
  Finalizers : list string;
  OwnerReferences : list string;
  Spec : NodeSpec;
  Status : NodeStatus
}.

Global Instance NodeSpec_eq_dec : EqDecision NodeSpec.
Proof. solve_decision. Defined.
Global Instance Condition_eq_dec : EqDecision Condition.
Proof. solve_decision. Defined.
Global Instance NodeStatus_eq_dec : EqDecision NodeStatus.
Proof. solve_decision. Defined.
Global Instance Node_eq_dec : EqDecision Node.
Proof. solve_decision. Defined.

(** Field assignments [node.Spec.State = s], [node.Status.X = v]. *)
Definition set_Status (n : Node) (st : NodeStatus) : Node :=
  mkNode (Name n) (DeletionTimestamp n) (Finalizers n) (OwnerReferences n) (Spec n) st.
Definition set_Spec (n : Node) (sp : NodeSpec) : Node :=
  mkNode (Name n) (DeletionTimestamp n) (Finalizers n) (OwnerReferences n) sp (Status n).
Definition set_Finalizers (n : Node) (f : list string) : Node :=
  mkNode (Name n) (DeletionTimestamp n) f (OwnerReferences n) (Spec n) (Status n).
Definition set_State (n : Node) (s : NodeState) : Node := set_Spec n (mkNodeSpec s).
Definition set_Drained (n : Node) (b : bool) : Node :=
  let st := Status n in
  set_Status n (mkNodeStatus (Conditions st) (RebootRequiredLastChecked st)
                  (RebootRequired st) b (CurrentState st) (BootID st)).
Definition set_CurrentState (n : Node) (c : NodeCurrentState) : Node :=
  let st := Status n in
  set_Status n (mkNodeStatus (Conditions st) (RebootRequiredLastChecked st)
                  (RebootRequired st) (Drained st) c (BootID st)).
Definition set_BootID (n : Node) (b : string) : Node :=
  let st := Status n in
  set_Status n (mkNodeStatus (Conditions st) (RebootRequiredLastChecked st)
                  (RebootRequired st) (Drained st) (CurrentState st) b).
Definition set_RebootRequired (n : Node) (b : option bool) : Node :=
  let st := Status n in
  set_Status n (mkNodeStatus (Conditions st) (RebootRequiredLastChecked st)
                  b (Drained st) (CurrentState st) (BootID st)).
Definition set_RebootRequiredLastChecked (n : Node) (t : option Time) : Node :=
  let st := Status n in
  set_Status n (mkNodeStatus (Conditions st) t (RebootRequired st)
                  (Drained st) (CurrentState st) (BootID st)).

(** Shorthands for the two fields every branch of the controller tests. *)
Definition nstate (n : Node) : NodeState := State (Spec n).
Definition ncurrent (n : Node) : NodeCurrentState := CurrentState (Status n).
Definition ndrained (n : Node) : bool := Drained (Status n).

(** ** Facts *)

(** A node is busy when it is in one of the declared work states. *)
Definition busy (c : NodeCurrentState) : bool :=
  WorkState c && negb (c =? EmptyString).

Ltac unfold_states :=
  unfold NodeStateActive, NodeStateCordoned, NodeStateDrained,
    NodeStateRebootIfRequired, NodeCurrentStateOk, NodeCurrentStateCordoned,
    NodeCurrentStateQueued, NodeCurrentStateNext, NodeCurrentStateDraining,
    NodeCurrentStateDrained, NodeCurrentStateUndraining,
    NodeCurrentStateRebooting in *.

Lemma WorkState_false_iff c :
  WorkState c = false <->
  c = NodeCurrentStateOk \/ c = NodeCurrentStateCordoned \/ c = NodeCurrentStateQueued.
Proof.
  unfold WorkState.
  destruct (String.eqb_spec c NodeCurrentStateOk), (String.eqb_spec c NodeCurrentStateCordoned),
    (String.eqb_spec c NodeCurrentStateQueued); simpl; naive_solver.
Qed.

Lemma Drain_true_iff s :
  Drain s = true <-> s = NodeStateDrained \/ s = NodeStateRebootIfRequired.
Proof.
  unfold Drain.
  destruct (String.eqb_spec s NodeStateDrained), (String.eqb_spec s NodeStateRebootIfRequired);
    simpl; naive_solver.
Qed.

Lemma busy_true_iff c : busy c = true <-> WorkState c = true /\ c <> EmptyString.
Proof.
  unfold busy. rewrite andb_true_iff, negb_true_iff, String.eqb_neq. done.
Qed.

Lemma busy_false_iff c : busy c = false <-> WorkState c = false \/ c = EmptyString.
Proof.
  unfold busy. rewrite andb_false_iff, negb_false_iff, String.eqb_eq. done.
Qed.
