(* ===== verification/DeepCopy.v ===== *)
(** * Deep copies (src/api/v1/zz_generated.deepcopy.go)

    Before it changes an object the controller keeps [node.DeepCopy()] as the base
    of its patch, and the informer cache hands out objects that must not be
    changed.  Both rest on the generated functions of this file: a copy holds the
    same values and shares no memory with the original.  Elsewhere in the
    development objects are immutable values; this is what makes that right.

    Memory is a finite map from addresses to cells.  The structs of the API
    package are modelled field by field with their pointers; the library types in
    them ([metav1.Time] behind a pointer, [metav1.Condition], [metav1.ObjectMeta],
    [metav1.ListMeta]) are parameters that have the same interface, [DeepCopy]. *)

From stdpp Require Import base gmap strings list.
From S2P Require Import Prelude NodeTypes.

Local Open Scope list_scope.

(** ** The interface *)

(** [R] is what a variable holds, [V] the value it stands for in memory; reading
    follows the pointers, [None] at a dangling one. *)
Class DeepCopy (C R V : Type) := {
  read : gmap nat C -> R -> option V;
  copy : gmap nat C -> R -> option (gmap nat C * R)
}.

(** Reading is not disturbed by further allocations.  Copying a readable value
    succeeds, only adds memory, and the copy can be read in the added memory
    alone. *)
Class DeepCopyLaws (C R V : Type) `{DeepCopy C R V} : Prop := {
  read_mono h h' r v : h ⊆ h' -> read h r = Some v -> read h' r = Some v;
  copy_fresh h r v : read h r = Some v ->
    exists h' r', copy h r = Some (h', r') /\ h ⊆ h' /\ read (h' ∖ h) r' = Some v
}.

(** ** Generic pieces *)

Section Generic.
Context {C R V : Type} `{DeepCopy C R V}.
Implicit Types (h : gmap nat C).

(** [new(T)], with its first contents. *)
Definition alloc h (c : C) : gmap nat C * nat :=
  let a := fresh (dom h) in (<[a := c]> h, a).

(** A pointer field: nil is copied as nil. *)
Definition readPtr h (p : option R) : option (option V) :=
  match p with
  | None => Some None
  | Some r => v ← read h r; Some (Some v)
  end.

Definition copyPtr h (p : option R) : option (gmap nat C * option R) :=
  match p with
  | None => Some (h, None)
  | Some r => '(h, r') ← copy h r; Some (h, Some r')
  end.

(** The elements of a slice in turn. *)
Fixpoint readAll h (l : list R) : option (list V) :=
  match l with
  | [] => Some []
  | r :: l => v ← read h r; vs ← readAll h l; Some (v :: vs)
  end.

Fixpoint copyAll h (l : list R) : option (gmap nat C * list R) :=
  match l with
  | [] => Some (h, [])
  | r :: l =>
      '(h, r') ← copy h r;
      '(h, l') ← copyAll h l;
      Some (h, r' :: l')
  end.

(** A slice: nil, which is not the empty slice, or an array ([wrap]) that is made first
    and then filled. *)
Definition readSlice (unwrap : C -> option (list R)) h (s : option nat) : option (option (list V)) :=
  match s with
  | None => Some None
  | Some a => l ← h !! a ≫= unwrap; vs ← readAll h l; Some (Some vs)
  end.

Definition copySlice (wrap : list R -> C) (unwrap : C -> option (list R)) h (s : option nat)
    : option (gmap nat C * option nat) :=
  match s with
  | None => Some (h, None)
  | Some a =>
      l ← h !! a ≫= unwrap;
      let '(h, out) := alloc h (wrap []) in
      '(h, l') ← copyAll h l;
      Some (<[out := wrap l']> h, Some out)
  end.

(** A pointer to a struct: [out := new(T)], [*out = *in], and the fields. *)
Definition readObject (unwrap : C -> option R) h (p : option nat) : option (option V) :=
  match p with
  | None => Some None
  | Some a => r ← h !! a ≫= unwrap; v ← read h r; Some (Some v)
  end.

Definition copyObject (wrap : R -> C) (unwrap : C -> option R) h (p : option nat)
    : option (gmap nat C * option nat) :=
  match p with
  | None => Some (h, None)
  | Some a =>
      r ← h !! a ≫= unwrap;
      let '(h, out) := alloc h (wrap r) in
      '(h, r') ← copy h r;
      Some (<[out := wrap r']> h, Some out)
  end.

(** A pointer to a value without pointers. *)
Definition readLeaf {X} (unwrap : C -> option X) h (p : option nat) : option (option X) :=
  match p with
  | None => Some None
  | Some a => x ← h !! a ≫= unwrap; Some (Some x)
  end.

Definition copyLeaf {X} (wrap : X -> C) (unwrap : C -> option X) h (p : option nat)
    : option (gmap nat C * option nat) :=
  match p with
  | None => Some (h, None)
  | Some a => x ← h !! a ≫= unwrap; let '(h, out) := alloc h (wrap x) in Some (h, Some out)
  end.

(** Memory added in two steps. *)
Lemma added_first (h h1 h2 : gmap nat C) : h1 ⊆ h2 -> h1 ∖ h ⊆ h2 ∖ h.
Proof.
  intros Hsub. apply map_subseteq_spec. intros a c.
  rewrite !lookup_difference_Some. intros [Ha Hn]. split; [|done]. by eapply lookup_weaken.
Qed.

Lemma added_second (h h1 h2 : gmap nat C) : h ⊆ h1 -> h2 ∖ h1 ⊆ h2 ∖ h.
Proof.
  intros Hsub. apply map_subseteq_spec. intros a c.
  rewrite !lookup_difference_Some. intros [Ha Hn]. split; [done|].
  by eapply lookup_weaken_None.
Qed.

(** An object that is allocated, filled with the help of further allocations, and
    then written. *)
Lemma alloc_fill h (init final : C) h0 h1 a :
  alloc h init = (h0, a) -> h0 ⊆ h1 ->
  h ⊆ h0 /\ h ⊆ <[a := final]> h1 /\
  (<[a := final]> h1 ∖ h) !! a = Some final /\ h1 ∖ h0 ⊆ <[a := final]> h1 ∖ h.
Proof.
  intros [= <- <-] Hsub. set (a := fresh (dom h)) in *.
  assert (Ha : h !! a = None) by (apply not_elem_of_dom, is_fresh).
  assert (Hh0 : h ⊆ <[a := init]> h) by (by apply insert_subseteq).
  split_and!; [done| | |].
  - apply map_subseteq_spec. intros b c Hb. assert (b <> a) by congruence.
    rewrite lookup_insert_ne by done. eapply lookup_weaken; [|exact Hsub].
    by eapply lookup_weaken.
  - apply lookup_difference_Some. by rewrite lookup_insert_eq.
  - apply map_subseteq_spec. intros b c. rewrite !lookup_difference_Some.
    intros [Hb Hn]. assert (b <> a) by (intros ->; by rewrite lookup_insert_eq in Hn).
    rewrite lookup_insert_ne in Hn |- * by done. done.
Qed.

Context `{!DeepCopyLaws C R V}.

Lemma readPtr_mono h h' p v : h ⊆ h' -> readPtr h p = Some v -> readPtr h' p = Some v.
Proof.
  destruct p as [r|]; [|done]. simpl. intros Hs (x & Hx & ?)%bind_Some. simplify_eq.
  by rewrite (read_mono _ _ _ _ Hs Hx).
Qed.

Lemma copyPtr_fresh h p v :
  readPtr h p = Some v ->
  exists h' p', copyPtr h p = Some (h', p') /\ h ⊆ h' /\ readPtr (h' ∖ h) p' = Some v.
Proof.
  destruct p as [r|]; simpl; [|intros [= <-]; by exists h, None].
  intros (x & Hx & ?)%bind_Some. simplify_eq.
  destruct (copy_fresh _ _ _ Hx) as (h' & r' & -> & Hs & Hr). exists h', (Some r').
  simpl. by rewrite Hr.
Qed.

Lemma readAll_mono h h' l vs : h ⊆ h' -> readAll h l = Some vs -> readAll h' l = Some vs.
Proof.
  intros Hs. revert vs. induction l as [|r l IH]; intros vs; [done|]. simpl.
  intros (v & Hv & (vs' & Hvs & ?)%bind_Some)%bind_Some. simplify_eq.
  by rewrite (read_mono _ _ _ _ Hs Hv), (IH _ Hvs).
Qed.

Lemma copyAll_fresh h l vs :
  readAll h l = Some vs ->
  exists h' l', copyAll h l = Some (h', l') /\ h ⊆ h' /\ readAll (h' ∖ h) l' = Some vs.
Proof.
  revert h vs. induction l as [|r l IH]; intros h vs; simpl.
  - intros [= <-]. by exists h, [].
  - intros (v & Hv & (vs' & Hvs & ?)%bind_Some)%bind_Some. simplify_eq.
    destruct (copy_fresh _ _ _ Hv) as (h1 & r' & -> & Hs1 & Hr). simpl.
    destruct (IH h1 vs' (readAll_mono _ _ _ _ Hs1 Hvs)) as (h2 & l' & -> & Hs2 & Hl). simpl.
    exists h2, (r' :: l'). split; [done|]. split; [by etrans|]. simpl.
    rewrite (read_mono _ _ _ _ (added_first h h1 h2 Hs2) Hr). simpl.
    by rewrite (readAll_mono _ _ _ _ (added_second h h1 h2 Hs1) Hl).
Qed.

Context (wrapS : list R -> C) (unwrapS : C -> option (list R)).
Context (wrapO : R -> C) (unwrapO : C -> option R).
Hypothesis unwrap_wrapS : forall l, unwrapS (wrapS l) = Some l.
Hypothesis unwrap_wrapO : forall r, unwrapO (wrapO r) = Some r.

Lemma bind_lookup_mono {X} (u : C -> option X) h h' a x :
  h ⊆ h' -> h !! a ≫= u = Some x -> h' !! a ≫= u = Some x.
Proof. intros Hs (c & Hc & Hx)%bind_Some. by rewrite (lookup_weaken _ _ _ _ Hc Hs). Qed.

Lemma readSlice_mono h h' s vs :
  h ⊆ h' -> readSlice unwrapS h s = Some vs -> readSlice unwrapS h' s = Some vs.
Proof.
  destruct s as [a|]; [|done]. simpl. intros Hs (l & Hl & (x & Hx & ?)%bind_Some)%bind_Some.
  rewrite (bind_lookup_mono _ _ _ _ _ Hs Hl). simpl. by rewrite (readAll_mono _ _ _ _ Hs Hx).
Qed.

Lemma copySlice_fresh h s vs :
  readSlice unwrapS h s = Some vs ->
  exists h' s', copySlice wrapS unwrapS h s = Some (h', s') /\ h ⊆ h' /\
    readSlice unwrapS (h' ∖ h) s' = Some vs.
Proof.
  destruct s as [a|]; simpl; [|intros [= <-]; by exists h, None].
  intros (l & -> & (x & Hvs & ?)%bind_Some)%bind_Some. simplify_eq. cbn [mbind option_bind].
  pose proof (eq_refl : alloc h (wrapS []) = (<[fresh (dom h) := wrapS []]> h, fresh (dom h))) as Ea.
  unfold alloc. set (out := fresh (dom h)) in *. set (h0 := <[out := wrapS []]> h) in *.
  destruct (alloc_fill _ _ (wrapS []) _ _ _ Ea (reflexivity h0)) as [Hs0 _].
  destruct (copyAll_fresh h0 l x (readAll_mono _ _ _ _ Hs0 Hvs)) as (h1 & l' & -> & Hs1 & Hl).
  destruct (alloc_fill _ _ (wrapS l') _ _ _ Ea Hs1) as (_ & Hs & Hout & Hadd).
  exists (<[out := wrapS l']> h1), (Some out). split; [done|]. split; [done|]. simpl.
  rewrite Hout. simpl. rewrite unwrap_wrapS. simpl. by rewrite (readAll_mono _ _ _ _ Hadd Hl).
Qed.

Lemma readObject_mono h h' p v :
  h ⊆ h' -> readObject unwrapO h p = Some v -> readObject unwrapO h' p = Some v.
Proof.
  destruct p as [a|]; [|done]. simpl. intros Hs (r & Hr & (x & Hx & ?)%bind_Some)%bind_Some.
  rewrite (bind_lookup_mono _ _ _ _ _ Hs Hr). simpl. by rewrite (read_mono _ _ _ _ Hs Hx).
Qed.

Lemma copyObject_fresh h p v :
  readObject unwrapO h p = Some v ->
  exists h' p', copyObject wrapO unwrapO h p = Some (h', p') /\ h ⊆ h' /\
    readObject unwrapO (h' ∖ h) p' = Some v.
Proof.
  destruct p as [a|]; simpl; [|intros [= <-]; by exists h, None].
  intros (r & -> & (x & Hx & ?)%bind_Some)%bind_Some. simplify_eq. cbn [mbind option_bind].
  pose proof (eq_refl : alloc h (wrapO r) = (<[fresh (dom h) := wrapO r]> h, fresh (dom h))) as Ea.
  unfold alloc. set (out := fresh (dom h)) in *. set (h0 := <[out := wrapO r]> h) in *.
  destruct (alloc_fill _ _ (wrapO r) _ _ _ Ea (reflexivity h0)) as [Hs0 _].
  destruct (copy_fresh h0 r x (read_mono _ _ _ _ Hs0 Hx)) as (h1 & r' & -> & Hs1 & Hr).
  destruct (alloc_fill _ _ (wrapO r') _ _ _ Ea Hs1) as (_ & Hs & Hout & Hadd).
  exists (<[out := wrapO r']> h1), (Some out). split; [done|]. split; [done|]. simpl.
  rewrite Hout. simpl. rewrite unwrap_wrapO. simpl.
  by rewrite (read_mono _ _ _ _ Hadd Hr).
Qed.

(** What a caller relies on: the copy has the same value, which no later write to
    memory that existed before the copy can change, and the original is not
    affected by writes to memory that did not. *)
Lemma copyObject_independent h p v :
  readObject unwrapO h p = Some v ->
  exists h' p', copyObject wrapO unwrapO h p = Some (h', p') /\ h ⊆ h' /\
    (forall g, (forall a, h !! a = None -> g !! a = h' !! a) -> readObject unwrapO g p' = Some v) /\
    (forall g, (forall a, is_Some (h !! a) -> g !! a = h' !! a) -> readObject unwrapO g p = Some v).
Proof.
  intros Hv. destruct (copyObject_fresh _ _ _ Hv) as (h' & p' & Hc & Hs & Hr).
  exists h', p'. split_and!; [done|done| |]; intros g Hg.
  - eapply readObject_mono; [|exact Hr]. apply map_subseteq_spec. intros a c.
    rewrite lookup_difference_Some. intros [Ha Hn]. by rewrite Hg.
  - eapply readObject_mono; [|exact Hv]. apply map_subseteq_spec. intros a c Ha.
    rewrite Hg by (by eexists). by eapply lookup_weaken.
Qed.

End Generic.

Lemma readLeaf_mono {C X} (unwrap : C -> option X) (h h' : gmap nat C) p v :
  h ⊆ h' -> readLeaf unwrap h p = Some v -> readLeaf unwrap h' p = Some v.
Proof.
  destruct p as [a|]; [|done]. simpl. intros Hs (x & Hx & ?)%bind_Some.
  by rewrite (bind_lookup_mono _ _ _ _ _ Hs Hx).
Qed.

Lemma copyLeaf_fresh {C X} (wrap : X -> C) (unwrap : C -> option X) (h : gmap nat C) p v :
  (forall x, unwrap (wrap x) = Some x) -> readLeaf unwrap h p = Some v ->
  exists h' p', copyLeaf wrap unwrap h p = Some (h', p') /\ h ⊆ h' /\
    readLeaf unwrap (h' ∖ h) p' = Some v.
Proof.
  intros Hw. destruct p as [a|]; simpl; [|intros [= <-]; by exists h, None].
  intros (x & -> & ?)%bind_Some. simplify_eq. cbn [mbind option_bind].
  pose proof (eq_refl : alloc h (wrap x) = (<[fresh (dom h) := wrap x]> h, fresh (dom h))) as Ea.
  unfold alloc. set (out := fresh (dom h)) in *. set (h0 := <[out := wrap x]> h) in *.
  destruct (alloc_fill _ _ (wrap x) _ _ _ Ea (reflexivity h0)) as (Hs & _ & Hout & _).
  exists h0, (Some out). split; [done|]. split; [done|]. simpl.
  rewrite (insert_id h0) in Hout by apply lookup_insert_eq. rewrite Hout. simpl. by rewrite Hw.
Qed.

(** ** The structs of the API package *)

(** [metav1.Condition] as a value. *)
Record metaCondition := mkMetaCondition {
  mc_Type : string; mc_Status : string; mc_ObservedGeneration : Z;
  mc_LastTransitionTime : Time; mc_Reason : string; mc_Message : string }.

Section Structs.
(** What a variable of each library type holds, and the library's own cells. *)
Context {TimeP MetaC ObjM ListM F : Type}.

Record ConditionRep := mkConditionRep {
  rep_Condition : MetaC;
  rep_LastCheckTime : option TimeP
}.

(** A slice is nil or the address of its array; a [*bool] is an address. *)
Record NodeStatusRep := mkNodeStatusRep {
  rep_Conditions : option nat;
  rep_RebootRequiredLastChecked : option TimeP;
  rep_RebootRequired : option nat;
  rep_Drained : bool;
  rep_CurrentState : string;
  rep_BootID : string
}.

Record NodeRep := mkNodeRep {
  rep_TypeMeta : string * string;
  rep_ObjectMeta : ObjM;
  rep_Spec : NodeSpec;
  rep_Status : NodeStatusRep
}.

Record NodeListRep := mkNodeListRep {
  rep_ListTypeMeta : string * string;
  rep_ListMeta : ListM;
  rep_Items : option nat
}.

Inductive cell :=
  | BoolCell (b : bool)
  | ConditionArray (l : list ConditionRep)
  | NodeCell (n : NodeRep)
  | NodeArray (l : list NodeRep)
  | NodeListCell (l : NodeListRep)
  | ConditionCell (c : ConditionRep)
  | NodeSpecCell (s : NodeSpec)
  | NodeStatusCell (s : NodeStatusRep)
  | LibraryCell (x : F).

Context {MetaV ListV : Type}.
Context `{DeepCopy cell TimeP Time} `{DeepCopy cell MetaC metaCondition}.
Context `{DeepCopy cell ObjM MetaV} `{DeepCopy cell ListM ListV}.

(** *** Condition *)

Definition Condition_read (h : gmap nat cell) (c : ConditionRep) : option Condition :=
  m ← read h (rep_Condition c);
  t ← readPtr h (rep_LastCheckTime c);
  Some (mkCondition (mc_Type m) (mc_Status m) (mc_ObservedGeneration m)
          (mc_LastTransitionTime m) (mc_Reason m) (mc_Message m) t).

(** [func (in *Condition) DeepCopyInto(out *Condition)]: what [*out] holds after. *)
Definition Condition_DeepCopyInto (h : gmap nat cell) (c : ConditionRep)
    : option (gmap nat cell * ConditionRep) :=
  '(h, m) ← copy h (rep_Condition c);
  '(h, t) ← copyPtr h (rep_LastCheckTime c);
  Some (h, mkConditionRep m t).

Global Instance Condition_DeepCopy : DeepCopy cell ConditionRep Condition :=
  {| read := Condition_read; copy := Condition_DeepCopyInto |}.

(** *** NodeStatus *)

Definition conditionArray (c : cell) : option (list ConditionRep) :=
  match c with ConditionArray l => Some l | _ => None end.
Definition boolCell (c : cell) : option bool :=
  match c with BoolCell b => Some b | _ => None end.

(** The value of a NodeStatus; its conditions may be a nil slice. *)
Record NodeStatusVal := mkNodeStatusVal {
  val_Conditions : option (list Condition);
  val_RebootRequiredLastChecked : option Time;
  val_RebootRequired : option bool;
  val_Drained : bool;
  val_CurrentState : string;
  val_BootID : string
}.

Definition NodeStatus_read (h : gmap nat cell) (s : NodeStatusRep) : option NodeStatusVal :=
  cs ← readSlice conditionArray h (rep_Conditions s);
  t ← readPtr h (rep_RebootRequiredLastChecked s);
  b ← readLeaf boolCell h (rep_RebootRequired s);
  Some (mkNodeStatusVal cs t b (rep_Drained s) (rep_CurrentState s) (rep_BootID s)).

(** [func (in *NodeStatus) DeepCopyInto(out *NodeStatus)]. *)
Definition NodeStatus_DeepCopyInto (h : gmap nat cell) (s : NodeStatusRep)
    : option (gmap nat cell * NodeStatusRep) :=
  '(h, cs) ← copySlice ConditionArray conditionArray h (rep_Conditions s);
  '(h, t) ← copyPtr h (rep_RebootRequiredLastChecked s);
  '(h, b) ← copyLeaf BoolCell boolCell h (rep_RebootRequired s);
  Some (h, mkNodeStatusRep cs t b (rep_Drained s) (rep_CurrentState s) (rep_BootID s)).

Global Instance NodeStatus_DeepCopy : DeepCopy cell NodeStatusRep NodeStatusVal :=
  {| read := NodeStatus_read; copy := NodeStatus_DeepCopyInto |}.

(** *** Node *)

(** [func (in *NodeSpec) DeepCopyInto(out *NodeSpec)]: a struct without pointers. *)
Definition NodeSpec_DeepCopyInto (s : NodeSpec) : NodeSpec := s.

Global Instance NodeSpec_DeepCopy : DeepCopy cell NodeSpec NodeSpec :=
  {| read _ s := Some s; copy h s := Some (h, NodeSpec_DeepCopyInto s) |}.

(** The value of a Node object. *)
Record NodeVal := mkNodeVal {
  val_TypeMeta : string * string;
  val_ObjectMeta : MetaV;
  val_Spec : NodeSpec;
  val_Status : NodeStatusVal
}.

Definition Node_read (h : gmap nat cell) (n : NodeRep) : option NodeVal :=
  m ← read h (rep_ObjectMeta n);
  s ← read h (rep_Status n);
  Some (mkNodeVal (rep_TypeMeta n) m (rep_Spec n) s).

(** [func (in *Node) DeepCopyInto(out *Node)]. *)
Definition Node_DeepCopyInto (h : gmap nat cell) (n : NodeRep) : option (gmap nat cell * NodeRep) :=
  '(h, m) ← copy h (rep_ObjectMeta n);
  '(h, s) ← copy h (rep_Status n);
  Some (h, mkNodeRep (rep_TypeMeta n) m (NodeSpec_DeepCopyInto (rep_Spec n)) s).

Global Instance Node_DeepCopy : DeepCopy cell NodeRep NodeVal :=
  {| read := Node_read; copy := Node_DeepCopyInto |}.

Definition nodeCell (c : cell) : option NodeRep :=
  match c with NodeCell n => Some n | _ => None end.

(** What a [*Node] points to, and [func (in *Node) DeepCopy() *Node]. *)
Definition NodePtr_read (h : gmap nat cell) (p : option nat) : option (option NodeVal) :=
  readObject nodeCell h p.
Definition NodePtr_DeepCopy (h : gmap nat cell) (p : option nat)
    : option (gmap nat cell * option nat) :=
  copyObject NodeCell nodeCell h p.

(** *** NodeList *)

Definition nodeArray (c : cell) : option (list NodeRep) :=
  match c with NodeArray l => Some l | _ => None end.

Record NodeListVal := mkNodeListVal {
  val_ListTypeMeta : string * string;
  val_ListMeta : ListV;
  val_Items : option (list NodeVal)
}.

Definition NodeList_read (h : gmap nat cell) (l : NodeListRep) : option NodeListVal :=
  m ← read h (rep_ListMeta l);
  ns ← readSlice nodeArray h (rep_Items l);
  Some (mkNodeListVal (rep_ListTypeMeta l) m ns).

(** [func (in *NodeList) DeepCopyInto(out *NodeList)]. *)
Definition NodeList_DeepCopyInto (h : gmap nat cell) (l : NodeListRep) : option (gmap nat cell * NodeListRep) :=
  '(h, m) ← copy h (rep_ListMeta l);
  '(h, ns) ← copySlice NodeArray nodeArray h (rep_Items l);
  Some (h, mkNodeListRep (rep_ListTypeMeta l) m ns).

Global Instance NodeList_DeepCopy : DeepCopy cell NodeListRep NodeListVal :=
  {| read := NodeList_read; copy := NodeList_DeepCopyInto |}.

Definition nodeListCell (c : cell) : option NodeListRep :=
  match c with NodeListCell l => Some l | _ => None end.

(** The same for a [*NodeList]. *)
Definition NodeListPtr_read (h : gmap nat cell) (p : option nat) : option (option NodeListVal) :=
  readObject nodeListCell h p.
Definition NodeListPtr_DeepCopy (h : gmap nat cell) (p : option nat)
    : option (gmap nat cell * option nat) :=
  copyObject NodeListCell nodeListCell h p.

(** *** The other structs, behind pointers *)

Definition conditionCell (c : cell) : option ConditionRep :=
  match c with ConditionCell x => Some x | _ => None end.
Definition nodeSpecCell (c : cell) : option NodeSpec :=
  match c with NodeSpecCell x => Some x | _ => None end.
Definition nodeStatusCell (c : cell) : option NodeStatusRep :=
  match c with NodeStatusCell x => Some x | _ => None end.

(** [func (in *Condition) DeepCopy() *Condition], and of NodeSpec and NodeStatus. *)
Definition ConditionPtr_DeepCopy (h : gmap nat cell) (p : option nat)
    : option (gmap nat cell * option nat) :=
  copyObject ConditionCell conditionCell h p.
Definition NodeSpecPtr_DeepCopy (h : gmap nat cell) (p : option nat)
    : option (gmap nat cell * option nat) :=
  copyObject NodeSpecCell nodeSpecCell h p.
Definition NodeStatusPtr_DeepCopy (h : gmap nat cell) (p : option nat)
    : option (gmap nat cell * option nat) :=
  copyObject NodeStatusCell nodeStatusCell h p.

(** *** [runtime.Object] *)

(** An interface value: nil, or a dynamic type with a pointer, which may be nil
    itself; such a value does not compare equal to nil. *)
Inductive Object :=
  | NilObject
  | NodeObject (p : option nat)
  | NodeListObject (p : option nat).

(** [func (in *Node) DeepCopyObject() runtime.Object]. *)
Definition Node_DeepCopyObject (h : gmap nat cell) (p : option nat) : option (gmap nat cell * Object) :=
  '(h, c) ← NodePtr_DeepCopy h p;
  Some (h, match c with Some _ => NodeObject c | None => NilObject end).

(** [func (in *NodeList) DeepCopyObject() runtime.Object]. *)
Definition NodeList_DeepCopyObject (h : gmap nat cell) (p : option nat)
    : option (gmap nat cell * Object) :=
  '(h, c) ← NodeListPtr_DeepCopy h p;
  Some (h, match c with Some _ => NodeListObject c | None => NilObject end).

(** ** The laws hold *)

Context `{!DeepCopyLaws cell TimeP Time} `{!DeepCopyLaws cell MetaC metaCondition}.
Context `{!DeepCopyLaws cell ObjM MetaV} `{!DeepCopyLaws cell ListM ListV}.

(** Splits a successful read of a struct into the reads of its fields. *)
Ltac split_read H :=
  repeat (let x := fresh "v" in let E := fresh "E" in
          apply bind_Some in H as (x & E & H)); injection H as <-.

Global Instance Condition_laws : DeepCopyLaws cell ConditionRep Condition.
Proof.
  split.
  - intros h h' c v Hs Hr. cbn in Hr |- *. unfold Condition_read in *. split_read Hr.
    by rewrite (read_mono _ _ _ _ Hs E), (readPtr_mono _ _ _ _ Hs E0).
  - intros h c v Hr. cbn in Hr |- *. unfold Condition_read in *. split_read Hr.
    unfold Condition_DeepCopyInto.
    destruct (copy_fresh _ _ _ E) as (h1 & m & -> & Hs1 & Hm). cbn.
    destruct (copyPtr_fresh _ _ _ (readPtr_mono _ _ _ _ Hs1 E0)) as (h2 & t & -> & Hs2 & Ht).
    cbn. eexists _, _. split; [done|]. split; [by etrans|]. unfold Condition_read. cbn.
    rewrite (read_mono _ _ _ _ (added_first h h1 h2 Hs2) Hm). cbn.
    by rewrite (readPtr_mono _ _ _ _ (added_second h h1 h2 Hs1) Ht).
Qed.

Global Instance NodeStatus_laws : DeepCopyLaws cell NodeStatusRep NodeStatusVal.
Proof.
  split.
  - intros h h' s v Hs Hr. cbn in Hr |- *. unfold NodeStatus_read in *. split_read Hr.
    by rewrite (readSlice_mono _ _ _ _ _ Hs E), (readPtr_mono _ _ _ _ Hs E0),
      (readLeaf_mono _ _ _ _ _ Hs E1).
  - intros h s v Hr. cbn in Hr |- *. unfold NodeStatus_read in *. split_read Hr.
    unfold NodeStatus_DeepCopyInto.
    destruct (copySlice_fresh ConditionArray conditionArray (fun _ => eq_refl) _ _ _ E)
      as (h1 & cs & -> & Hs1 & Hcs). cbn.
    destruct (copyPtr_fresh _ _ _ (readPtr_mono _ _ _ _ Hs1 E0)) as (h2 & t & -> & Hs2 & Ht). cbn.
    assert (Hs12 : h ⊆ h2) by (by etrans).
    destruct (copyLeaf_fresh BoolCell boolCell _ _ _ (fun _ => eq_refl)
                (readLeaf_mono _ _ _ _ _ Hs12 E1)) as (h3 & b & -> & Hs3 & Hb). cbn.
    eexists _, _. split; [done|]. split; [by etrans|]. unfold NodeStatus_read. cbn.
    rewrite (readSlice_mono _ _ _ _ _ (added_first h h1 h3 ltac:(by etrans)) Hcs). cbn.
    rewrite (readPtr_mono _ _ _ _ (added_second h h1 h3 Hs1)
               (readPtr_mono _ _ _ _ (added_first h1 h2 h3 Hs3) Ht)). cbn.
    by rewrite (readLeaf_mono _ _ _ _ _ (added_second h h2 h3 Hs12) Hb).
Qed.

Global Instance Node_laws : DeepCopyLaws cell NodeRep NodeVal.
Proof.
  split.
  - intros h h' n v Hs Hr. cbn in Hr |- *. unfold Node_read in *. split_read Hr.
    by rewrite (read_mono _ _ _ _ Hs E), (read_mono _ _ _ _ Hs E0).
  - intros h n v Hr. cbn in Hr |- *. unfold Node_read in *. split_read Hr.
    unfold Node_DeepCopyInto.
    destruct (copy_fresh _ _ _ E) as (h1 & m & -> & Hs1 & Hm). cbn -[copy].
    destruct (copy_fresh _ _ _ (read_mono _ _ _ _ Hs1 E0)) as (h2 & s & -> & Hs2 & Hst).
    eexists _, _. split; [done|]. split; [by etrans|]. cbn [read Node_DeepCopy].
    unfold Node_read. cbn [rep_ObjectMeta rep_Status].
    rewrite (read_mono _ _ _ _ (added_first h h1 h2 Hs2) Hm). cbn [mbind option_bind].
    pose proof (read_mono _ _ _ _ (added_second h h1 h2 Hs1) Hst) as Hst'. cbn in Hst'.
    by rewrite Hst'.
Qed.

Global Instance NodeList_laws : DeepCopyLaws cell NodeListRep NodeListVal.
Proof.
  split.
  - intros h h' l v Hs Hr. cbn in Hr |- *. unfold NodeList_read in *. split_read Hr.
    by rewrite (read_mono _ _ _ _ Hs E), (readSlice_mono _ _ _ _ _ Hs E0).
  - intros h l v Hr. cbn in Hr |- *. unfold NodeList_read in *. split_read Hr.
    unfold NodeList_DeepCopyInto.
    destruct (copy_fresh _ _ _ E) as (h1 & m & -> & Hs1 & Hm). cbn.
    destruct (copySlice_fresh NodeArray nodeArray (fun _ => eq_refl) _ _ _
                (readSlice_mono _ _ _ _ _ Hs1 E0)) as (h2 & ns & -> & Hs2 & Hns).
    cbn. eexists _, _. split; [done|]. split; [by etrans|]. unfold NodeList_read. cbn.
    rewrite (read_mono _ _ _ _ (added_first h h1 h2 Hs2) Hm). cbn.
    by rewrite (readSlice_mono _ _ _ _ _ (added_second h h1 h2 Hs1) Hns).
Qed.

Global Instance NodeSpec_laws : DeepCopyLaws cell NodeSpec NodeSpec.
Proof. split; [done|]. intros h r v [= <-]. by exists h, r. Qed.

(** A copy function through pointers makes a copy of its own: copying what can be read
    succeeds, the copy, read as [rdo] reads it, has the same value, and neither writes to
    memory that existed before nor writes to memory that did not reach the other one. *)
Definition independent {O V} (rd : gmap nat cell -> option nat -> option (option V))
    (rdo : gmap nat cell -> O -> option (option V))
    (cp : gmap nat cell -> option nat -> option (gmap nat cell * O)) : Prop :=
  forall h p v, rd h p = Some v ->
  exists h' o, cp h p = Some (h', o) /\ h ⊆ h' /\
    (forall g, (forall a, h !! a = None -> g !! a = h' !! a) -> rdo g o = Some v) /\
    (forall g, (forall a, is_Some (h !! a) -> g !! a = h' !! a) -> rd g p = Some v).

(** A runtime object as a Node or as a NodeList. *)
Definition asNode (h : gmap nat cell) (o : Object) : option (option NodeVal) :=
  match o with
  | NilObject => Some None
  | NodeObject p => NodePtr_read h p
  | NodeListObject _ => None
  end.

Definition asNodeList (h : gmap nat cell) (o : Object) : option (option NodeListVal) :=
  match o with
  | NilObject => Some None
  | NodeObject _ => None
  | NodeListObject p => NodeListPtr_read h p
  end.

(** Wrapping the copied pointer in an interface. *)
Lemma independent_object {V} (rd : gmap nat cell -> option nat -> option (option V)) rdo cp mk :
  independent rd rd cp ->
  (forall h, rdo h NilObject = Some None) -> (forall h a, rdo h (mk (Some a)) = rd h (Some a)) ->
  (forall h, rd h None = Some None) ->
  independent rd rdo (fun h p => '(h, c) ← cp h p; Some (h, match c with Some _ => mk c | None => NilObject end)).
Proof.
  intros Hi Hnil Hmk Hrd h p v Hv. destruct (Hi h p v Hv) as (h' & p' & -> & Hs & Hc & Ho).
  eexists h', _. split; [done|]. split_and!; [done| |done]. intros g Hg. specialize (Hc g Hg).
  destruct p' as [a|]; [by rewrite Hmk|]. rewrite Hnil. by rewrite Hrd in Hc.
Qed.

(** A nil pointer is copied as nil, any other as another one. *)
Lemma copyObject_nil {R V} `{DeepCopy cell R V} (wrap : R -> cell) unwrap h p h' p' :
  copyObject wrap unwrap h p = Some (h', p') -> p' = None <-> p = None.
Proof.
  destruct p as [a|]; simpl; [|naive_solver].
  intros (r & _ & ((h1 & r') & _ & [= <- <-])%bind_Some)%bind_Some. naive_solver.
Qed.

(** C30. A deep copy shares nothing with its original.  For each struct of the API
    package (Node, NodeList, Condition, NodeSpec, NodeStatus), copying one that can be
    read succeeds, the copy has the same value (nil and empty slices told apart),
    whatever is later written to memory that existed before the copy (the original's
    metadata, conditions, times and flags among it) leaves the copy as it is, and
    whatever is written to the copy's memory leaves the original.  The base of a patch
    is thus the object as it was read.  The runtime object that [DeepCopyObject] returns
    for a Node or a NodeList is such a copy, of the same dynamic type; it is nil exactly
    when the original pointer is, never an interface around a nil pointer. *)
Theorem node_deepcopy_independent :
  independent NodePtr_read NodePtr_read NodePtr_DeepCopy /\
  independent NodeListPtr_read NodeListPtr_read NodeListPtr_DeepCopy /\
  independent (readObject conditionCell) (readObject conditionCell) ConditionPtr_DeepCopy /\
  independent (readObject nodeSpecCell) (readObject nodeSpecCell) NodeSpecPtr_DeepCopy /\
  independent (readObject nodeStatusCell) (readObject nodeStatusCell) NodeStatusPtr_DeepCopy /\
  independent NodePtr_read asNode Node_DeepCopyObject /\
  independent NodeListPtr_read asNodeList NodeList_DeepCopyObject /\
  (forall h p h' o, Node_DeepCopyObject h p = Some (h', o) ->
     (o = NilObject <-> p = None) /\ o <> NodeObject None) /\
  (forall h p h' o, NodeList_DeepCopyObject h p = Some (h', o) ->
     (o = NilObject <-> p = None) /\ o <> NodeListObject None).
Proof.
  split_and!; try (intros h p v; by apply copyObject_independent).
  - apply independent_object; [|done..]. intros h p v. by apply copyObject_independent.
  - apply independent_object; [|done..]. intros h p v. by apply copyObject_independent.
  - intros h p h' o ((h1 & c) & Hc%copyObject_nil & [= <- <-])%bind_Some. destruct c; naive_solver.
  - intros h p h' o ((h1 & c) & Hc%copyObject_nil & [= <- <-])%bind_Some. destruct c; naive_solver.
Qed.

End Structs.
