(* ===== verification/Json.v ===== *)
(** * JSON decoding (Go's encoding/json, as the program uses it)

    [json.Unmarshal] into an [interface{}]: the managed fields of a kube node
    and the log lines of a plugin are decoded this way.  The scanner accepts
    exactly one value with white space around it, nested at most 10000 deep;
    strings are unquoted to UTF-8, replacing what is not valid Unicode by
    U+FFFD; of repeated keys the last one counts; a number must be in the range
    of a float64. *)

From Stdlib Require Import Ascii ZArith NArith.
From stdpp Require Import base strings list.
From S2P Require Import Prelude.

Local Open Scope string_scope.

(** A number keeps its literal. *)
Inductive json :=
  | JNull
  | JBool (b : bool)
  | JNumber (lit : string)
  | JString (s : string)
  | JArray (l : list json)
  | JObject (fields : list (string * json)).

(** Lookup in a decoded object: the last binding of the key. *)
Fixpoint jlookup (k : string) (fields : list (string * json)) : option json :=
  match fields with
  | [] => None
  | (k', v) :: rest =>
      match jlookup k rest with
      | Some u => Some u
      | None => if k' =? k then Some v else None
      end
  end.

(** ** Characters *)

Definition byte_is (c : ascii) (n : N) : bool := (N_of_ascii c =? n)%N.
Definition byte_in (c : ascii) (lo hi : N) : bool :=
  ((lo <=? N_of_ascii c) && (N_of_ascii c <=? hi))%N.
Definition is_digit (c : ascii) : bool := byte_in c 48 57.
Definition is_space (c : ascii) : bool :=
  byte_is c 32 || byte_is c 9 || byte_is c 10 || byte_is c 13.

Definition hex_value (c : ascii) : option N :=
  let n := N_of_ascii c in
  if is_digit c then Some (n - 48)%N
  else if byte_in c 97 102 then Some (n - 87)%N
  else if byte_in c 65 70 then Some (n - 55)%N
  else None.

Fixpoint skip_ws (s : string) : string :=
  match s with
  | String c r => if is_space c then skip_ws r else s
  | EmptyString => EmptyString
  end.

(** ** Strings *)

(** The scanner's view of a string literal: raw bytes, one-byte escapes and
    [\u] escapes. *)
Inductive tok := Raw (c : ascii) | Esc (c : ascii) | Uni (n : N).

Definition simple_escape (c : ascii) : option ascii :=
  if byte_is c 34 || byte_is c 92 || byte_is c 47 then Some c
  else if byte_is c 98 then Some (ascii_of_N 8)
  else if byte_is c 102 then Some (ascii_of_N 12)
  else if byte_is c 110 then Some (ascii_of_N 10)
  else if byte_is c 114 then Some (ascii_of_N 13)
  else if byte_is c 116 then Some (ascii_of_N 9)
  else None.

(** Scans up to the closing quote. *)
Fixpoint lex_string (s : string) : option (list tok * string) :=
  match s with
  | EmptyString => None
  | String c r =>
      if byte_is c 34 then Some ([], r)
      else if byte_is c 92 then
        match r with
        | String e r1 =>
            if byte_is e 117 then
              match r1 with
              | String h1 (String h2 (String h3 (String h4 r2))) =>
                  match hex_value h1, hex_value h2, hex_value h3, hex_value h4 with
                  | Some a, Some b, Some c, Some d =>
                      match lex_string r2 with
                      | Some (ts, r3) => Some (Uni (((a * 16 + b) * 16 + c) * 16 + d)%N :: ts, r3)
                      | None => None
                      end
                  | _, _, _, _ => None
                  end
              | _ => None
              end
            else
              match simple_escape e with
              | Some x =>
                  match lex_string r1 with
                  | Some (ts, r3) => Some (Esc x :: ts, r3)
                  | None => None
                  end
              | None => None
              end
        | EmptyString => None
        end
      else if byte_in c 0 31 then None
      else
        match lex_string r with
        | Some (ts, r3) => Some (Raw c :: ts, r3)
        | None => None
        end
  end.

Definition chr (n : N) : string := String (ascii_of_N n) EmptyString.

(** [utf8.AppendRune]. *)
Definition utf8_encode (n : N) : string :=
  if (n <? 128)%N then chr n
  else if (n <? 2048)%N then chr (192 + n / 64) +:+ chr (128 + n mod 64)
  else if (n <? 65536)%N then
    chr (224 + n / 4096) +:+ chr (128 + (n / 64) mod 64) +:+ chr (128 + n mod 64)
  else
    chr (240 + n / 262144) +:+ chr (128 + (n / 4096) mod 64)
      +:+ chr (128 + (n / 64) mod 64) +:+ chr (128 + n mod 64).

Definition replacement : string := utf8_encode 65533.

Definition cont (c : ascii) : bool := byte_in c 128 191.

(** Whether the bytes start a well-formed two, three or four byte sequence. *)
Definition utf8_2 (a b : ascii) : bool := byte_in a 194 223 && cont b.
Definition utf8_3 (a b c : ascii) : bool :=
  ((byte_is a 224 && byte_in b 160 191) || (byte_in a 225 236 && cont b)
   || (byte_is a 237 && byte_in b 128 159) || (byte_in a 238 239 && cont b)) && cont c.
Definition utf8_4 (a b c d : ascii) : bool :=
  ((byte_is a 240 && byte_in b 144 191) || (byte_in a 241 243 && cont b)
   || (byte_is a 244 && byte_in b 128 143)) && cont c && cont d.

Definition high_surrogate (n : N) : bool := ((55296 <=? n) && (n <? 56320))%N.
Definition low_surrogate (n : N) : bool := ((56320 <=? n) && (n <? 57344))%N.

(** The unquoted text. *)
Fixpoint unquote (ts : list tok) : string :=
  match ts with
  | [] => EmptyString
  | Esc c :: r => String c (unquote r)
  | Uni n :: r =>
      if high_surrogate n then
        match r with
        | Uni m :: r' =>
            if low_surrogate m
            then utf8_encode (65536 + (n - 55296) * 1024 + (m - 56320)) +:+ unquote r'
            else replacement +:+ unquote r
        | _ => replacement +:+ unquote r
        end
      else if low_surrogate n then replacement +:+ unquote r
      else utf8_encode n +:+ unquote r
  | Raw a :: r =>
      if byte_in a 0 127 then String a (unquote r)
      else
        match r with
        | Raw b :: r1 =>
            if utf8_2 a b then String a (String b (unquote r1))
            else
              match r1 with
              | Raw c :: r2 =>
                  if utf8_3 a b c then String a (String b (String c (unquote r2)))
                  else
                    match r2 with
                    | Raw d :: r3 =>
                        if utf8_4 a b c d
                        then String a (String b (String c (String d (unquote r3))))
                        else replacement +:+ unquote r
                    | _ => replacement +:+ unquote r
                    end
              | _ => replacement +:+ unquote r
              end
        | _ => replacement +:+ unquote r
        end
  end.

(** ** Numbers *)

Fixpoint span_digits (s : string) : string * string :=
  match s with
  | String c r =>
      if is_digit c then let '(d, t) := span_digits r in (String c d, t)
      else (EmptyString, s)
  | EmptyString => (EmptyString, EmptyString)
  end.

Fixpoint digits_value (s : string) (acc : Z) : Z :=
  match s with
  | EmptyString => acc
  | String c r => digits_value r (acc * 10 + (Z.of_N (N_of_ascii c) - 48))%Z
  end.

(** The least magnitude that rounds to infinity. *)
Definition float_overflow : Z := (2 ^ 1024 - 2 ^ 970)%Z.

(** Whether [m * 10 ^ e], with [m] of [k] digits, is below [float_overflow]. *)
Definition float_ok (m : Z) (k : nat) (e : Z) : bool :=
  if (m =? 0)%Z then true
  else if (309 <=? e)%Z then false
  else if (0 <=? e)%Z then (m * 10 ^ e <? float_overflow)%Z
  else if (Z.of_nat k <=? - e)%Z then true
  else (m <? float_overflow * 10 ^ (- e))%Z.

(** Scans a number literal: its text, whether it is in range, and the rest. *)
Definition lex_number (s : string) : option (string * bool * string) :=
  let '(sign, s1) :=
    match s with
    | String c r => if byte_is c 45 then (chr 45, r) else (EmptyString, s)
    | EmptyString => (EmptyString, s)
    end in
  let '(int, s2) := span_digits s1 in
  match int with
  | EmptyString => None
  | String c r =>
      if byte_is c 48 && negb (r =? EmptyString) then None else
      let '(dot, frac, s3) :=
        match s2 with
        | String d r2 => if byte_is d 46
                         then let '(f, t) := span_digits r2 in (true, f, t)
                         else (false, EmptyString, s2)
        | EmptyString => (false, EmptyString, s2)
        end in
      if dot && (frac =? EmptyString) then None else
      let '(ex, mark, esign, edigits, s4) :=
        match s3 with
        | String x r3 =>
            if byte_is x 101 || byte_is x 69 then
              let '(sg, r4) :=
                match r3 with
                | String y r5 => if byte_is y 43 || byte_is y 45
                                 then (String y EmptyString, r5) else (EmptyString, r3)
                | EmptyString => (EmptyString, r3)
                end in
              let '(f, t) := span_digits r4 in (true, String x EmptyString, sg, f, t)
            else (false, EmptyString, EmptyString, EmptyString, s3)
        | EmptyString => (false, EmptyString, EmptyString, EmptyString, s3)
        end in
      if ex && (edigits =? EmptyString) then None else
      let e := digits_value edigits 0 in
      let e := if esign =? chr 45 then (- e)%Z else e in
      let digits := int +:+ frac in
      let lit := sign +:+ int +:+ (if dot then chr 46 +:+ frac else EmptyString)
                   +:+ mark +:+ esign +:+ edigits in
      Some (lit, float_ok (digits_value digits 0) (String.length digits)
                   (e - Z.of_nat (String.length frac))%Z, s4)
  end.

(** ** Values *)

Definition maxNestingDepth : nat := 10000.

(** What a value parser returns: the value at the start of the text, whether all
    its numbers are in range, and the rest of the text. *)
Definition parsed : Type := option (json * bool * string).

(** The members of an object up to its closing brace; [p] parses their values. *)
Fixpoint members (p : string -> parsed) (n : nat) (s : string)
    : option (list (string * json) * bool * string) :=
  match n with
  | 0 => None
  | S n' =>
      match skip_ws s with
      | EmptyString => None
      | String q s1 =>
          if negb (byte_is q 34) then None else
          '(ts, s2) ← lex_string s1;
          match skip_ws s2 with
          | EmptyString => None
          | String k s3 =>
              if negb (byte_is k 58) then None else
              '(v, ok, s4) ← p s3;
              match skip_ws s4 with
              | EmptyString => None
              | String t s5 =>
                  if byte_is t 125 then Some ([(unquote ts, v)], ok, s5)
                  else if byte_is t 44 then
                    '(fs, ok', s6) ← members p n' s5;
                    Some ((unquote ts, v) :: fs, ok && ok', s6)
                  else None
              end
          end
      end
  end.

(** The elements of an array up to its closing bracket. *)
Fixpoint elements (p : string -> parsed) (n : nat) (s : string)
    : option (list json * bool * string) :=
  match n with
  | 0 => None
  | S n' =>
      '(v, ok, s4) ← p s;
      match skip_ws s4 with
      | EmptyString => None
      | String t s5 =>
          if byte_is t 93 then Some ([v], ok, s5)
          else if byte_is t 44 then
            '(vs, ok', s6) ← elements p n' s5;
            Some (v :: vs, ok && ok', s6)
          else None
      end
  end.

(** [parse fuel depth s]: a value at the start of [s] (white space skipped).
    [fuel] bounds the recursion; that more than [String.length s] is always enough
    is [parse_fuel] below. *)
Fixpoint parse (fuel depth : nat) (s : string) : parsed :=
  match fuel with
  | 0 => None
  | S fuel' =>
      match skip_ws s with
      | EmptyString => None
      | String c r =>
          if byte_is c 123 then
            if (maxNestingDepth <=? depth)%nat then None
            else
              match skip_ws r with
              | EmptyString => None
              | String d r1 =>
                  if byte_is d 125 then Some (JObject [], true, r1)
                  else
                    '(fs, ok, r2) ← members (parse fuel' (S depth)) fuel' r;
                    Some (JObject fs, ok, r2)
              end
          else if byte_is c 91 then
            if (maxNestingDepth <=? depth)%nat then None
            else
              match skip_ws r with
              | EmptyString => None
              | String d r1 =>
                  if byte_is d 93 then Some (JArray [], true, r1)
                  else
                    '(vs, ok, r2) ← elements (parse fuel' (S depth)) fuel' r;
                    Some (JArray vs, ok, r2)
              end
          else if byte_is c 34 then
            '(ts, r1) ← lex_string r; Some (JString (unquote ts), true, r1)
          else if byte_is c 116 then r1 ← strip_prefix "rue" r; Some (JBool true, true, r1)
          else if byte_is c 102 then r1 ← strip_prefix "alse" r; Some (JBool false, true, r1)
          else if byte_is c 110 then r1 ← strip_prefix "ull" r; Some (JNull, true, r1)
          else '(lit, ok, r1) ← lex_number (String c r); Some (JNumber lit, ok, r1)
      end
  end.

(** [json.Unmarshal(data, &f)] for an [interface{}] target, with a bound on the
    recursion; [None] is a non-nil error. *)
Definition UnmarshalFuel (fuel : nat) (data : string) : option json :=
  match parse fuel 0 data with
  | Some (v, true, rest) => if skip_ws rest =? EmptyString then Some v else None
  | _ => None
  end.

Definition Unmarshal (data : string) : option json :=
  UnmarshalFuel (S (String.length data)) data.

(** ** Enough fuel *)

Lemma skip_ws_length s : (String.length (skip_ws s) <= String.length s)%nat.
Proof. induction s as [|c s IH]; [done|]. simpl. destruct (is_space c); simpl; lia. Qed.

Lemma skip_ws_cons s c r : skip_ws s = String c r -> (String.length r < String.length s)%nat.
Proof. intros E. pose proof (skip_ws_length s) as Hl. rewrite E in Hl. exact Hl. Qed.

Lemma lex_string_length s ts r :
  lex_string s = Some (ts, r) -> (String.length r < String.length s)%nat.
Proof.
  revert ts r. induction s as [s IH] using (induction_ltof1 _ String.length). intros ts r.
  unfold ltof in IH. destruct s as [|c s]; [done|]. simpl. intros Hlex.
  assert (Hrec : forall s' ts' r', lex_string s' = Some (ts', r') ->
    (String.length s' <= String.length s)%nat -> (String.length r' < S (String.length s))%nat).
  { intros s' ts' r' E Hs. apply IH in E; simpl; lia. }
  repeat case_match; simplify_eq; simpl in *;
    first [lia | eapply Hrec; [eassumption|simpl; lia]].
Qed.

Lemma span_digits_length s d t :
  span_digits s = (d, t) -> (String.length d + String.length t = String.length s)%nat.
Proof.
  revert d t. induction s as [|c s IH]; intros d t; simpl; [by intros [= <- <-]|].
  destruct (is_digit c); [|by intros [= <- <-]].
  destruct (span_digits s) as [d' t'] eqn:E. intros [= <- <-]. simpl. by rewrite (IH _ _ eq_refl).
Qed.

Lemma lex_number_length s lit ok r :
  lex_number s = Some (lit, ok, r) -> (String.length r < String.length s)%nat.
Proof.
  unfold lex_number. intros Hlex.
  repeat (case_match; simplify_eq; simpl in *);
    repeat match goal with
    | H : span_digits _ = _ |- _ => apply span_digits_length in H; simpl in H
    end; lia.
Qed.

Lemma strip_prefix_length p s r : strip_prefix p s = Some r -> (String.length r <= String.length s)%nat.
Proof.
  revert s. induction p as [|a p IH]; intros s; [by intros [= <-]|].
  destruct s as [|b s]; simpl; [done|]. destruct (Ascii.eqb a b); [|done]. intros E%IH. lia.
Qed.

(** A parser that takes at least a character off the text. *)
Definition consumes {X} (p : string -> option (X * bool * string)) : Prop :=
  forall s v ok r, p s = Some (v, ok, r) -> (String.length r < String.length s)%nat.

(** Brings the length facts of all calls of a run into the context. *)
Ltac lengths :=
  repeat match goal with
  | H : skip_ws _ = String _ _ |- _ => apply skip_ws_cons in H
  | H : lex_string _ = Some _ |- _ => apply lex_string_length in H
  | H : lex_number _ = Some _ |- _ => apply lex_number_length in H
  | H : strip_prefix _ _ = Some _ |- _ => apply strip_prefix_length in H
  | Hp : consumes ?p, H : ?p _ = Some _ |- _ => apply Hp in H
  end; simpl in *.

(** Splits a run of a parser into the runs of its parts. *)
Ltac split_run :=
  repeat match goal with
  | H : (_ ≫= _) = Some _ |- _ => apply bind_Some in H as (? & ? & H)
  | x : _ * _ |- _ => destruct x
  | _ => case_match
  | _ => progress simplify_eq
  end.

Lemma members_consumes p n : consumes p -> consumes (members p n).
Proof.
  intros Hp. induction n as [|n IH]; intros s fs ok r Hm; [done|]. simpl in Hm.
  split_run; lengths; lia.
Qed.

Lemma elements_consumes p n : consumes p -> consumes (elements p n).
Proof.
  intros Hp. induction n as [|n IH]; intros s vs ok r Hm; [done|]. simpl in Hm.
  split_run; lengths; lia.
Qed.

Lemma parse_consumes fuel depth : consumes (parse fuel depth).
Proof.
  revert depth. induction fuel as [|fuel IH]; intros depth s v ok r Hp; [done|].
  pose proof (members_consumes _ fuel (IH (S depth))) as Hms.
  pose proof (elements_consumes _ fuel (IH (S depth))) as Hes.
  cbn [parse] in Hp. split_run; lengths; lia.
Qed.

(** Fuel beyond the length of the text does not change what is parsed. *)
Lemma members_agree p p' n n' s :
  consumes p -> (forall s', (String.length s' < String.length s)%nat -> p s' = p' s') ->
  (String.length s < n)%nat -> (String.length s < n')%nat -> members p n s = members p' n' s.
Proof.
  intros Hp. revert n' s. induction n as [|n IH]; intros n' s Hpp Hn Hn'; [lia|].
  destruct n' as [|n']; [lia|]. cbn [members].
  destruct (skip_ws s) as [|q s1] eqn:E1; [done|]. destruct (negb _); [done|].
  destruct (lex_string s1) as [[ts s2]|] eqn:E2; [simpl|done].
  destruct (skip_ws s2) as [|k s3] eqn:E3; [done|]. destruct (negb _); [done|].
  lengths. rewrite <- Hpp by lia. destruct (p s3) as [[[v ok] s4]|] eqn:E4; [simpl|done].
  destruct (skip_ws s4) as [|t s5] eqn:E5; [done|]. lengths.
  rewrite (IH n') by (intros; apply Hpp; lia) || lia. done.
Qed.

Lemma elements_agree p p' n n' s :
  consumes p -> (forall s', (String.length s' <= String.length s)%nat -> p s' = p' s') ->
  (String.length s < n)%nat -> (String.length s < n')%nat -> elements p n s = elements p' n' s.
Proof.
  intros Hp. revert n' s. induction n as [|n IH]; intros n' s Hpp Hn Hn'; [lia|].
  destruct n' as [|n']; [lia|]. cbn [elements].
  rewrite <- Hpp by lia. destruct (p s) as [[[v ok] s4]|] eqn:E4; [simpl|done].
  destruct (skip_ws s4) as [|t s5] eqn:E5; [done|]. lengths.
  rewrite (IH n') by (intros; apply Hpp; lia) || lia. done.
Qed.

Lemma parse_fuel f g depth s :
  (String.length s < f)%nat -> (String.length s < g)%nat -> parse f depth s = parse g depth s.
Proof.
  revert g depth s. induction f as [|f IH]; intros g depth s Hf Hg; [lia|].
  destruct g as [|g]; [lia|]. cbn [parse].
  destruct (skip_ws s) as [|c r] eqn:E1; [done|]. apply skip_ws_cons in E1.
  rewrite (members_agree (parse f (S depth)) (parse g (S depth)) f g r)
    by (apply parse_consumes || (intros; apply IH; lia) || lia).
  rewrite (elements_agree (parse f (S depth)) (parse g (S depth)) f g r)
    by (apply parse_consumes || (intros; apply IH; lia) || lia).
  done.
Qed.

Lemma Unmarshal_fuel n data :
  (String.length data < n)%nat -> UnmarshalFuel n data = Unmarshal data.
Proof.
  intros Hn. unfold Unmarshal, UnmarshalFuel. by rewrite (parse_fuel n (S (String.length data))) by lia.
Qed.
