(* ===== verification/GoTime.v ===== *)
(** * Timestamps of plugin log lines (Go's time.Parse)

    [logJsonLog] reads the [@timestamp] of a line with the layout
    [2006-01-02T15:04:05.000000Z07:00].  [Parse] is [time.Parse] at that layout:
    it accepts what Go accepts (one-digit hours, a comma for the point, a sign
    in the fraction, offsets up to 24:60) and rejects the rest.  An instant is
    counted in nanoseconds from year 1, as everywhere in the development. *)

From Stdlib Require Import Ascii ZArith NArith Lia.
From stdpp Require Import base strings list.
From S2P Require Import Prelude Json.

Local Open Scope string_scope.
Local Open Scope Z_scope.

(** ** The calendar *)

Definition isLeap (year : Z) : bool :=
  (year mod 4 =? 0) && (negb (year mod 100 =? 0) || (year mod 400 =? 0)).

(** [daysIn]. *)
Definition daysIn (month year : Z) : Z :=
  if month =? 2 then (if isLeap year then 29 else 28)
  else if (month =? 4) || (month =? 6) || (month =? 9) || (month =? 11) then 30
  else 31.

(** Days from the first of January of year 1 to that of [year]. *)
Definition daysBeforeYear (year : Z) : Z :=
  let y := year - 1 in 365 * y + y / 4 - y / 100 + y / 400.

(** Days from the first of January to the first of [month], [n] of which is
    the month as a counter. *)
Fixpoint daysBeforeMonth (n : nat) (year : Z) : Z :=
  match n with
  | O | S O => 0
  | S (S _ as m) => daysBeforeMonth m year + daysIn (Z.of_nat m) year
  end.

(** The instant of a civil time at an offset in seconds east of UTC. *)
Definition Date (year month day hour minute sec nsec offset : Z) : Time :=
  let days := daysBeforeYear year + daysBeforeMonth (Z.to_nat month) year + (day - 1) in
  (days * 86400 + hour * 3600 + minute * 60 + sec - offset) * Second + nsec.

(** ** The scanner *)

Definition digit (s : string) : option (Z * string) :=
  match s with
  | String c r => if is_digit c then Some (Z.of_N (N_of_ascii c) - 48, r) else None
  | EmptyString => None
  end.

(** [getnum(s, fixed)]: two digits, or one when not [fixed]. *)
Definition getnum (fixed : bool) (s : string) : option (Z * string) :=
  '(a, r) ← digit s;
  match digit r with
  | Some (b, r') => Some (a * 10 + b, r')
  | None => if fixed then None else Some (a, r)
  end.

(** Exactly [n] digits. *)
Fixpoint digits (n : nat) (acc : Z) (s : string) : option (Z * string) :=
  match n with
  | O => Some (acc, s)
  | S n' => '(a, r) ← digit s; digits n' (acc * 10 + a) r
  end.

Definition guard (b : bool) : option unit := if b then Some tt else None.

Definition in_range (lo hi x : Z) : bool := (lo <=? x) && (x <=? hi).

(** [parseNanoseconds] for a point and six characters: [atoi] takes a sign. *)
Definition fraction (s : string) : option (Z * string) :=
  match s with
  | String p r =>
      _ ← guard (byte_is p 46 || byte_is p 44);
      match r with
      | String c r' =>
          if byte_is c 43 then '(x, t) ← digits 5 0 r'; Some (x * 1000, t)
          else if byte_is c 45 then
            '(x, t) ← digits 5 0 r'; _ ← guard (x =? 0); Some (0, t)
          else '(x, t) ← digits 6 0 r; Some (x * 1000, t)
      | EmptyString => None
      end
  | EmptyString => None
  end.

(** [Z07:00]: a [Z], or a sign, two digits, a colon and two digits; the
    offset in seconds. *)
Definition zone (s : string) : option (Z * string) :=
  match s with
  | String z r =>
      if byte_is z 90 then Some (0, r)
      else
        '(hr, r1) ← getnum true r;
        r2 ← strip_prefix ":" r1;
        '(mm, r3) ← getnum true r2;
        _ ← guard ((hr <=? 24) && (mm <=? 60));
        let offset := (hr * 60 + mm) * 60 in
        if byte_is z 43 then Some (offset, r3)
        else if byte_is z 45 then Some (- offset, r3) else None
  | EmptyString => None
  end.

(** [time.Parse("2006-01-02T15:04:05.000000Z07:00", value)]; [None] is a non-nil
    error. *)
Definition Parse (value : string) : option Time :=
  '(year, s) ← digits 4 0 value;
  s ← strip_prefix "-" s;
  '(month, s) ← getnum true s;
  _ ← guard (in_range 1 12 month);
  s ← strip_prefix "-" s;
  '(day, s) ← getnum true s;
  s ← strip_prefix "T" s;
  '(hour, s) ← getnum false s;
  _ ← guard (hour <? 24);
  s ← strip_prefix ":" s;
  '(minute, s) ← getnum true s;
  _ ← guard (minute <? 60);
  s ← strip_prefix ":" s;
  '(sec, s) ← getnum true s;
  _ ← guard (sec <? 60);
  '(nsec, s) ← fraction s;
  '(offset, s) ← zone s;
  _ ← guard ((s =? EmptyString)%string);
  _ ← guard (in_range 1 (daysIn month year) day);
  Some (Date year month day hour minute sec nsec offset).

(** ** Samples *)

(** The Unix epoch, and the same instant written with an offset. *)
Example Parse_epoch : Parse "1970-01-01T00:00:00.000000Z" = Some (62135596800 * Second).
Proof. vm_compute. reflexivity. Qed.

Example Parse_offset :
  Parse "2024-02-29T01:30:00.000001+02:00" = Parse "2024-02-28T23:30:00.000001Z".
Proof. vm_compute. reflexivity. Qed.

Example Parse_bad_day : Parse "2023-02-29T01:30:00.000000Z" = None.
Proof. vm_compute. reflexivity. Qed.
