(* ===== verification/Requests.v ===== *)
(** * The outside world, as the program addresses it

    The operator calls code that is not in its repository: the Kubernetes API
    server (through controller-runtime's client and client-go's clientset), the
    kubectl drain library, plugin processes behind gRPC, the clock, the file
    system.  Every such call is a value of [Req]; [resp] gives the Go result of
    each.  The data types below are the parts of those libraries' structs the
    program reads or writes. *)

From stdpp Require Import base strings list.
From S2P Require Import Prelude NodeTypes.

(** ** corev1.Node *)

Record NodeCondition := mkNodeCondition { nc_Type : string; nc_Status : string }.

(** [metav1.ManagedFieldsEntry]; [mf_FieldsV1] is the raw JSON, nil when absent. *)
Record ManagedFieldsEntry := mkManagedFieldsEntry {
  mf_Manager : string;
  mf_Subresource : string;
  mf_FieldsV1 : option string
}.

Record KubeNode := mkKubeNode {
  kn_Name : string;
  kn_ManagedFields : list ManagedFieldsEntry;
  kn_Unschedulable : bool;
  kn_BootID : string;
  kn_Conditions : list NodeCondition
}.

Definition set_Unschedulable (k : KubeNode) (b : bool) : KubeNode :=
  mkKubeNode (kn_Name k) (kn_ManagedFields k) b (kn_BootID k) (kn_Conditions k).

Definition NodeReady : string := "Ready".
Definition ConditionTrue : string := "True".

(** ** corev1.Pod *)

Record VolumeMount := mkVolumeMount {
  vm_Name : string; vm_ReadOnly : bool; vm_MountPath : string }.

Record ContainerSecurityContext := mkContainerSecurityContext {
  csc_AddCapabilities : list string;
  csc_AllowPrivilegeEscalation : bool;
  csc_Privileged : bool;
  csc_ReadOnlyRootFilesystem : bool
}.

(** [corev1.ResourceRequirements]: resource name and quantity, [None] for a
    nil list.  A quantity is the text handed to [resource.MustParse]. *)
Record ResourceRequirements := mkResourceRequirements {
  rr_Requests : option (list (string * string));
  rr_Limits : option (list (string * string))
}.

Record Container := mkContainer {
  ct_Name : string;
  ct_Image : string;
  ct_Command : list string;
  ct_VolumeMounts : list VolumeMount;
  ct_SecurityContext : option ContainerSecurityContext;
  ct_Resources : ResourceRequirements
}.

Record HostPathVolume := mkHostPathVolume {
  hp_Name : string; hp_Path : string; hp_Type : string }.

Record Toleration := mkToleration {
  tol_Key : string; tol_Operator : string; tol_Effect : string }.

Record PodSecurityContext := mkPodSecurityContext {
  psc_RunAsUser : option Z;
  psc_RunAsGroup : option Z;
  psc_RunAsNonRoot : option bool;
  psc_AppArmorProfile : option string
}.

Record Pod := mkPod {
  pod_Name : string;
  pod_GenerateName : string;
  pod_Namespace : string;
  pod_Labels : list (string * string);
  pod_Volumes : list HostPathVolume;
  pod_Containers : list Container;
  pod_RestartPolicy : string;
  pod_TerminationGracePeriodSeconds : option Z;
  pod_NodeName : string;
  pod_HostPID : bool;
  pod_SecurityContext : PodSecurityContext;
  pod_Tolerations : list Toleration;
  pod_PriorityClassName : string;
  pod_Phase : string
}.

Definition PodRunning : string := "Running".
Definition PodSucceeded : string := "Succeeded".
Definition PodFailed : string := "Failed".

(** The zero [corev1.Pod]. *)
Definition zeroPod : Pod :=
  mkPod EmptyString EmptyString EmptyString [] [] [] EmptyString None EmptyString
    false (mkPodSecurityContext None None None None) [] EmptyString EmptyString.

(** [corev1.PodExecOptions] as [ExecCmd] fills it. *)
Record PodExecOptions := mkPodExecOptions {
  pe_Command : list string;
  pe_Stdin : bool; pe_Stdout : bool; pe_Stderr : bool; pe_TTY : bool }.

(** ** kubectl's [drain.Helper] *)
Record DrainHelper := mkDrainHelper {
  dh_GracePeriodSeconds : Z;
  dh_IgnoreAllDaemonSets : bool;
  dh_Timeout : Z;
  dh_DeleteEmptyDirData : bool
}.

(** ** The plugin protocol (messages of drain_plugin.proto)

    Edition 2023 fields have explicit presence, so a field is an [option]. *)
Inductive ConfigFormat :=
  | CONFIG_FORMAT_UNSPECIFIED | CONFIG_FORMAT_YAML | CONFIG_FORMAT_JSON
  | CONFIG_FORMAT_other (n : Z).

Global Instance ConfigFormat_eq_dec : EqDecision ConfigFormat.
Proof. solve_decision. Defined.

Record PluginInfoResponse := mkPluginInfoResponse {
  pir_id : option string; pir_config_format : option ConfigFormat }.

Inductive Rpc :=
  | RpcPluginInfo
  | RpcInit (config : option string)
  | RpcIsSupported
  | RpcIsHealthy
  | RpcIsDrainOk (node_name : option string)
  | RpcPreDrain (node_name : option string)
  | RpcPostDrain (node_name : option string).

Definition rpc_resp (m : Rpc) : Type :=
  match m with
  | RpcPluginInfo => PluginInfoResponse
  | RpcIsSupported | RpcIsHealthy | RpcIsDrainOk _ => option bool
  | RpcInit _ | RpcPreDrain _ | RpcPostDrain _ => unit
  end.

(** ** Requests *)

Record DirEntry := mkDirEntry { de_Name : string; de_IsDir : bool }.

Inductive Req :=
  (* controller-runtime client *)
  | ClientGetKubeNode (name : string)
  | ClientGetNode (name : string)
  | ClientListNodes
  | ClientCreateNode (n : Node)
  | ClientUpdateNode (n : Node)
  | ClientPatchNode (base n : Node)
  | ClientStatusPatchNode (base n : Node)
  | ClientPatchKubeNode (base k : KubeNode)
  | SetOwnerReference (owner : KubeNode) (n : Node)
  (* client-go clientset *)
  | NewForConfig
  | NodesGet (name : string)
  | NodesList
  | PodsCreate (ns : string) (p : Pod)
  | PodsGet (ns name : string)
  | PodsDelete (ns name : string) (foreground : bool)
  | PodsDeleteCollection (ns labelSelector fieldSelector : string)
  | LabelSelectorIn (key : string) (values : list string)
  | NewSPDYExecutor (ns name : string) (opts : PodExecOptions)
  | StreamWithContext (ns name : string) (opts : PodExecOptions)
  (* kubectl drain *)
  | RunNodeDrain (h : DrainHelper) (name : string)
  (* events, clock, host, configuration *)
  | Eventf (about type reason message : string)
  | Now
  | Sleep (d : Z)
  | Hostname
  | OsStat (path : string)
  | OsReadDir (path : string)
  | KoanfCutMarshal (path : string) (format : ConfigFormat)
  (* plugin processes *)
  | PluginClient (path : string)
  | PluginPing (path : string)
  | PluginDispense (path name : string)
  | PluginRpc (path : string) (m : Rpc)
  (* the iteration order Go picks for one range over a map *)
  | MapRange (keys : list string).

(** The Go results of each request.  A method returning [(T, error)] of which
    only one is meaningful is a sum.  [PodsGet] keeps both: client-go returns
    the object it decoded into also next to an error, and the program uses it.
    [OsStat] fails with a not-exists error or another one; [PluginDispense]
    gives the dynamic type of the value. *)
Definition resp (q : Req) : Type :=
  match q with
  | ClientGetKubeNode _ | ClientPatchKubeNode _ _ | NodesGet _ => error + KubeNode
  | ClientGetNode _ | ClientCreateNode _ | ClientUpdateNode _
  | ClientPatchNode _ _ | ClientStatusPatchNode _ _ | SetOwnerReference _ _ => error + Node
  | ClientListNodes => error + list Node
  | NodesList => error + list KubeNode
  | PodsCreate _ _ => error + Pod
  | PodsGet _ _ => Pod * option error
  | NewForConfig | PodsDelete _ _ _ | PodsDeleteCollection _ _ _
  | NewSPDYExecutor _ _ _ | StreamWithContext _ _ _ | RunNodeDrain _ _
  | PluginClient _ | PluginPing _ => option error
  | LabelSelectorIn _ _ | Hostname | KoanfCutMarshal _ _ | PluginDispense _ _ => error + string
  | Eventf _ _ _ _ | Sleep _ => unit
  | Now => Time
  | OsStat _ => option (bool * error)
  | OsReadDir _ => error + list DirEntry
  | PluginRpc _ m => error + rpc_resp m
  | MapRange _ => list string
  end.

(** An interaction: what was asked and what came back. *)
Inductive Ev := mkEv (q : Req) (a : resp q).

Definition ev_req (e : Ev) : Req := let '(mkEv q _) := e in q.

(** [corev1.EventTypeNormal] and [corev1.EventTypeWarning]. *)
Definition EventTypeNormal : string := "Normal".
Definition EventTypeWarning : string := "Warning".
