(* ===== verification/Effects.v ===== *)
(** * Effectful Go code: the monad and its program logic

    A Go function that talks to the outside world is a computation [M W A]: from
    a world of type [W] it performs a finite list of interactions, leaves a
    world, and either fails with an [error] or returns a value.  The world is
    abstract: [Env W] only says that every request gets some response, so a
    theorem over all [Env] holds whatever the API server, the plugins and the
    other users of the cluster do.

    [wp] is a weakest-precondition style predicate with a protocol [G]: every
    interaction must be permitted by [G] given the interactions before it. *)

From stdpp Require Import base gmap strings list.
From S2P Require Import Prelude NodeTypes Requests.

(** ** The environment and the monad *)

Class Env (W : Type) := handle : forall q : Req, W -> resp q * W.

Definition M (W A : Type) : Type := W -> list Ev * W * (error + A).

Section Monad.
Context {W : Type}.

Global Instance M_ret : MRet (M W) := fun A a w => ([], w, inr a).

Global Instance M_bind : MBind (M W) := fun A B f m w =>
  match m w with
  | (evs, w', inl e) => (evs, w', inl e)
  | (evs, w', inr a) =>
      match f a w' with (evs', w'', r) => (evs ++ evs', w'', r) end
  end.

(** [return ..., err] with a non-nil error. *)
Definition raise {A} (e : error) : M W A := fun w => ([], w, inl e).

(** One interaction. *)
Definition call `{Env W} (q : Req) : M W (resp q) := fun w =>
  let '(a, w') := handle q w in ([mkEv q a], w', inr a).

(** Runs a Go call whose error the caller inspects. *)
Definition attempt {A} (m : M W A) : M W (error + A) := fun w =>
  let '(evs, w', r) := m w in (evs, w', inr r).

(** [if err != nil { return err }] on a value and error pair. *)
Definition lift {A} (r : error + A) : M W A :=
  match r with inl e => raise e | inr a => mret a end.

(** [if err != nil { return err }] on a lone error. *)
Definition check (o : option error) : M W unit :=
  match o with Some e => raise e | None => mret tt end.

(** [if err != nil { return fmt.Errorf(prefix + "%w", err) }]. *)
Definition wrap {A} (prefix : string) (m : M W A) : M W A := fun w =>
  match m w with
  | (evs, w', inl e) => (evs, w', inl (WrapError prefix e))
  | (evs, w', inr a) => (evs, w', inr a)
  end.

(** [defer f()] around the rest of a function: [f] runs on both exits and
    its own error is dropped. *)
Definition deferring {A} (f : M W unit) (m : M W A) : M W A := fun w =>
  let '(evs, w', r) := m w in
  let '(evs', w'', _) := f w' in (evs ++ evs', w'', r).

End Monad.

Arguments raise {W A} e.
Arguments attempt {W A} m.

(** ** Waiting

    [wait.PollUntilContextTimeout] is a library function taking the condition
    as a callback: a parameter of the model.  Its documented behaviour with
    [immediate = false] is [poll_run]: it sleeps for the interval, then checks
    the condition, until the condition holds, fails, or the timeout passes. *)

Definition errPollTimeout : error := ErrorString "context deadline exceeded".

Class Wait (W : Type) :=
  PollUntilContextTimeout : Z -> Z -> bool -> M W bool -> M W unit.

Inductive poll_run {W} `{Env W} (d : Z) (cond : M W bool) :
    W -> list Ev * W * (error + unit) -> Prop :=
  | poll_timeout w w1 :
      handle (Sleep d) w = (tt, w1) ->
      poll_run d cond w ([mkEv (Sleep d) tt], w1, inl errPollTimeout)
  | poll_true w w1 evs w2 :
      handle (Sleep d) w = (tt, w1) -> cond w1 = (evs, w2, inr true) ->
      poll_run d cond w (mkEv (Sleep d) tt :: evs, w2, inr tt)
  | poll_error w w1 evs w2 e :
      handle (Sleep d) w = (tt, w1) -> cond w1 = (evs, w2, inl e) ->
      poll_run d cond w (mkEv (Sleep d) tt :: evs, w2, inl e)
  | poll_false w w1 evs w2 evs' w3 r :
      handle (Sleep d) w = (tt, w1) -> cond w1 = (evs, w2, inr false) ->
      poll_run d cond w2 (evs', w3, r) ->
      poll_run d cond w (mkEv (Sleep d) tt :: evs ++ evs', w3, r).

Class WaitLaws (W : Type) `{Env W} `{Wait W} : Prop :=
  poll_law : forall d timeout cond w,
    poll_run d cond w (PollUntilContextTimeout d timeout false cond w).

(** ** Equality of computations *)

Section Equiv.
Context {W : Type}.

Global Instance M_equiv {A} : Equiv (M W A) := fun m m' => forall w, m w = m' w.

Global Instance M_equivalence {A} : Equivalence (equiv (A := M W A)).
Proof.
  split; [intros m w; done | intros m m' H w; symmetry; apply H |].
  intros m m' m'' H H' w. rewrite H. apply H'.
Qed.

Global Instance M_bind_proper {A B} :
  Proper (pointwise_relation A equiv ==> equiv ==> equiv) (mbind (M := M W) (B := B)).
Proof.
  intros f f' Hf m m' Hm w. unfold mbind, M_bind. rewrite Hm.
  destruct (m' w) as [[evs w'] [e|a]]; [done|]. by rewrite Hf.
Qed.

Global Instance wrap_proper {A} p : Proper (equiv ==> equiv) (wrap (W := W) (A := A) p).
Proof. intros m m' Hm w. unfold wrap. by rewrite Hm. Qed.

Lemma bind_ret_l {A B} (a : A) (f : A -> M W B) : (mret a ≫= f) ≡ f a.
Proof. intros w. unfold mbind, M_bind, mret, M_ret. by destruct (f a w) as [[??]?]. Qed.

Lemma bind_ret_r {A} (m : M W A) : (m ≫= mret) ≡ m.
Proof.
  intros w. unfold mbind, M_bind, mret, M_ret.
  destruct (m w) as [[evs w'] [e|a]]; [done|]. by rewrite app_nil_r.
Qed.

Lemma bind_assoc {A B C} (m : M W A) (f : A -> M W B) (g : B -> M W C) :
  ((m ≫= f) ≫= g) ≡ (m ≫= fun a => f a ≫= g).
Proof.
  intros w. unfold mbind, M_bind.
  destruct (m w) as [[evs w'] [e|a]]; [done|].
  destruct (f a w') as [[evs' w''] [e|b]]; [done|].
  destruct (g b w'') as [[??]?]. by rewrite app_assoc.
Qed.
End Equiv.

(** ** Inverting runs *)

Section Runs.
Context {W : Type} `{Env W}.

Lemma bind_run {A B} (m : M W A) (f : A -> M W B) w evs w' r :
  (m ≫= f) w = (evs, w', r) ->
  (exists e, m w = (evs, w', inl e) /\ r = inl e) \/
  (exists a evs1 w1 evs2, m w = (evs1, w1, inr a) /\ f a w1 = (evs2, w', r) /\
     evs = evs1 ++ evs2).
Proof.
  unfold mbind, M_bind. destruct (m w) as [[evs1 w1] [e|a]] eqn:Em.
  - intros [= <- <- <-]. eauto.
  - destruct (f a w1) as [[evs2 w2] r2] eqn:Ef. intros [= <- <- <-].
    right. eauto 10.
Qed.

Lemma bind_run_ok {A B} (m : M W A) (f : A -> M W B) w evs w' b :
  (m ≫= f) w = (evs, w', inr b) ->
  exists a evs1 w1 evs2, m w = (evs1, w1, inr a) /\ f a w1 = (evs2, w', inr b) /\
    evs = evs1 ++ evs2.
Proof. intros E. apply bind_run in E as [(e&_&?)|?]; [done | eauto]. Qed.

Lemma bind_run_intro {A B} (m : M W A) (f : A -> M W B) w evs1 w1 a evs2 w' r :
  m w = (evs1, w1, inr a) -> f a w1 = (evs2, w', r) ->
  (m ≫= f) w = (evs1 ++ evs2, w', r).
Proof. intros Em Ef. unfold mbind, M_bind. by rewrite Em, Ef. Qed.

Lemma call_run q w evs w' r :
  call q w = (evs, w', r) ->
  exists a, handle q w = (a, w') /\ evs = [mkEv q a] /\ r = inr a.
Proof. unfold call. destruct (handle q w) as [a w1]. intros [= <- <- <-]. eauto. Qed.

(** Running one call and going on. *)
Lemma bind_call {B} q (f : resp q -> M W B) w a w1 :
  handle q w = (a, w1) ->
  (call q ≫= f) w = let '(evs, w2, r) := f a w1 in (mkEv q a :: evs, w2, r).
Proof. intros E. unfold mbind, M_bind, call. rewrite E. by destruct (f a w1) as [[??]?]. Qed.

Lemma attempt_run {A} (m : M W A) w evs w' r :
  attempt m w = (evs, w', r) -> exists r', m w = (evs, w', r') /\ r = inr r'.
Proof. unfold attempt. destruct (m w) as [[??]?]. intros [= <- <- <-]. eauto. Qed.

Lemma wrap_run_ok {A} p (m : M W A) w evs w' a :
  wrap p m w = (evs, w', inr a) -> m w = (evs, w', inr a).
Proof. unfold wrap. by destruct (m w) as [[??] [?|?]]; intros [= <- <- <-]. Qed.
End Runs.

(** Takes a successful run of program text apart. *)
Ltac inv_ok :=
  repeat match goal with
  | E : (mbind _ _) _ = (_, _, inr _) |- _ =>
      let a := fresh "a" in let evs1 := fresh "evs" in let w1 := fresh "w" in
      let evs2 := fresh "evs" in let E1 := fresh "E" in let E2 := fresh "E" in
      let Ea := fresh "Eevs" in
      apply bind_run_ok in E as (a & evs1 & w1 & evs2 & E1 & E2 & Ea); subst
  | E : call ?q _ = (_, _, _) |- _ =>
      let a := fresh "a" in let Eh := fresh "Eh" in let E1 := fresh "E" in
      let E2 := fresh "E" in
      apply (call_run q) in E as (a & Eh & E1 & E2); subst; try (injection E2 as ?; subst)
  | E : attempt _ _ = (_, _, _) |- _ =>
      let r' := fresh "r" in let E2 := fresh "E" in let E1 := fresh "E" in
      apply attempt_run in E as (r' & E1 & E2); subst; try (injection E2 as ?; subst)
  | E : wrap _ _ _ = (_, _, inr _) |- _ => apply wrap_run_ok in E
  | E : mret _ _ = (_, _, _) |- _ => injection E as ? ? ?; subst
  | E : raise _ _ = (_, _, inr _) |- _ => discriminate E
  | E : lift ?x _ = (_, _, inr _) |- _ => destruct x; [discriminate E | injection E as ? ? ?; subst]
  | E : check ?x _ = (_, _, inr _) |- _ => destruct x; [discriminate E | injection E as ? ? ?; subst]
  end.

(** The same through the branches of the text. *)
Ltac inv_cases :=
  repeat (inv_ok;
    try match goal with
    | E : (if ?b then _ else _) _ = (_, _, inr _) |- _ =>
        let Eb := fresh "Eb" in destruct b eqn:Eb
    | E : (match ?x with _ => _ end) _ = (_, _, inr _) |- _ =>
        let Eb := fresh "Eb" in destruct x eqn:Eb
    end; inv_ok); boolify.

(** ** What a computation may do: [emits] *)

Create HintDb emits.

Section Emits.
Context {W : Type} `{Env W}.
Implicit Types P : Ev -> Prop.

(** Every interaction of [m], from any world, satisfies [P]. *)
Definition emits {A} (P : Ev -> Prop) (m : M W A) : Prop :=
  forall w evs w' r, m w = (evs, w', r) -> Forall P evs.

Lemma emits_ret {A} P (a : A) : emits P (mret a).
Proof. intros w evs w' r [= <- <- <-]. constructor. Qed.

Lemma emits_raise {A} P e : emits P (raise (A := A) e).
Proof. intros w evs w' r [= <- <- <-]. constructor. Qed.

Lemma emits_bind {A B} P (m : M W A) (f : A -> M W B) :
  emits P m -> (forall a, emits P (f a)) -> emits P (m ≫= f).
Proof.
  intros Hm Hf w evs w' r. unfold mbind, M_bind.
  destruct (m w) as [[evs1 w1] [e|a]] eqn:Em.
  - intros [= <- <- <-]. by eapply Hm.
  - destruct (f a w1) as [[evs2 w2] r2] eqn:Ef. intros [= <- <- <-].
    apply Forall_app. split; [by eapply Hm | by eapply Hf].
Qed.

Lemma emits_call P q : (forall a, P (mkEv q a)) -> emits P (call q).
Proof.
  intros HP w evs w' r. unfold call. destruct (handle q w) as [a w1].
  intros [= <- <- <-]. auto.
Qed.

Lemma emits_attempt {A} P (m : M W A) : emits P m -> emits P (attempt m).
Proof.
  intros Hm w evs w' r. unfold attempt. destruct (m w) as [[??]?] eqn:E.
  intros [= <- <- <-]. by eapply Hm.
Qed.

Lemma emits_wrap {A} P p (m : M W A) : emits P m -> emits P (wrap p m).
Proof.
  intros Hm w evs w' r. unfold wrap.
  destruct (m w) as [[??] [?|?]] eqn:E; intros [= <- <- <-]; by eapply Hm.
Qed.

Lemma emits_lift {A} P (r : error + A) : emits P (lift r).
Proof. destruct r; [apply emits_raise | apply emits_ret]. Qed.

Lemma emits_check P o : emits P (check o).
Proof. destruct o; [apply emits_raise | apply emits_ret]. Qed.

Lemma emits_deferring {A} P f (m : M W A) :
  emits P f -> emits P m -> emits P (deferring f m).
Proof.
  intros Hf Hm w evs w' r. unfold deferring.
  destruct (m w) as [[??]?] eqn:E, (f _) as [[??]?] eqn:E'.
  intros [= <- <- <-]. apply Forall_app. split; [by eapply Hm | by eapply Hf].
Qed.

Lemma emits_poll `{!Wait W, !WaitLaws W} P d t cond :
  emits P cond -> (forall d, P (mkEv (Sleep d) tt)) ->
  emits P (PollUntilContextTimeout d t false cond).
Proof.
  intros Hc Hs w evs w' r E. pose proof (poll_law d t cond w) as Hrun.
  rewrite E in Hrun. clear E. remember (evs, w', r) as out eqn:Eo.
  revert evs w' r Eo.
  induction Hrun as [| | |???????? Hcond Hrun IH]; intros; simplify_eq; constructor; auto.
  - by eapply Hc.
  - by eapply Hc.
  - apply Forall_app. split; [by eapply Hc | by eapply IH].
Qed.
End Emits.

#[export] Hint Resolve emits_ret emits_raise emits_bind emits_call emits_attempt
  emits_wrap emits_lift emits_check emits_deferring emits_poll : emits.

(** Decomposes program text for an [emits] goal; leaves the goals about single
    requests. *)
Ltac emits_step :=
  match goal with
  | |- emits _ (if ?b then _ else _) => destruct b
  | |- emits _ (match ?x with _ => _ end) => destruct x
  | |- emits _ (let '_ := ?x in _) => destruct x
  | |- emits _ (mret _) => apply emits_ret
  | |- emits _ (raise _) => apply emits_raise
  | |- emits _ (lift _) => apply emits_lift
  | |- emits _ (check _) => apply emits_check
  | |- emits _ (mbind _ _) => apply emits_bind; [|intros ?]
  | |- emits ?P (call ?q) => apply (emits_call P q); intros ?
  | |- emits _ (wrap _ _) => apply emits_wrap
  | |- emits _ (attempt _) => apply emits_attempt
  | |- emits _ (deferring _ _) => apply emits_deferring
  | |- emits _ (PollUntilContextTimeout _ _ _ _) => apply emits_poll; [|intros ?]
  | |- emits _ _ => solve [eauto 2 with emits nocore]
  end.
Ltac emits_auto := repeat (cbv zeta; emits_step); try done.

(** ** Protocols and weakest preconditions *)

Section Wp.
Context {W : Type} `{Env W} (G : list Ev -> Ev -> Prop).

(** Every event of [evs] is allowed by [G] after the history [h] and the
    events before it. *)
Fixpoint guarded (h : list Ev) (evs : list Ev) : Prop :=
  match evs with
  | [] => True
  | e :: evs' => G h e /\ guarded (h ++ [e]) evs'
  end.

Lemma guarded_app h evs evs' :
  guarded h (evs ++ evs') <-> guarded h evs /\ guarded (h ++ evs) evs'.
Proof.
  revert h. induction evs as [|e evs IH]; intros h; simpl.
  - rewrite app_nil_r. tauto.
  - rewrite IH, <- app_assoc. simpl. tauto.
Qed.

Lemma guarded_at h evs pre e post :
  guarded h evs -> evs = pre ++ e :: post -> G (h ++ pre) e.
Proof. intros Hg ->. apply guarded_app in Hg as [_ Hg]. simpl in Hg. tauto. Qed.

Lemma guarded_Forall h evs (P : Ev -> Prop) :
  (forall evs e, Forall P evs -> P e -> G (h ++ evs) e) -> Forall P evs -> guarded h evs.
Proof.
  intros HP HF. revert h HP. induction HF as [|e evs He HF IH]; intros h HP; simpl; [done|].
  split.
  - specialize (HP [] e). rewrite app_nil_r in HP. auto.
  - apply IH. intros evs' e' ? ?. rewrite <- app_assoc. simpl. auto.
Qed.

(** From world [w] and history [h], [m] respects [G] and ends in [Q]. *)
Definition wp {A} (m : M W A) (Q : error + A -> list Ev -> W -> Prop)
    (h : list Ev) (w : W) : Prop :=
  let '(evs, w', r) := m w in guarded h evs /\ Q r (h ++ evs) w'.

Lemma wp_mono {A} (m : M W A) (Q Q' : error + A -> list Ev -> W -> Prop) h w :
  wp m Q h w -> (forall r h' w', Q r h' w' -> Q' r h' w') -> wp m Q' h w.
Proof. unfold wp. destruct (m w) as [[??]?]. intros [??]; auto. Qed.

Lemma wp_ret {A} (a : A) (Q : error + A -> list Ev -> W -> Prop) h w :
  Q (inr a) h w -> wp (mret a) Q h w.
Proof. unfold wp. simpl. rewrite app_nil_r. auto. Qed.

Lemma wp_raise {A} e (Q : error + A -> list Ev -> W -> Prop) h w :
  Q (inl e) h w -> wp (raise e) Q h w.
Proof. unfold wp. simpl. rewrite app_nil_r. auto. Qed.

Lemma wp_bind {A B} (m : M W A) (f : A -> M W B) (Q : error + B -> list Ev -> W -> Prop) h w :
  wp m (fun r h' w' =>
    match r with inl e => Q (inl e) h' w' | inr a => wp (f a) Q h' w' end) h w ->
  wp (m ≫= f) Q h w.
Proof.
  unfold wp, mbind, M_bind.
  destruct (m w) as [[evs w1] [e|a]]; [done|].
  destruct (f a w1) as [[evs' w2] r]. intros (Hg & Hg' & HQ).
  rewrite guarded_app, app_assoc. auto.
Qed.

Lemma wp_call q (Q : error + resp q -> list Ev -> W -> Prop) h w :
  (forall a w', handle q w = (a, w') ->
     G h (mkEv q a) /\ Q (inr a) (h ++ [mkEv q a]) w') ->
  wp (call q) Q h w.
Proof.
  intros Hq. unfold wp, call. destruct (handle q w) as [a w'] eqn:E.
  destruct (Hq a w' eq_refl). simpl. auto.
Qed.

Lemma wp_attempt {A} (m : M W A) (Q : error + (error + A) -> list Ev -> W -> Prop) h w :
  wp m (fun r => Q (inr r)) h w -> wp (attempt m) Q h w.
Proof. unfold wp, attempt. by destruct (m w) as [[??]?]. Qed.

Lemma wp_wrap {A} p (m : M W A) (Q : error + A -> list Ev -> W -> Prop) h w :
  wp m (fun r => Q (match r with inl e => inl (WrapError p e) | inr a => inr a end)) h w ->
  wp (wrap p m) Q h w.
Proof. unfold wp, wrap. by destruct (m w) as [[??] [?|?]]. Qed.

Lemma wp_deferring {A} f (m : M W A) (Q : error + A -> list Ev -> W -> Prop) h w :
  wp m (fun r => wp f (fun _ => Q r)) h w -> wp (deferring f m) Q h w.
Proof.
  unfold wp, deferring. destruct (m w) as [[evs w1] r], (f w1) as [[evs' w2] r'].
  intros (?&?&?). rewrite guarded_app, app_assoc. auto.
Qed.

Lemma wp_lift {A} (x : error + A) (Q : error + A -> list Ev -> W -> Prop) h w :
  Q x h w -> wp (lift x) Q h w.
Proof. destruct x; [apply wp_raise | apply wp_ret]. Qed.

Lemma wp_check o (Q : error + unit -> list Ev -> W -> Prop) h w :
  Q (match o with Some e => inl e | None => inr tt end) h w -> wp (check o) Q h w.
Proof. destruct o; [apply wp_raise | apply wp_ret]. Qed.

(** A computation whose interactions the protocol allows whatever precedes
    them within the computation. *)
Lemma wp_emits {A} (P : Ev -> Prop) (m : M W A) (Q : error + A -> list Ev -> W -> Prop) h w :
  emits P m -> (forall evs e, Forall P evs -> P e -> G (h ++ evs) e) ->
  (forall evs r w', m w = (evs, w', r) -> Forall P evs -> Q r (h ++ evs) w') ->
  wp m Q h w.
Proof.
  intros Hm HP HQ. unfold wp. destruct (m w) as [[evs w'] r] eqn:E.
  pose proof (Hm _ _ _ _ E). split; [by eapply guarded_Forall | eauto].
Qed.

Lemma wp_run {A} (m : M W A) Q h w evs w' r :
  wp m Q h w -> m w = (evs, w', r) -> guarded h evs /\ Q r (h ++ evs) w'.
Proof. unfold wp. intros Hwp E. by rewrite E in Hwp. Qed.
End Wp.

(** ** Triples

    [triple G h m Q]: after the history [h], from any world, [m] respects [G],
    and if it succeeds its result and the history then satisfy [Q].  An error
    needs no postcondition: it ends the function that meets it. *)
Section Triple.
Context {W : Type} `{Env W} (G : list Ev -> Ev -> Prop).

Definition triple {A} (h : list Ev) (m : M W A) (Q : A -> list Ev -> Prop) : Prop :=
  forall w, wp G m (fun r h' _ => match r with inl _ => True | inr a => Q a h' end) h w.

Lemma triple_ret {A} h (a : A) (Q : A -> list Ev -> Prop) : Q a h -> triple h (mret a) Q.
Proof. intros HQ w. by apply wp_ret. Qed.

Lemma triple_raise {A} h e (Q : A -> list Ev -> Prop) : triple h (raise e) Q.
Proof. intros w. by apply wp_raise. Qed.

Lemma triple_mono {A} h (m : M W A) (Q Q' : A -> list Ev -> Prop) :
  triple h m Q -> (forall a h', Q a h' -> Q' a h') -> triple h m Q'.
Proof. intros Hm HQ w. eapply wp_mono; [apply Hm|]. intros [e|a] h' w'; auto. Qed.

Lemma triple_bind {A B} h (m : M W A) (f : A -> M W B) P (Q : B -> list Ev -> Prop) :
  triple h m P -> (forall a h', P a h' -> triple h' (f a) Q) -> triple h (m ≫= f) Q.
Proof.
  intros Hm Hf w. apply wp_bind. eapply wp_mono; [apply Hm|].
  intros [e|a] h' w' HP; [done|]. by apply Hf.
Qed.

Lemma triple_call h q (Q : resp q -> list Ev -> Prop) :
  (forall w a w', handle q w = (a, w') -> G h (mkEv q a) /\ Q a (h ++ [mkEv q a])) ->
  triple h (call q) Q.
Proof. intros Hq w. apply (wp_call G q). eauto. Qed.

Lemma triple_attempt {A} h (m : M W A) (Q : error + A -> list Ev -> Prop) :
  triple h m (fun a => Q (inr a)) -> (forall e h', Q (inl e) h') -> triple h (attempt m) Q.
Proof.
  intros Hm HQ w. apply wp_attempt. eapply wp_mono; [apply Hm|]. intros [e|a] h' w'; auto.
Qed.

Lemma triple_wrap {A} h p (m : M W A) Q : triple h m Q -> triple h (wrap p m) Q.
Proof. intros Hm w. apply wp_wrap. eapply wp_mono; [apply Hm|]. by intros [e|a]. Qed.

Lemma triple_lift {A} h (x : error + A) (Q : A -> list Ev -> Prop) :
  (forall a, x = inr a -> Q a h) -> triple h (lift x) Q.
Proof. intros HQ w. apply wp_lift. destruct x; auto. Qed.

Lemma triple_check h o (Q : unit -> list Ev -> Prop) :
  (o = None -> Q tt h) -> triple h (check o) Q.
Proof. intros HQ w. apply wp_check. destruct o; auto. Qed.

Lemma triple_emits {A} (P : Ev -> Prop) h (m : M W A) (Q : A -> list Ev -> Prop) :
  emits P m -> (forall evs e, Forall P evs -> P e -> G (h ++ evs) e) ->
  (forall w evs a w', m w = (evs, w', inr a) -> Forall P evs -> Q a (h ++ evs)) ->
  triple h m Q.
Proof.
  intros Hm HP HQ w. eapply wp_emits; [done..|]. intros evs [e|a] w' E Hevs; eauto.
Qed.

#[global] Instance triple_proper {A} h :
  Proper (equiv ==> pointwise_relation A (pointwise_relation (list Ev) iff) ==> iff) (triple (A := A) h).
Proof.
  intros m m' Hm Q Q' HQ. unfold triple, wp.
  split; intros Hw w; specialize (Hw w); specialize (Hm w);
    [rewrite <- Hm; destruct (m w) as [[evs w'] [e|a]]
    |rewrite Hm; destruct (m' w) as [[evs w'] [e|a]]]; try done;
    (split; [apply Hw | apply HQ, Hw]).
Qed.

Lemma triple_run {A} h (m : M W A) Q w evs w' r :
  triple h m Q -> m w = (evs, w', r) -> guarded G h evs.
Proof. intros Hm E. eapply wp_run in E; [|apply Hm]. tauto. Qed.
End Triple.

(** Steps through program text in a [triple] goal; stops at calls. *)
Ltac triple_step :=
  match goal with
  | |- triple _ _ (mret _) _ => apply triple_ret
  | |- triple _ _ (raise _) _ => apply triple_raise
  | |- triple _ _ (wrap _ _) _ => apply triple_wrap
  | |- triple _ _ (lift _) _ => apply triple_lift; intros ? ->
  | |- triple _ _ (check _) _ => apply triple_check; intros ->
  end; cbv beta iota.
