(* ===== verification/Plugins.v ===== *)
(** * The drain plugin interface and its gRPC adapters (src/api/plugins)

    [DrainPlugin] is the Go interface of the same name.  [DrainClient] is the
    implementation the operator uses: every method is one remote procedure call
    to the plugin process.  [DrainServer] runs inside the plugin process and
    maps the calls back to the plugin author's [DrainPlugin].
    [ExampleDrainPlugin] is the plugin of src/examples/plugin. *)

From stdpp Require Import base strings list.
From S2P Require Import Prelude NodeTypes Requests Effects.

Record DrainPluginInfo := mkDrainPluginInfo {
  ID : string;
  InfoConfigFormat : ConfigFormat
}.

(** [DrainPluginSettings]: the raw configuration bytes, [None] for a nil slice. *)
Record DrainPluginSettings := mkDrainPluginSettings { Settings_Config : option string }.

Record DrainPlugin (W : Type) := mkDrainPlugin {
  PluginInfo : M W DrainPluginInfo;
  Init : DrainPluginSettings -> M W unit;
  IsSupported : M W bool;
  IsHealthy : M W bool;
  IsDrainOk : string -> M W bool;
  PreDrain : string -> M W unit;
  PostDrain : string -> M W unit
}.
Arguments PluginInfo {W}.
Arguments Init {W}.
Arguments IsSupported {W}.
Arguments IsHealthy {W}.
Arguments IsDrainOk {W}.
Arguments PreDrain {W}.
Arguments PostDrain {W}.

(** ** Message accessors (generated code)

    Getters return the zero value for an unset field; builders set a field
    exactly when the pointer is non-nil. *)
Definition GetId (x : PluginInfoResponse) : string :=
  match pir_id x with Some s => s | None => EmptyString end.

Definition GetConfigFormat (x : PluginInfoResponse) : ConfigFormat :=
  match pir_config_format x with Some f => f | None => CONFIG_FORMAT_UNSPECIFIED end.

Definition GetBool (x : option bool) : bool :=
  match x with Some b => b | None => false end.

Definition GetNodeName (x : option string) : string :=
  match x with Some s => s | None => EmptyString end.

(** ** The client (drain-client.go) *)

Section Client.
Context {W : Type} `{Env W}.

(** [path] identifies the connection to one plugin process. *)
Definition Client_PluginInfo (path : string) : M W DrainPluginInfo :=
  r ← call (PluginRpc path RpcPluginInfo);
  info ← lift r;
  mret (mkDrainPluginInfo (GetId info) (GetConfigFormat info)).

Definition Client_Init (path : string) (settings : DrainPluginSettings) : M W unit :=
  r ← call (PluginRpc path (RpcInit (Settings_Config settings)));
  _ ← lift r;
  mret tt.

Definition Client_IsSupported (path : string) : M W bool :=
  r ← call (PluginRpc path RpcIsSupported);
  resp ← lift r;
  mret (GetBool resp).

Definition Client_IsHealthy (path : string) : M W bool :=
  r ← call (PluginRpc path RpcIsHealthy);
  resp ← lift r;
  mret (GetBool resp).

Definition Client_IsDrainOk (path nodeName : string) : M W bool :=
  r ← call (PluginRpc path (RpcIsDrainOk (Some nodeName)));
  resp ← lift r;
  mret (GetBool resp).

Definition Client_PreDrain (path nodeName : string) : M W unit :=
  r ← call (PluginRpc path (RpcPreDrain (Some nodeName)));
  lift r.

Definition Client_PostDrain (path nodeName : string) : M W unit :=
  r ← call (PluginRpc path (RpcPostDrain (Some nodeName)));
  lift r.

Definition DrainClient (path : string) : DrainPlugin W :=
  mkDrainPlugin W (Client_PluginInfo path) (Client_Init path)
    (Client_IsSupported path) (Client_IsHealthy path) (Client_IsDrainOk path)
    (Client_PreDrain path) (Client_PostDrain path).
End Client.

(** ** The server (drain-server.go)

    A handler that returns a response next to a non-nil error sends the error
    only, so the result of a call is one or the other. *)
Section Server.
Context {S : Type} (Impl : DrainPlugin S).

Definition Server_PluginInfo : M S PluginInfoResponse :=
  info ← PluginInfo Impl;
  mret (mkPluginInfoResponse (Some (ID info)) (Some (InfoConfigFormat info))).

Definition Server_Init (config : option string) : M S unit :=
  _ ← Init Impl (mkDrainPluginSettings config);
  mret tt.

Definition Server_IsSupported : M S (option bool) :=
  supported ← IsSupported Impl;
  mret (Some supported).

Definition Server_IsHealthy : M S (option bool) :=
  healthy ← IsHealthy Impl;
  mret (Some healthy).

Definition Server_IsDrainOk (node_name : option string) : M S (option bool) :=
  ok ← IsDrainOk Impl (GetNodeName node_name);
  mret (Some ok).

Definition Server_PreDrain (node_name : option string) : M S unit :=
  PreDrain Impl (GetNodeName node_name).

Definition Server_PostDrain (node_name : option string) : M S unit :=
  PostDrain Impl (GetNodeName node_name).

Definition DrainServer (m : Rpc) : M S (rpc_resp m) :=
  match m with
  | RpcPluginInfo => Server_PluginInfo
  | RpcInit c => Server_Init c
  | RpcIsSupported => Server_IsSupported
  | RpcIsHealthy => Server_IsHealthy
  | RpcIsDrainOk n => Server_IsDrainOk n
  | RpcPreDrain n => Server_PreDrain n
  | RpcPostDrain n => Server_PostDrain n
  end.
End Server.

(** ** The example plugin (src/examples/plugin/example-plugin.go)

    Its state is the logger field: nil until [Init].  Logging through a nil
    logger dereferences a nil interface. *)
Definition nilLogger : error :=
  ErrorString "invalid memory address or nil pointer dereference".

Definition with_logger {A} (a : A) : M bool A := fun logger =>
  if logger then ([], logger, inr a) else ([], logger, inl nilLogger).

Definition ExampleDrainPlugin : DrainPlugin bool :=
  mkDrainPlugin bool
    (mret (mkDrainPluginInfo "example-plugin" CONFIG_FORMAT_YAML))
    (fun _ _ => ([], true, inr tt))
    (with_logger true)
    (with_logger true)
    (fun _ => with_logger true)
    (fun _ => with_logger tt)
    (fun _ => with_logger tt).

(** ** The transport

    gRPC delivers a request to the server and its response back, or fails: a
    call that succeeds was served.  [plug] is the state of the plugin process
    behind [path]. *)
Class RpcTransport (W S : Type) `{Env W} (path : string) (Impl : DrainPlugin S)
    (plug : W -> S) : Prop :=
  rpc_served : forall m w a w',
    handle (PluginRpc path m) w = (inr a, w') ->
    exists evs, DrainServer Impl m (plug w) = (evs, plug w', inr a).

Section Roundtrip.
Context {W S : Type} `{Env W} (path : string) (Impl : DrainPlugin S) (plug : W -> S).
Context `{!RpcTransport W S path Impl plug}.

(** Every success of [c] on the operator's side is a success of [i] in the
    plugin process, with the same value. *)
Definition served_by {A} (c : M W A) (i : M S A) : Prop :=
  forall w evs w' v, c w = (evs, w', inr v) ->
    exists evs', i (plug w) = (evs', plug w', inr v).

(** What a successful call followed by decoding tells about the server. *)
Lemma served_call m {A} (dec : rpc_resp m -> A) (i : M S A) :
  (forall s evs s' a, DrainServer Impl m s = (evs, s', inr a) ->
     exists evs', i s = (evs', s', inr (dec a))) ->
  served_by (r ← call (PluginRpc path m); a ← lift r; mret (dec a)) i.
Proof.
  intros Hi w evs w' v. unfold mbind, M_bind, call.
  destruct (handle (PluginRpc path m) w) as [[e|a] w1] eqn:E; simpl; [done|].
  intros [= <- <- <-]. destruct (rpc_served _ _ _ _ E) as [evs1 E1]. eauto.
Qed.

Lemma served_by_equiv {A} (c c' : M W A) (i : M S A) :
  c ≡ c' -> served_by c' i -> served_by c i.
Proof. intros Hc Hi w evs w' v E. rewrite Hc in E. eauto. Qed.

(** The [call] and [lift] of a method that returns only an error. *)
Lemma call_lift_unit (m : Rpc) :
  (r ← call (PluginRpc path m); lift r)
    ≡ (r ← call (PluginRpc path m); a ← lift r; mret a).
Proof. f_equiv. intros r. symmetry. apply bind_ret_r. Qed.
End Roundtrip.

(** Inverts a successful run of the short server bodies. *)
Ltac invert_server :=
  let E := fresh "E" in
  intros s evs s' a E; revert E;
  match goal with
  | |- context [DrainServer ?I _ _] =>
      unfold DrainServer, Server_PluginInfo, Server_Init, Server_IsSupported,
        Server_IsHealthy, Server_IsDrainOk, Server_PreDrain, Server_PostDrain,
        GetNodeName, mbind, M_bind; simpl
  end;
  repeat match goal with
  | |- context [match ?f ?s with _ => _ end] =>
      destruct (f s) as [[? ?] [?|?]]; simpl
  end; intros [= <- <- <-] || intros ?; eauto.

Lemma served_PluginInfo {W S : Type} `{Env W} path (Impl : DrainPlugin S) (plug : W -> S)
    `{!RpcTransport W S path Impl plug} :
  served_by plug (PluginInfo (DrainClient path)) (PluginInfo Impl).
Proof.
  apply (served_call path Impl plug RpcPluginInfo
    (fun i => mkDrainPluginInfo (GetId i) (GetConfigFormat i))).
  invert_server. match goal with x : DrainPluginInfo |- _ => destruct x end. eauto.
Qed.

Lemma served_Init {W S : Type} `{Env W} path (Impl : DrainPlugin S) (plug : W -> S)
    `{!RpcTransport W S path Impl plug} st :
  served_by plug (Init (DrainClient path) st) (Init Impl st).
Proof.
  apply (served_call path Impl plug (RpcInit (Settings_Config st)) (fun _ => tt)).
  destruct st. invert_server. match goal with x : unit |- _ => destruct x end. eauto.
Qed.

(** C35. The gRPC adapters are transparent: over a transport that only
    delivers what the server answered, each of the seven [DrainClient] methods
    that succeeds returns exactly what the plugin's own method returned in the
    plugin process, with node name and configuration bytes unchanged on the
    way. *)
Theorem drain_client_transparent {W S : Type} `{Env W} (path : string)
    (Impl : DrainPlugin S) (plug : W -> S) `{!RpcTransport W S path Impl plug} :
  served_by plug (PluginInfo (DrainClient path)) (PluginInfo Impl) /\
  (forall st, served_by plug (Init (DrainClient path) st) (Init Impl st)) /\
  served_by plug (IsSupported (DrainClient path)) (IsSupported Impl) /\
  served_by plug (IsHealthy (DrainClient path)) (IsHealthy Impl) /\
  (forall n, served_by plug (IsDrainOk (DrainClient path) n) (IsDrainOk Impl n)) /\
  (forall n, served_by plug (PreDrain (DrainClient path) n) (PreDrain Impl n)) /\
  (forall n, served_by plug (PostDrain (DrainClient path) n) (PostDrain Impl n)).
Proof.
  split_and!; intros; cbn [DrainClient PluginInfo Init IsSupported IsHealthy
    IsDrainOk PreDrain PostDrain].
  - by apply served_PluginInfo.
  - by apply served_Init.
  - apply (served_call path Impl plug RpcIsSupported GetBool). invert_server.
  - apply (served_call path Impl plug RpcIsHealthy GetBool). invert_server.
  - apply (served_call path Impl plug (RpcIsDrainOk (Some n)) GetBool). invert_server.
  - eapply served_by_equiv; [exact (call_lift_unit path (RpcPreDrain (Some n)))|].
    apply (served_call path Impl plug (RpcPreDrain (Some n)) (fun u => u)). invert_server.
  - eapply served_by_equiv; [exact (call_lift_unit path (RpcPostDrain (Some n)))|].
    apply (served_call path Impl plug (RpcPostDrain (Some n)) (fun u => u)). invert_server.
Qed.
