(* ===== verification/Messages.v ===== *)
(** * The protobuf messages (src/api/plugins/proto/v1/drain_plugin.pb.go)

    The generated messages use the opaque API: hidden fields next to a word of
    presence bits.  This file has their accessors and builders over that
    representation, and relates them to the view the rest of the development has of
    a message, a record of optional fields.  The library's bit operations
    ([protoimpl.X]) are a parameter with the laws their documentation gives.

    Messages of one shape have the same generated body: [BoolMsg] stands for
    IsSupportedResponse, IsHealthyResponse and IsDrainOkResponse, [NodeNameMsg] for
    IsDrainOkRequest, PreDrainRequest and PostDrainRequest. *)

From Stdlib Require Import ZArith Lia.
From stdpp Require Import base strings list.
From S2P Require Import Prelude NodeTypes Requests Effects Plugins.

Local Open Scope Z_scope.

(** [protoimpl.X] on a word of 32 presence bits. *)
Class ProtoImpl := {
  Present : Z -> Z -> bool;
  SetPresent : Z -> Z -> Z -> Z;            (* word, bit, number of fields *)
  SetPresentNonAtomic : Z -> Z -> Z -> Z;
  ClearPresent : Z -> Z -> Z
}.

Definition uint32 (w : Z) : Prop := 0 <= w < 2 ^ 32.

Class ProtoImplLaws `{ProtoImpl} : Prop := {
  present_zero i : Present 0 i = false;
  present_set w i n j : uint32 w -> 0 <= i < n -> n <= 32 -> 0 <= j < 32 ->
    Present (SetPresent w i n) j = (i =? j) || Present w j;
  nonatomic_set w i n : SetPresentNonAtomic w i n = SetPresent w i n;
  present_clear w i j : uint32 w -> 0 <= i < 32 -> 0 <= j < 32 ->
    Present (ClearPresent w i) j = negb (i =? j) && Present w j;
  set_width w i n : uint32 w -> 0 <= i < n -> n <= 32 -> uint32 (SetPresent w i n);
  clear_width w i : uint32 w -> 0 <= i < 32 -> uint32 (ClearPresent w i)
}.

(** A method with a pointer receiver that reads or writes through it. *)
Definition deref {M A} (x : option M) (f : M -> A) : outcome error A :=
  match x with Some x => Returns (f x) | None => Panics end.

Section Messages.
Context `{ProtoImpl}.

(** ** PluginInfoResponse *)

Record PluginInfoResponseMsg := mkPluginInfoResponseMsg {
  pim_hidden_Id : option string;
  pim_hidden_ConfigFormat : ConfigFormat;
  pim_presence : Z
}.

Definition PluginInfoResponse_GetId (x : option PluginInfoResponseMsg) : string :=
  match x with
  | Some x => match pim_hidden_Id x with Some s => s | None => EmptyString end
  | None => EmptyString
  end.

Definition PluginInfoResponse_GetConfigFormat (x : option PluginInfoResponseMsg) : ConfigFormat :=
  match x with
  | Some x =>
      if Present (pim_presence x) 1 then pim_hidden_ConfigFormat x else CONFIG_FORMAT_UNSPECIFIED
  | None => CONFIG_FORMAT_UNSPECIFIED
  end.

Definition PluginInfoResponse_SetId (x : option PluginInfoResponseMsg) (v : string) :=
  deref x (fun x => mkPluginInfoResponseMsg (Some v) (pim_hidden_ConfigFormat x)
                      (SetPresent (pim_presence x) 0 2)).

Definition PluginInfoResponse_SetConfigFormat (x : option PluginInfoResponseMsg) (v : ConfigFormat) :=
  deref x (fun x => mkPluginInfoResponseMsg (pim_hidden_Id x) v
                      (SetPresent (pim_presence x) 1 2)).

Definition PluginInfoResponse_HasId (x : option PluginInfoResponseMsg) : bool :=
  match x with None => false | Some x => Present (pim_presence x) 0 end.

Definition PluginInfoResponse_HasConfigFormat (x : option PluginInfoResponseMsg) : bool :=
  match x with None => false | Some x => Present (pim_presence x) 1 end.

Definition PluginInfoResponse_ClearId (x : option PluginInfoResponseMsg) :=
  deref x (fun x => mkPluginInfoResponseMsg None (pim_hidden_ConfigFormat x)
                      (ClearPresent (pim_presence x) 0)).

Definition PluginInfoResponse_ClearConfigFormat (x : option PluginInfoResponseMsg) :=
  deref x (fun x => mkPluginInfoResponseMsg (pim_hidden_Id x) CONFIG_FORMAT_UNSPECIFIED
                      (ClearPresent (pim_presence x) 1)).

(** The builder is the record of optional fields. *)
Definition PluginInfoResponse_Build (b : PluginInfoResponse) : PluginInfoResponseMsg :=
  let x := mkPluginInfoResponseMsg None CONFIG_FORMAT_UNSPECIFIED 0 in
  let x := match pir_id b with
           | Some _ => mkPluginInfoResponseMsg (pir_id b) (pim_hidden_ConfigFormat x)
                         (SetPresentNonAtomic (pim_presence x) 0 2)
           | None => x
           end in
  match pir_config_format b with
  | Some f => mkPluginInfoResponseMsg (pim_hidden_Id x) f
                (SetPresentNonAtomic (pim_presence x) 1 2)
  | None => x
  end.

(** ** InitRequest: a byte slice, [None] for nil *)

Record InitRequestMsg := mkInitRequestMsg { irm_hidden_Config : option string; irm_presence : Z }.

Definition InitRequest_GetConfig (x : option InitRequestMsg) : option string :=
  match x with Some x => irm_hidden_Config x | None => None end.

Definition InitRequest_SetConfig (x : option InitRequestMsg) (v : option string) :=
  let v := match v with None => Some EmptyString | Some _ => v end in
  deref x (fun x => mkInitRequestMsg v (SetPresent (irm_presence x) 0 1)).

Definition InitRequest_HasConfig (x : option InitRequestMsg) : bool :=
  match x with None => false | Some x => Present (irm_presence x) 0 end.

Definition InitRequest_ClearConfig (x : option InitRequestMsg) :=
  deref x (fun x => mkInitRequestMsg None (ClearPresent (irm_presence x) 0)).

Definition InitRequest_Build (b : option string) : InitRequestMsg :=
  match b with
  | Some _ => mkInitRequestMsg b (SetPresentNonAtomic 0 0 1)
  | None => mkInitRequestMsg None 0
  end.

(** ** Responses with one flag *)

Record BoolMsg := mkBoolMsg { bm_hidden : bool; bm_presence : Z }.

Definition BoolMsg_Get (x : option BoolMsg) : bool :=
  match x with Some x => bm_hidden x | None => false end.

Definition BoolMsg_Set (x : option BoolMsg) (v : bool) :=
  deref x (fun x => mkBoolMsg v (SetPresent (bm_presence x) 0 1)).

Definition BoolMsg_Has (x : option BoolMsg) : bool :=
  match x with None => false | Some x => Present (bm_presence x) 0 end.

Definition BoolMsg_Clear (x : option BoolMsg) :=
  deref x (fun x => mkBoolMsg false (ClearPresent (bm_presence x) 0)).

Definition BoolMsg_Build (b : option bool) : BoolMsg :=
  match b with
  | Some v => mkBoolMsg v (SetPresentNonAtomic 0 0 1)
  | None => mkBoolMsg false 0
  end.

(** ** Requests with a node name *)

Record NodeNameMsg := mkNodeNameMsg { nm_hidden_NodeName : option string; nm_presence : Z }.

Definition NodeNameMsg_GetNodeName (x : option NodeNameMsg) : string :=
  match x with
  | Some x => match nm_hidden_NodeName x with Some s => s | None => EmptyString end
  | None => EmptyString
  end.

Definition NodeNameMsg_SetNodeName (x : option NodeNameMsg) (v : string) :=
  deref x (fun x => mkNodeNameMsg (Some v) (SetPresent (nm_presence x) 0 1)).

Definition NodeNameMsg_HasNodeName (x : option NodeNameMsg) : bool :=
  match x with None => false | Some x => Present (nm_presence x) 0 end.

Definition NodeNameMsg_ClearNodeName (x : option NodeNameMsg) :=
  deref x (fun x => mkNodeNameMsg None (ClearPresent (nm_presence x) 0)).

Definition NodeNameMsg_Build (b : option string) : NodeNameMsg :=
  match b with
  | Some _ => mkNodeNameMsg b (SetPresentNonAtomic 0 0 1)
  | None => mkNodeNameMsg None 0
  end.

(** ** Optional fields *)

(** The view of a message: a field is there when its bit is set.  Values agree with
    the bits: a pointer is non-nil exactly when its bit is set, a scalar whose bit
    is not set has its zero value. *)
Class Message (M F : Type) := { fields : M -> F; valid : M -> Prop; build : F -> M }.

#[global] Instance pluginInfo_message : Message PluginInfoResponseMsg PluginInfoResponse := {
  fields x := mkPluginInfoResponse
    (if Present (pim_presence x) 0 then pim_hidden_Id x else None)
    (if Present (pim_presence x) 1 then Some (pim_hidden_ConfigFormat x) else None);
  valid x := uint32 (pim_presence x) /\
    Present (pim_presence x) 0 = bool_decide (is_Some (pim_hidden_Id x)) /\
    (Present (pim_presence x) 1 = false -> pim_hidden_ConfigFormat x = CONFIG_FORMAT_UNSPECIFIED);
  build := PluginInfoResponse_Build
}.

#[global] Instance init_message : Message InitRequestMsg (option string) := {
  fields x := if Present (irm_presence x) 0 then irm_hidden_Config x else None;
  valid x := uint32 (irm_presence x) /\
    Present (irm_presence x) 0 = bool_decide (is_Some (irm_hidden_Config x));
  build := InitRequest_Build
}.

#[global] Instance bool_message : Message BoolMsg (option bool) := {
  fields x := if Present (bm_presence x) 0 then Some (bm_hidden x) else None;
  valid x := uint32 (bm_presence x) /\ (Present (bm_presence x) 0 = false -> bm_hidden x = false);
  build := BoolMsg_Build
}.

#[global] Instance nodeName_message : Message NodeNameMsg (option string) := {
  fields x := if Present (nm_presence x) 0 then nm_hidden_NodeName x else None;
  valid x := uint32 (nm_presence x) /\
    Present (nm_presence x) 0 = bool_decide (is_Some (nm_hidden_NodeName x));
  build := NodeNameMsg_Build
}.

(** ** Refinement *)

(** The generated methods of one field. *)
Record FieldOps (M A : Type) := mkFieldOps {
  op_get : option M -> A;
  op_set : option M -> A -> outcome error M;
  op_has : option M -> bool;
  op_clear : option M -> outcome error M
}.
Arguments op_get {M A}.
Arguments op_set {M A}.
Arguments op_has {M A}.
Arguments op_clear {M A}.

(** They implement the optional field [look]/[put] of the view: a nil message reads
    as one without the field and cannot be written; reading gives the value or the
    zero value; setting and clearing change this field only and keep the message
    valid.  [norm] is what setting does to a value (a nil slice becomes empty). *)
Definition implements {M F A : Type} `{Message M F} (zero : A) (norm : A -> A)
    (look : F -> option A) (put : F -> option A -> F) (f : FieldOps M A) : Prop :=
  (op_get f None = zero /\ op_has f None = false /\
   op_clear f None = Panics /\ forall v, op_set f None v = Panics) /\
  forall x : M, valid x ->
    op_get f (Some x) = default zero (look (fields x)) /\
    op_has f (Some x) = bool_decide (is_Some (look (fields x))) /\
    (forall v, exists x', op_set f (Some x) v = Returns x' /\ valid x' /\
       fields x' = put (fields x) (Some (norm v))) /\
    (exists x', op_clear f (Some x) = Returns x' /\ valid x' /\ fields x' = put (fields x) None).

Definition builds {M F : Type} `{Message M F} : Prop :=
  forall b : F, valid (build b) /\ fields (build b) = b.

Context `{!ProtoImplLaws}.

Lemma uint32_zero : uint32 0.
Proof. unfold uint32. lia. Qed.

(** Reads of bits after writes of bits. *)
Ltac bits :=
  repeat first
    [ progress simpl
    | rewrite nonatomic_set
    | rewrite present_zero
    | rewrite present_set by (first [done | lia | auto using uint32_zero, set_width with lia])
    | rewrite present_clear by (first [done | lia | auto using uint32_zero, set_width with lia]) ].

Ltac widths := repeat first
  [ apply uint32_zero | done | rewrite nonatomic_set
  | apply set_width; [|lia|lia] | apply clear_width; [|lia] ].

Lemma builds_all :
  builds (M := PluginInfoResponseMsg) /\ builds (M := InitRequestMsg) /\
  builds (M := BoolMsg) /\ builds (M := NodeNameMsg).
Proof.
  assert (H01 : uint32 (SetPresent 0 0 2)) by widths.
  split_and!; [intros [[i|] [f|]]|intros [s|]|intros [[]|]|intros [s|]];
    (split; [split_and!|]); simpl; unfold PluginInfoResponse_Build; simpl; widths; bits; try done.
Qed.

Definition id_ops : FieldOps PluginInfoResponseMsg string :=
  mkFieldOps _ _ PluginInfoResponse_GetId PluginInfoResponse_SetId PluginInfoResponse_HasId
    PluginInfoResponse_ClearId.
Definition configFormat_ops : FieldOps PluginInfoResponseMsg ConfigFormat :=
  mkFieldOps _ _ PluginInfoResponse_GetConfigFormat PluginInfoResponse_SetConfigFormat
    PluginInfoResponse_HasConfigFormat PluginInfoResponse_ClearConfigFormat.
Definition config_ops : FieldOps InitRequestMsg (option string) :=
  mkFieldOps _ _ InitRequest_GetConfig InitRequest_SetConfig InitRequest_HasConfig
    InitRequest_ClearConfig.
Definition flag_ops : FieldOps BoolMsg bool :=
  mkFieldOps _ _ BoolMsg_Get BoolMsg_Set BoolMsg_Has BoolMsg_Clear.
Definition nodeName_ops : FieldOps NodeNameMsg string :=
  mkFieldOps _ _ NodeNameMsg_GetNodeName NodeNameMsg_SetNodeName NodeNameMsg_HasNodeName
    NodeNameMsg_ClearNodeName.


(** The message a write leaves is valid and has the field. *)
Ltac written := eexists; split_and!; [reflexivity|simpl; widths|bits; try done..].

Lemma implements_id :
  implements EmptyString (fun v => v) pir_id
    (fun f o => mkPluginInfoResponse o (pir_config_format f)) id_ops.
Proof.
  split; [done|]. intros [i f w] (Hw & Hi & Hf). simpl in *. split_and!.
  - by destruct i, (Present w 0).
  - by destruct i, (Present w 0).
  - intros v. written.
  - written.
Qed.

Lemma implements_configFormat :
  implements CONFIG_FORMAT_UNSPECIFIED (fun v => v) pir_config_format
    (fun f o => mkPluginInfoResponse (pir_id f) o) configFormat_ops.
Proof.
  split; [done|]. intros [i f w] (Hw & Hi & Hf). simpl in *. split_and!.
  - by destruct (Present w 1).
  - by destruct (Present w 1).
  - intros v. written.
  - written.
Qed.

Lemma implements_config :
  implements None (fun v => Some (default EmptyString v)) (fmap Some) (fun _ o => mjoin o) config_ops.
Proof.
  split; [done|]. intros [c w] (Hw & Hc). simpl in *. split_and!.
  - by destruct c, (Present w 0).
  - by destruct c, (Present w 0).
  - intros [v|]; written.
  - written.
Qed.

Lemma GetConfig_fields (x : InitRequestMsg) : valid x -> InitRequest_GetConfig (Some x) = fields x.
Proof.
  intros Hx. destruct implements_config as [_ Hc]. destruct (Hc x Hx) as [Hg _].
  etrans; [exact Hg|]. by destruct (fields x).
Qed.

Lemma implements_flag :
  implements false (fun v => v) (fun o => o) (fun _ o => o) flag_ops.
Proof.
  split; [done|]. intros [b w] (Hw & Hb). simpl in *. split_and!.
  - destruct (Present w 0); [done|]. by rewrite Hb.
  - by destruct (Present w 0).
  - intros v. written.
  - written.
Qed.

Lemma implements_nodeName :
  implements EmptyString (fun v => v) (fun o => o) (fun _ o => o) nodeName_ops.
Proof.
  split; [done|]. intros [i w] (Hw & Hi). simpl in *. split_and!.
  - by destruct i, (Present w 0).
  - by destruct i, (Present w 0).
  - intros v. written.
  - written.
Qed.

(** C34. The opaque messages implement optional fields.  Whatever a builder is given
    can be read off the message it builds, and nothing else; for each field, a nil
    message reads as one without the field and panics when written, reading gives
    the field or its zero value, and setting and clearing change that field and no
    other.  The presence word stays within its 32 bits and in agreement with the
    hidden values throughout; setting the configuration to a nil slice stores an
    empty one. *)
Theorem messages_implement_fields :
  (builds (M := PluginInfoResponseMsg) /\ builds (M := InitRequestMsg) /\
   builds (M := BoolMsg) /\ builds (M := NodeNameMsg)) /\
  implements EmptyString (fun v => v) pir_id
    (fun f o => mkPluginInfoResponse o (pir_config_format f)) id_ops /\
  implements CONFIG_FORMAT_UNSPECIFIED (fun v => v) pir_config_format
    (fun f o => mkPluginInfoResponse (pir_id f) o) configFormat_ops /\
  implements None (fun v => Some (default EmptyString v)) (fmap Some) (fun _ o => mjoin o) config_ops /\
  implements false (fun v => v) (fun o => o) (fun _ o => o) flag_ops /\
  implements EmptyString (fun v => v) (fun o => o) (fun _ o => o) nodeName_ops.
Proof.
  split; [exact builds_all|]. split_and!; [apply implements_id|apply implements_configFormat
    |apply implements_config|apply implements_flag|apply implements_nodeName].
Qed.
End Messages.
