(* ===== verification/Config.v ===== *)
(** * Configuration (src/internal/config/config.go)

    The decoded [Config] struct with its accessors, and the plugin
    configuration lookup.  The koanf store behind it is a library: the
    program's reads of it are the parameter [koanf_Duration] and the request
    [KoanfCutMarshal]. *)

From stdpp Require Import base gmap strings list.
From S2P Require Import Prelude NodeTypes Requests Effects.

Local Open Scope string_scope.

Record Logger := mkLogger { Level : string }.

Record LogConfig := mkLogConfig {
  Log_Level : string;
  Log_Format : string;
  Loggers : gmap string Logger
}.

Record ResourceList := mkResourceList { Memory : string; CPU : string }.

Record ContainerResources := mkContainerResources {
  Requests : ResourceList; Limits : ResourceList }.

Record PodConfig := mkPodConfig {
  PriorityClassName : string; Pod_ContainerResources : ContainerResources }.

Record Config := mkConfig {
  Log : LogConfig;
  CheckInterval : Z;
  PodCfg : PodConfig;
  ContainerNode : bool
}.

(** [corev1.ResourceCPU] and [corev1.ResourceMemory]. *)
Definition ResourceCPU : string := "cpu".
Definition ResourceMemory : string := "memory".

(** [func (c *ResourceList) toKubernetes()]: the inner tests repeat the outer
    one, as in the source. *)
Definition toKubernetes (c : ResourceList) : option (list (string * string)) :=
  if negb (CPU c =? EmptyString) && negb (Memory c =? EmptyString) then
    let list := [] in
    let list := if negb (CPU c =? EmptyString)
                then (ResourceCPU, CPU c) :: list else list in
    let list := if negb (Memory c =? EmptyString)
                then (ResourceMemory, Memory c) :: list else list in
    Some list
  else None.

Definition ToResourceRequirement (c : ContainerResources) : ResourceRequirements :=
  mkResourceRequirements (toKubernetes (Requests c)) (toKubernetes (Limits c)).

(** [func (c *Config) GetLogger(name string) Logger]. *)
Definition GetLogger (c : Config) (name : string) : Logger :=
  match Loggers (Log c) !! name with
  | Some logger =>
      if Level logger =? EmptyString then mkLogger (Log_Level (Log c)) else logger
  | None => mkLogger (Log_Level (Log c))
  end.

(** The [String()] of a [ConfigFormat]. *)
Definition ConfigFormat_String (f : ConfigFormat) : string :=
  match f with
  | CONFIG_FORMAT_UNSPECIFIED => "CONFIG_FORMAT_UNSPECIFIED"
  | CONFIG_FORMAT_YAML => "CONFIG_FORMAT_YAML"
  | CONFIG_FORMAT_JSON => "CONFIG_FORMAT_JSON"
  | CONFIG_FORMAT_other n => pretty.pretty n
  end.

(** [func GetPluginConfig(format, pluginId) ([]byte, error)]: cuts the
    [plugins.<id>] subtree out of the store and marshals it. *)
Definition GetPluginConfig {W} `{Env W} (format : ConfigFormat) (pluginId : string)
    : M W string :=
  match format with
  | CONFIG_FORMAT_JSON | CONFIG_FORMAT_YAML =>
      r ← call (KoanfCutMarshal ("plugins." +:+ pluginId) format);
      lift r
  | _ => raise (ErrorString ("unknown format: " +:+ ConfigFormat_String format))
  end.

(** ** Environment variables

    The [TransformFunc] given to koanf's environment provider: the key path and
    the value, a list when the text has spaces. *)

(** [strings.TrimPrefix]. *)
Definition TrimPrefix (s prefix : string) : string :=
  if String.prefix prefix s
  then String.substring (String.length prefix) (String.length s - String.length prefix) s
  else s.

(** The characters the transformation looks for. *)
Definition char_space : Ascii.ascii := Ascii.ascii_of_nat 32.
Definition char_dot : Ascii.ascii := Ascii.ascii_of_nat 46.
Definition char_underscore : Ascii.ascii := Ascii.ascii_of_nat 95.

(** [strings.ToLower], on ASCII (names of environment variables). *)
Definition lower (c : Ascii.ascii) : Ascii.ascii :=
  let n := Ascii.nat_of_ascii c in
  if (65 <=? n)%nat && (n <=? 90)%nat then Ascii.ascii_of_nat (n + 32) else c.

Fixpoint map_string (f : Ascii.ascii -> Ascii.ascii) (s : string) : string :=
  match s with
  | EmptyString => EmptyString
  | String c s' => String (f c) (map_string f s')
  end.

Definition ToLower : string -> string := map_string lower.

(** [strings.ReplaceAll(s, "_", ".")]. *)
Definition underscore_to_dot (c : Ascii.ascii) : Ascii.ascii :=
  if Ascii.eqb c char_underscore then char_dot else c.

(** [strings.Split(v, " ")]; [acc] is the current piece, reversed. *)
Fixpoint split_go (acc : list Ascii.ascii) (s : string) : list string :=
  match s with
  | EmptyString => [String.string_of_list_ascii (rev acc)]
  | String c s' =>
      if Ascii.eqb c char_space then String.string_of_list_ascii (rev acc) :: split_go [] s'
      else split_go (c :: acc) s'
  end.

Definition SplitSpace (s : string) : list string := split_go [] s.

(** [strings.Contains(v, " ")]. *)
Fixpoint contains_space (s : string) : bool :=
  match s with
  | EmptyString => false
  | String c s' => Ascii.eqb c char_space || contains_space s'
  end.

Definition transformEnv (k v : string) : string * (list string + string) :=
  let k := map_string underscore_to_dot (ToLower (TrimPrefix k "NODEDRAIN_")) in
  if contains_space v then (k, inl (SplitSpace v)) else (k, inr v).

(** ** Facts *)

(** No upper case letter. *)
Fixpoint no_upper (s : string) : bool :=
  match s with
  | EmptyString => true
  | String c s' =>
      let n := Ascii.nat_of_ascii c in
      negb ((65 <=? n)%nat && (n <=? 90)%nat) && no_upper s'
  end.

Lemma transformed_no_upper s : no_upper (map_string underscore_to_dot (ToLower s)) = true.
Proof.
  induction s as [|c s IH]; [done|]. unfold ToLower in *. simpl. rewrite IH, andb_true_r.
  destruct c as [[] [] [] [] [] [] [] []]; reflexivity.
Qed.

Lemma append_empty_r s : (s +:+ EmptyString)%string = s.
Proof. induction s as [|c s IH]; [done|]. exact (f_equal (String c) IH). Qed.

Lemma split_go_nonempty s acc : split_go acc s <> [].
Proof. revert acc. induction s as [|c s IH]; intros acc; simpl; [done|]. by destruct (Ascii.eqb _ _). Qed.

Lemma SplitSpace_join s : strings_Join (SplitSpace s) " " = s.
Proof.
  unfold SplitSpace.
  assert (Hgo : forall acc, strings_Join (split_go acc s) " " =
    (String.string_of_list_ascii (rev acc) +:+ s)%string).
  { induction s as [|c s IH]; intros acc; simpl.
    - by rewrite append_empty_r.
    - destruct (Ascii.eqb_spec c char_space) as [->|Hc].
      + pose proof (split_go_nonempty s []) as Hne.
        destruct (split_go [] s) as [|p l] eqn:El; [done|].
        rewrite strings_Join_cons, <- El, IH. done.
      + rewrite IH. simpl. generalize (rev acc). intros l.
        induction l as [|d l IHl]; [done|]. exact (f_equal (String d) IHl). }
  apply (Hgo []).
Qed.

(** ** Properties *)

(** Environment variables cannot set a camel-case key: whatever the
    variable's name, the key it is stored under has no upper case letter, so it is
    never the [reboot.checkInterval] the controller reads. *)
Theorem env_key_lower_case k v :
  no_upper (fst (transformEnv k v)) = true /\
  fst (transformEnv k v) <> "reboot.checkInterval".
Proof.
  assert (Hn : no_upper (fst (transformEnv k v)) = true).
  { unfold transformEnv. destruct (contains_space v); apply transformed_no_upper. }
  split; [done|]. intros E. rewrite E in Hn. discriminate Hn.
Qed.

(** The value of an environment variable survives the transformation: kept as
    it is, or split at its spaces in a way that joining undoes. *)
Theorem env_value_preserved k v :
  match snd (transformEnv k v) with
  | inr s => s = v
  | inl l => strings_Join l " " = v
  end.
Proof.
  unfold transformEnv. destruct (contains_space v); simpl; [apply SplitSpace_join|done].
Qed.

(** A resource list is passed on only when both quantities are configured:
    setting CPU alone or memory alone yields no requirement at all. *)
Theorem toKubernetes_needs_both c :
  match toKubernetes c with
  | Some l => CPU c <> EmptyString /\ Memory c <> EmptyString /\
      l = [(ResourceMemory, Memory c); (ResourceCPU, CPU c)]
  | None => CPU c = EmptyString \/ Memory c = EmptyString
  end.
Proof.
  unfold toKubernetes.
  destruct (String.eqb_spec (CPU c) EmptyString), (String.eqb_spec (Memory c) EmptyString); simpl; auto.
Qed.
