(* ===== verification/Logging.v ===== *)
(** * Loggers (src/internal/config/logger.go)

    The process has one zap configuration, made by [GetLogger] at start-up and
    kept in [_loggerConfig]; [GetNamedLogger] overwrites its level and builds
    another logger from it.  A [zap.AtomicLevel] is a handle to a mutable level,
    shared by the configuration and every logger built from it, so the state
    here is the store of those levels together with [_loggerConfig].

    zap itself is a library: what the program calls is the class [Zap], what is
    assumed of it the class [ZapLaws]. *)

From Stdlib Require Import ZArith Lia.
From stdpp Require Import base gmap strings list.
From S2P Require Import Prelude NodeTypes Requests Effects Config.

Local Open Scope string_scope.

(** ** Levels (zapcore.Level, an int8) *)

Definition DebugLevel : Z := -1.
Definition InfoLevel : Z := 0.
Definition WarnLevel : Z := 1.
Definition ErrorLevel : Z := 2.
Definition FatalLevel : Z := 5.

Definition TraceLevel : Z := DebugLevel - 1.

(** ** The library *)

(** [zap.Config], the parts the program sets; [zc_Level] is the handle. *)
Record ZapConfig := mkZapConfig {
  zc_Level : nat;
  zc_Encoding : string;
  zc_EncodeLevel : Z -> string;
  zc_EncodeTime : string;
  zc_OutputPaths : list string;
  zc_ErrorOutputPaths : list string;
  zc_DisableStacktrace : bool
}.

Class Zap (L : Type) := {
  parseLevel : string -> error + Z;
  Build : ZapConfig -> error + L;
  Named : L -> string -> L;
  atomicLevel : L -> nat;
  CapitalColorLevelEncoder : Z -> string;
  LowercaseLevelEncoder : Z -> string;
  CyanString : string -> string
}.

(** A logger is built on the level handle of its configuration and its
    descendants share it. *)
Class ZapLaws (L : Type) `{Zap L} : Prop := {
  Build_level c l : Build c = inr l -> atomicLevel l = zc_Level c;
  Named_level l n : atomicLevel (Named l n) = atomicLevel l
}.

(** ** State *)

Record LogState := mkLogState {
  atomics : list Z;
  _loggerConfig : option ZapConfig;
  warnings : list (string * error)
}.

(** [zap.NewAtomicLevelAt]: a fresh handle. *)
Definition NewAtomicLevelAt (st : LogState) (l : Z) : LogState * nat :=
  (mkLogState (atomics st ++ [l]) (_loggerConfig st) (warnings st), length (atomics st)).

Section Logger.
Context {L : Type} `{Zap L}.

(** [zap.ParseAtomicLevel]. *)
Definition ParseAtomicLevel (st : LogState) (text : string) : LogState * (error + nat) :=
  match parseLevel text with
  | inl err => (st, inl err)
  | inr l => let '(st, h) := NewAtomicLevelAt st l in (st, inr h)
  end.

(** [func setLoggerConfig(loggerConfig *zap.Config)]. *)
Definition setLoggerConfig (st : LogState) (c : ZapConfig) : LogState :=
  mkLogState (atomics st) (Some c) (warnings st).

(** The closure given to [EncodeLevel] first. *)
Definition encodeLevel (logFormat : string) (l : Z) : string :=
  if logFormat =? "console" then
    if (l =? TraceLevel)%Z then CyanString "TRACE" else CapitalColorLevelEncoder l
  else if (l =? TraceLevel)%Z then "trace"
  else LowercaseLevelEncoder l.

(** [func GetLogger(logLevel, logFormat string)]. *)
Definition GetLogger (st : LogState) (logLevel logFormat : string)
    : LogState * (error + L) :=
  let '(st, level) := ParseAtomicLevel st logLevel in
  match level with
  | inl err => (st, inl (WrapError "failed to parse log level: " err))
  | inr level =>
      let disableStackTrace := true in
      let encode := encodeLevel logFormat in
      let disableStackTrace := if logFormat =? "json" then false else disableStackTrace in
      let encode := if logFormat =? "console" then CapitalColorLevelEncoder else encode in
      let loggerConfig :=
        mkZapConfig level logFormat encode "ISO8601" ["stdout"] ["stderr"] disableStackTrace in
      match Build loggerConfig with
      | inl err => (st, inl (WrapError "failed to build logger: " err))
      | inr logger => (setLoggerConfig st loggerConfig, inr logger)
      end
  end.

Definition set_Level (c : ZapConfig) (h : nat) : ZapConfig :=
  mkZapConfig h (zc_Encoding c) (zc_EncodeLevel c) (zc_EncodeTime c)
    (zc_OutputPaths c) (zc_ErrorOutputPaths c) (zc_DisableStacktrace c).

(** The level of a named logger: [trace] in any case, else what zap parses,
    else info with a warning on the global logger. *)
Definition namedLevel (st : LogState) (name level : string) : LogState * nat :=
  if ToLower level =? "trace" then NewAtomicLevelAt st TraceLevel
  else
    match ParseAtomicLevel st level with
    | (st, inr h) => (st, h)
    | (st, inl err) =>
        let st := mkLogState (atomics st) (_loggerConfig st) (warnings st ++ [(name, err)]) in
        NewAtomicLevelAt st InfoLevel
    end.

(** [func GetNamedLogger(name string)]; [conf] is the
    package variable [_config].  Both package variables are dereferenced. *)
Definition GetNamedLogger (conf : option Config) (st : LogState) (name : string)
    : LogState * outcome error L :=
  match conf with
  | None => (st, Panics)
  | Some conf =>
      let logger := Config.GetLogger conf name in
      let '(st, level) := namedLevel st name (Level logger) in
      match _loggerConfig st with
      | None => (st, Panics)
      | Some c =>
          let c := set_Level c level in
          let st := setLoggerConfig st c in
          match Build c with
          | inl err =>
              (st, Fails (WrapError ("error building named zap logger for " +:+ name +:+ ": ") err))
          | inr l => (st, Returns (Named l name))
          end
      end
  end.

Local Arguments GetNamedLogger : simpl never.

(** A sequence of requests for named loggers, as the components make them. *)
Fixpoint namedLoggers (conf : option Config) (st : LogState) (names : list string)
    : LogState * list (string * outcome error L) :=
  match names with
  | [] => (st, [])
  | n :: ns =>
      let '(st, r) := GetNamedLogger conf st n in
      let '(st, rs) := namedLoggers conf st ns in
      (st, (n, r) :: rs)
  end.

(** ** Facts *)

(** The level configured for a name. *)
Definition wantedLevel (conf : Config) (name : string) : Z :=
  let text := Level (Config.GetLogger conf name) in
  if ToLower text =? "trace" then TraceLevel
  else match parseLevel text with inr l => l | inl _ => InfoLevel end.

(** The level a logger filters at. *)
Definition levelOf (st : LogState) (l : L) : option Z := atomics st !! atomicLevel l.

Lemma namedLevel_spec conf st name :
  namedLevel st name (Level (Config.GetLogger conf name)) =
  (mkLogState (atomics st ++ [wantedLevel conf name]) (_loggerConfig st)
     (warnings st ++
        if ToLower (Level (Config.GetLogger conf name)) =? "trace" then []
        else match parseLevel (Level (Config.GetLogger conf name)) with
             | inl err => [(name, err)] | inr _ => [] end),
   length (atomics st)).
Proof.
  unfold namedLevel, wantedLevel, ParseAtomicLevel, NewAtomicLevelAt.
  destruct (ToLower _ =? _); [by rewrite app_nil_r|].
  destruct (parseLevel _); [done | by rewrite app_nil_r].
Qed.

(** A configured process never panics here, appends one level to the store and
    changes nothing else of the configuration. *)
Lemma GetNamedLogger_run conf st name c :
  _loggerConfig st = Some c ->
  exists ws,
    GetNamedLogger (Some conf) st name =
    (mkLogState (atomics st ++ [wantedLevel conf name])
       (Some (set_Level c (length (atomics st)))) (warnings st ++ ws),
     match Build (set_Level c (length (atomics st))) with
     | inl err => Fails (WrapError ("error building named zap logger for " +:+ name +:+ ": ") err)
     | inr l => Returns (Named l name)
     end).
Proof.
  intros Hc. unfold GetNamedLogger. rewrite namedLevel_spec. simpl. rewrite Hc.
  eexists. unfold setLoggerConfig. simpl. by destruct (Build _).
Qed.

Lemma namedLoggers_extends conf st names c :
  _loggerConfig st = Some c ->
  atomics st `prefix_of` atomics (fst (namedLoggers (Some conf) st names)).
Proof.
  revert st c. induction names as [|n ns IH]; intros st c Hc; [done|]. simpl.
  destruct (GetNamedLogger_run conf st n c Hc) as [ws ->].
  match goal with |- context [namedLoggers _ ?s ns] => specialize (IH s _ eq_refl) end.
  destruct (namedLoggers _ _ ns) as [st' rs]. simpl in *.
  etrans; [|exact IH]. by apply prefix_app_r.
Qed.

Context `{!ZapLaws L}.

(** C31. Named loggers do not disturb each other: whatever loggers were requested
    before and after it from the one shared configuration, each logger the
    components hold filters at the level configured for its own name; none of the
    requests panics, and one fails only if zap cannot build a logger. *)
Theorem named_loggers_independent conf st names c n r :
  _loggerConfig st = Some c ->
  (n, r) ∈ (snd (namedLoggers (Some conf) st names)) ->
  match r with
  | Returns l => levelOf (fst (namedLoggers (Some conf) st names)) l = Some (wantedLevel conf n)
  | Fails e => exists h err, Build (set_Level c h) = inl err /\
      e = WrapError ("error building named zap logger for " +:+ n +:+ ": ") err
  | Panics => False
  end.
Proof.
  revert st c. induction names as [|m ns IH]; intros st c Hc Hin; simpl in *.
  { by apply elem_of_nil in Hin. }
  destruct (GetNamedLogger_run conf st m c Hc) as [ws E]. rewrite E in *. clear E.
  match type of Hin with context [namedLoggers _ ?s ns] => set (st' := s) in * end.
  pose proof (namedLoggers_extends conf st' ns _ eq_refl) as Hext.
  specialize (IH st' (set_Level c (length (atomics st))) eq_refl).
  destruct (namedLoggers _ st' ns) as [st'' rs]. simpl in *.
  apply elem_of_cons in Hin as [Hin|Hin].
  - injection Hin as -> ->. destruct (Build _) as [err|l] eqn:Eb; [by eexists _, _|].
    unfold levelOf. rewrite Named_level, (Build_level _ _ Eb).
    destruct Hext as [k ->]. simpl.
    rewrite <- app_assoc, lookup_app_r, Nat.sub_diag by done. done.
  - exact (IH Hin).
Qed.

(** The process logger: a level zap does not know (the program's own [trace]
    included, unless zap parses it) is an error before anything changes; otherwise
    the configuration has the parsed level, stack traces only for json output, and
    the encoder of the format.  The program's own level is written as "trace" in
    every format but console, where zap's plain encoder replaces the closure that
    would have written a coloured "TRACE". *)
Theorem get_logger_spec st level format :
  match parseLevel level with
  | inl err => GetLogger st level format = (st, inl (WrapError "failed to parse log level: " err))
  | inr lv =>
      exists c,
        zc_Level c = length (atomics st) /\ zc_Encoding c = format /\
        zc_DisableStacktrace c = negb (format =? "json") /\
        zc_EncodeLevel c TraceLevel =
          (if format =? "console" then CapitalColorLevelEncoder TraceLevel else "trace") /\
        match Build c, GetLogger st level format with
        | inl err, (st', r) => r = inl (WrapError "failed to build logger: " err) /\
            _loggerConfig st' = _loggerConfig st
        | inr l, (st', r) => r = inr l /\ _loggerConfig st' = Some c /\ levelOf st' l = Some lv
        end
  end.
Proof.
  unfold GetLogger, ParseAtomicLevel. destruct (parseLevel level) as [err|lv]; [done|]. simpl.
  match goal with |- context [Build ?c] => exists c end. simpl.
  do 2 (split; [reflexivity|]). split; [by destruct (format =? "json")|].
  split; [unfold encodeLevel; by destruct (format =? "console")|].
  destruct (Build _) as [err|l] eqn:Eb; simpl; [done|].
  split; [done|]. split; [done|]. unfold levelOf. simpl.
  rewrite (Build_level _ _ Eb). simpl. by rewrite lookup_app_r, Nat.sub_diag by done.
Qed.

End Logger.
