(* ===== verification/HcLog.v ===== *)
(** * The hclog adapter (src/internal/utils/hclog.go)

    go-plugin logs through the interface of hclog; [wrapper] implements it on a
    zap logger.  [logJsonLog] goes the other way: it turns a line of JSON that a
    plugin's own hclog printed into an entry of the operator's log.

    A logging call writes an entry if zap's [Check] says its level is enabled;
    the functions here return the entries written. *)

From Stdlib Require Import ZArith Lia.
From stdpp Require Import base gmap strings list pretty.
From S2P Require Import Prelude NodeTypes Requests Effects Config Json GoTime Logging.

Local Open Scope string_scope.
Local Open Scope list_scope.

(** ** Values, fields, entries *)

(** An [interface{}]: the code only asks whether it holds a string. *)
Inductive any (V : Type) := AString (s : string) | AOther (v : V).
Arguments AString {V} s.
Arguments AOther {V} v.

(** [zap.Any(key, value)] and [zap.String(key, value)]. *)
Definition Field (V : Type) : Type := string * any V.

(** The options the program gives to [WithOptions]. *)
Inductive ZapOption := AddCallerSkip (n : Z) | WithCaller (b : bool) | AddStacktrace (l : Z).

(** The methods of [*zap.Logger] the adapter uses besides [Named]. *)
Class ZapLogger (L V : Type) := {
  zap_Level : L -> Z;
  zap_Name : L -> string;
  zap_Check : L -> Z -> string -> bool;
  zap_With : L -> list (Field V) -> L;
  zap_WithOptions : L -> list ZapOption -> L
}.

(** An entry is written exactly when the logger's level lets it through, and
    fields and options leave that level alone. *)
Class ZapLoggerLaws (L V : Type) `{ZapLogger L V} : Prop := {
  Check_level l lvl msg : zap_Check l lvl msg = (zap_Level l <=? lvl)%Z;
  With_level l fields : zap_Level (zap_With l fields) = zap_Level l
}.

Record Entry (L V : Type) := mkEntry {
  e_logger : L;
  e_level : Z;
  e_message : string;
  e_time : option Time;
  e_fields : list (Field V)
}.
Arguments mkEntry {L V} e_logger e_level e_message e_time e_fields.
Arguments e_logger {L V} e.
Arguments e_level {L V} e.
Arguments e_message {L V} e.
Arguments e_time {L V} e.
Arguments e_fields {L V} e.

(** What [StandardWriter] and [StandardLogger] return: [hclog.DefaultOutput], and a
    [log.Logger] as [log.New] makes it. *)
Inductive Writer := DefaultOutput.
Record stdLogger := mkStdLogger { std_out : Writer; std_prefix : string; std_flags : Z }.

(** [log.Ldate | log.Ltime]. *)
Definition LstdFlags : Z := Z.lor 1 2.

(** hclog's levels. *)
Module Hclog.
Inductive Level := NoLevel | Trace | Debug | Info | Warn | Error | Off | Other (n : Z).

(** Their numbers. *)
Definition number (l : Level) : Z :=
  match l with
  | NoLevel => 0 | Trace => 1 | Debug => 2 | Info => 3 | Warn => 4 | Error => 5 | Off => 6
  | Other n => n
  end.
End Hclog.

(** [hclog.LevelFromString] and [zapcore.Level.String]. *)
Class LevelNames := {
  LevelFromString : string -> Hclog.Level;
  Level_String : Z -> string
}.

(** The four levels both libraries have carry the same names. *)
Class LevelNamesLaws `{LevelNames} : Prop := {
  names_debug : LevelFromString (Level_String DebugLevel) = Hclog.Debug;
  names_info : LevelFromString (Level_String InfoLevel) = Hclog.Info;
  names_warn : LevelFromString (Level_String WarnLevel) = Hclog.Warn;
  names_error : LevelFromString (Level_String ErrorLevel) = Hclog.Error
}.

(** ** Arguments to fields *)

(** [fmt.Sprintf("arg%d", i)]. *)
Definition argN (i : nat) : string := "arg" +:+ pretty i.

(** [args[lo:hi]], used with [lo <= hi <= len(args)] only. *)
Definition slice {A} (l : list A) (lo hi : nat) : list A := take (hi - lo) (drop lo l).

(** The body of the loop of [convertToZapAny] at index [i]. *)
Definition convertItems {V} (args : list (any V)) (i : nat) : list (Field V) :=
  let left := (i - 2)%nat in
  match slice args left i with
  | [a; b] =>
      match a with
      | AString k => [(k, b)]
      | AOther _ => [(argN (i - 1), b); (argN left, a)]
      end
  | [a] => [(argN left, a)]
  | _ => []
  end.

(** The loop from index [i] down, two at a time: [i - 2] is 0 when negative,
    and an [i] of 1 is followed by the end of the loop. *)
Fixpoint convertFrom {V} (args : list (any V)) (i : nat) : list (Field V) :=
  match i with
  | O => []
  | S O => convertItems args i
  | S (S i') => convertItems args i ++ convertFrom args i'
  end.

(** [func (w wrapper) convertToZapAny(args ...interface{}) []zapcore.Field]. *)
Definition convertToZapAny {V} (args : list (any V)) : list (Field V) :=
  convertFrom args (length args).

(** ** The adapter *)

Record wrapper (L : Type) := mkWrapper { zap : L }.
Arguments mkWrapper {L} zap.
Arguments zap {L} w.

Section Wrapper.
Context {L V : Type} `{Zap L} `{ZapLogger L V} `{LevelNames}.

(** [zap.Logger.Log] and its variants for one level. *)
Definition zap_Log (l : L) (lvl : Z) (msg : string) (fields : list (Field V))
    : list (Entry L V) :=
  if zap_Check l lvl msg then [mkEntry l lvl msg None fields] else [].

(** [func Wrap(z *zap.Logger) hclog.Logger]. *)
Definition Wrap (z : L) : wrapper L := mkWrapper (zap_WithOptions z [AddCallerSkip 1]).

Definition Debug (w : wrapper L) (msg : string) (args : list (any V)) :=
  zap_Log (zap w) DebugLevel msg (convertToZapAny args).
Definition Info (w : wrapper L) (msg : string) (args : list (any V)) :=
  zap_Log (zap w) InfoLevel msg (convertToZapAny args).
Definition Warn (w : wrapper L) (msg : string) (args : list (any V)) :=
  zap_Log (zap w) WarnLevel msg (convertToZapAny args).
Definition Error (w : wrapper L) (msg : string) (args : list (any V)) :=
  zap_Log (zap w) ErrorLevel msg (convertToZapAny args).
Definition Trace (w : wrapper L) (msg : string) (args : list (any V)) :=
  zap_Log (zap w) TraceLevel msg (convertToZapAny args).

(** [func (w wrapper) Log(lvl Level, msg string, args ...interface{})]. *)
Definition Log (w : wrapper L) (lvl : Hclog.Level) (msg : string) (args : list (any V))
    : list (Entry L V) :=
  match lvl with
  | Hclog.Trace => Trace w msg args
  | Hclog.Debug => Debug w msg args
  | Hclog.Info => Info w msg args
  | Hclog.Warn => Warn w msg args
  | Hclog.Error => Error w msg args
  | Hclog.Off => []
  | _ => Info w msg args
  end.

Definition With (w : wrapper L) (args : list (any V)) : wrapper L :=
  mkWrapper (zap_With (zap w) (convertToZapAny args)).
Definition wrapper_Named (w : wrapper L) (name : string) : wrapper L :=
  mkWrapper (Named (zap w) name).
Definition wrapper_Name (w : wrapper L) : string := zap_Name (V := V) (zap w).
Definition ResetNamed (w : wrapper L) (name : string) : wrapper L :=
  mkWrapper (Named (zap w) name).

Definition StandardWriter (w : wrapper L) : Writer := DefaultOutput.
Definition StandardLogger (w : wrapper L) : stdLogger :=
  mkStdLogger (StandardWriter w) EmptyString LstdFlags.

Definition wlevel (w : wrapper L) : Z := zap_Level (V := V) (zap w).
Definition IsTrace (w : wrapper L) : bool := (wlevel w <=? TraceLevel)%Z.
Definition IsDebug (w : wrapper L) : bool := (wlevel w <=? DebugLevel)%Z.
Definition IsInfo (w : wrapper L) : bool := (wlevel w <=? InfoLevel)%Z.
Definition IsWarn (w : wrapper L) : bool := (wlevel w <=? WarnLevel)%Z.
Definition IsError (w : wrapper L) : bool := (wlevel w <=? ErrorLevel)%Z.

Definition ImpliedArgs (w : wrapper L) : list (any V) := [].
Definition SetLevel (w : wrapper L) (lvl : Hclog.Level) : wrapper L := w.

(** go-plugin's copier of a plugin's stderr, which is switched off because
    [pluginOutputMonitor] reads the stream. *)
Definition logStderr : string := "github.com/hashicorp/go-plugin.(*Client).logStderr".

(** [func (w wrapper) GetLevel() hclog.Level]; [caller] is what [runtime.Caller(1)]
    finds. *)
Definition GetLevel (caller : option string) (w : wrapper L) : Hclog.Level :=
  if decide (caller = Some logStderr) then Hclog.Off
  else if (wlevel w =? TraceLevel)%Z then Hclog.Trace
  else LevelFromString (Level_String (wlevel w)).

End Wrapper.

(** ** Lines of JSON *)

(** [func getLevel(s string) zapcore.Level]. *)
Definition getLevel (s : string) : Z :=
  if (s =? "trace") || (s =? "off") then TraceLevel
  else if s =? "debug" then DebugLevel
  else if s =? "warn" then WarnLevel
  else if s =? "error" then ErrorLevel
  else InfoLevel.

(** Decoding into a [map[string]interface{}]: an object, of whose repeated keys
    the last counts, or null, which leaves the map nil. *)
Definition asMap (j : json) : option (gmap string json) :=
  match j with
  | JObject fields => Some (foldl (fun m '(k, v) => <[k := v]> m) ∅ fields)
  | JNull => Some ∅
  | _ => None
  end.

Definition any_of_json (j : json) : any json :=
  match j with JString s => AString s | _ => AOther j end.

(** What the caller of [logJsonLog] learns of an error is that there is one. *)
Inductive line_error := JsonError | TimeError.

(** [v.(string)]. *)
Definition as_string (j : json) : outcome line_error string :=
  match j with JString s => Returns s | _ => Panics end.

(** The order in which [range] visits a map. *)
Class MapOrder := map_order : gmap string json -> list (string * json).
Class MapOrderLaws `{MapOrder} : Prop :=
  map_order_perm : forall m, map_order m ≡ₚ map_to_list m.

Section JsonLog.
Context {L : Type} `{ZapLogger L json} `{MapOrder}.

(** [logJsonLog] once the line is decoded. *)
Definition logDecoded (l : L) (j : option json) : outcome line_error (list (Entry L json)) :=
  match j ≫= asMap with
  | None => Fails JsonError
  | Some raw =>
      msg ← match raw !! "@message" with
            | Some v => as_string v
            | None => Returns EmptyString
            end;
      let raw := delete "@message" raw in
      level ← match raw !! "@level" with
              | Some v => levelS ← as_string v; Returns (getLevel levelS)
              | None => Returns InfoLevel
              end;
      let raw := delete "@level" raw in
      if negb (zap_Check l level msg) then Returns []
      else
        '(time, raw) ← match raw !! "@timestamp" with
                       | Some v =>
                           ts ← as_string v;
                           match Parse ts with
                           | Some t => Returns (Some t, delete "@timestamp" raw)
                           | None => Fails TimeError
                           end
                       | None => Returns (None, raw)
                       end;
        let fields := map (fun '(k, v) => (k, any_of_json v)) (map_order raw) in
        Returns [mkEntry l level msg time fields]
  end.

(** [func logJsonLog(l *zap.Logger, line string) error]. *)
Definition logJsonLog (l : L) (line : string) : outcome line_error (list (Entry L json)) :=
  logDecoded l (Unmarshal line).

End JsonLog.

(** ** Facts on the conversion *)

Section Convert.
Context {V : Type}.
Implicit Types (args : list (any V)) (a b : any V).

(** The fields of a pair of arguments at indices [n] and [n + 1]. *)
Definition pairFields (n : nat) a b : list (Field V) :=
  match a with
  | AString k => [(k, b)]
  | AOther _ => [(argN (n + 1), b); (argN n, a)]
  end.

(** A reading from the front: the arguments from index [n] on in pairs. *)
Fixpoint pairUp (n : nat) args : list (list (Field V)) :=
  match args with
  | a :: b :: rest => pairFields n a b :: pairUp (n + 2) rest
  | _ => []
  end.

(** The reference: pairs are counted so that an odd argument is the first one;
    the fields of the pairs come out last pair first, the odd one at the end. *)
Definition fieldsOf args : list (Field V) :=
  if Nat.even (length args) then concat (rev (pairUp 0 args))
  else match args with
       | a :: rest => concat (rev (pairUp 1 rest)) ++ [(argN 0, a)]
       | [] => []
       end.

Lemma pairUp_snoc n args a b :
  Nat.even (length args) = true ->
  pairUp n (args ++ [a; b]) = pairUp n args ++ [pairFields (n + length args) a b].
Proof.
  revert n. induction args as [args IH] using (induction_ltof1 _ (@length _)); intros n He.
  destruct args as [|x [|y rest]]; [by rewrite Nat.add_0_r|discriminate|]. simpl.
  rewrite IH; [|unfold ltof; simpl; lia|done]. simpl. do 4 f_equal. lia.
Qed.

Lemma convertItems_app args extra i :
  (i <= length args)%nat -> convertItems (args ++ extra) i = convertItems args i.
Proof.
  intros Hi. unfold convertItems, slice.
  rewrite drop_app_le, take_app_le; [done| |]; rewrite ?length_drop; lia.
Qed.

Lemma convertFrom_app args extra i :
  (i <= length args)%nat -> convertFrom (args ++ extra) i = convertFrom args i.
Proof.
  induction i as [i IH] using lt_wf_ind. intros Hi. destruct i as [|[|i]]; [done| |].
  - by apply convertItems_app.
  - change (convertItems (args ++ extra) (S (S i)) ++ convertFrom (args ++ extra) i =
            convertItems args (S (S i)) ++ convertFrom args i).
    rewrite convertItems_app, IH by lia. done.
Qed.

Lemma convertToZapAny_snoc args a b :
  convertToZapAny (args ++ [a; b]) = pairFields (length args) a b ++ convertToZapAny args.
Proof.
  unfold convertToZapAny. rewrite length_app, Nat.add_comm. simpl length.
  change (convertItems (args ++ [a; b]) (S (S (length args))) ++
          convertFrom (args ++ [a; b]) (length args) =
          pairFields (length args) a b ++ convertFrom args (length args)).
  rewrite convertFrom_app by done. f_equal. unfold convertItems, slice.
  replace (S (S (length args)) - 2)%nat with (length args) by lia.
  replace (S (S (length args)) - length args)%nat with 2%nat by lia.
  replace (S (S (length args)) - 1)%nat with (length args + 1)%nat by lia.
  by rewrite drop_app_length.
Qed.

(** Induction on an argument list by its last pair. *)
Lemma pair_snoc_ind (P : list (any V) -> Prop) :
  P [] -> (forall a, P [a]) -> (forall args a b, P args -> P (args ++ [a; b])) ->
  forall args, P args.
Proof.
  intros H0 H1 H2 args. induction args as [args IH] using (induction_ltof1 _ (@length _)).
  destruct args as [|b l _] using rev_ind; [done|].
  destruct l as [|a l _] using rev_ind; [apply (H1 b)|].
  rewrite <- app_assoc. apply H2, IH. unfold ltof. rewrite !length_app. simpl. lia.
Qed.

Lemma fieldsOf_snoc args a b :
  fieldsOf (args ++ [a; b]) = pairFields (length args) a b ++ fieldsOf args.
Proof.
  unfold fieldsOf. rewrite length_app, Nat.add_comm. simpl.
  destruct (Nat.even (length args)) eqn:E.
  - rewrite pairUp_snoc, rev_app_distr by done. done.
  - destruct args as [|x rest]; [discriminate|].
    assert (Nat.even (length rest) = true) as Hr.
    { rewrite <- Nat.negb_odd, <- Nat.even_succ. exact (f_equal negb E). }
    simpl. rewrite pairUp_snoc, rev_app_distr by done. simpl. by rewrite app_assoc.
Qed.

(** C32. Converting the arguments of a logging call by counting down from the end
    agrees with reading them as pairs from the front, an odd one standing alone
    at the start; so no argument is lost, and a proper list of keys and values
    becomes exactly those fields, in reverse order. *)
Theorem convert_reads_pairs args :
  convertToZapAny args = fieldsOf args /\
  (forall kvs : list (string * any V),
     args = flat_map (fun '(k, v) => [AString k; v]) kvs -> convertToZapAny args = rev kvs).
Proof.
  split.
  - induction args as [|a|args a b IH] using pair_snoc_ind; [done|done|].
    by rewrite convertToZapAny_snoc, fieldsOf_snoc, IH.
  - intros kvs ->. induction kvs as [|[k v] kvs IH] using rev_ind; [done|].
    rewrite flat_map_app, rev_app_distr. simpl.
    by rewrite convertToZapAny_snoc, IH.
Qed.

End Convert.

(** ** Facts on levels *)

Section Levels.
Context {L V : Type} `{Zap L} `{!ZapLogger L V} `{LevelNames}.
Context `{!ZapLoggerLaws L V} `{!LevelNamesLaws}.

(** The level of zap that a level of hclog stands for. *)
Definition standsFor (l : Hclog.Level) : option Z :=
  match l with
  | Hclog.Trace => Some TraceLevel | Hclog.Debug => Some DebugLevel
  | Hclog.Info => Some InfoLevel | Hclog.Warn => Some WarnLevel
  | Hclog.Error => Some ErrorLevel | _ => None
  end.

Definition isLevel (w : wrapper L) (l : Hclog.Level) : bool :=
  match l with
  | Hclog.Trace => IsTrace (V := V) w | Hclog.Debug => IsDebug (V := V) w
  | Hclog.Info => IsInfo (V := V) w | Hclog.Warn => IsWarn (V := V) w
  | Hclog.Error => IsError (V := V) w | _ => false
  end.

Lemma level_cases z :
  (TraceLevel <= z <= ErrorLevel)%Z ->
  z = TraceLevel \/ z = DebugLevel \/ z = InfoLevel \/ z = WarnLevel \/ z = ErrorLevel.
Proof. unfold TraceLevel, DebugLevel, InfoLevel, WarnLevel, ErrorLevel. lia. Qed.

Lemma Log_entries (w : wrapper L) lvl z msg (args : list (any V)) :
  standsFor lvl = Some z -> Log w lvl msg args = zap_Log (zap w) z msg (convertToZapAny args).
Proof. by destruct lvl; intros [= <-]. Qed.

(** The three ways to ask the adapter for its level agree, for a logger set to
    one of the five levels both sides know: what [GetLevel] answers (to anyone but
    go-plugin's stderr copier, which is told Off) is at most a level exactly when
    the test for that level says so, and exactly when a message of that level is
    written, with its arguments as fields. *)
Theorem hclog_levels_agree caller (w : wrapper L) lvl z msg (args : list (any V)) :
  (TraceLevel <= wlevel (V := V) w <= ErrorLevel)%Z ->
  caller <> Some logStderr ->
  standsFor lvl = Some z ->
  isLevel w lvl = (Hclog.number (GetLevel (V := V) caller w) <=? Hclog.number lvl)%Z /\
  Log w lvl msg args =
    (if isLevel w lvl then [mkEntry (zap w) z msg None (convertToZapAny args)] else []) /\
  GetLevel (V := V) (Some logStderr) w = Hclog.Off.
Proof.
  intros Hw Hc Hz. split; [|split].
  - unfold GetLevel. rewrite decide_False by done.
    unfold isLevel, IsTrace, IsDebug, IsInfo, IsWarn, IsError.
    destruct (level_cases _ Hw) as [E|[E|[E|[E|E]]]]; rewrite E; simpl;
      rewrite ?names_debug, ?names_info, ?names_warn, ?names_error; by destruct lvl.
  - rewrite (Log_entries _ _ _ _ _ Hz). unfold zap_Log. rewrite Check_level.
    by destruct lvl; simplify_eq/=.
  - unfold GetLevel. by rewrite decide_True.
Qed.

End Levels.

(** ** Facts on lines of JSON *)

Lemma asMap_lookup fields raw k :
  asMap (JObject fields) = Some raw -> raw !! k = jlookup k fields.
Proof.
  intros [= <-].
  assert (Hgo : forall m : gmap string json,
    foldl (fun m '(k, v) => <[k := v]> m) m fields !! k =
    match jlookup k fields with Some v => Some v | None => m !! k end).
  { induction fields as [|[k' v] fields IH]; intros m; [done|]. simpl. rewrite IH.
    destruct (jlookup k fields); [done|].
    destruct (String.eqb_spec k' k) as [->|Hne]; simplify_map_eq; done. }
  rewrite Hgo. rewrite lookup_empty. by destruct (jlookup k fields).
Qed.

(** Whether a key is absent or bound to a string. *)
Definition string_or_absent (raw : gmap string json) (k : string) : bool :=
  match raw !! k with Some (JString _) | None => true | _ => false end.

Definition string_at (raw : gmap string json) (k : string) : option string :=
  match raw !! k with Some (JString s) => Some s | _ => None end.

(** The level and message a decoded line asks for. *)
Definition lineLevel (raw : gmap string json) : Z :=
  match string_at raw "@level" with Some s => getLevel s | None => InfoLevel end.
Definition lineMessage (raw : gmap string json) : string :=
  match string_at raw "@message" with Some s => s | None => EmptyString end.

(** The line's own fields: everything but the three reserved keys. *)
Definition lineFields (raw : gmap string json) : gmap string json :=
  delete "@timestamp" (delete "@level" (delete "@message" raw)).

Section JsonLogFacts.
Context {L : Type} `{!ZapLogger L json} `{MapOrder}.

(** The entry a decoded line stands for. *)
Definition jsonEntry (l : L) (raw : gmap string json) : Entry L json :=
  mkEntry l (lineLevel raw) (lineMessage raw) (string_at raw "@timestamp" ≫= Parse)
    (map (fun '(k, v) => (k, any_of_json v)) (map_order (lineFields raw))).

(** Whether a decoded line panics on a logger; the timestamp is only looked at
    when the entry is to be written. *)
Definition linePanics (l : L) (raw : gmap string json) : bool :=
  negb (string_or_absent raw "@message" && string_or_absent raw "@level")
  || (zap_Check l (lineLevel raw) (lineMessage raw) && negb (string_or_absent raw "@timestamp")).

(** Whether its timestamp is a string that is no time. *)
Definition badTime (raw : gmap string json) : bool :=
  match string_at raw "@timestamp" with
  | Some ts => match Parse ts with Some _ => false | None => true end
  | None => false
  end.

Lemma logJsonLog_spec (l : L) line raw :
  Unmarshal line ≫= asMap = Some raw ->
  logJsonLog l line =
  if linePanics l raw then Panics
  else if negb (zap_Check l (lineLevel raw) (lineMessage raw)) then Returns []
  else if badTime raw then Fails TimeError
  else Returns [jsonEntry l raw].
Proof.
  intros Hraw. unfold logJsonLog, logDecoded. rewrite Hraw.
  assert (Hd : raw !! "@timestamp" = None ->
    lineFields raw = delete "@level" (delete "@message" raw)).
  { intros E. apply delete_id. by rewrite !lookup_delete_ne. }
  unfold linePanics, badTime, jsonEntry, string_or_absent, lineLevel, lineMessage, string_at.
  rewrite (lookup_delete_ne raw "@message" "@level") by done.
  rewrite (lookup_delete_ne _ "@level" "@timestamp"), (lookup_delete_ne raw "@message") by done.
  destruct (raw !! "@message") as [[]|]; try reflexivity;
    destruct (raw !! "@level") as [[]|]; try reflexivity; cbn -[zap_Check getLevel delete Parse];
    destruct (zap_Check _ _ _); try reflexivity; cbn -[zap_Check getLevel delete Parse];
    destruct (raw !! "@timestamp") as [[]|] eqn:Et; try reflexivity;
    cbn -[zap_Check getLevel delete Parse]; try (destruct (Parse _); reflexivity);
    rewrite Hd by done; reflexivity.
Qed.

End JsonLogFacts.
