(* ===== verification/LoadConfig.v ===== *)
(** * Loading the configuration (LoadDefaultConfig and LoadConfig of src/internal/config/config.go)

    The settings come in layers into one koanf store: the YAML embedded in the
    binary, then the environment variables with the prefix [NODEDRAIN_], then
    the YAML files of /config in the order of their names.  The store is then
    decoded into the [Config] struct kept in [_config].

    koanf is a library: a [Provider] with its parser is read into a map of
    settings, which is merged into the store ([Koanf], [KoanfLaws]). *)

From stdpp Require Import base gmap strings list sorting.
From S2P Require Import Prelude NodeTypes Requests Effects Config.

Local Open Scope string_scope.
Local Open Scope list_scope.

(** The providers the program loads from. *)
Inductive Provider :=
  | RawYaml (bytes : string)
  | EnvVars (prefix : string) (transform : string -> string -> string * (list string + string))
  | YamlFile (path : string).

(** [K] is the store, [D] a map of settings before it is merged, [A] a setting. *)
Class Koanf (K D A : Type) := {
  Read : Provider -> error + D;
  Merge : K -> D -> K;
  Unmarshal : K -> error + Config;
  Get : K -> string -> option A;
  value : D -> string -> option A;
  touches : D -> string -> bool
}.

(** Merging a map in gives its keys its values and leaves the keys it does not
    touch (neither sets, nor replaces a part of, nor puts under another one). *)
Class KoanfLaws (K D A : Type) `{Koanf K D A} : Prop := {
  Merge_value k d key v : value d key = Some v -> Get (Merge k d) key = Some v;
  Merge_untouched k d key : touches d key = false -> Get (Merge k d) key = Get k key
}.

(** What [os.Stat] and [os.ReadDir] find. *)
Inductive StatResult :=
  | StatError (notExist : bool) (err : error)
  | StatInfo (name : string) (isDir : bool).

Record FileSystem := mkFileSystem {
  Stat : string -> StatResult;
  ReadDir : string -> error + list DirEntry
}.

(** The package variables [k] and [_config], and what was printed on stderr. *)
Record ConfigState (K : Type) := mkConfigState {
  koanf : K;
  _config : option Config;
  stderr : list string
}.
Arguments mkConfigState {K} koanf _config stderr.
Arguments koanf {K} c.
Arguments _config {K} c.
Arguments stderr {K} c.

(** [files[i].Name() < files[j].Name()], as the order to sort by. *)
Definition byName (f g : DirEntry) : Prop := String.le (de_Name f) (de_Name g).

Global Instance byName_dec : RelDecision byName.
Proof. intros f g. unfold byName. apply _. Defined.

Definition isYaml (f : DirEntry) : bool :=
  (Ext (de_Name f) =? ".yaml") || (Ext (de_Name f) =? ".yml").

Section LoadConfig.
Context {K D A : Type} `{Koanf K D A} (fs : FileSystem).

(** [k.Load(provider, parser)]: a failing load leaves the store alone. *)
Definition Load (st : ConfigState K) (p : Provider) : ConfigState K * option error :=
  match Read p with
  | inl err => (st, Some err)
  | inr d => (mkConfigState (Merge (koanf st) d) (_config st) (stderr st), None)
  end.

Definition Fprintf (st : ConfigState K) (msg : string) : ConfigState K :=
  mkConfigState (koanf st) (_config st) (stderr st ++ [msg]).

(** [func LoadDefaultConfig()]; on an error it prints it and exits. *)
Definition LoadDefaultConfig (defaultConfigYaml : string) (st : ConfigState K)
    : error + ConfigState K :=
  match Load st (RawYaml defaultConfigYaml) with
  | (_, Some err) => inl err
  | (st, None) => inr st
  end.

(** The loop over the files of /config. *)
Fixpoint loadFiles (st : ConfigState K) (files : list DirEntry) : ConfigState K :=
  match files with
  | [] => st
  | f :: rest =>
      let st :=
        if isYaml f then
          match Load st (YamlFile ("/config" +:+ "/" +:+ de_Name f)) with
          | (st, Some err) =>
              Fprintf st ("failed to load config from file " +:+ de_Name f +:+ ": " +:+
                            Error err +:+ newline)
          | (st, None) => st
          end
        else st in
      loadFiles st rest
  end.

(** The closure [loadConfigFiles]. *)
Definition loadConfigFiles (st : ConfigState K) : ConfigState K * option error :=
  let configDir := "/config" in
  match Stat fs configDir with
  | StatError true _ => (st, None)
  | StatError false err => (st, Some (WrapError "failed to get stat for /config: " err))
  | StatInfo name isDir =>
      if negb isDir then (st, Some (ErrorString (name +:+ " is not a directory")))
      else
        match ReadDir fs configDir with
        | inl err => (st, Some (WrapError "failed to read config directory: " err))
        | inr files => (loadFiles st (merge_sort byName files), None)
        end
  end.

(** [func LoadConfig() ( *Config, error)]. *)
Definition LoadConfig (st : ConfigState K) : ConfigState K * (error + Config) :=
  match Load st (EnvVars "NODEDRAIN_" transformEnv) with
  | (st, Some err) => (st, inl err)
  | (st, None) =>
      match loadConfigFiles st with
      | (st, Some err) => (st, inl err)
      | (st, None) =>
          match Unmarshal (koanf st) with
          | inl err => (st, inl (WrapError "failed to unmarshal config: " err))
          | inr conf => (mkConfigState (koanf st) (Some conf) (stderr st), inr conf)
          end
      end
  end.

(** [func GetKoanf()] and [func GetConfig()]. *)
Definition GetKoanf (st : ConfigState K) : K := koanf st.
Definition GetConfig (st : ConfigState K) : option Config := _config st.

(** ** Facts *)

(** The settings of a directory entry, if it is a YAML file that can be read. *)
Definition layer (f : DirEntry) : option (string * D) :=
  if isYaml f then
    match Read (YamlFile ("/config/" +:+ de_Name f)) with
    | inr d => Some (de_Name f, d)
    | inl _ => None
    end
  else None.

(** The layers of files, in order of name. *)
Definition fileLayers : list (string * D) :=
  match Stat fs "/config", ReadDir fs "/config" with
  | StatInfo _ true, inr files => omap layer (merge_sort byName files)
  | _, _ => []
  end.

Lemma loadFiles_koanf st files :
  koanf (loadFiles st files) = foldl Merge (koanf st) (omap layer files).*2 /\
  _config (loadFiles st files) = _config st.
Proof.
  revert st. induction files as [|f files IH]; intros st; [done|].
  cbn [loadFiles omap list_omap]. unfold layer at 1.
  destruct (isYaml f); [|apply IH]. unfold Load.
  destruct (Read _) as [err|d]; [apply (IH (Fprintf st _))|]. simpl.
  by destruct (IH (mkConfigState (Merge (koanf st) d) (_config st) (stderr st))) as [-> ->].
Qed.

Lemma loadConfigFiles_run st :
  match loadConfigFiles st with
  | (st', None) => koanf st' = foldl Merge (koanf st) fileLayers.*2 /\ _config st' = _config st
  | (st', Some _) => st' = st
  end.
Proof.
  unfold loadConfigFiles, fileLayers.
  destruct (Stat fs "/config") as [[] err|name []]; simpl; try done.
  destruct (ReadDir fs "/config"); [done|]. apply loadFiles_koanf.
Qed.

Global Instance byName_trans : Transitive byName.
Proof. intros f g h Hfg Hgh. unfold byName in *. by etrans. Qed.

Global Instance byName_total : Total byName.
Proof. intros f g. unfold byName. apply (total String.le). Qed.

Lemma fileLayers_sorted : StronglySorted String.le fileLayers.*1.
Proof.
  unfold fileLayers. destruct (Stat fs _) as [[]?|? []]; try constructor.
  destruct (ReadDir fs _) as [?|files]; [constructor|].
  pose proof (StronglySorted_merge_sort byName files) as Hs.
  assert (Hname : forall f n d, layer f = Some (n, d) -> n = de_Name f).
  { intros f n d. unfold layer. destruct (isYaml f); [|done]. destruct (Read _); naive_solver. }
  induction Hs as [|f l _ IH Hall]; [constructor|]. cbn [omap list_omap].
  destruct (layer f) as [[n d]|] eqn:Ef; [|done]. apply Hname in Ef as ->.
  constructor; [done|]. clear IH. induction Hall as [|g l Hg _ IHl]; [constructor|].
  cbn [omap list_omap]. destruct (layer g) as [[n' d']|] eqn:Eg; [|done].
  apply Hname in Eg as ->. by constructor.
Qed.

Context `{!KoanfLaws K D A}.

Lemma Merge_all_untouched k ds key :
  Forall (fun d => touches d key = false) ds -> Get (foldl Merge k ds) key = Get k key.
Proof.
  intros Hds. revert k. induction Hds as [|d ds Hd _ IH]; intros k; [done|]. simpl.
  by rewrite IH, Merge_untouched.
Qed.

(** C29. Which setting counts.  After a successful load every setting comes from the
    last readable YAML file, in the order of file names, that touches its key; only
    a key no file touches is left to the environment, and only a key the
    environment does not touch either keeps its default. *)
Theorem load_config_last_wins st st' conf env key :
  Read (EnvVars "NODEDRAIN_" transformEnv) = inr env ->
  LoadConfig st = (st', inr conf) ->
  Unmarshal (GetKoanf st') = inr conf /\ GetConfig st' = Some conf /\
  StronglySorted String.le fileLayers.*1 /\
  (forall pre name d post v,
     fileLayers = pre ++ (name, d) :: post ->
     Forall (fun d => touches d key = false) post.*2 ->
     value d key = Some v -> Get (GetKoanf st') key = Some v) /\
  (Forall (fun d => touches d key = false) fileLayers.*2 ->
     (forall v, value env key = Some v -> Get (GetKoanf st') key = Some v) /\
     (touches env key = false -> Get (GetKoanf st') key = Get (GetKoanf st) key)).
Proof.
  intros Henv Hload. unfold LoadConfig, Load in Hload. rewrite Henv in Hload.
  pose proof (loadConfigFiles_run (mkConfigState (Merge (koanf st) env) (_config st) (stderr st)))
    as Hrun.
  destruct (loadConfigFiles _) as [st1 [err|]]; [done|]. destruct Hrun as [Hk _].
  destruct (Unmarshal (koanf st1)) as [err|conf'] eqn:Eu; simplify_eq/=.
  unfold GetKoanf, GetConfig. simpl.
  split; [done|]. split; [done|]. split; [apply fileLayers_sorted|]. rewrite Hk. split.
  - intros pre name d post v Hl Hpost Hv. rewrite Hl, fmap_app, foldl_app. simpl.
    rewrite Merge_all_untouched by done. by apply Merge_value.
  - intros Hnone. rewrite Merge_all_untouched by done. split.
    + intros v Hv. by apply Merge_value.
    + apply Merge_untouched.
Qed.

(** A failing load leaves the configuration in use alone and has one of five
    causes, each with its own error; that a file of /config cannot be read or
    parsed is none of them. *)
Theorem load_config_failure st st' e :
  LoadConfig st = (st', inl e) ->
  GetConfig st' = GetConfig st /\
  ((Read (EnvVars "NODEDRAIN_" transformEnv) = inl e /\ st' = st) \/
   (exists err, Stat fs "/config" = StatError false err /\
      e = WrapError "failed to get stat for /config: " err) \/
   (exists name, Stat fs "/config" = StatInfo name false /\
      e = ErrorString (name +:+ " is not a directory")) \/
   (exists err, ReadDir fs "/config" = inl err /\
      e = WrapError "failed to read config directory: " err) \/
   (exists err, Unmarshal (GetKoanf st') = inl err /\
      e = WrapError "failed to unmarshal config: " err)).
Proof.
  intros Hload. unfold LoadConfig, Load in Hload.
  destruct (Read _) as [err|env]; [simplify_eq/=; naive_solver|].
  pose proof (loadConfigFiles_run (mkConfigState (Merge (koanf st) env) (_config st) (stderr st)))
    as Hrun.
  destruct (loadConfigFiles _) as [st1 [err|]] eqn:El.
  - simplify_eq/=. split; [done|]. unfold loadConfigFiles in El.
    destruct (Stat fs "/config") as [[] ?|name []]; simplify_eq/=; [naive_solver| |naive_solver].
    destruct (ReadDir fs "/config"); simplify_eq/=. naive_solver.
  - destruct Hrun as [_ Hc]. destruct (Unmarshal (koanf st1)) as [err|conf'] eqn:Eu; simplify_eq/=.
    split; [done|]. right; right; right; right. by exists err.
Qed.

End LoadConfig.
