(* ===== verification/Utils.v ===== *)
(** * Kubernetes helpers (src/internal/utils/utils.go) *)

From stdpp Require Import base strings list.
From S2P Require Import Prelude NodeTypes Requests Effects.

Local Open Scope string_scope.

Definition LabelPrefix : string := "nodedrain.k8s.slyng.dk".
Definition LabelComponent : string := LabelPrefix +:+ "/component".

(** [fmt.Sprintf("%s-manager", managerNamespace)]. *)
Definition GetFieldOwner (managerNamespace : string) : string :=
  managerNamespace +:+ "-manager".

Section Utils.
Context {W : Type} `{Env W}.

(** [ExecCmd] with a nil stdin, the only way the program calls it: stdin is
    passed as [hasStdin]. *)
Definition ExecCmd (ns name command : string) (hasStdin : bool) : M W unit :=
  let cmd := ["sh"; "-c"; command] in
  let option := mkPodExecOptions cmd true true true true in
  let option := if negb hasStdin
                then mkPodExecOptions cmd false true true true else option in
  err ← call (NewSPDYExecutor ns name option);
  _ ← check err;
  err ← call (StreamWithContext ns name option);
  _ ← check err;
  mret tt.

(** The polling condition returned by [IsPodCompleted]. *)
Definition IsPodCompleted (podName namespace : string) : M W bool :=
  '(pod, err) ← call (PodsGet namespace podName);
  _ ← check err;
  if (pod_Phase pod =? PodFailed) || (pod_Phase pod =? PodSucceeded) then mret true
  else mret false.

(** The polling condition returned by [IsPodRunning]. *)
Definition IsPodRunning (podName namespace : string) : M W bool :=
  '(pod, err) ← call (PodsGet namespace podName);
  _ ← check err;
  if (pod_Phase pod =? PodFailed) || (pod_Phase pod =? PodSucceeded) then
    raise (ErrorString ("pod is in unexpected phase: " +:+ pod_Phase pod))
  else if pod_Phase pod =? PodRunning then mret true
  else mret false.

(** [GetNode]: any error counts as no node. *)
Definition GetNode (nodeName : string) : M W (option KubeNode) :=
  r ← call (NodesGet nodeName);
  match r with
  | inl _ => mret None
  | inr node => mret (Some node)
  end.

End Utils.
