(* ===== verification/Webhook.v ===== *)
(** * The admission webhooks (src/internal/webhook/v1/node_webhook.go)

    The defaulter fills in the desired state of a new or updated object; the
    validator accepts everything of the right type. *)

From stdpp Require Import base strings list.
From S2P Require Import Prelude NodeTypes Requests Effects.

Local Open Scope string_scope.

(** The [runtime.Object] handed to a webhook: a drain node, or something else
    of the Go type [T]. *)
Inductive Object := NodeObject (n : Node) | OtherObject (T : string).

Section Webhook.
Context {W : Type} `{Env W}.

Definition applyDefaults (node : Node) : Node :=
  if nstate node =? EmptyString then set_State node NodeStateActive else node.

(** [fmt.Errorf("could not find node %q: %w", ...)]; the name is a DNS label, so
    quoting adds only the quotes. *)
Definition quote : string := String (Ascii.ascii_of_nat 34) EmptyString.

(** [Default]: the object as the defaulter leaves it. *)
Definition Default (obj : Object) : M W Object :=
  match obj with
  | OtherObject T => raise (ErrorString ("expected an Node object but got " +:+ T))
  | NodeObject newNode =>
      res ← call (ClientGetNode (Name newNode));
      match res with
      | inl err =>
          if negb (IsNotFound err) then
            raise (WrapError ("could not find node " +:+ quote +:+ Name newNode +:+ quote +:+ ": ") err)
          else mret (NodeObject (applyDefaults newNode))
      | inr _ => mret (NodeObject (applyDefaults newNode))
      end
  end.

(** The validator's answers: no warnings, and an error only for a foreign type. *)
Definition ValidateCreate (obj : Object) : error + unit :=
  match obj with
  | NodeObject _ => inr tt
  | OtherObject T => inl (ErrorString ("expected a Node object but got " +:+ T))
  end.

Definition ValidateUpdate (oldObj newObj : Object) : error + unit :=
  match newObj with
  | NodeObject _ => inr tt
  | OtherObject T => inl (ErrorString ("expected a Node object for the newObj but got " +:+ T))
  end.

Definition ValidateDelete (obj : Object) : error + unit :=
  match obj with
  | NodeObject _ => inr tt
  | OtherObject T => inl (ErrorString ("expected a Node object but got " +:+ T))
  end.

(** ** Facts *)

Lemma applyDefaults_idemp n : applyDefaults (applyDefaults n) = applyDefaults n.
Proof.
  unfold applyDefaults. destruct (nstate n =? EmptyString) eqn:E; [done|]. by rewrite E.
Qed.

(** ** Properties *)

(** C36. The defaulter either rejects the object, exactly when looking the node up
    fails with something other than not-found, or admits it with a state: an
    empty one becomes Active, any other is kept, and nothing else of the object
    changes.  A second pass changes nothing. *)
Theorem default_webhook n (w : W) evs w' res :
  Default (NodeObject n) w = (evs, w', res) ->
  exists a, evs = [mkEv (ClientGetNode (Name n)) a] /\
    match res with
    | inl e => exists e', a = inl e' /\ IsNotFound e' = false /\ exists p, e = WrapError p e'
    | inr obj => (forall e', a = inl e' -> IsNotFound e' = true) /\
        exists n', obj = NodeObject n' /\ nstate n' <> EmptyString /\
          n' = set_Spec n (Spec n') /\
          (nstate n <> EmptyString -> n' = n) /\ (nstate n = EmptyString -> nstate n' = NodeStateActive) /\
          applyDefaults n' = n'
    end.
Proof.
  assert (Hd : exists n', applyDefaults n = n' /\ nstate n' <> EmptyString /\
    n' = set_Spec n (Spec n') /\ (nstate n <> EmptyString -> n' = n) /\
    (nstate n = EmptyString -> nstate n' = NodeStateActive) /\ applyDefaults n' = n').
  { eexists. split; [reflexivity|]. rewrite applyDefaults_idemp. unfold applyDefaults.
    destruct (String.eqb_spec (nstate n) EmptyString); destruct n; by split_and!. }
  unfold Default, mbind, M_bind, call.
  destruct (handle (ClientGetNode (Name n)) w) as [[e|m] w1]; simpl.
  - destruct (IsNotFound e) eqn:He; simpl; intros [= <- <- <-]; eexists; (split; [reflexivity|]).
    + split; [naive_solver|]. destruct Hd as (n' & -> & ?). eauto.
    + eauto.
  - intros [= <- <- <-]. eexists. split; [reflexivity|]. split; [done|].
    destruct Hd as (n' & -> & ?). eauto.
Qed.
End Webhook.
