(* ===== verification/DrainManager.v ===== *)
(** * The drain manager (src/internal/utils/drain-manager.go)

    Loads the plugin binaries of /plugins, and asks all of them whether the
    cluster is healthy, whether a node may be drained, and to run their hooks
    before and after a drain.  Go ranges over the plugin map in an unspecified
    order: [range_map] takes the order from the environment. *)

From Stdlib Require Import Ascii.
From stdpp Require Import base gmap strings list.
From S2P Require Import Prelude NodeTypes Requests Effects Plugins Config.

Local Open Scope string_scope.

Definition pluginNotSupported : string := "Plugin not supported".

(** The embedded [*plugins.DrainClient] is identified by its connection. *)
Record drainClientInfo := mkDrainClientInfo { conn : string; info : DrainPluginInfo }.

Record DrainManager := mkDrainManager {
  pluginClients : list string;
  drainClients : gmap string drainClientInfo;
  pluginFileId : gmap string string
}.

(** [fmt.Sprintf("%s: Error: %s", id, err.Error())]. *)
Definition pluginEventError (id : string) (err : error) : string :=
  id +:+ ": Error: " +:+ Error err.

(** ** Loading *)

Section DrainManager.
Context {W : Type} `{Env W}.

(** [for k, v := range m]: some permutation of the entries. *)
Definition range_map {V} (m : gmap string V) : M W (list (string * V)) :=
  let keys := (map_to_list m).*1 in
  order ← call (MapRange keys);
  let order := if decide (order ≡ₚ keys) then order else keys in
  mret (omap (fun k => v ← m !! k; Some (k, v)) order).

(** [func (d *DrainManager) initPlugin(...)]. *)
Definition initPlugin (pluginBase path : string) : M W (DrainPluginInfo * string) :=
  err ← call (PluginClient path);
  _ ← wrap ("failed to get client for plugin " +:+ pluginBase +:+ ": ") (check err);
  err ← call (PluginPing path);
  _ ← wrap ("failed to ping plugin " +:+ pluginBase +:+ ": ") (check err);
  v ← call (PluginDispense path "drain");
  ty ← wrap ("failed to dispense plugin " +:+ pluginBase +:+ ": ") (lift v);
  if negb (ty =? "*plugins.DrainClient")
  then raise (ErrorString ("expected drain plugin " +:+ pluginBase +:+ ": " +:+ ty)) else
  pluginInfo ← wrap ("failed to get plugin info for plugin " +:+ pluginBase +:+ ": ")
    (PluginInfo (DrainClient path));
  if ID pluginInfo =? EmptyString
  then raise (ErrorString ("drain plugin " +:+ pluginBase +:+ " has no ID")) else
  if decide (InfoConfigFormat pluginInfo = CONFIG_FORMAT_UNSPECIFIED)
  then raise (ErrorString ("drain plugin " +:+ pluginBase +:+ " has no ConfigFormat")) else
  pluginConfigBytes ← wrap ("failed to get plugin config bytes " +:+ pluginBase +:+ ": ")
    (GetPluginConfig (InfoConfigFormat pluginInfo) (ID pluginInfo));
  _ ← wrap ("failed to init plugin " +:+ pluginBase +:+ ": ")
    (Init (DrainClient path) (mkDrainPluginSettings (Some pluginConfigBytes)));
  mret (pluginInfo, path).

(** One iteration of the loop over the directory entries. *)
Definition loadEntry (d : DrainManager) (found : list string) (e : DirEntry)
    : M W (DrainManager * list string) :=
  if de_IsDir e then mret (d, found)
  else if Ext (de_Name e) =? ".so" then
    let pluginPath := "/plugins/" +:+ de_Name e in
    let pluginBase := de_Name e in
    let found := pluginPath :: found in
    '(info, client) ← wrap ("failed to initialize plugin " +:+ pluginBase +:+ ": ")
      (initPlugin pluginBase pluginPath);
    match drainClients d !! ID info with
    | Some _ =>
        raise (ErrorString ("drain plugin " +:+ pluginBase +:+ "(" +:+ ID info +:+
                 ") already initialized"))
    | None =>
        mret (mkDrainManager (pluginClients d)
                (<[ID info := mkDrainClientInfo client info]> (drainClients d))
                (<[pluginBase := ID info]> (pluginFileId d)), found)
    end
  else mret (d, found).

Fixpoint loadEntries (d : DrainManager) (found : list string) (es : list DirEntry)
    : M W (DrainManager * list string) :=
  match es with
  | [] => mret (d, found)
  | e :: es' => '(d, found) ← loadEntry d found e; loadEntries d found es'
  end.

(** [func (d *DrainManager) loadPluginsFromDir(ctx) error]. *)
Definition loadPluginsFromDir (d : DrainManager) : M W DrainManager :=
  let path := "/plugins" in
  stat ← call (OsStat path);
  match stat with
  | Some (true, _) => mret d
  | Some (false, err) => raise err
  | None =>
      r ← call (OsReadDir path);
      entries ← wrap "failed to load plugins: " (lift r);
      '(d, found) ← loadEntries d [] entries;
      mret (mkDrainManager found (drainClients d) (pluginFileId d))
  end.

(** [func NewDrainManager(...)]. *)
Definition NewDrainManager : M W DrainManager :=
  err ← call NewForConfig;
  _ ← check err;
  wrap "failed to load plugins: " (loadPluginsFromDir (mkDrainManager [] ∅ ∅)).

(** ** Health *)

(** The loops of [IsClusterNodesHealthy]: every Ready condition is True. *)
Definition node_conditions_ready (conditions : list NodeCondition) (acc : bool) : bool :=
  fold_left (fun acc condition =>
    if nc_Type condition =? NodeReady then
      if negb (nc_Status condition =? ConditionTrue) then false else acc
    else acc) conditions acc.

Definition nodes_ready (items : list KubeNode) : bool :=
  fold_left (fun acc node => node_conditions_ready (kn_Conditions node) acc) items true.

Definition IsClusterNodesHealthy : M W bool :=
  r ← call NodesList;
  nodes ← lift r;
  mret (nodes_ready nodes).

(** The accumulators of the polling loops: the verdict, the errors, and the
    per-plugin lines of the event. *)
Record PollAcc := mkPollAcc { acc_ok : bool; acc_errs : list error; acc_status : list string }.

(** One iteration: the question asked of a supported plugin and the text for a
    negative answer are the only differences between the two loops. *)
Definition poll_plugin (ask : string -> M W bool) (negative : string)
    (acc : PollAcc) (id : string) (client : drainClientInfo) : M W PollAcc :=
  r ← attempt (IsSupported (DrainClient (conn client)));
  match r with
  | inl err =>
      mret (mkPollAcc false (acc_errs acc ++ [err])
              (acc_status acc ++ [pluginEventError id err]))
  | inr false =>
      mret (mkPollAcc (acc_ok acc) (acc_errs acc)
              (acc_status acc ++ [id +:+ ": " +:+ pluginNotSupported]))
  | inr true =>
      r ← attempt (ask (conn client));
      match r with
      | inl err =>
          mret (mkPollAcc false (acc_errs acc ++ [err])
                  (acc_status acc ++ [pluginEventError id err]))
      | inr false =>
          mret (mkPollAcc false (acc_errs acc) (acc_status acc ++ [id +:+ negative]))
      | inr true =>
          mret (mkPollAcc (acc_ok acc) (acc_errs acc) (acc_status acc ++ [id +:+ ": OK"]))
      end
  end.

Fixpoint poll_plugins (ask : string -> M W bool) (negative : string)
    (acc : PollAcc) (l : list (string * drainClientInfo)) : M W PollAcc :=
  match l with
  | [] => mret acc
  | (id, client) :: l' =>
      acc ← poll_plugin ask negative acc id client;
      poll_plugins ask negative acc l'
  end.

(** The common end: an event, then the joined errors or the verdict. *)
Definition poll_verdict (nodeName reason title : string) (acc : PollAcc) : M W bool :=
  let eventType :=
    if negb (acc_ok acc) || (0 <? length (acc_errs acc))%nat
    then EventTypeWarning else EventTypeNormal in
  _ ← call (Eventf nodeName eventType reason
              (title +:+ newline +:+ strings_Join (acc_status acc) newline));
  if negb (length (acc_errs acc) =? 0)%nat then raise (JoinError (acc_errs acc))
  else mret (acc_ok acc).

(** [func (d *DrainManager) IsHealthy(ctx, node) (bool, error)]. *)
Definition DM_IsHealthy (d : DrainManager) (node : Node) : M W bool :=
  r ← attempt IsClusterNodesHealthy;
  match r with
  | inl err =>
      _ ← call (Eventf (Name node) EventTypeWarning "Healthy"
             ("Cluster nodes is not healthy: false err: " +:+ Error err));
      raise err
  | inr false =>
      _ ← call (Eventf (Name node) EventTypeWarning "Healthy"
             "Cluster nodes is not healthy: false err: <nil>");
      mret false
  | inr true =>
      l ← range_map (drainClients d);
      acc ← poll_plugins (fun c => IsHealthy (DrainClient c)) ": Not healthy"
              (mkPollAcc true [] []) l;
      poll_verdict (Name node) "Healthy" "IsHealthy:" acc
  end.

(** [func (d *DrainManager) IsDrainOk(ctx, node) (bool, error)]. *)
Definition DM_IsDrainOk (d : DrainManager) (node : Node) : M W bool :=
  l ← range_map (drainClients d);
  acc ← poll_plugins (fun c => IsDrainOk (DrainClient c) (Name node))
          ": Not ready to be drained" (mkPollAcc true [] []) l;
  poll_verdict (Name node) "DrainOK" "IsDrainOK:" acc.

(** ** Hooks *)

(** The loop of [RunPreDrain] and [RunPostDrain]: stops at the first error. *)
Fixpoint run_hooks (hook : string -> string -> M W unit) (what nodeName : string)
    (l : list (string * drainClientInfo)) : M W unit :=
  match l with
  | [] => mret tt
  | (id, client) :: l' =>
      isSupported ← IsSupported (DrainClient (conn client));
      if negb isSupported then run_hooks hook what nodeName l'
      else
        r ← attempt (hook (conn client) nodeName);
        match r with
        | inl err =>
            _ ← call (Eventf nodeName EventTypeWarning what
                   (what +:+ " failed for " +:+ id +:+ ": " +:+ Error err));
            raise (WrapError ("failed " +:+ what +:+ " on plugin: " +:+ id +:+ " ") err)
        | inr _ => run_hooks hook what nodeName l'
        end
  end.

Definition RunPreDrain (d : DrainManager) (node : Node) : M W unit :=
  l ← range_map (drainClients d);
  _ ← run_hooks (fun c => PreDrain (DrainClient c)) "PreDrain" (Name node) l;
  call (Eventf (Name node) EventTypeNormal "PreDrain" "Node PreDrain succeeded").

Definition RunPostDrain (d : DrainManager) (node : Node) : M W unit :=
  l ← range_map (drainClients d);
  _ ← run_hooks (fun c => PostDrain (DrainClient c)) "PostDrain" (Name node) l;
  call (Eventf (Name node) EventTypeNormal "PostDrain" "Node PostDrain succeeded").

End DrainManager.

(** ** Ranging over a map *)

Local Open Scope list_scope.

Section RangeFacts.
Context {W : Type} `{Env W}.

Lemma omap_keys {V} (m : gmap string V) (ks : list string) :
  ks ≡ₚ (map_to_list m).*1 ->
  omap (fun k => v ← m !! k; Some (k, v)) ks ≡ₚ map_to_list m.
Proof.
  intros ->.
  assert (Hl : forall l : list (string * V), (forall k v, (k, v) ∈ l -> m !! k = Some v) ->
    omap (fun k => v ← m !! k; Some (k, v)) l.*1 = l).
  { induction l as [|[k v] l IH]; intros Hin; [done|]. csimpl.
    rewrite (Hin k v) by set_solver. csimpl. f_equal. apply IH.
    intros k' v' ?. apply Hin. set_solver. }
  rewrite Hl; [done|]. intros k v. apply elem_of_map_to_list.
Qed.

Lemma range_map_ok {V} (m : gmap string V) w evs w' r :
  range_map m w = (evs, w', r) -> exists l, r = inr l /\ l ≡ₚ map_to_list m.
Proof.
  unfold range_map. intros E. apply bind_run in E as [(e&E&_)|(a&?&?&?&E&E'&_)].
  - apply (call_run (MapRange _)) in E as (?&_&_&?). done.
  - injection E' as <- <- <-. eexists. split; [done|]. apply omap_keys.
    by case_decide.
Qed.
End RangeFacts.

(** ** What the plugins answered *)

(** The plugin on connection [c] said during [evs] that it is (not) supported
    here. *)
Definition supported_in (evs : list Ev) (c : string) (b : bool) : Prop :=
  exists a, GetBool a = b /\ mkEv (PluginRpc c RpcIsSupported) (inr a) ∈ evs.

(** Every plugin of [l] was either not supported, or supported and left an
    event satisfying [yes]. *)
Definition each_supported (yes : string -> Ev -> Prop) (evs : list Ev)
    (l : list (string * drainClientInfo)) : Prop :=
  forall id c, (id, c) ∈ l ->
    supported_in evs (conn c) false \/
    (supported_in evs (conn c) true /\ exists e, yes (conn c) e /\ e ∈ evs).

Lemma supported_in_mono evs evs' c b :
  (forall e, e ∈ evs -> e ∈ evs') -> supported_in evs c b -> supported_in evs' c b.
Proof. intros Hs (a & Ha & Hin). exists a. auto. Qed.

Lemma each_supported_mono yes evs evs' l :
  (forall e, e ∈ evs -> e ∈ evs') -> each_supported yes evs l -> each_supported yes evs' l.
Proof.
  intros Hs Hl id c Hin. destruct (Hl id c Hin) as [?|[? (e & ? & ?)]]; [left|right; split; [|eauto]];
    by eapply supported_in_mono.
Qed.

Lemma each_supported_perm yes evs l l' :
  l ≡ₚ l' -> each_supported yes evs l -> each_supported yes evs l'.
Proof. intros Hp Hl id c Hin. apply (Hl id c). by rewrite Hp. Qed.

Lemma each_supported_cons yes evs evs' id c l :
  (supported_in evs (conn c) false \/
   (supported_in evs (conn c) true /\ exists e, yes (conn c) e /\ e ∈ evs)) ->
  each_supported yes evs' l -> each_supported yes (evs ++ evs') ((id, c) :: l).
Proof.
  intros Hc Hl id' c' [Heq|Hin]%elem_of_cons.
  - injection Heq as -> ->.
    assert (Hs : forall e, e ∈ evs -> e ∈ evs ++ evs') by set_solver.
    destruct Hc as [?|[? (e & ? & ?)]]; [left|right; split; [|by eauto]];
      by eapply supported_in_mono.
  - eapply (each_supported_mono yes evs'); [set_solver|done|done].
Qed.

Lemma each_supported_nil yes evs : each_supported yes evs [].
Proof. intros id c Hin. set_solver. Qed.

Section ManagerFacts.
Context {W : Type} `{Env W}.

(** One hook loop that succeeds has run the hook of every supported plugin. *)
Lemma run_hooks_complete (hook : string -> string -> M W unit) what n yes l w evs w' :
  (forall c w evs w', hook c n w = (evs, w', inr tt) -> exists e, yes c e /\ e ∈ evs) ->
  run_hooks hook what n l w = (evs, w', inr tt) -> each_supported yes evs l.
Proof.
  intros Hhook. revert w evs. induction l as [|[id c] l IH]; intros w evs E.
  { apply each_supported_nil. }
  simpl in E. unfold Client_IsSupported in E. inv_cases.
  - rewrite app_nil_r in *. apply each_supported_cons; [|eauto].
    left. eexists. split; [done|set_solver].
  - rewrite app_assoc. apply each_supported_cons; [|eauto].
    right. split; [eexists; split; [done|set_solver]|].
    match goal with u : unit |- _ => destruct u end.
    match goal with Eh : hook _ _ _ = _ |- _ => destruct (Hhook _ _ _ _ Eh) as (e & ? & ?) end.
    exists e. split; [done|set_solver].
Qed.

(** A successful hook leaves its own call in the trace. *)
Lemma predrain_event c n (w : W) evs w' :
  PreDrain (DrainClient c) n w = (evs, w', inr tt) ->
  exists e, e = mkEv (PluginRpc c (RpcPreDrain (Some n))) (inr tt) /\ e ∈ evs.
Proof. simpl. unfold Client_PreDrain. intros E. inv_ok. eexists. split; [done|set_solver]. Qed.

Lemma postdrain_event c n (w : W) evs w' :
  PostDrain (DrainClient c) n w = (evs, w', inr tt) ->
  exists e, e = mkEv (PluginRpc c (RpcPostDrain (Some n))) (inr tt) /\ e ∈ evs.
Proof. simpl. unfold Client_PostDrain. intros E. inv_ok. eexists. split; [done|set_solver]. Qed.

(** The PreDrain hooks have run on the node [n] for the clients of [d]. *)
Definition predrain_done (d : DrainManager) (n : string) (evs : list Ev) : Prop :=
  each_supported (fun c e => e = mkEv (PluginRpc c (RpcPreDrain (Some n))) (inr tt))
    evs (map_to_list (drainClients d)).

Definition postdrain_done (d : DrainManager) (n : string) (evs : list Ev) : Prop :=
  each_supported (fun c e => e = mkEv (PluginRpc c (RpcPostDrain (Some n))) (inr tt))
    evs (map_to_list (drainClients d)).

Lemma RunPreDrain_done d node (w : W) evs w' :
  RunPreDrain d node w = (evs, w', inr tt) -> predrain_done d (Name node) evs.
Proof.
  unfold RunPreDrain. intros E. inv_ok.
  match goal with E : range_map _ _ = _ |- _ => apply range_map_ok in E as (l & [= ->] & Hp) end.
  match goal with u : unit |- _ => destruct u end.
  eapply each_supported_perm; [exact Hp|].
  eapply each_supported_mono; [|eapply run_hooks_complete; [|eassumption]].
  - set_solver.
  - intros c w2 evs2 w3. apply predrain_event.
Qed.

Lemma RunPostDrain_done d node (w : W) evs w' :
  RunPostDrain d node w = (evs, w', inr tt) -> postdrain_done d (Name node) evs.
Proof.
  unfold RunPostDrain. intros E. inv_ok.
  match goal with E : range_map _ _ = _ |- _ => apply range_map_ok in E as (l & [= ->] & Hp) end.
  match goal with u : unit |- _ => destruct u end.
  eapply each_supported_perm; [exact Hp|].
  eapply each_supported_mono; [|eapply run_hooks_complete; [|eassumption]].
  - set_solver.
  - intros c w2 evs2 w3. apply postdrain_event.
Qed.

(** ** The verdict of the polls *)

Definition verdict_error (v : error + bool) : option error :=
  match v with inl e => Some e | inr _ => None end.

Definition verdict_yes (v : error + bool) : bool :=
  match v with inr true => true | _ => false end.

(** The outcome of a poll, from the plugins' verdicts in the order they were asked: the
    joined errors if there are any, else whether all of them agree. *)
Definition poll_result (vs : list (error + bool)) : error + bool :=
  match omap verdict_error vs with
  | [] => inr (forallb verdict_yes vs)
  | es => inl (JoinError es)
  end.

(** The answer to a yes-or-no question, as the client passes it on. *)
Definition said (a : error + option bool) : error + bool :=
  match a with inl e => inl e | inr b => inr (GetBool b) end.

(** The exchange with the plugin on connection [c], [reply c] being the interaction of
    the question: first whether it is supported, then, if it is, the question; and the
    verdict it amounts to.  A plugin that is not supported has no objection. *)
Inductive exchange (reply : string -> error + option bool -> Ev) (c : string)
    : list Ev -> error + bool -> Prop :=
  | support_unknown e :
      exchange reply c [mkEv (PluginRpc c RpcIsSupported) (inl e)] (inl e)
  | not_supported a : GetBool a = false ->
      exchange reply c [mkEv (PluginRpc c RpcIsSupported) (inr a)] (inr true)
  | question_asked a x : GetBool a = true ->
      exchange reply c [mkEv (PluginRpc c RpcIsSupported) (inr a); reply c x] (said x).

(** The trace and the outcome of a whole poll: one exchange per plugin, in the order Go
    picked, then one event, a warning unless the outcome is yes. *)
Definition polled (reply : string -> error + option bool -> Ev) (d : DrainManager)
    (nodeName reason : string) (evs : list Ev) (res : error + bool) : Prop :=
  exists order l (talks : list (list Ev * (error + bool))) message,
    l ≡ₚ map_to_list (drainClients d) /\
    Forall2 (fun p t => exchange reply (conn p.2) t.1 t.2) l talks /\
    evs = mkEv (MapRange (map_to_list (drainClients d)).*1) order :: concat talks.*1 ++
          [mkEv (Eventf nodeName
             (if verdict_yes res then EventTypeNormal else EventTypeWarning) reason message) tt] /\
    res = poll_result talks.*2.

Section Polls.
Context (ask : string -> M W bool) (reply : string -> error + option bool -> Ev).
Context (ask_run : forall c w evs w' r, ask c w = (evs, w', r) ->
  exists x, evs = [reply c x] /\ r = said x).

Lemma poll_plugin_run neg acc id c w evs w' r :
  poll_plugin ask neg acc id c w = (evs, w', r) ->
  exists acc' v, r = inr acc' /\ exchange reply (conn c) evs v /\
    acc_ok acc' = acc_ok acc && verdict_yes v /\
    acc_errs acc' = acc_errs acc ++ option_list (verdict_error v).
Proof.
  unfold poll_plugin, attempt. simpl. unfold Client_IsSupported, mbind, M_bind, call.
  destruct (handle (PluginRpc (conn c) RpcIsSupported) w) as [[e|a] w1]; simpl.
  { intros [= <- <- <-]. eexists _, (inl e). split_and!; [done|constructor|by rewrite andb_false_r|done]. }
  destruct (GetBool a) eqn:Ha; simpl.
  - destruct (ask (conn c) w1) as [[evs2 w2] r2] eqn:Eask. destruct (ask_run _ _ _ _ _ Eask) as (x & -> & ->).
    destruct (said x) as [e|[]] eqn:Es; intros [= <- <- <-]; eexists _, (said x);
      (split_and!; [done|by constructor|rewrite Es; simpl|rewrite Es; simpl]);
      rewrite ?andb_true_r, ?andb_false_r, ?app_nil_r; done.
  - intros [= <- <- <-]. eexists _, (inr true).
    split_and!; [done|by constructor|by rewrite andb_true_r|by rewrite app_nil_r].
Qed.

Lemma poll_plugins_run neg l acc w evs w' r :
  poll_plugins ask neg acc l w = (evs, w', r) ->
  exists acc' (talks : list (list Ev * (error + bool))), r = inr acc' /\
    Forall2 (fun p t => exchange reply (conn p.2) t.1 t.2) l talks /\ evs = concat talks.*1 /\
    acc_ok acc' = acc_ok acc && forallb verdict_yes talks.*2 /\
    acc_errs acc' = acc_errs acc ++ omap verdict_error talks.*2.
Proof.
  revert acc w evs. induction l as [|[id c] l IH]; intros acc w evs; simpl.
  { intros [= <- <- <-]. exists acc, []. simpl. by rewrite andb_true_r, app_nil_r. }
  intros E. unfold mbind, M_bind in E. destruct (poll_plugin ask neg acc id c w) as [[evs1 w1] r1] eqn:E1.
  destruct (poll_plugin_run _ _ _ _ _ _ _ _ E1) as (acc1 & v & -> & Hx & Hok & Herr).
  destruct (poll_plugins ask neg acc1 l w1) as [[evs2 w2] r2] eqn:E2. injection E as <- <- <-.
  destruct (IH _ _ _ E2) as (acc2 & talks & -> & Hf & -> & Hok2 & Herr2).
  exists acc2, ((evs1, v) :: talks). simpl. rewrite Hok2, Herr2, Hok, Herr. split_and!; [done| |done| |].
  - by constructor.
  - by rewrite andb_assoc.
  - rewrite <- app_assoc. f_equal. by destruct (verdict_error v).
Qed.

(** No errors and no objection make a yes. *)
Lemma forallb_verdicts vs :
  forallb verdict_yes vs = true -> omap verdict_error vs = [].
Proof. induction vs as [|[e|[]] vs IH]; simpl; auto; discriminate. Qed.

(** Ranging over the clients, polling and reporting. *)
Lemma poll_all_run neg n reason title d w evs w' res :
  (l ← range_map (drainClients d);
   acc ← poll_plugins ask neg (mkPollAcc true [] []) l;
   poll_verdict n reason title acc) w = (evs, w', res) ->
  polled reply d n reason evs res.
Proof.
  unfold mbind, M_bind. destruct (range_map (drainClients d) w) as [[evs0 w0] r0] eqn:Er.
  destruct (range_map_ok _ _ _ _ _ Er) as (l & -> & Hp).
  assert (Horder : exists order, evs0 = [mkEv (MapRange (map_to_list (drainClients d)).*1) order]).
  { unfold range_map, mbind, M_bind, call in Er.
    destruct (handle (MapRange _) w) as [order w3]. injection Er as <- _ _. eauto. }
  destruct Horder as (order & ->).
  destruct (poll_plugins ask neg (mkPollAcc true [] []) l w0) as [[evs1 w1] r1] eqn:E1.
  destruct (poll_plugins_run _ _ _ _ _ _ _ E1) as (acc & talks & -> & Hf & -> & Hok & Herr).
  simpl in Hok, Herr. unfold poll_verdict, call, mbind, M_bind. rewrite Hok, Herr.
  destruct (handle _ w1) as [[] w3] eqn:Eh. clear Eh. intros E.
  exists order, l, talks. eexists. split_and!; [done..| |]; unfold poll_result.
  all: destruct (omap verdict_error talks.*2) as [|e es] eqn:Ee; simpl in E; injection E as <- <- <-;
    rewrite ?app_nil_r; try done.
  - by destruct (forallb verdict_yes talks.*2).
  - destruct (forallb verdict_yes talks.*2) eqn:Hy; [by rewrite forallb_verdicts in Ee|done].
Qed.
End Polls.

(** ** What a positive verdict rests on *)

Lemma poll_plugin_yes (ask : string -> M W bool) neg yes acc id c w evs w' acc' :
  (forall c w evs w', ask c w = (evs, w', inr true) -> exists e, yes c e /\ e ∈ evs) ->
  poll_plugin ask neg acc id c w = (evs, w', inr acc') -> acc_ok acc' = true ->
  acc_ok acc = true /\
  (supported_in evs (conn c) false \/
   (supported_in evs (conn c) true /\ exists e, yes (conn c) e /\ e ∈ evs)).
Proof.
  intros Hask E Hok. unfold poll_plugin in E.
  inv_cases; simplify_eq; simpl in *; try done; unfold Client_IsSupported in *; inv_ok; simplify_eq;
    (split; [done|]).
  - right. split; [eexists; split; [done|set_solver]|].
    match goal with Eh : ask _ _ = _ |- _ => destruct (Hask _ _ _ _ Eh) as (e & ? & ?) end.
    exists e. split; [done|set_solver].
  - left. eexists. split; [done|set_solver].
Qed.

Lemma poll_plugins_yes (ask : string -> M W bool) neg yes l acc w evs w' acc' :
  (forall c w evs w', ask c w = (evs, w', inr true) -> exists e, yes c e /\ e ∈ evs) ->
  poll_plugins ask neg acc l w = (evs, w', inr acc') -> acc_ok acc' = true ->
  acc_ok acc = true /\ each_supported yes evs l.
Proof.
  intros Hask. revert acc w evs. induction l as [|[id c] l IH]; intros acc w evs E Hok.
  { injection E as <- <- <-. split; [done|apply each_supported_nil]. }
  simpl in E. inv_ok.
  match goal with E : poll_plugins _ _ _ _ _ = _ |- _ => apply IH in E as [? ?]; [|done] end.
  match goal with E : poll_plugin _ _ _ _ _ _ = _ |- _ =>
    eapply poll_plugin_yes in E as [? ?]; [|done|done] end.
  split; [done|]. by apply each_supported_cons.
Qed.

(** During [evs], every supported plugin of [d] called the cluster healthy. *)
Definition healthy_in (d : DrainManager) (evs : list Ev) : Prop :=
  each_supported (fun c e => exists a, GetBool a = true /\ e = mkEv (PluginRpc c RpcIsHealthy) (inr a))
    evs (map_to_list (drainClients d)).

(** During [evs], every supported plugin of [d] agreed to draining [n]. *)
Definition drainok_in (d : DrainManager) (n : string) (evs : list Ev) : Prop :=
  each_supported (fun c e => exists a, GetBool a = true /\
      e = mkEv (PluginRpc c (RpcIsDrainOk (Some n))) (inr a))
    evs (map_to_list (drainClients d)).

(** During [evs], the nodes were listed and all were ready. *)
Definition nodes_ready_in (evs : list Ev) : Prop :=
  exists items, mkEv NodesList (inr items) ∈ evs /\ nodes_ready items = true.

Lemma IsClusterNodesHealthy_yes (w : W) evs w' :
  IsClusterNodesHealthy w = (evs, w', inr true) -> nodes_ready_in evs.
Proof.
  unfold IsClusterNodesHealthy. intros E. inv_ok. eexists. split; [|by symmetry].
  set_solver.
Qed.

Lemma poll_verdict_yes n reason title acc (w : W) evs w' :
  poll_verdict n reason title acc w = (evs, w', inr true) -> acc_ok acc = true.
Proof. unfold poll_verdict. intros E. by inv_cases. Qed.

Lemma DM_IsHealthy_yes d node (w : W) evs w' :
  DM_IsHealthy d node w = (evs, w', inr true) -> nodes_ready_in evs /\ healthy_in d evs.
Proof.
  unfold DM_IsHealthy. intros E. inv_cases; [|done].
  repeat match goal with
  | E : IsClusterNodesHealthy _ = _ |- _ => apply IsClusterNodesHealthy_yes in E as (items & ? & ?)
  | E : range_map _ _ = _ |- _ => apply range_map_ok in E as (l & [= ->] & Hp)
  | E : poll_verdict _ _ _ _ _ = _ |- _ => apply poll_verdict_yes in E
  end.
  split; [exists items; set_solver|]. eapply each_supported_perm; [exact Hp|].
  eapply each_supported_mono; [|eapply poll_plugins_yes; [|eassumption|done]]; [set_solver|].
  intros c ? ? ?. simpl. unfold Client_IsHealthy. intros Eask. inv_ok.
  eexists. split; [eexists; split; [eassumption|done]|set_solver].
Qed.

Lemma DM_IsDrainOk_yes d node (w : W) evs w' :
  DM_IsDrainOk d node w = (evs, w', inr true) -> drainok_in d (Name node) evs.
Proof.
  unfold DM_IsDrainOk. intros E. inv_ok.
  repeat match goal with
  | E : range_map _ _ = _ |- _ => apply range_map_ok in E as (l & [= ->] & Hp)
  | E : poll_verdict _ _ _ _ _ = _ |- _ => apply poll_verdict_yes in E
  end.
  eapply each_supported_perm; [exact Hp|].
  eapply each_supported_mono; [|eapply poll_plugins_yes; [|eassumption|done]]; [set_solver|].
  intros c ? ? ?. simpl. unfold Client_IsDrainOk. intros Eask. inv_ok.
  eexists. split; [eexists; split; [eassumption|done]|set_solver].
Qed.
End ManagerFacts.

(** ** Loading *)

(** The plugin on connection [c] was initialised during [evs]. *)
Definition init_in (evs : list Ev) (c : string) : Prop :=
  exists cfg, mkEv (PluginRpc c (RpcInit (Some cfg))) (inr tt) ∈ evs.

(** The registry of loaded plugins: keys are the plugins' own ids, every
    plugin has an id, a configuration format and has been initialised, and two
    plugin files never share an id. *)
Record registry_ok (evs : list Ev) (d : DrainManager) : Prop := {
  reg_client id c : drainClients d !! id = Some c ->
    ID (info c) = id /\ id <> EmptyString /\
    InfoConfigFormat (info c) <> CONFIG_FORMAT_UNSPECIFIED /\ init_in evs (conn c);
  reg_file base id : pluginFileId d !! base = Some id -> is_Some (drainClients d !! id);
  reg_inj b1 b2 id : pluginFileId d !! b1 = Some id -> pluginFileId d !! b2 = Some id -> b1 = b2
}.

Lemma registry_ok_mono evs evs' d :
  (forall e, e ∈ evs -> e ∈ evs') -> registry_ok evs d -> registry_ok evs' d.
Proof.
  intros Hs [Hc Hf Hi]. split; [|done|done]. intros id c Hid.
  destruct (Hc id c Hid) as (?&?&?&cfg&?). unfold init_in. eauto 10.
Qed.

Lemma registry_ok_insert evs d id base c :
  registry_ok evs d -> drainClients d !! id = None ->
  ID (info c) = id -> id <> EmptyString ->
  InfoConfigFormat (info c) <> CONFIG_FORMAT_UNSPECIFIED -> init_in evs (conn c) ->
  registry_ok evs (mkDrainManager (pluginClients d) (<[id := c]> (drainClients d))
                     (<[base := id]> (pluginFileId d))).
Proof.
  intros [Hc Hf Hi] Hnone Hid Hne Hfmt Hinit. split; simpl.
  - intros id' c' [[<- <-]|[? ?]]%lookup_insert_Some; auto.
  - intros b' id' [[<- <-]|[? Hb]]%lookup_insert_Some; [by rewrite lookup_insert_eq|].
    destruct (decide (id = id')) as [->|?]; [by rewrite lookup_insert_eq|].
    rewrite lookup_insert_ne by done. eauto.
  - assert (Hfresh : forall b, pluginFileId d !! b <> Some id)
      by (intros b Hb; apply Hf in Hb; rewrite Hnone in Hb; by destruct Hb).
    intros b1 b2 id' [[<- <-]|[? Hb1]]%lookup_insert_Some [[<- E2]|[? Hb2]]%lookup_insert_Some;
      subst; eauto; exfalso; eapply Hfresh; eauto.
Qed.

Section LoadFacts.
Context {W : Type} `{Env W}.

Lemma initPlugin_ok base path (w : W) evs w' i c :
  initPlugin base path w = (evs, w', inr (i, c)) ->
  c = path /\ ID i <> EmptyString /\ InfoConfigFormat i <> CONFIG_FORMAT_UNSPECIFIED /\
  init_in evs path.
Proof.
  unfold initPlugin. intros E. inv_cases. simplify_eq. split_and!; [done..|].
  match goal with E : Init _ _ _ = _ |- _ => simpl in E; unfold Client_Init in E end. inv_ok.
  match goal with u : unit |- _ => destruct u | u : rpc_resp _ |- _ => destruct u end.
  simpl in *. match goal with |- context [RpcInit (Some ?x)] => exists x end. set_solver.
Qed.

Lemma loadEntry_ok d found e (w : W) evs w' d' found' h :
  registry_ok h d -> loadEntry d found e w = (evs, w', inr (d', found')) ->
  registry_ok (h ++ evs) d'.
Proof.
  intros Hreg. assert (Hreg' : registry_ok (h ++ evs) d)
    by (eapply registry_ok_mono; [|done]; set_solver).
  unfold loadEntry. intros E. inv_cases; simplify_eq; try done.
  match goal with E : initPlugin _ _ _ = _ |- _ => apply initPlugin_ok in E as (-> & ? & ? & ?) end.
  apply registry_ok_insert; simpl; auto.
  unfold init_in in *. destruct_and?. set_solver.
Qed.

Lemma loadEntries_ok es d found (w : W) evs w' d' found' h :
  registry_ok h d -> loadEntries d found es w = (evs, w', inr (d', found')) ->
  registry_ok (h ++ evs) d'.
Proof.
  revert d found w evs h. induction es as [|e es IH]; intros d found w evs h Hreg E; simpl in E.
  - inv_ok. simplify_eq. by rewrite app_nil_r.
  - inv_cases. rewrite app_assoc. eapply IH; [|eassumption]. by eapply loadEntry_ok.
Qed.
End LoadFacts.

(** ** Properties *)

(** The interactions of the two questions. *)
Definition healthy_reply (c : string) (x : error + option bool) : Ev :=
  mkEv (PluginRpc c RpcIsHealthy) x.
Definition drainok_reply (n c : string) (x : error + option bool) : Ev :=
  mkEv (PluginRpc c (RpcIsDrainOk (Some n))) x.

(** C17. [IsDrainOk] asks every plugin, in the order Go picks, whether it is supported
    and, if so, whether the node may be drained, and reports with one event.  The
    outcome follows from the answers of this poll: if a support or drain check of some
    plugin failed, it is the join of exactly those errors, in that order; otherwise it
    is true precisely when every plugin either is not supported or agrees. *)
Theorem is_drain_ok_verdict {W} `{Env W} d node (w : W) evs w' res :
  DM_IsDrainOk d node w = (evs, w', res) ->
  polled (drainok_reply (Name node)) d (Name node) "DrainOK" evs res.
Proof.
  apply poll_all_run. intros c w0 evs0 w1 r. simpl. unfold Client_IsDrainOk, mbind, M_bind, call.
  destruct (handle _ w0) as [[e|x] w2]; intros [= <- <- <-]; eexists; done.
Qed.

(** A readiness fold starting from false stays false. *)
Lemma node_conditions_ready_iff cs acc :
  node_conditions_ready cs acc = true <->
  acc = true /\ Forall (fun c => nc_Type c = NodeReady -> nc_Status c = ConditionTrue) cs.
Proof.
  revert acc. induction cs as [|c cs IH]; intros acc; simpl.
  - split; [intros ->; by split | by intros [-> _]].
  - unfold node_conditions_ready in *. simpl. rewrite IH, Forall_cons.
    destruct (String.eqb_spec (nc_Type c) NodeReady), (String.eqb_spec (nc_Status c) ConditionTrue);
      simpl; naive_solver.
Qed.

Lemma nodes_ready_acc items acc :
  fold_left (fun acc node => node_conditions_ready (kn_Conditions node) acc) items acc = true <->
  acc = true /\ Forall (fun n => Forall (fun c =>
    nc_Type c = NodeReady -> nc_Status c = ConditionTrue) (kn_Conditions n)) items.
Proof.
  revert acc. induction items as [|n items IH]; intros acc; simpl.
  - split; [intros ->; by split | by intros [-> _]].
  - rewrite IH, node_conditions_ready_iff, Forall_cons. naive_solver.
Qed.

(** C19. [IsClusterNodesHealthy] issues one list request; it fails with that
    request's error, and otherwise is true exactly when no listed node carries
    a Ready condition other than True. *)
Theorem cluster_nodes_healthy_iff {W} `{Env W} (w : W) evs w' res :
  IsClusterNodesHealthy w = (evs, w', res) ->
  exists a, evs = [mkEv NodesList a] /\
    match a, res with
    | inl e, inl e' => e = e'
    | inr items, inr b =>
        b = true <-> Forall (fun n => Forall (fun c =>
          nc_Type c = NodeReady -> nc_Status c = ConditionTrue) (kn_Conditions n)) items
    | _, _ => False
    end.
Proof.
  unfold IsClusterNodesHealthy, call, mbind, M_bind.
  destruct (handle NodesList w) as [[e|items] w1]; simpl; intros [= <- <- <-]; eexists;
    (split; [reflexivity|]); [done|].
  unfold nodes_ready. rewrite nodes_ready_acc. naive_solver.
Qed.

(** C18. [IsHealthy] lists the nodes first.  If that fails it fails with the same error,
    and if some node is not ready the answer is no; in both cases a warning is recorded
    and no plugin is asked.  Otherwise it asks every plugin, in the order Go picks,
    whether it is supported and, if so, whether the cluster is healthy, with the
    outcome following from the answers as for [IsDrainOk]. *)
Theorem is_healthy_verdict {W} `{Env W} d node (w : W) evs w' res :
  DM_IsHealthy d node w = (evs, w', res) ->
  exists a rest, evs = mkEv NodesList a :: rest /\
    match a with
    | inl e => res = inl e /\ exists message,
        rest = [mkEv (Eventf (Name node) EventTypeWarning "Healthy" message) tt]
    | inr items =>
        if nodes_ready items then polled healthy_reply d (Name node) "Healthy" rest res
        else res = inr false /\ exists message,
          rest = [mkEv (Eventf (Name node) EventTypeWarning "Healthy" message) tt]
    end.
Proof.
  unfold DM_IsHealthy, attempt, IsClusterNodesHealthy. unfold mbind at 1, M_bind at 1.
  unfold mbind at 1, M_bind at 1. unfold call at 1.
  destruct (handle NodesList w) as [[e|items] w1]; simpl.
  { unfold mbind, M_bind, call. destruct (handle _ w1) as [[] w2]. intros [= <- <- <-]. eexists _, _.
    split; [reflexivity|]. simpl. eauto. }
  destruct (nodes_ready items) eqn:Hr.
  - destruct ((l ← range_map (drainClients d);
      acc ← poll_plugins (fun c => IsHealthy (DrainClient c)) ": Not healthy" (mkPollAcc true [] []) l;
      poll_verdict (Name node) "Healthy" "IsHealthy:" acc) w1) as [[rest w2] r] eqn:E.
    simpl in E. rewrite E. intros [= <- <- <-]. eexists _, rest. split; [done|]. simpl. rewrite Hr. revert E. apply poll_all_run.
    intros c w0 evs0 w3 x. simpl. unfold Client_IsHealthy, mbind, M_bind, call.
    destruct (handle _ w0) as [[e|b] w4]; intros [= <- <- <-]; eexists; done.
  - unfold mbind, M_bind, call. destruct (handle _ w1) as [[] w2]. intros [= <- <- <-]. eexists _, _.
    split; [reflexivity|]. simpl. rewrite Hr. eauto.
Qed.

(** C20. A drain manager that starts has a sound plugin registry: each client is
    filed under the id its plugin reported, ids are non-empty and unique per
    plugin file, the configuration format is specified, and the plugin's Init
    has been called with its configuration. *)
Theorem new_drain_manager_registry {W} `{Env W} (w : W) evs w' d :
  NewDrainManager w = (evs, w', inr d) -> registry_ok evs d.
Proof.
  unfold NewDrainManager, loadPluginsFromDir. intros E. inv_cases.
  all: try (split; simpl; intros *; rewrite lookup_empty; done).
  match goal with E : loadEntries _ _ _ _ = _ |- _ => apply (loadEntries_ok _ _ _ _ _ _ _ _ []) in E end.
  - match goal with Hr : registry_ok _ _ |- _ => destruct Hr as [Hc Hf Hi] end.
    split; simpl; [|done|done]. intros id c Hid. destruct (Hc id c Hid) as (?&?&?&cfg&?).
    split_and!; [done..|]. exists cfg. set_solver.
  - split; simpl; intros *; rewrite lookup_empty; done.
Qed.
