(* ===== verification/Serving.v ===== *)
(** * Plugins over the wire

    What lies between a method of the operator's [DrainClient] and the method of the
    plugin author's [DrainPlugin] in another process: the messages of [Messages.v],
    the generated client and service description (drain_plugin_grpc.pb.go), gRPC,
    and go-plugin, which connects the two processes (src/api/plugins, and the client
    configuration of drain-manager.go).

    gRPC, go-plugin and the protobuf encoding are parameters with documented laws.
    The theorem discharges the interface [RpcTransport] that the theorems on the
    operator's side assume. *)

From Stdlib Require Import ZArith.
From stdpp Require Import base gmap strings list.
From S2P Require Import Prelude NodeTypes Requests Effects Plugins Messages Config DrainManager.

Local Open Scope string_scope.
Local Open Scope list_scope.

(** ** Encoding *)

(** proto.Marshal and proto.Unmarshal.  What is decoded is a valid message with the
    same fields; unset fields stay unset. *)
Class Proto (X : Type) := { Marshal : X -> string; Unmarshal : string -> error + X }.

Class ProtoLaws (X F : Type) `{Message X F} `{Proto X} : Prop :=
  unmarshal_marshal (x : X) : valid x ->
    exists x', Unmarshal (Marshal x) = inr x' /\ valid x' /\ fields x' = fields x.

(** The messages without fields. *)
#[global] Instance empty_message : Message unit unit := {
  fields x := x; valid _ := True; build x := x
}.

(** Generated code handles messages behind [interface{}]. *)
Inductive AnyMsg := Any (X : Type) (P : Proto X) (x : X).
Arguments Any {X}.

Definition marshalAny (a : AnyMsg) : string := match a with Any P x => Marshal x end.

(** ** The service (drain_plugin_grpc.pb.go) *)

Definition DrainService_PluginInfo_FullMethodName := "/api.plugins.proto.v1.DrainService/PluginInfo".
Definition DrainService_Init_FullMethodName := "/api.plugins.proto.v1.DrainService/Init".
Definition DrainService_IsSupported_FullMethodName := "/api.plugins.proto.v1.DrainService/IsSupported".
Definition DrainService_IsHealthy_FullMethodName := "/api.plugins.proto.v1.DrainService/IsHealthy".
Definition DrainService_IsDrainOk_FullMethodName := "/api.plugins.proto.v1.DrainService/IsDrainOk".
Definition DrainService_PreDrain_FullMethodName := "/api.plugins.proto.v1.DrainService/PreDrain".
Definition DrainService_PostDrain_FullMethodName := "/api.plugins.proto.v1.DrainService/PostDrain".

(** [dec] decodes the request into a message of the handler's choice. *)
Definition Dec : Type := forall X : Type, Proto X -> error + X.

(** [grpc.UnaryServerInterceptor]: it gets the request, the full method name and the
    handler it stands in front of. *)
Definition Interceptor (S : Type) : Type :=
  forall X : Type, Proto X -> X -> string -> (X -> M S AnyMsg) -> M S AnyMsg.

Record MethodDesc (S : Type) := mkMethodDesc {
  MethodName : string;
  Handler : DrainPlugin S -> Dec -> option (Interceptor S) -> M S AnyMsg
}.
Arguments MethodName {S}.
Arguments Handler {S}.

Record ServiceDesc (S : Type) := mkServiceDesc {
  ServiceName : string;
  Methods : list (MethodDesc S)
}.
Arguments ServiceName {S}.
Arguments Methods {S}.

Section Service.
Context `{ProtoImpl} `{!Proto unit, !Proto PluginInfoResponseMsg, !Proto InitRequestMsg,
  !Proto BoolMsg, !Proto NodeNameMsg}.
Context {S : Type}.

(** The handlers: decode, call the server's method, which reads the request's fields
    and builds the response; an interceptor is called in its place. *)
Definition PluginInfo_Handler (srv : DrainPlugin S) (dec : Dec) (interceptor : option (Interceptor S))
    : M S AnyMsg :=
  request ← lift (dec unit _);
  let handler := fun _ : unit => r ← Server_PluginInfo srv; mret (Any _ (PluginInfoResponse_Build r)) in
  match interceptor with
  | None => handler request
  | Some interceptor => interceptor _ _ request DrainService_PluginInfo_FullMethodName handler
  end.

Definition Init_Handler (srv : DrainPlugin S) (dec : Dec) (interceptor : option (Interceptor S))
    : M S AnyMsg :=
  request ← lift (dec InitRequestMsg _);
  let handler := fun req : InitRequestMsg => r ← Server_Init srv (InitRequest_GetConfig (Some req)); mret (Any _ r) in
  match interceptor with
  | None => handler request
  | Some interceptor => interceptor _ _ request DrainService_Init_FullMethodName handler
  end.

Definition IsSupported_Handler (srv : DrainPlugin S) (dec : Dec) (interceptor : option (Interceptor S))
    : M S AnyMsg :=
  request ← lift (dec unit _);
  let handler := fun _ : unit => r ← Server_IsSupported srv; mret (Any _ (BoolMsg_Build r)) in
  match interceptor with
  | None => handler request
  | Some interceptor => interceptor _ _ request DrainService_IsSupported_FullMethodName handler
  end.

Definition IsHealthy_Handler (srv : DrainPlugin S) (dec : Dec) (interceptor : option (Interceptor S))
    : M S AnyMsg :=
  request ← lift (dec unit _);
  let handler := fun _ : unit => r ← Server_IsHealthy srv; mret (Any _ (BoolMsg_Build r)) in
  match interceptor with
  | None => handler request
  | Some interceptor => interceptor _ _ request DrainService_IsHealthy_FullMethodName handler
  end.

Definition IsDrainOk_Handler (srv : DrainPlugin S) (dec : Dec) (interceptor : option (Interceptor S))
    : M S AnyMsg :=
  request ← lift (dec NodeNameMsg _);
  let handler := fun req : NodeNameMsg => r ← Server_IsDrainOk srv (fields req); mret (Any _ (BoolMsg_Build r)) in
  match interceptor with
  | None => handler request
  | Some interceptor => interceptor _ _ request DrainService_IsDrainOk_FullMethodName handler
  end.

Definition PreDrain_Handler (srv : DrainPlugin S) (dec : Dec) (interceptor : option (Interceptor S))
    : M S AnyMsg :=
  request ← lift (dec NodeNameMsg _);
  let handler := fun req : NodeNameMsg => r ← Server_PreDrain srv (fields req); mret (Any _ r) in
  match interceptor with
  | None => handler request
  | Some interceptor => interceptor _ _ request DrainService_PreDrain_FullMethodName handler
  end.

Definition PostDrain_Handler (srv : DrainPlugin S) (dec : Dec) (interceptor : option (Interceptor S))
    : M S AnyMsg :=
  request ← lift (dec NodeNameMsg _);
  let handler := fun req : NodeNameMsg => r ← Server_PostDrain srv (fields req); mret (Any _ r) in
  match interceptor with
  | None => handler request
  | Some interceptor => interceptor _ _ request DrainService_PostDrain_FullMethodName handler
  end.

Definition DrainService_ServiceDesc : ServiceDesc S :=
  mkServiceDesc S "api.plugins.proto.v1.DrainService"
    [mkMethodDesc S "PluginInfo" PluginInfo_Handler;
     mkMethodDesc S "Init" Init_Handler;
     mkMethodDesc S "IsSupported" IsSupported_Handler;
     mkMethodDesc S "IsHealthy" IsHealthy_Handler;
     mkMethodDesc S "IsDrainOk" IsDrainOk_Handler;
     mkMethodDesc S "PreDrain" PreDrain_Handler;
     mkMethodDesc S "PostDrain" PostDrain_Handler].
End Service.

(** gRPC in the plugin process: services are registered with a server, which answers
    a unary call, named by its full method name, with encoded messages. *)
Class Grpc (S : Type) := {
  GrpcServer : Type;
  DefaultGRPCServer : GrpcServer;
  RegisterService : GrpcServer -> ServiceDesc S -> DrainPlugin S -> GrpcServer;
  serveCall : GrpcServer -> string -> string -> M S string
}.

(** A call that is answered was handled by the method registered under its name; the
    default server has no interceptor. *)
Class GrpcLaws (S : Type) `{Grpc S} : Prop :=
  grpc_routes desc srv d bytes s evs s' out :
    NoDup (MethodName <$> Methods desc) -> d ∈ Methods desc ->
    serveCall (RegisterService DefaultGRPCServer desc srv)
      ("/" +:+ ServiceName desc +:+ "/" +:+ MethodName d) bytes s = (evs, s', inr out) ->
    exists evs' msg, Handler d srv (fun X P => Unmarshal bytes) None s = (evs', s', inr msg) /\
      out = marshalAny msg.

(** gRPC in the operator: [ClientConn.Invoke]. *)
Class GrpcConn (W : Type) :=
  Invoke : forall X Y : Type, Proto X -> Proto Y -> string -> X -> W -> (error + Y) * W.

(** ** The generated client *)

Section Client.
Context `{ProtoImpl} `{!Proto unit, !Proto PluginInfoResponseMsg, !Proto InitRequestMsg,
  !Proto BoolMsg, !Proto NodeNameMsg}.
Context {W : Type} `{GrpcConn W}.

Definition drainServiceClient_PluginInfo (x : unit) : W -> (error + PluginInfoResponseMsg) * W :=
  Invoke _ _ _ _ DrainService_PluginInfo_FullMethodName x.
Definition drainServiceClient_Init (x : InitRequestMsg) : W -> (error + unit) * W :=
  Invoke _ _ _ _ DrainService_Init_FullMethodName x.
Definition drainServiceClient_IsSupported (x : unit) : W -> (error + BoolMsg) * W :=
  Invoke _ _ _ _ DrainService_IsSupported_FullMethodName x.
Definition drainServiceClient_IsHealthy (x : unit) : W -> (error + BoolMsg) * W :=
  Invoke _ _ _ _ DrainService_IsHealthy_FullMethodName x.
Definition drainServiceClient_IsDrainOk (x : NodeNameMsg) : W -> (error + BoolMsg) * W :=
  Invoke _ _ _ _ DrainService_IsDrainOk_FullMethodName x.
Definition drainServiceClient_PreDrain (x : NodeNameMsg) : W -> (error + unit) * W :=
  Invoke _ _ _ _ DrainService_PreDrain_FullMethodName x.
Definition drainServiceClient_PostDrain (x : NodeNameMsg) : W -> (error + unit) * W :=
  Invoke _ _ _ _ DrainService_PostDrain_FullMethodName x.

(** A call as the operator's [DrainClient] makes it, in terms of fields: the request
    is built, the response is read. *)
Definition answered {Y F} (f : Y -> F) (r : (error + Y) * W) : (error + F) * W :=
  (match r.1 with inl e => inl e | inr y => inr (f y) end, r.2).

Definition wireCall (m : Rpc) (w : W) : (error + rpc_resp m) * W :=
  match m return (error + rpc_resp m) * W with
  | RpcPluginInfo => answered fields (drainServiceClient_PluginInfo tt w)
  | RpcInit c => answered fields (drainServiceClient_Init (InitRequest_Build c) w)
  | RpcIsSupported => answered fields (drainServiceClient_IsSupported tt w)
  | RpcIsHealthy => answered fields (drainServiceClient_IsHealthy tt w)
  | RpcIsDrainOk n => answered fields (drainServiceClient_IsDrainOk (NodeNameMsg_Build n) w)
  | RpcPreDrain n => answered fields (drainServiceClient_PreDrain (NodeNameMsg_Build n) w)
  | RpcPostDrain n => answered fields (drainServiceClient_PostDrain (NodeNameMsg_Build n) w)
  end.
End Client.

(** ** go-plugin *)

Record HandshakeConfig := mkHandshakeConfig { MagicCookieKey : string; MagicCookieValue : string }.

Definition Handshake : HandshakeConfig :=
  mkHandshakeConfig "NODEDRAIN_PLUGIN" "4ae46e30-c5de-4ab9-a2c5-4618fdcab7ae".

(** [GRPCDrainPlugin]: the operator's value has no implementation. *)
Record GRPCDrainPlugin (S : Type) := mkGRPCDrainPlugin { gdp_Impl : option (DrainPlugin S) }.
Arguments mkGRPCDrainPlugin {S}.
Arguments gdp_Impl {S}.

(** [hclog.LoggerOptions] as [Serve] fills it; the output is standard error. *)
Record LoggerOptions := mkLoggerOptions { lo_Level : string; lo_JSONFormat : bool }.

Definition PluginSet (S : Type) : Type := gmap string (GRPCDrainPlugin S).

Record ServeConfig (S : Type) := mkServeConfig {
  sc_HandshakeConfig : HandshakeConfig;
  sc_Logger : LoggerOptions;
  sc_VersionedPlugins : gmap Z (PluginSet S);
  sc_GRPCServer : bool                       (* set, to DefaultGRPCServer *)
}.
Arguments mkServeConfig {S}.
Arguments sc_HandshakeConfig {S}.
Arguments sc_Logger {S}.
Arguments sc_VersionedPlugins {S}.
Arguments sc_GRPCServer {S}.

Record ClientConfig (S : Type) := mkClientConfig {
  cc_HandshakeConfig : HandshakeConfig;
  cc_VersionedPlugins : gmap Z (PluginSet S);
  cc_Cmd : string;
  cc_Managed : bool;
  cc_AllowedProtocols : list string
}.
Arguments mkClientConfig {S}.
Arguments cc_HandshakeConfig {S}.
Arguments cc_VersionedPlugins {S}.
Arguments cc_Cmd {S}.
Arguments cc_Managed {S}.
Arguments cc_AllowedProtocols {S}.

Definition ProtocolGRPC : string := "grpc".

(** [func Serve(impl DrainPlugin)]: the configuration handed to [plugin.Serve]. *)
Definition Serve {S} (impl : DrainPlugin S) : ServeConfig S :=
  mkServeConfig Handshake (mkLoggerOptions "trace" true)
    {[ 0%Z := {[ "drain" := mkGRPCDrainPlugin (Some impl) ]} ]} true.

(** [func main()] of the example plugin. *)
Definition example_main : ServeConfig bool := Serve ExampleDrainPlugin.

(** The configuration [loadPluginsFromDir] gives to [plugin.NewClient] (the monitors of
    the plugin's output are in [Monitor.v]). *)
Definition pluginClientConfig {S} (pluginPath : string) : ClientConfig S :=
  mkClientConfig Handshake {[ 0%Z := {[ "drain" := mkGRPCDrainPlugin None ]} ]}
    pluginPath true [ProtocolGRPC].

Section GoPlugin.
Context `{ProtoImpl} `{!Proto unit, !Proto PluginInfoResponseMsg, !Proto InitRequestMsg,
  !Proto BoolMsg, !Proto NodeNameMsg}.

(** A nil [DrainPlugin]: every call through it dereferences nil. *)
Definition nilDrainPlugin {S} : DrainPlugin S :=
  mkDrainPlugin S (raise nilLogger) (fun _ => raise nilLogger) (raise nilLogger) (raise nilLogger)
    (fun _ => raise nilLogger) (fun _ => raise nilLogger) (fun _ => raise nilLogger).

(** [GRPCDrainPlugin.GRPCServer]: a nil implementation is registered too. *)
Definition GRPCServer {S} `{Grpc S} (p : GRPCDrainPlugin S) (s : GrpcServer) : GrpcServer :=
  RegisterService s DrainService_ServiceDesc (default nilDrainPlugin (gdp_Impl p)).

(** [GRPCDrainPlugin.GRPCClient]: the dynamic type of the value. *)
Definition GRPCClient {S} (p : GRPCDrainPlugin S) : string := "*plugins.DrainClient".

(** go-plugin starts the process and agrees with it on a protocol version
    ([negotiate]); a client hands out the plugin of that version's set ([dispense]),
    and the process serves the set of that version ([served]). *)
Class GoPlugin (S : Type) `{Grpc S} := {
  negotiate : ClientConfig S -> ServeConfig S -> error + Z;
  dispense : ClientConfig S -> Z -> string -> error + string;
  served : ServeConfig S -> Z -> GrpcServer
}.

(** Documented behaviour: with the same magic cookie and an allowed protocol the
    highest version both sides have is chosen; [Dispense] asks the plugin registered
    under the name for its client; the process registers every plugin of the set. *)
Class GoPluginLaws (S : Type) `{GoPlugin S} : Prop := {
  negotiates cc sc v :
    cc_HandshakeConfig cc = sc_HandshakeConfig sc ->
    sc_GRPCServer sc = true -> ProtocolGRPC ∈ cc_AllowedProtocols cc ->
    v ∈ dom (cc_VersionedPlugins cc) -> v ∈ dom (sc_VersionedPlugins sc) ->
    (forall v', v' ∈ dom (cc_VersionedPlugins cc) -> v' ∈ dom (sc_VersionedPlugins sc) -> (v' <= v)%Z) ->
    negotiate cc sc = inr v;
  dispenses cc v (set : PluginSet S) name p :
    cc_VersionedPlugins cc !! v = Some set -> set !! name = Some p ->
    dispense cc v name = inr (GRPCClient p);
  serves sc v name p :
    sc_VersionedPlugins sc !! v = Some {[ name := p ]} ->
    served sc v = GRPCServer p DefaultGRPCServer
}.

(** The operator's side of the connection to the process at [path], which serves
    [sc]: what is dispensed is what go-plugin dispenses, calls of [DrainClient] are
    calls over the connection, and a call that is answered was answered by the
    server in the process.  [plug] is the state of the process. *)
Class PluginProcess (W S : Type) `{Env W} `{GrpcConn W} `{GoPlugin S} (path : string)
    (sc : ServeConfig S) (plug : W -> S) : Prop := {
  process_dispense name w ty w' :
    handle (PluginDispense path name) w = (inr ty, w') ->
    exists v, negotiate (pluginClientConfig path) sc = inr v /\
      dispense (pluginClientConfig path) v name = inr ty;
  process_rpc m w : handle (PluginRpc path m) w = wireCall m w;
  process_serves X Y (PX : Proto X) (PY : Proto Y) method (x : X) w (y : Y) w' v :
    negotiate (pluginClientConfig path) sc = inr v ->
    Invoke X Y PX PY method x w = (inr y, w') ->
    exists evs out, serveCall (served sc v) method (Marshal x) (plug w) = (evs, plug w', inr out) /\
      Unmarshal out = inr y
}.

Context `{!ProtoImplLaws} `{!ProtoLaws unit unit, !ProtoLaws PluginInfoResponseMsg PluginInfoResponse,
  !ProtoLaws InitRequestMsg (option string), !ProtoLaws BoolMsg (option bool),
  !ProtoLaws NodeNameMsg (option string)}.

Section Served.
Context {S : Type} `{!Grpc S} `{!GoPlugin S} `{!GrpcLaws S} `{!GoPluginLaws S}.
Context (path : string) (impl : DrainPlugin S).

(** Both sides know version 0 and nothing else. *)
Lemma versions_agree : negotiate (pluginClientConfig path) (Serve impl) = inr 0%Z.
Proof.
  apply negotiates; simpl; try done; set_solver.
Qed.

Lemma drain_dispensed :
  dispense (S := S) (pluginClientConfig path) 0 "drain" = inr "*plugins.DrainClient".
Proof.
  apply (dispenses _ _ {[ "drain" := mkGRPCDrainPlugin None ]} _ (mkGRPCDrainPlugin None));
    unfold PluginSet; simpl; by rewrite lookup_singleton_eq.
Qed.

Lemma server_registered :
  served (Serve impl) 0 = RegisterService DefaultGRPCServer DrainService_ServiceDesc impl.
Proof.
  rewrite (serves _ _ "drain" (mkGRPCDrainPlugin (Some impl))); [done|].
  simpl. by rewrite lookup_singleton_eq.
Qed.

Context {W : Type} `{Env W} `{GrpcConn W} (plug : W -> S).
Context `{!PluginProcess W S path (Serve impl) plug}.

(** A call over the connection that is answered was handled by the method of the
    service registered under the called name. *)
Lemma invoke_handled {X Y} (PX : Proto X) (PY : Proto Y) (d : MethodDesc S) (x : X) w (y : Y) w' :
  d ∈ Methods DrainService_ServiceDesc ->
  Invoke X Y PX PY ("/api.plugins.proto.v1.DrainService/" +:+ MethodName d) x w = (inr y, w') ->
  exists evs msg, Handler d impl (fun X P => Unmarshal (Marshal x)) None (plug w) = (evs, plug w', inr msg) /\
    Unmarshal (marshalAny msg) = inr y.
Proof.
  intros Hd E. eapply process_serves in E as (evs & out & Hs & Hu); [|exact versions_agree].
  rewrite server_registered in Hs.
  apply (grpc_routes DrainService_ServiceDesc impl d) in Hs as (evs' & msg & Hh & ->); [eauto| |done].
  simpl. repeat (apply NoDup_cons; split; [set_solver by discriminate|]). apply NoDup_nil_2.
Qed.

(** The round trip of one call: request fields in, response fields out. *)
Lemma call_served {X FX Y FY} `{MX : Message X FX, MY : Message Y FY} (PX : Proto X) (PY : Proto Y)
    `{!ProtoLaws X FX, !ProtoLaws Y FY} name h (req : FX) (serve : M S FY) w a w' :
  builds (M := X) -> builds (M := Y) ->
  mkMethodDesc S name h ∈ Methods DrainService_ServiceDesc ->
  (forall (dec : Dec) x, dec X PX = inr x -> valid x -> fields x = req ->
     h impl dec None ≡ (r ← serve; mret (Any PY (build r)))) ->
  answered fields (Invoke X Y PX PY ("/api.plugins.proto.v1.DrainService/" +:+ name) (build req) w)
    = (inr a, w') ->
  exists evs, serve (plug w) = (evs, plug w', inr a).
Proof.
  intros HX HY Hd Hh. unfold answered.
  destruct (Invoke X Y PX PY _ _ w) as [[e|y] w1] eqn:E; [done|]. intros [= <- <-].
  apply (invoke_handled PX PY (mkMethodDesc S name h)) in E as (evs & msg & Hrun & Hy); [|done].
  destruct (HX req) as [Hv Hf]. destruct (unmarshal_marshal _ Hv) as (x' & Hu & Hv' & Hf').
  simpl in Hrun. rewrite (Hh _ x') in Hrun; [|done|done|by rewrite Hf'].
  apply bind_run in Hrun as [(? & _ & ?)|(r & evs1 & s1 & evs2 & E1 & [= <- <- <-] & ->)]; [done|].
  simpl in Hy. destruct (HY r) as [Hv2 Hf2].
  destruct (unmarshal_marshal _ Hv2) as (y' & Hu2 & _ & Hf3). exists evs1.
  rewrite E1. rewrite Hy in Hu2. injection Hu2 as ->. by rewrite Hf3, Hf2.
Qed.

Lemma builds_unit : builds (M := unit).
Proof. done. Qed.

(** A handler that decodes its request does what the server method does with it. *)
Lemma handler_reads {X A} (PX : Proto X) (dec : Dec) (x : X) (f : X -> M S A) :
  dec X PX = inr x -> (request ← lift (dec X PX); f request) ≡ f x.
Proof. intros ->. apply bind_ret_l. Qed.

#[local] Instance wire_transport : RpcTransport W S path impl plug.
Proof.
  destruct builds_all as (Bp & Bi & Bb & Bn). pose proof builds_unit as Bu.
  intros m w a w' E. rewrite process_rpc in E. destruct m as [|c| | |n|n|n]; simpl in E.
  - eapply (call_served (X := unit) (Y := PluginInfoResponseMsg) _ _ "PluginInfo" PluginInfo_Handler tt);
      [done..|set_solver| |exact E].
    intros dec x Hd _ _. by apply (handler_reads _ dec x).
  - eapply (call_served (X := InitRequestMsg) (Y := unit) _ _ "Init" Init_Handler c);
      [done..|set_solver| |exact E].
    intros dec x Hd Hv Hf. etrans; [by apply (handler_reads _ dec x)|].
    by rewrite GetConfig_fields, Hf.
  - eapply (call_served (X := unit) (Y := BoolMsg) _ _ "IsSupported" IsSupported_Handler tt);
      [done..|set_solver| |exact E].
    intros dec x Hd _ _. by apply (handler_reads _ dec x).
  - eapply (call_served (X := unit) (Y := BoolMsg) _ _ "IsHealthy" IsHealthy_Handler tt);
      [done..|set_solver| |exact E].
    intros dec x Hd _ _. by apply (handler_reads _ dec x).
  - eapply (call_served (X := NodeNameMsg) (Y := BoolMsg) _ _ "IsDrainOk" IsDrainOk_Handler n);
      [done..|set_solver| |exact E].
    intros dec x Hd Hv Hf. etrans; [by apply (handler_reads _ dec x)|]. by rewrite Hf.
  - eapply (call_served (X := NodeNameMsg) (Y := unit) _ _ "PreDrain" PreDrain_Handler n);
      [done..|set_solver| |exact E].
    intros dec x Hd Hv Hf. etrans; [by apply (handler_reads _ dec x)|]. by rewrite Hf.
  - eapply (call_served (X := NodeNameMsg) (Y := unit) _ _ "PostDrain" PostDrain_Handler n);
      [done..|set_solver| |exact E].
    intros dec x Hd Hv Hf. etrans; [by apply (handler_reads _ dec x)|]. by rewrite Hf.
Qed.

(** Loading the plugin reaches the plugin. *)
Lemma initPlugin_reaches base w evs w' info client :
  initPlugin base path w = (evs, w', inr (info, client)) ->
  client = path /\ ID info <> EmptyString /\
  (exists w1 w2 evs', PluginInfo impl (plug w1) = (evs', plug w2, inr info)) /\
  exists bytes w3 evs',
    mkEv (KoanfCutMarshal ("plugins." +:+ ID info) (InfoConfigFormat info)) (inr bytes) ∈ evs /\
    Init impl (mkDrainPluginSettings (Some bytes)) (plug w3) = (evs', plug w', inr tt).
Proof.
  pose proof wire_transport as Ht. intros E. unfold initPlugin, GetPluginConfig in E.
  inv_cases; simplify_eq.
  all: match goal with u : unit |- _ => destruct u end.
  all: apply (served_PluginInfo _ impl plug) in E as [? E].
  all: apply (served_Init _ impl plug) in E0 as [? E0].
  all: split_and!; [done|done|eauto|].
  all: eexists _, _, _; split; [|eassumption]; set_solver.
Qed.

(** C12. What the operator asks is what the plugin answers.  Let a plugin process serve
    an implementation with [Serve] and the operator connect to it with the
    configuration of [loadPluginsFromDir].  The two agree on protocol version 0 and
    dispensing drain gives the client type the operator insists on.  Every call the
    operator's client makes and that succeeds was executed by the implementation's
    method of the same name, with the same fields, and returned what it returned:
    full method names, service description, handlers, builders and accessors of the
    generated code fit together.  A plugin the operator loads has therefore itself
    answered with the non-empty id it is registered under, and has accepted exactly
    the bytes configured for that id. *)
Theorem plugin_served :
  negotiate (pluginClientConfig path) (Serve impl) = inr 0%Z /\
  dispense (S := S) (pluginClientConfig path) 0 "drain" = inr "*plugins.DrainClient" /\
  RpcTransport W S path impl plug /\
  forall base w evs w' info client,
    initPlugin base path w = (evs, w', inr (info, client)) ->
    client = path /\ ID info <> EmptyString /\
    (exists w1 w2 evs', PluginInfo impl (plug w1) = (evs', plug w2, inr info)) /\
    exists bytes w3 evs',
      mkEv (KoanfCutMarshal ("plugins." +:+ ID info) (InfoConfigFormat info)) (inr bytes) ∈ evs /\
      Init impl (mkDrainPluginSettings (Some bytes)) (plug w3) = (evs', plug w', inr tt).
Proof.
  split; [exact versions_agree|]. split; [exact drain_dispensed|].
  split; [exact wire_transport|exact initPlugin_reaches].
Qed.
End Served.
End GoPlugin.
