(* ===== verification/Monitor.v ===== *)
(** * Plugin output (pluginOutputMonitor of src/internal/utils/drain-manager.go)

    Each output stream of a plugin process is read line by line by a goroutine
    that writes the lines to the operator's log: JSON lines of hclog with their
    own level, time and fields, other lines as they are, at a level guessed from
    their start.  The reader is a [bufio.Scanner] whose buffer may grow to one
    megabyte; the map from plugin file to plugin id is filled by another
    goroutine while lines arrive. *)

From Stdlib Require Import Ascii ZArith NArith Lia.
From stdpp Require Import base gmap strings list.
From S2P Require Import Prelude NodeTypes Requests Effects Config Json GoTime Logging HcLog Plugins DrainManager.

Local Open Scope string_scope.
Local Open Scope list_scope.

(** [config.LogPluginId]. *)
Definition LogPluginId : string := "plugin.id".

(** ** strings.TrimSpace *)

(** The Unicode white space of one, two and three bytes in UTF-8. *)
Definition space1 (a : ascii) : bool := byte_in a 9 13 || byte_is a 32.
Definition space2 (a b : ascii) : bool := byte_is a 194 && (byte_is b 133 || byte_is b 160).
Definition space3 (a b c : ascii) : bool :=
  (byte_is a 225 && byte_is b 154 && byte_is c 128)
  || (byte_is a 226 && byte_is b 128
      && (byte_in c 128 138 || byte_is c 168 || byte_is c 169 || byte_is c 175))
  || (byte_is a 226 && byte_is b 129 && byte_is c 159)
  || (byte_is a 227 && byte_is b 128 && byte_is c 128).

(** Drops matching groups of bytes from the front. *)
Fixpoint trim (f1 : ascii -> bool) (f2 : ascii -> ascii -> bool)
    (f3 : ascii -> ascii -> ascii -> bool) (s : string) : string :=
  match s with
  | String a r =>
      if f1 a then trim f1 f2 f3 r
      else
        match r with
        | String b r1 =>
            if f2 a b then trim f1 f2 f3 r1
            else
              match r1 with
              | String c r2 => if f3 a b c then trim f1 f2 f3 r2 else s
              | EmptyString => s
              end
        | EmptyString => s
        end
  | EmptyString => EmptyString
  end.

Definition TrimSpace (s : string) : string :=
  let s := trim space1 space2 space3 s in
  String.rev (trim space1 (fun a b => space2 b a) (fun a b c => space3 c b a) (String.rev s)).

(** ** bufio.Scanner with ScanLines *)

Definition char_newline : ascii := ascii_of_nat 10.
Definition char_return : ascii := ascii_of_nat 13.

(** [dropCR] of a line given in reverse. *)
Definition finishLine (cur : string) : string :=
  match cur with
  | String c r => if Ascii.eqb c char_return then String.rev r else String.rev cur
  | EmptyString => EmptyString
  end.

(** The tokens of a stream, and whether the scanner reached its end: it gives up
    ([ErrTooLong]) when a buffer of [max] bytes holds no newline.  [cur] is the
    current line in reverse and [n] its length. *)
Fixpoint scan (max : N) (cur : string) (n : N) (s : string) : list string * bool :=
  match s with
  | EmptyString => (if (n =? 0)%N then [] else [finishLine cur], true)
  | String c r =>
      if Ascii.eqb c char_newline then
        let '(ls, ok) := scan max EmptyString 0 r in (finishLine cur :: ls, ok)
      else if (max <=? n + 1)%N then ([], false)
      else scan max (String c cur) (n + 1) r
  end.

Definition ScanLines (max : N) (data : string) : list string * bool :=
  scan max EmptyString 0 data.

(** [scanner.Buffer(make([]byte, 1024), 1024*1024)]. *)
Definition maxTokenSize : N := 1024 * 1024.

(** ** The monitor *)

Section Monitor.
Context {L : Type} `{Zap L} `{ZapLogger L json} `{MapOrder}.

(** The goroutine's variables. *)
Record monitor := mkMonitor { addedPluginId : bool; m_logger : L }.

(** The level of a line that is not JSON. *)
Definition plainLevel (line : string) : Z :=
  if HasPrefix line "[TRACE]" then TraceLevel
  else if HasPrefix line "[DEBUG]" then DebugLevel
  else if HasPrefix line "[INFO]" then InfoLevel
  else if HasPrefix line "[WARN]" then WarnLevel
  else if HasPrefix line "[ERROR]" then ErrorLevel
  else if HasPrefix line "panic: " || HasPrefix line "fatal error: " then ErrorLevel
  else InfoLevel.

(** Puts the plugin's id on the logger as soon as it is known. *)
Definition addPluginId (ids : gmap string string) (pluginFile : string) (m : monitor)
    : monitor :=
  if negb (addedPluginId m) then
    match ids !! pluginFile with
    | Some id => mkMonitor true (zap_With (m_logger m) [(LogPluginId, AString id)])
    | None => m
    end
  else m.

(** One turn of the loop: the entries written, and the variables after it
    unless the goroutine, and with it the process, panicked. *)
Definition monitorLine (ids : gmap string string) (pluginFile : string) (m : monitor)
    (text : string) : list (Entry L json) * option monitor :=
  let line := TrimSpace text in
  if (String.length line =? 0)%nat then ([], Some m)
  else
    let m := addPluginId ids pluginFile m in
    match logJsonLog (m_logger m) line with
    | Returns es => (es, Some m)
    | Fails _ => (zap_Log (m_logger m) (plainLevel line) line [], Some m)
    | Panics => ([], None)
    end.

(** The loop; [ids n] is [d.pluginFileId] when the [n]-th line is read. *)
Fixpoint monitorLines (ids : nat -> gmap string string) (pluginFile : string) (n : nat)
    (m : monitor) (lines : list string) : list (Entry L json) * option monitor :=
  match lines with
  | [] => ([], Some m)
  | text :: rest =>
      match monitorLine (ids n) pluginFile m text with
      | (es, Some m) =>
          let '(es', r) := monitorLines ids pluginFile (S n) m rest in (es ++ es', r)
      | (es, None) => (es, None)
      end
  end.

(** How the goroutine stands once the stream has delivered all its data. *)
Inductive monitor_end := AtEnd | TooLong | Crashed.

(** [func (d *DrainManager) pluginOutputMonitor(streamName, l, pluginFile)], run
    on the bytes [data] written to it. *)
Definition pluginOutputMonitor (ids : nat -> gmap string string) (streamName : string)
    (l : L) (pluginFile data : string) : list (Entry L json) * monitor_end :=
  let l := Named (zap_WithOptions l [WithCaller false; AddStacktrace FatalLevel]) streamName in
  let '(lines, ok) := ScanLines maxTokenSize data in
  match monitorLines ids pluginFile 0 (mkMonitor false l) lines with
  | (es, None) => (es, Crashed)
  | (es, Some _) => (es, if ok then AtEnd else TooLong)
  end.

End Monitor.
Arguments monitor L : clear implicits.

(** ** Facts on the scanner *)

(** The bytes of lines, each with its newline. *)
Fixpoint unlines (ls : list string) : string :=
  match ls with
  | [] => EmptyString
  | s :: ls' => s +:+ String char_newline (unlines ls')
  end.

Fixpoint no_newline (s : string) : bool :=
  match s with
  | EmptyString => true
  | String c r => negb (Ascii.eqb c char_newline) && no_newline r
  end.

(** A line as the scanner hands it out. *)
Definition dropCR (s : string) : string := finishLine (String.rev s).

(** A line whose newline still fits in the buffer. *)
Definition fits (max : N) (s : string) : Prop :=
  no_newline s = true /\ (N.of_nat (String.length s) < max)%N.

Lemma rev_app_acc s t u : String.rev_app s (t +:+ u) = (String.rev_app s t +:+ u)%string.
Proof.
  revert t. induction s as [|c s IH]; intros t; [done|].
  exact (IH (String c t)).
Qed.

Lemma scan_line max cur n s r :
  no_newline s = true -> (n + N.of_nat (String.length s) < max)%N ->
  scan max cur n (s +:+ String char_newline r) =
  let '(ls, ok) := scan max EmptyString 0 r in (finishLine (String.rev_app s cur) :: ls, ok).
Proof.
  revert cur n. induction s as [|c s IH]; intros cur n Hn Hl; [done|].
  simpl in Hn. apply andb_true_iff in Hn as [Hc Hn]. apply negb_true_iff in Hc.
  change (String c s +:+ ?t)%string with (String c (s +:+ t)). cbn [scan].
  rewrite Hc. cbn [String.length] in Hl.
  destruct (N.leb_spec max (n + 1)); [lia|]. rewrite IH; [done|done|lia].
Qed.

Lemma scan_long max cur n s r :
  no_newline s = true -> (n < max)%N -> (max <= n + N.of_nat (String.length s))%N ->
  scan max cur n (s +:+ r) = ([], false).
Proof.
  revert cur n. induction s as [|c s IH]; intros cur n Hn Hl Hm; simpl in Hm; [lia|].
  simpl in Hn. apply andb_true_iff in Hn as [Hc Hn]. apply negb_true_iff in Hc.
  change (String c s +:+ ?t)%string with (String c (s +:+ t)). cbn [scan]. rewrite Hc.
  destruct (N.leb_spec max (n + 1)); [done|]. apply IH; [done|lia|lia].
Qed.

Lemma append_assoc (s t u : string) : ((s +:+ t) +:+ u = s +:+ (t +:+ u))%string.
Proof. induction s as [|c s IH]; [done|]. exact (f_equal (String c) IH). Qed.

Lemma ScanLines_unlines max ls r :
  Forall (fits max) ls ->
  ScanLines max (unlines ls +:+ r) =
  let '(ls', ok) := ScanLines max r in (map dropCR ls ++ ls', ok).
Proof.
  induction 1 as [|s ls [Hn Hf] _ IH]; simpl.
  - change (EmptyString +:+ r)%string with r. by destruct (ScanLines max r).
  - rewrite append_assoc. change (String char_newline (unlines ls) +:+ r)%string
      with (String char_newline (unlines ls +:+ r)%string).
    unfold ScanLines at 1. rewrite scan_line by (done || lia).
    fold (ScanLines max (unlines ls +:+ r)%string). rewrite IH.
    by destruct (ScanLines max r).
Qed.

(** ** Facts on the monitor *)

Section MonitorFacts.
Context {L : Type} `{Zap L} `{!ZapLogger L json} `{MapOrder}.

(** C33. The size limit of the monitor: a stream whose lines all fit in the buffer
    is handed to the loop line by line, to its end; a line of a megabyte or more
    makes the goroutine stop, and nothing of that line or of anything the plugin
    prints after it reaches the log. *)
Theorem monitor_size_limit ids streamName (l : L) pluginFile ls long rest :
  Forall (fits maxTokenSize) ls ->
  no_newline long = true -> (maxTokenSize <= N.of_nat (String.length long))%N ->
  exists es r,
    monitorLines ids pluginFile 0
      (mkMonitor false (Named (zap_WithOptions l [WithCaller false; AddStacktrace FatalLevel])
                          streamName)) (map dropCR ls) = (es, r) /\
    pluginOutputMonitor ids streamName l pluginFile (unlines ls) =
      (es, match r with Some _ => AtEnd | None => Crashed end) /\
    pluginOutputMonitor ids streamName l pluginFile (unlines ls +:+ (long +:+ rest)) =
      (es, match r with Some _ => TooLong | None => Crashed end).
Proof.
  intros Hls Hn Hlong.
  destruct (monitorLines ids pluginFile 0 _ (map dropCR ls)) as [es r] eqn:E.
  exists es, r. split; [done|].
  assert (Hend := ScanLines_unlines maxTokenSize ls EmptyString Hls).
  rewrite append_empty_r in Hend. cbn in Hend.
  assert (Hstop := ScanLines_unlines maxTokenSize ls (long +:+ rest) Hls).
  unfold ScanLines in Hstop at 2. rewrite scan_long in Hstop by (done || (unfold maxTokenSize; lia)).
  rewrite app_nil_r in Hend, Hstop.
  unfold pluginOutputMonitor. rewrite Hend, Hstop, E. by destruct r.
Qed.

Context `{!MapOrderLaws} `{!ZapLoggerLaws L json}.

Lemma addPluginId_level ids file (m : monitor L) :
  zap_Level (V := json) (m_logger (addPluginId ids file m)) = zap_Level (V := json) (m_logger m).
Proof.
  unfold addPluginId. destruct (addedPluginId m); [done|]. simpl.
  destruct (ids !! file); [apply With_level|done].
Qed.

(** A line that decodes, with [m] the monitor's variables after the id was added. *)
Definition decoded (text : string) : option (gmap string json) :=
  Unmarshal (TrimSpace text) ≫= asMap.

Lemma monitorLine_nonblank ids file (m : monitor L) text :
  TrimSpace text <> EmptyString ->
  monitorLine ids file m text =
  let m := addPluginId ids file m in
  match logJsonLog (m_logger m) (TrimSpace text) with
  | Returns es => (es, Some m)
  | Fails _ => (zap_Log (m_logger m) (plainLevel (TrimSpace text)) (TrimSpace text) [], Some m)
  | Panics => ([], None)
  end.
Proof. intros Hne. unfold monitorLine. by destruct (TrimSpace text). Qed.

(** The entry of a line that is logged as it is. *)
Definition plainEntry (l : L) (line : string) : Entry L json :=
  mkEntry l (plainLevel line) line None [].

(** [e] is what the line says, and is written if [l] lets its level through. *)
Definition logs (l : L) (text : string) (e : Entry L json) (es : list (Entry L json)) : Prop :=
  es = (if (zap_Level (V := json) l <=? e_level e)%Z then [e] else []) /\
  (e = plainEntry l (TrimSpace text) \/
   exists raw, decoded text = Some raw /\ e = jsonEntry l raw).

Lemma logs_plain l text :
  logs l text (plainEntry l (TrimSpace text))
    (zap_Log l (plainLevel (TrimSpace text)) (TrimSpace text) []).
Proof. split; [|by left]. unfold zap_Log. by rewrite Check_level. Qed.

Lemma logs_line l text :
  match logJsonLog l (TrimSpace text) with
  | Returns es => exists e, logs l text e es
  | _ => True
  end.
Proof.
  destruct (decoded text) as [raw|] eqn:E; unfold decoded in E.
  - rewrite (logJsonLog_spec _ _ _ E), Check_level.
    assert (Hlogs : logs l text (jsonEntry l raw)
      (if (zap_Level (V := json) l <=? lineLevel raw)%Z then [jsonEntry l raw] else [])).
    { split; [done|]. right. by exists raw. }
    destruct (linePanics l raw); [done|].
    destruct (_ <=? _)%Z; simpl; [|by eexists]. destruct (badTime raw); [done|by eexists].
  - unfold logJsonLog, logDecoded. by rewrite E.
Qed.

(** C22. No line is lost or doubled: a line with text in it is written as exactly
    one entry if the logger lets its level through, and as none otherwise.  The
    entry is the text itself at the level its start tells, or what a JSON object
    says: its message, level and time, and all its other keys as fields.  The
    plugin's id is put on the logger once, as soon as it is known. *)
Theorem monitor_line_logged ids file (m m' : monitor L) text es :
  TrimSpace text <> EmptyString ->
  monitorLine ids file m text = (es, Some m') ->
  m' = addPluginId ids file m /\
  exists e,
    es = (if (zap_Level (V := json) (m_logger m) <=? e_level e)%Z then [e] else []) /\
    e_logger e = m_logger m' /\
    ((e_message e = TrimSpace text /\ e_level e = plainLevel (TrimSpace text) /\
      e_time e = None /\ e_fields e = []) \/
     exists raw, decoded text = Some raw /\
       e_message e = lineMessage raw /\ e_level e = lineLevel raw /\
       e_time e = string_at raw "@timestamp" ≫= Parse /\
       e_fields e ≡ₚ map (fun '(k, v) => (k, any_of_json v)) (map_to_list (lineFields raw))).
Proof.
  intros Hne. rewrite (monitorLine_nonblank _ _ _ _ Hne). cbv zeta.
  rewrite <- (addPluginId_level ids file m). set (m1 := addPluginId ids file m).
  intros Hrun. assert (Hlogs : m' = m1 /\ exists e, logs (m_logger m1) text e es).
  { pose proof (logs_line (m_logger m1) text) as Hl.
    destruct (logJsonLog _ _); simplify_eq; [done|]. split; [done|]. eexists. apply logs_plain. }
  destruct Hlogs as [-> (e & Hes & He)]. split; [done|]. exists e. split; [done|].
  destruct He as [->|(raw & Hraw & ->)]; [naive_solver|]. split; [done|].
  right. exists raw. simpl. by rewrite map_order_perm.
Qed.

(** C23. What brings the operator down: a line of plugin output panics the reading
    goroutine, and so the process, exactly when it is a JSON object whose message
    or level is not a string, or whose timestamp is not one while its level is
    enabled.  Anything else, JSON or not, is survived. *)
Theorem monitor_crash_iff ids file (m : monitor L) text :
  snd (monitorLine ids file m text) = None <->
  exists raw, decoded text = Some raw /\
    (string_or_absent raw "@message" = false \/ string_or_absent raw "@level" = false \/
     ((zap_Level (V := json) (m_logger m) <= lineLevel raw)%Z /\
      string_or_absent raw "@timestamp" = false)).
Proof.
  unfold decoded. destruct (decide (TrimSpace text = EmptyString)) as [E|Hne].
  { unfold monitorLine. rewrite E. split; [done|]. intros (raw & Hraw & _). discriminate Hraw. }
  rewrite (monitorLine_nonblank _ _ _ _ Hne). cbv zeta.
  rewrite <- (addPluginId_level ids file m). set (m1 := addPluginId ids file m).
  destruct (Unmarshal (TrimSpace text) ≫= asMap) as [raw|] eqn:Eraw.
  - rewrite (logJsonLog_spec _ _ _ Eraw). unfold linePanics. rewrite Check_level.
    assert (Hex : forall P : gmap string json -> Prop,
      (exists r, Some raw = Some r /\ P r) <-> P raw) by naive_solver.
    rewrite Hex, <- Z.leb_le.
    destruct (string_or_absent raw "@message"), (string_or_absent raw "@level"),
      (string_or_absent raw "@timestamp"), (_ <=? _)%Z, (badTime raw); simpl; intuition congruence.
  - unfold logJsonLog, logDecoded. rewrite Eraw. naive_solver.
Qed.

End MonitorFacts.
