(* ===== verification/RebootManager.v ===== *)
(** * The reboot manager (src/internal/utils/reboot-manager.go)

    Finds out whether a node asks for a reboot (a helper pod tests for
    /var/run/reboot-required), reboots it (a pod that signals systemd), tells
    whether it came back with a new boot id, and removes its helper pods. *)

From stdpp Require Import base gmap strings list.
From S2P Require Import Prelude NodeTypes Requests Effects Config Utils.

Local Open Scope string_scope.

(** The manager's fields that decide its behaviour: the namespace of its pods
    and the process configuration it reads through [config.GetConfig()]. *)
Record RebootManager := mkRebootManager { rm_namespace : string; rm_config : Config }.

(** [func NewRebootManager(...)]. *)
Definition NewRebootManager {W} `{Env W} (namespace : string) (cfg : Config) : M W RebootManager :=
  err ← call NewForConfig;
  _ ← check err;
  mret (mkRebootManager namespace cfg).

(** [corev1.Toleration]s of both pod builders. *)
Definition nodeTolerations : list Toleration :=
  [mkToleration "node-role.kubernetes.io/control-plane" "Exists" "NoSchedule";
   mkToleration "node.kubernetes.io/unschedulable" "Exists" "NoSchedule"].

(** [func (r *RebootManager) rebootRequiredPod(nodeName) *corev1.Pod]. *)
Definition rebootRequiredPod (r : RebootManager) (nodeName : string) : Pod :=
  let userId := 1000%Z in
  {| pod_Name := EmptyString;
     pod_GenerateName := "reboot-required-";
     pod_Namespace := rm_namespace r;
     pod_Labels := [(LabelComponent, "reboot-required")];
     pod_Volumes := [mkHostPathVolume "host-var-run" "/var/run/" "Directory"];
     pod_Containers :=
       [{| ct_Name := "shell";
           ct_Image := "alpine";
           ct_Command := ["sleep"; "300"];
           ct_VolumeMounts := [mkVolumeMount "host-var-run" true "/host/var/run"];
           ct_SecurityContext := None;
           ct_Resources :=
             ToResourceRequirement (Pod_ContainerResources (PodCfg (rm_config r))) |}];
     pod_RestartPolicy := "Never";
     pod_TerminationGracePeriodSeconds := Some 1%Z;
     pod_NodeName := nodeName;
     pod_HostPID := false;
     pod_SecurityContext := mkPodSecurityContext (Some userId) (Some userId) (Some true) None;
     pod_Tolerations := nodeTolerations;
     pod_PriorityClassName := PriorityClassName (PodCfg (rm_config r));
     pod_Phase := EmptyString |}.

(** [func (r *RebootManager) rebootNodePod(nodeName) *corev1.Pod]. *)
Definition rebootNodePod (r : RebootManager) (nodeName : string) : Pod :=
  {| pod_Name := EmptyString;
     pod_GenerateName := "reboot-";
     pod_Namespace := rm_namespace r;
     pod_Labels := [(LabelComponent, "reboot")];
     pod_Volumes := [];
     pod_Containers :=
       [{| ct_Name := "shell";
           ct_Image := "alpine";
           ct_Command := ["kill"; "-39"; "1"];
           ct_VolumeMounts := [];
           ct_SecurityContext := Some (mkContainerSecurityContext ["CAP_KILL"] false false true);
           ct_Resources :=
             ToResourceRequirement (Pod_ContainerResources (PodCfg (rm_config r))) |}];
     pod_RestartPolicy := "Never";
     pod_TerminationGracePeriodSeconds := None;
     pod_NodeName := nodeName;
     pod_HostPID := true;
     pod_SecurityContext := mkPodSecurityContext None None None (Some "Unconfined");
     pod_Tolerations := nodeTolerations;
     pod_PriorityClassName := PriorityClassName (PodCfg (rm_config r));
     pod_Phase := EmptyString |}.

(** The field assignments with which [IsNodeRebooted] turns the test pod into
    the pod that removes the marker file. *)
Definition rebootRequiredRemovePod (r : RebootManager) (nodeName : string) : Pod :=
  let pod := rebootRequiredPod r nodeName in
  {| pod_Name := pod_Name pod;
     pod_GenerateName := "reboot-required-remove-";
     pod_Namespace := pod_Namespace pod;
     pod_Labels := pod_Labels pod;
     pod_Volumes := pod_Volumes pod;
     pod_Containers :=
       alter (fun c =>
         {| ct_Name := ct_Name c;
            ct_Image := ct_Image c;
            ct_Command := ["rm"; "-f"; "/host/var/run/reboot-required"];
            ct_VolumeMounts :=
              alter (fun m => mkVolumeMount (vm_Name m) false (vm_MountPath m)) 0 (ct_VolumeMounts c);
            ct_SecurityContext := ct_SecurityContext c;
            ct_Resources := ct_Resources c |}) 0 (pod_Containers pod);
     pod_RestartPolicy := pod_RestartPolicy pod;
     pod_TerminationGracePeriodSeconds := pod_TerminationGracePeriodSeconds pod;
     pod_NodeName := pod_NodeName pod;
     pod_HostPID := pod_HostPID pod;
     pod_SecurityContext :=
       mkPodSecurityContext (Some 0%Z) (psc_RunAsGroup (pod_SecurityContext pod))
         (Some false) (psc_AppArmorProfile (pod_SecurityContext pod));
     pod_Tolerations := pod_Tolerations pod;
     pod_PriorityClassName := pod_PriorityClassName pod;
     pod_Phase := pod_Phase pod |}.

Section RebootManager.
Context {W : Type} `{Env W} `{Wait W}.

(** [IsRebootRequired] between the creation of the pod and the deferred
    deletion: the final value of the variable [pod], which the deferred
    closure reads, and the result. *)
Definition rebootRequiredBody (pod : Pod) : M W (Pod * (error + bool)) :=
  err ← attempt (PollUntilContextTimeout Second (30 * Second) false
                   (IsPodRunning (pod_Name pod) (pod_Namespace pod)));
  match err with
  | inl e => mret (pod, inl (WrapError "pod did not complete while waiting: " e))
  | inr _ =>
      '(pod, err) ← call (PodsGet (pod_Namespace pod) (pod_Name pod));
      match err with
      | Some e => mret (pod, inl (WrapError "failed to get reboot-required pod: " e))
      | None =>
          err ← attempt (ExecCmd (pod_Namespace pod) (pod_Name pod)
                           "test -f /host/var/run/reboot-required" false);
          mret (pod, inr (match err with inl _ => false | inr _ => true end))
      end
  end.

(** [func (r *RebootManager) IsRebootRequired(ctx, nodeName) (bool, error)]. *)
Definition RM_IsRebootRequired (r : RebootManager) (nodeName : string) : M W bool :=
  node ← GetNode nodeName;
  match node with
  | None => raise (ErrorString ("node don't exists in cluster: " +:+ nodeName))
  | Some _ =>
      res ← call (PodsCreate (rm_namespace r) (rebootRequiredPod r nodeName));
      pod ← wrap "failed to create reboot-required pod: " (lift res);
      '(pod, result) ← rebootRequiredBody pod;
      _ ← call (PodsDelete (rm_namespace r) (pod_Name pod) false);
      lift result
  end.

(** [func (r *RebootManager) RebootNode(ctx, node) error]. *)
Definition RebootNode (r : RebootManager) (node : Node) : M W unit :=
  kubeNode ← GetNode (Name node);
  match kubeNode with
  | None => raise (ErrorString ("node don't exists in cluster: " +:+ Name node))
  | Some kubeNode =>
      if negb (kn_Unschedulable kubeNode) then
        raise (ErrorString ("node needs to be cordoned before reboot: " +:+ Name node))
      else if ContainerNode (rm_config r) then
        call (Eventf (Name node) EventTypeNormal "Reboot"
                "Skipping reboot, because running on containers")
      else
        _ ← call (Eventf (Name node) EventTypeNormal "Reboot" "Rebooting node");
        res ← call (PodsCreate (rm_namespace r) (rebootNodePod r (Name node)));
        match res with
        | inl err =>
            _ ← call (Eventf (Name node) EventTypeWarning "Reboot"
                        ("Failed to create reboot pod: " +:+ Error err));
            raise (WrapError "failed to create reboot pod: " err)
        | inr _ => mret tt
        end
  end.

(** [func (r *RebootManager) CleanupNode(ctx, nodeName) error]. *)
Definition CleanupNode (r : RebootManager) (nodeName : string) : M W unit :=
  if nodeName =? EmptyString then raise (ErrorString "node name is required") else
  res ← call (LabelSelectorIn LabelComponent ["reboot-required"; "reboot"]);
  labelSelector ← lift res;
  err ← call (PodsDeleteCollection (rm_namespace r) labelSelector
                ("spec.nodeName=" +:+ nodeName));
  _ ← wrap "failed to delete pods: " (check err);
  mret tt.

(** The loop of [IsNodeRebooted] over the node's conditions. *)
Definition nodeReady (conditions : list NodeCondition) : bool :=
  fold_left (fun ready condition =>
    if nc_Type condition =? NodeReady then
      if nc_Status condition =? ConditionTrue then true else ready
    else ready) conditions false.

(** [func (r *RebootManager) IsNodeRebooted(ctx, kubeNode, oldBootId)]. *)
Definition IsNodeRebooted (r : RebootManager) (kubeNode : KubeNode) (oldBootId : string)
    : M W bool :=
  if ContainerNode (rm_config r) then
    let pod := rebootRequiredRemovePod r (kn_Name kubeNode) in
    res ← call (PodsCreate (rm_namespace r) pod);
    pod ← wrap "failed to create reboot-required-remove pod: " (lift res);
    deferring (_ ← call (PodsDelete (rm_namespace r) (pod_Name pod) false); mret tt)
      (_ ← wrap "pod did not complete while waiting: "
             (PollUntilContextTimeout Second (30 * Second) false
                (IsPodCompleted (pod_Name pod) (pod_Namespace pod)));
       mret true)
  else if negb (kn_BootID kubeNode =? oldBootId) then
    let ready := nodeReady (kn_Conditions kubeNode) in
    _ ← (if ready
         then wrap "failed to cleanup node after reboot: " (CleanupNode r (kn_Name kubeNode))
         else mret tt);
    mret ready
  else mret false.

End RebootManager.

(** ** Facts *)

Local Open Scope list_scope.

(** Requests that create or delete a named pod. *)
Definition pod_write (e : Ev) : bool :=
  match ev_req e with PodsCreate _ _ | PodsDelete _ _ _ => true | _ => false end.

(** A pod creation that succeeded. *)
Definition pod_created (e : Ev) : bool :=
  let '(mkEv q a) := e in
  match q return resp q -> bool with
  | PodsCreate _ _ => fun a => match a with inr _ => true | inl _ => false end
  | _ => fun _ => false
  end a.

Lemma nodeReady_iff cs :
  nodeReady cs = true <-> exists c, c ∈ cs /\ nc_Type c = NodeReady /\ nc_Status c = ConditionTrue.
Proof.
  unfold nodeReady.
  assert (Hacc : forall acc, fold_left (fun ready condition =>
    if nc_Type condition =? NodeReady then
      if nc_Status condition =? ConditionTrue then true else ready
    else ready) cs acc = true <->
    acc = true \/ exists c, c ∈ cs /\ nc_Type c = NodeReady /\ nc_Status c = ConditionTrue).
  { induction cs as [|c cs IH]; intros acc; simpl; [set_solver|]. rewrite IH.
    setoid_rewrite elem_of_cons.
    destruct (String.eqb_spec (nc_Type c) NodeReady), (String.eqb_spec (nc_Status c) ConditionTrue);
      naive_solver. }
  rewrite Hacc. naive_solver.
Qed.

Section RebootFacts.
Context {W : Type} `{Env W} `{Wait W} `{!WaitLaws W}.

Lemma ExecCmd_no_pod_write ns name cmd i : emits (W := W) (fun e => pod_write e = false) (ExecCmd ns name cmd i).
Proof. unfold ExecCmd. emits_auto. Qed.

Lemma IsPodRunning_no_pod_write name ns :
  emits (W := W) (fun e => pod_write e = false) (IsPodRunning name ns).
Proof. unfold IsPodRunning. emits_auto. Qed.

Lemma IsPodCompleted_no_pod_write name ns :
  emits (W := W) (fun e => pod_write e = false) (IsPodCompleted name ns).
Proof. unfold IsPodCompleted. emits_auto. Qed.
End RebootFacts.

#[export] Hint Resolve ExecCmd_no_pod_write IsPodRunning_no_pod_write
  IsPodCompleted_no_pod_write : emits.

Section RebootFacts2.
Context {W : Type} `{Env W} `{Wait W} `{!WaitLaws W}.

Lemma body_no_pod_write pod : emits (W := W) (fun e => pod_write e = false) (rebootRequiredBody pod).
Proof. unfold rebootRequiredBody. emits_auto. Qed.

(** The body never fails itself, and leaves in [pod] what it was given or what
    a failing or succeeding [Get] returned. *)
Lemma body_run pod (w : W) evs w' r :
  rebootRequiredBody pod w = (evs, w', r) ->
  exists pod' res, r = inr (pod', res) /\
    ((pod' = pod /\ exists e, res = inl (WrapError "pod did not complete while waiting: " e)) \/
     exists err w1 w2, handle (PodsGet (pod_Namespace pod) (pod_Name pod)) w1 = ((pod', err), w2) /\
       match err with
       | Some e => res = inl (WrapError "failed to get reboot-required pod: " e)
       | None => exists b, res = inr b
       end).
Proof.
  unfold rebootRequiredBody. intros E.
  apply bind_run in E as [(e&E&->)|(x&evs0&w0&evs1&E&E1&->)];
    apply attempt_run in E as (r0&_&Ex); simplify_eq.
  destruct r0 as [e|u]; [inv_ok; eauto 10|].
  apply bind_run in E1 as [(e&E&->)|(x&evs2&w2&evs3&E&E1&->)];
    apply (call_run (PodsGet _ _)) in E as (y&Eh&->&[= ->]).
  destruct y as [pod' [e|]].
  { inv_ok. eexists _, _. split; [done|]. right. eexists (Some e), _, _. eauto. }
  apply bind_run in E1 as [(e&E&->)|(x&evs2&w3&evs4&E&E1&->)];
    apply attempt_run in E as (r0&_&Ex); simplify_eq.
  inv_ok. eexists _, _. split; [done|]. right. eexists None, _, _. eauto.
Qed.

(** The shape of a run of [IsRebootRequired]: it fails before a pod exists, or
    it creates one pod, touches no other, and ends by asking for a deletion. *)
Lemma IsRebootRequired_run r n (w : W) evs w' res :
  RM_IsRebootRequired r n w = (evs, w', res) ->
  (exists e, res = inl e /\ Forall (fun e => pod_created e = false) evs /\
     forall e', e <> WrapError "failed to get reboot-required pod: " e') \/
  exists k p body pod' a w0 w1,
    evs = mkEv (NodesGet n) (inr k) ::
          mkEv (PodsCreate (rm_namespace r) (rebootRequiredPod r n)) (inr p) ::
          body ++ [mkEv (PodsDelete (rm_namespace r) (pod_Name pod') false) a] /\
    rebootRequiredBody p w0 = (body, w1, inr (pod', res)).
Proof.
  unfold RM_IsRebootRequired, GetNode. intros E.
  apply bind_run in E as [(e&E&->)|(nd&evs0&w0&evs1&E&E1&->)].
  { apply bind_run in E as [(e'&E&?)|(x&evs0&w0&evs1&E&E1&->)];
      apply (call_run (NodesGet _)) in E as (y&_&->&[= ->]). by destruct y; inv_ok. }
  apply bind_run_ok in E as (x&evs2&w2&evs3&E&E2&->);
    apply (call_run (NodesGet _)) in E as (y&_&->&[= ->]).
  destruct y as [e|k]; injection E2 as <- <- <-.
  { injection E1 as <- <- <-. left. eexists. split_and!; [done|by repeat constructor|done]. }
  apply bind_run in E1 as [(e&E&->)|(x&evs2&w3&evs4&E&E1&->)];
    apply (call_run (PodsCreate _ _)) in E as (y&_&->&[= ->]).
  destruct y as [e|p].
  { injection E1 as <- <- <-. left. eexists. split_and!; [done|by repeat constructor|done]. }
  right. apply bind_run in E1 as [(e'&E&?)|(x&evs5&w5&evs6&E&E1&->)]; [discriminate E|].
  injection E as <- <- <-.
  destruct (rebootRequiredBody p w3) as [[body w6] r6] eqn:Eb.
  destruct (body_run _ _ _ _ _ Eb) as (pod' & res' & -> & _).
  unfold mbind, M_bind in E1. rewrite Eb in E1. unfold call in E1.
  destruct (handle (PodsDelete _ _ _) w6) as [a w7].
  exists k, p, body, pod', a, w3, w6. destruct res'; injection E1 as <- <- <-; auto.
Qed.
End RebootFacts2.

(** client-go's documented results of a pod [Get]: the object of that name, or
    the empty object next to the error. *)
Class PodsGetLaws (W : Type) `{Env W} : Prop := {
  pods_get_name ns name w p w' :
    handle (PodsGet ns name) w = ((p, None), w') -> pod_Name p = name;
  pods_get_error ns name w p e w' :
    handle (PodsGet ns name) w = ((p, Some e), w') -> p = zeroPod
}.

(** ** Properties *)

(** C27. [IsRebootRequired] cleans up after itself: once its test pod has been
    created, every exit ends with exactly one deletion request, and it names the
    created pod, unless re-reading the pod failed.  In that case the deferred
    closure reads the overwritten variable and asks to delete the pod with the
    empty name. *)
Theorem is_reboot_required_cleanup {W} `{Env W} `{Wait W} `{!WaitLaws W} `{!PodsGetLaws W}
    r n (w : W) evs w' res :
  RM_IsRebootRequired r n w = (evs, w', res) ->
  Forall (fun e => pod_created e = false) evs \/
  exists k p body name a,
    evs = mkEv (NodesGet n) (inr k) ::
          mkEv (PodsCreate (rm_namespace r) (rebootRequiredPod r n)) (inr p) ::
          body ++ [mkEv (PodsDelete (rm_namespace r) name false) a] /\
    Forall (fun e => pod_write e = false) body /\
    (name = pod_Name p \/
     name = EmptyString /\
       exists e, res = inl (WrapError "failed to get reboot-required pod: " e)).
Proof.
  intros E. destruct (IsRebootRequired_run _ _ _ _ _ _ E)
    as [(e & _ & Hf & _)|(k & p & body & pod' & a & w0 & w1 & -> & Eb)]; [by left|right].
  exists k, p, body, (pod_Name pod'), a. split_and!; [done|by eapply body_no_pod_write|].
  destruct (body_run _ _ _ _ _ Eb) as (? & ? & [= <- <-] & [[-> _]|(err & w2 & w3 & Eh & Hres)]);
    [by left|].
  destruct err as [e|].
  - right. apply pods_get_error in Eh as ->. eauto.
  - left. by eapply pods_get_name.
Qed.

(** C38. The defect behind the exception above: when the pod was created but
    reading it again fails, no deletion request of the run names the created
    pod, so the pod is left behind. *)
Theorem reboot_required_pod_leak {W} `{Env W} `{Wait W} `{!WaitLaws W} `{!PodsGetLaws W}
    r n (w : W) evs w' e :
  RM_IsRebootRequired r n w =
    (evs, w', inl (WrapError "failed to get reboot-required pod: " e)) ->
  exists p, mkEv (PodsCreate (rm_namespace r) (rebootRequiredPod r n)) (inr p) ∈ evs /\
    forall e name, e ∈ evs -> ev_req e = PodsDelete (rm_namespace r) name false ->
      name = EmptyString.
Proof.
  intros E. destruct (IsRebootRequired_run _ _ _ _ _ _ E)
    as [(e' & [= <-] & _ & Hne)|(k & p & body & pod' & a & w0 & w1 & -> & Eb)]; [by destruct (Hne e)|].
  exists p. split; [set_solver|].
  destruct (body_run _ _ _ _ _ Eb)
    as (? & ? & [= <- <-] & [[_ (?&?)]|([e'|] & w2 & w3 & Eh & Hres)]); [done| |by destruct Hres].
  apply pods_get_error in Eh as ->.
  pose proof (body_no_pod_write _ _ _ _ _ Eb) as Hbody. rewrite Forall_forall in Hbody.
  intros x name [->|[->|[Hin| ->%list_elem_of_singleton]%elem_of_app]%elem_of_cons]%elem_of_cons;
    simpl; intros Hx; try done; [|by injection Hx].
  apply Hbody in Hin. unfold pod_write in Hin. by rewrite Hx in Hin.
Qed.

(** C28. On real machines, a node counts as rebooted exactly when its boot id
    differs from the recorded one and it reports Ready; its helper pods are
    then removed first, and a failed removal is an error rather than a verdict.
    Otherwise no request is made. *)
Theorem is_node_rebooted_spec {W} `{Env W} `{Wait W} r k old (w : W) evs w' res :
  ContainerNode (rm_config r) = false ->
  IsNodeRebooted r k old w = (evs, w', res) ->
  let back := kn_BootID k <> old /\
    exists c, c ∈ kn_Conditions k /\ nc_Type c = NodeReady /\ nc_Status c = ConditionTrue in
  match res with
  | inr true => back /\ exists sel,
      mkEv (PodsDeleteCollection (rm_namespace r) sel ("spec.nodeName=" +:+ kn_Name k)) None ∈ evs
  | inr false => ~ back /\ evs = []
  | inl e => back /\ exists e', e = WrapError "failed to cleanup node after reboot: " e'
  end.
Proof.
  intros Hc. unfold IsNodeRebooted. rewrite Hc. cbv zeta.
  destruct (String.eqb_spec (kn_BootID k) old) as [Heq|Hne]; simpl.
  { intros [= <- <- <-]. naive_solver. }
  destruct (nodeReady (kn_Conditions k)) eqn:Hr.
  - apply nodeReady_iff in Hr. intros E.
    apply bind_run in E as [(e&E&->)|(u&evs0&w0&evs1&E&E1&->)].
    + split; [done|]. unfold wrap in E.
      destruct (CleanupNode r (kn_Name k) w) as [[??] [?|?]]; simplify_eq. eauto.
    + inv_ok. split; [done|]. unfold CleanupNode in E. inv_cases.
      match goal with
      | _ : handle (PodsDeleteCollection _ ?sel _) _ = _ |- _ => exists sel
      end. set_solver.
  - intros [= <- <- <-]. rewrite <- not_true_iff_false, nodeReady_iff in Hr. split; [by intros [_ ?]|done].
Qed.
