(* ===== verification/NodeController.v ===== *)
(** * The node controller (src/internal/controller/node_controller.go)

    One [Reconcile] reads the kube node and the drain node of a name and moves
    them one step: cordoning, queueing, draining, rebooting and undraining, with
    the desired state in the spec and the progress in the status.

    The Go code mutates the two objects it has read and patches them; here the
    helpers take the object and return what the client left in it.  A failed
    patch ends the reconciliation in every caller, so the local object is
    dropped with it. *)

From stdpp Require Import base gmap strings list.
From S2P Require Import Prelude NodeTypes Json Requests Effects Plugins Config Utils DrainManager.
From S2P Require Import RebootManager.

Local Open Scope string_scope.

Definition nodeDrainFinalizer : string := LabelPrefix +:+ "/node".

(** [ctrl.Result]. *)
Record Result := mkResult { RequeueAfter : Z }.
Definition Result0 : Result := mkResult 0.

(** The fields of the reconciler that decide its behaviour. *)
Record nodeReconciler := mkNodeReconciler {
  managerNamespace : string;
  nodeName : string;
  rebootManager : RebootManager;
  drainManager : DrainManager;
  koanf_Duration : string -> Z
}.

(** controllerutil's finalizer helpers, on the finalizer list. *)
Class ControllerUtil := {
  ContainsFinalizer : list string -> string -> bool;
  AddFinalizer : list string -> string -> list string;
  RemoveFinalizer : list string -> string -> list string
}.

Class ControllerUtilLaws `{ControllerUtil} : Prop := {
  contains_add l f : ContainsFinalizer (AddFinalizer l f) f = true;
  contains_remove l f : ContainsFinalizer (RemoveFinalizer l f) f = false;
  contains_remove_ne l f g : f <> g ->
    ContainsFinalizer (RemoveFinalizer l f) g = ContainsFinalizer l g
}.

(** [controllerutil.SetOwnerReference] adds the reference to the object it is given and
    leaves the rest of it alone. *)
Class OwnerReferenceLaws (W : Type) `{Env W} : Prop :=
  owner_reference_set k n w o w' :
    handle (SetOwnerReference k n) w = (inr o, w') ->
    Name o = Name n /\ DeletionTimestamp o = DeletionTimestamp n /\ Finalizers o = Finalizers n /\
    Spec o = Spec n /\ Status o = Status n /\ kn_Name k ∈ OwnerReferences o.

(** The two callbacks registered by [SetupWithManager]: the index over
    [status.currentState] and the mapping of a kube node event to a request. *)
Definition indexCurrentState (node : Node) : list string :=
  if ncurrent node =? EmptyString then [] else [ncurrent node].

Definition mapKubeNode (node : KubeNode) : list string := [kn_Name node].

(** [getManagerOfUnschedulable]: the first manager, subresources apart, whose
    managed fields own [spec.unschedulable]. *)
Definition decodedOwns (f : option json) : bool :=
  match f with
  | Some (JObject m) =>
      match jlookup "f:spec" m with
      | Some (JObject s) =>
          match jlookup "f:unschedulable" s with Some _ => true | None => false end
      | _ => false
      end
  | _ => false
  end.

Definition owns_unschedulable (raw : string) : bool := decodedOwns (Unmarshal raw).

Fixpoint managerOfUnschedulable (fields : list ManagedFieldsEntry) : string :=
  match fields with
  | [] => EmptyString
  | field :: rest =>
      if negb (mf_Subresource field =? EmptyString) then managerOfUnschedulable rest
      else
        match mf_FieldsV1 field with
        | Some raw =>
            if owns_unschedulable raw then mf_Manager field else managerOfUnschedulable rest
        | None => managerOfUnschedulable rest
        end
  end.

Definition getManagerOfUnschedulable (kubeNode : KubeNode) : string :=
  managerOfUnschedulable (kn_ManagedFields kubeNode).

Section Controller.
Context {W : Type} `{Env W} `{Wait W} `{ControllerUtil}.
Implicit Types (r : nodeReconciler) (node : Node) (kubeNode : KubeNode).

(** ** Single writes *)

Definition setDrained (node : Node) (drained : bool) : M W Node :=
  let base := node in
  let node := set_Drained node drained in
  res ← call (ClientStatusPatchNode base node);
  wrap "failed to update drained status on node: " (lift res).

Definition setCurrentState (node : Node) (s : NodeCurrentState) : M W Node :=
  if ncurrent node =? s then mret node else
  let base := node in
  let node := set_CurrentState node s in
  res ← call (ClientStatusPatchNode base node);
  wrap "failed to update current state on node: " (lift res).

Definition setState (node : Node) (s : NodeState) : M W Node :=
  if nstate node =? s then mret node else
  let base := node in
  let node := set_State node s in
  res ← call (ClientPatchNode base node);
  wrap "failed to update state on node: " (lift res).

Definition setUnschedulable (kubeNode : KubeNode) (unschedulable : bool) : M W KubeNode :=
  if negb (eqb (kn_Unschedulable kubeNode) unschedulable) then
    let base := kubeNode in
    let kubeNode := set_Unschedulable kubeNode unschedulable in
    res ← call (ClientPatchKubeNode base kubeNode);
    wrap "failed to update unschedulable status on node: " (lift res)
  else mret kubeNode.

Definition setBootID (node : Node) (kubeNode : KubeNode) : M W Node :=
  if negb (kn_BootID kubeNode =? BootID (Status node)) then
    let base := node in
    let node := set_BootID node (kn_BootID kubeNode) in
    res ← call (ClientStatusPatchNode base node);
    wrap "failed to update bootID on node: " (lift res)
  else mret node.

(** ** Reboot checks *)

(** [t == nil || t.Time.IsZero() || t.Time.Before(time.Now().Add(-d))], the
    clock read only when the first two fail. *)
Definition olderThan (t : option Time) (d : Z) : M W bool :=
  match t with
  | None => mret true
  | Some t =>
      if IsZero t then mret true
      else now ← call Now; mret (Before t (now + - d)%Z)
  end.

Definition isRebootRequired r node : M W (bool * Node) :=
  required ← wrap "failed to check if reboot is required: "
    (RM_IsRebootRequired (rebootManager r) (Name node));
  let base := node in
  let node := set_RebootRequired node (Some required) in
  now ← call Now;
  let node := set_RebootRequiredLastChecked node (Some now) in
  res ← call (ClientStatusPatchNode base node);
  node ← wrap "failed to update node reboot required last checked: " (lift res);
  _ ← (if (required : bool)
       then call (Eventf (Name node) EventTypeNormal "RebootRequired" "Reboot is required")
       else mret tt);
  mret (required, node).

Definition checkRebootRequired r node : M W Node :=
  if WorkState (ncurrent node) then mret node else
  let rebootCheckInterval := koanf_Duration r "reboot.checkInterval" in
  let rebootCheckInterval :=
    if (rebootCheckInterval <? 5 * Minute)%Z then (24 * Hour)%Z else rebootCheckInterval in
  due ← olderThan (RebootRequiredLastChecked (Status node)) rebootCheckInterval;
  if (due : bool) then
    '(_, node) ← isRebootRequired r node;
    mret node
  else mret node.

(** ** Creation and deletion *)

Definition createNewNode r kubeNode : M W Result :=
  let state := if kn_Unschedulable kubeNode then NodeStateCordoned else NodeStateActive in
  let node := mkNode (kn_Name kubeNode) None [] [] (mkNodeSpec state) zeroNodeStatus in
  res ← call (SetOwnerReference kubeNode node);
  node ← lift res;
  let node := set_Finalizers node (AddFinalizer (Finalizers node) nodeDrainFinalizer) in
  res ← call (ClientCreateNode node);
  _ ← lift res;
  mret (mkResult (5 * Second)).

(** The branch of [Reconcile] for an object being deleted. *)
Definition reconcileDeleted node : M W Result :=
  if ContainsFinalizer (Finalizers node) nodeDrainFinalizer then
    let node := set_Finalizers node (RemoveFinalizer (Finalizers node) nodeDrainFinalizer) in
    res ← call (ClientUpdateNode node);
    _ ← lift res;
    mret Result0
  else mret Result0.

(** ** Draining *)

Definition rescheduleController r : M W unit :=
  err ← call NewForConfig;
  _ ← wrap "failed to create clientset: " (check err);
  res ← call Hostname;
  podName ← wrap "failed to get hostname/podName: " (lift res);
  err ← call (PodsDelete (managerNamespace r) podName true);
  check err.

Definition drainHelper : DrainHelper := mkDrainHelper (-1) true (60 * Second) true.

(** [drain], the block for a node that is next: health first. *)
Definition drainStart r node : M W Node :=
  healthy ← wrap "failed to check if cluster is healthy: "
    (DM_IsHealthy (drainManager r) node);
  if negb healthy then raise (ErrorString "cluster is not healthy") else
  drainOk ← wrap ("failed to check if node(" +:+ Name node +:+ ") is ok to drain: ")
    (DM_IsDrainOk (drainManager r) node);
  if negb drainOk then
    raise (ErrorString ("node(" +:+ Name node +:+ ") is not ok to drain")) else
  setCurrentState node NodeCurrentStateDraining.

(** [drain], the rest of the function once the node is cordoned and not ours:
    hooks, eviction, and the status. *)
Definition drainRun r node : M W Node :=
  _ ← wrap ("failed to run plugin PreDrain for node(" +:+ Name node +:+ "): ")
    (RunPreDrain (drainManager r) node);
  err ← call NewForConfig;
  _ ← check err;
  _ ← wrap ("failed to cleanup node(" +:+ Name node +:+ ") for reboot manager pods: ")
    (CleanupNode (rebootManager r) (Name node));
  err ← call (RunNodeDrain drainHelper (Name node));
  match err with
  | Some err =>
      raise (JoinError [ErrorString ("failed to drain node: " +:+ Name node); err])
  | None =>
      let base := node in
      let node := set_CurrentState (set_Drained node true) NodeCurrentStateDrained in
      res ← call (ClientStatusPatchNode base node);
      node ← wrap "failed to update drained status on node: " (lift res);
      _ ← call (Eventf (Name node) EventTypeNormal "Drained" "Node drained successfully");
      mret node
  end.

Definition drain r node kubeNode : M W (option Result * Node * KubeNode) :=
  if negb (Drain (nstate node)) || ndrained node then mret (None, node, kubeNode) else
  node ← (if ncurrent node =? NodeCurrentStateNext then drainStart r node else mret node);
  kubeNode ← (if negb (kn_Unschedulable kubeNode)
              then setUnschedulable kubeNode true else mret kubeNode);
  if nodeName r =? Name node then
    _ ← wrap "failed to reschedule controller: " (rescheduleController r);
    mret (Some (mkResult (5 * Minute)), node, kubeNode)
  else
    node ← drainRun r node;
    mret (None, node, kubeNode).

(** ** Undraining *)

Definition requeue30 : Result := mkResult (30 * Second).

(** [undrain], the first half for a node in Undraining: give scheduling back
    when the cluster is healthy.  [None] asks for a retry. *)
Definition undrainUncordon kubeNode : M W (option KubeNode) :=
  if kn_Unschedulable kubeNode then
    healthy ← attempt IsClusterNodesHealthy;
    match healthy with
    | inl _ => mret None
    | inr false => mret None
    | inr true =>
        res ← attempt (setUnschedulable kubeNode false);
        mret (match res with inl _ => None | inr kubeNode => Some kubeNode end)
    end
  else mret (Some kubeNode).

(** [undrain] in Undraining after scheduling is enabled: hooks, then status. *)
Definition undrainFinish r node kubeNode : M W (bool * Result * Node * KubeNode) :=
  res ← attempt (RunPostDrain (drainManager r) node);
  match res with
  | inl _ => mret (false, requeue30, node, kubeNode)
  | inr _ =>
      res ← (if ndrained node then attempt (setDrained node false) else mret (inr node));
      match res with
      | inl _ => mret (false, requeue30, node, kubeNode)
      | inr node =>
          node ← setCurrentState node NodeCurrentStateOk;
          _ ← call (Eventf (Name node) EventTypeNormal "Undrain" "Undrained successfully");
          mret (true, Result0, node, kubeNode)
      end
  end.

Definition undrain r node kubeNode : M W (bool * Result * Node * KubeNode) :=
  if ncurrent node =? NodeCurrentStateUndraining then
    k ← undrainUncordon kubeNode;
    match k with
    | None => mret (false, requeue30, node, kubeNode)
    | Some kubeNode => undrainFinish r node kubeNode
    end
  else if (ncurrent node =? NodeCurrentStateDrained)
       || (ncurrent node =? NodeCurrentStateDraining)
       || (ncurrent node =? NodeCurrentStateRebooting) then
    if nstate node =? NodeStateActive then
      node ← setCurrentState node NodeCurrentStateUndraining;
      mret (false, mkResult 1, node, kubeNode)
    else if (nstate node =? NodeStateDrained) || (nstate node =? NodeStateRebootIfRequired)
         || (nstate node =? NodeStateCordoned) then mret (true, Result0, node, kubeNode)
    else raise (ErrorString ("unhandled state for undrain: " +:+ nstate node))
  else mret (true, Result0, node, kubeNode).

(** ** Queue *)

Definition isNextNode node : M W (bool * Node) :=
  res ← call ClientListNodes;
  items ← lift res;
  if existsb (fun n => WorkState (ncurrent n)) items then mret (false, node)
  else if ncurrent node =? NodeCurrentStateQueued then
    node ← setCurrentState node NodeCurrentStateNext;
    mret (true, node)
  else mret (false, node).

(** ** Reconcile *)

(** The [switch node.Spec.State]: [inl] is an early return. *)
Definition reconcileSpec r node kubeNode : M W (Result + Node * KubeNode) :=
  if nstate node =? NodeStateActive then
    let manager := getManagerOfUnschedulable kubeNode in
    if negb (manager =? EmptyString) && negb (manager =? GetFieldOwner (managerNamespace r)) then
      _ ← call (Eventf (Name node) EventTypeWarning "NodeNotSchedulable"
                  ("Node is current cordon by another manager: " +:+ manager));
      mret (inl Result0)
    else
      kubeNode ← setUnschedulable kubeNode false;
      node ← setCurrentState node NodeCurrentStateOk;
      _ ← attempt (CleanupNode (rebootManager r) (Name node));
      mret (inr (node, kubeNode))
  else if nstate node =? NodeStateCordoned then
    kubeNode ← setUnschedulable kubeNode true;
    node ← setCurrentState node NodeCurrentStateCordoned;
    mret (inr (node, kubeNode))
  else if (nstate node =? NodeStateDrained) || (nstate node =? NodeStateRebootIfRequired) then
    if negb (WorkState (ncurrent node)) && negb (ncurrent node =? NodeCurrentStateQueued) then
      node ← setCurrentState node NodeCurrentStateQueued;
      mret (inl (mkResult (1 * Second)))
    else mret (inr (node, kubeNode))
  else mret (inr (node, kubeNode)).

(** The first block under [WorkState()]: a requested reboot that turns out not
    to be required makes the node active again.  [inl] is an early return. *)
Definition rebootGate r node : M W (Result + Node) :=
  if (nstate node =? NodeStateRebootIfRequired)
     && ((ncurrent node =? NodeCurrentStateNext) || (ncurrent node =? NodeCurrentStateDrained)) then
    recheck ← olderThan (RebootRequiredLastChecked (Status node)) (2 * Minute);
    '(required, node) ←
      (if (recheck : bool) then isRebootRequired r node
       else mret (match RebootRequired (Status node) with Some b => b | None => false end, node));
    if negb required then
      _ ← setState node NodeStateActive;
      mret (inl Result0)
    else mret (inr node)
  else mret (inr node).

(** The last block under [WorkState()]: reboot, and waiting for it. *)
Definition reconcileReboot r node kubeNode : M W Result :=
  if nstate node =? NodeStateRebootIfRequired then
    if (ncurrent node =? NodeCurrentStateDrained) && ndrained node then
      node ← setBootID node kubeNode;
      _ ← RebootNode (rebootManager r) node;
      _ ← setCurrentState node NodeCurrentStateRebooting;
      mret (mkResult Minute)
    else if ncurrent node =? NodeCurrentStateRebooting then
      rebooted ← IsNodeRebooted (rebootManager r) kubeNode (BootID (Status node));
      if (rebooted : bool) then
        let base := node in
        let node := set_RebootRequired (set_BootID node EmptyString) (Some false) in
        now ← call Now;
        let node := set_RebootRequiredLastChecked node (Some now) in
        res ← call (ClientStatusPatchNode base node);
        node ← wrap "failed to update node reboot required last checked: " (lift res);
        node ← setState node NodeStateActive;
        _ ← call (Eventf (Name node) EventTypeNormal "Reboot" "Node Rebooted");
        mret (mkResult Second)
      else mret (mkResult Minute)
    else mret Result0
  else mret Result0.

(** The body of [if node.Status.CurrentState.WorkState()]. *)
Definition reconcileWork r node kubeNode : M W Result :=
  gate ← rebootGate r node;
  match gate with
  | inl result => mret result
  | inr node =>
      '(result, node, kubeNode) ←
        (if Drain (nstate node) && negb (ndrained node)
         then drain r node kubeNode else mret (None, node, kubeNode));
      match result with
      | Some result => mret result
      | None => reconcileReboot r node kubeNode
      end
  end.

(** The branch for a queued node. *)
Definition reconcileQueued node : M W Result :=
  '(next, _) ← isNextNode node;
  if (next : bool) then mret (mkResult (1 * Second)) else mret (mkResult (1 * Minute)).

(** Everything after the deletion check. *)
Definition reconcileLive r node kubeNode : M W Result :=
  '(ok, result, node, kubeNode) ← undrain r node kubeNode;
  if negb ok then mret result else
  node ← (if negb (kn_Unschedulable kubeNode) && ndrained node
          then setDrained node false else mret node);
  node ← checkRebootRequired r node;
  s ← reconcileSpec r node kubeNode;
  match s with
  | inl result => mret result
  | inr (node, kubeNode) =>
      if WorkState (ncurrent node) then reconcileWork r node kubeNode
      else if ncurrent node =? NodeCurrentStateQueued then reconcileQueued node
      else mret Result0
  end.

(** [func (r *nodeReconciler) Reconcile(ctx, req) (ctrl.Result, error)]. *)
Definition Reconcile r (reqName : string) : M W Result :=
  res ← call (ClientGetKubeNode reqName);
  kubeNode ← lift res;
  res ← call (ClientGetNode reqName);
  match res with
  | inl err => if IsNotFound err then createNewNode r kubeNode else raise err
  | inr node =>
      match DeletionTimestamp node with
      | Some t => if negb (IsZero t) then reconcileDeleted node
                  else reconcileLive r node kubeNode
      | None => reconcileLive r node kubeNode
      end
  end.

(** [func NewNodeReconciler(...)] (the logger apart). *)
Definition NewNodeReconciler (cfg : Config) (koanf : string -> Z)
    (managerNamespace nameNode : string) : M W nodeReconciler :=
  rebootManager ← wrap "failed to create reboot manager: " (NewRebootManager managerNamespace cfg);
  drainManager ← wrap "failed to create drain manager: " NewDrainManager;
  mret (mkNodeReconciler managerNamespace nameNode rebootManager drainManager koanf).

End Controller.
