(* ===== verification/Startup.v ===== *)
(** * The process (src/cmd/main.go)

    [main] loads the configuration, makes the loggers, prepares the TLS options
    of the webhook and metrics servers, creates the manager with the reconciler
    and the webhooks on it, and starts it; any failure ends the process.  It also
    holds what [SetupWithManager] and [SetupNodeWebhookWithManager] register.

    [Boot] is the monad of this code: it has the package variables of the
    configuration and the loggers, the arrays behind Go slices, the world of the
    controller, and performs requests to controller-runtime ([SReq]) besides those
    of [Requests.v].  Log output is left out. *)

From Stdlib Require Import Lia.
From stdpp Require Import base gmap strings list.
From S2P Require Import Prelude NodeTypes Requests Effects Config Logging LoadConfig Utils DrainManager RebootManager NodeController.

Local Open Scope string_scope.
Local Open Scope list_scope.

(** ** Requests *)

(** [filepath.Join(dir, file)]. *)
Inductive Path := Join (dir file : string).

(** The functions put into [TLSOpts]. *)
Inductive tlsOpt := disableHTTP2 | GetCertificate (cert key : Path).

(** [ctrl.Options] as [main] fills it, with the contents the two slices of TLS
    options have when the manager is made. *)
Record ManagerOptions := mkManagerOptions {
  mo_MetricsBindAddress : string;
  mo_SecureServing : bool;
  mo_MetricsTLSOpts : list tlsOpt;
  mo_FilterProvider : bool;
  mo_WebhookTLSOpts : list tlsOpt;
  mo_HealthProbeBindAddress : string;
  mo_LeaderElection : bool;
  mo_LeaderElectionID : string;
  mo_ConfigMapNamespace : string;
  mo_FieldOwner : string
}.

Inductive SReq :=
  | AddClientGoToScheme
  | AddToScheme (group version : string) (kinds : list string)
  | SetGlobalLogger (package name : string)     (* with a logger of that name *)
  | ClearKlogLogger
  | SetupSignalHandler
  | NewCertWatcher (cert key : Path)
  | GetConfigOrDie
  | NewManager (o : ManagerOptions)
  | IndexField (field : string)
  | CompleteController (managerNamespace nodeName : string)
  | CompleteWebhook
  | AddCertWatcher (cert key : Path)
  | AddHealthzCheck (name : string)
  | AddReadyzCheck (name : string)
  | Start.

(** Every request answers with an error or nil; that of a call without a result
    means nothing. *)
Class StartEnv (W : Type) := shandle : SReq -> W -> option error * W.

Inductive SEv := Started (q : SReq) (err : option error) | Inner (e : Ev).

(** ** The monad *)

(** How a process ends before [main] returns. *)
Inductive exit := OsExit (msg : string) (err : error) | Fatal (msg : string) (err : error)
  | Panicked.

Record proc (W K : Type) := mkProc {
  world : W;
  pconfig : ConfigState K;
  plog : LogState;
  arrays : list (list (option tlsOpt))
}.
Arguments mkProc {W K} world pconfig plog arrays.
Arguments world {W K} p.
Arguments pconfig {W K} p.
Arguments plog {W K} p.
Arguments arrays {W K} p.

Definition Boot (W K A : Type) : Type := proc W K -> list SEv * proc W K * (exit + A).

Global Instance Boot_ret {W K} : MRet (Boot W K) := fun A a p => ([], p, inr a).
Global Instance Boot_bind {W K} : MBind (Boot W K) := fun A B f m p =>
  match m p with
  | (evs, p', inl e) => (evs, p', inl e)
  | (evs, p', inr a) => match f a p' with (evs', p'', r) => (evs ++ evs', p'', r) end
  end.

(** ** Slices

    A slice of TLS options is nil or a part of an array in [arrays]; [append]
    writes into that array while there is room and only then copies. *)

Inductive tlsSlice := SliceNil | SliceOf (arr len cap : nat).

(** The capacity the runtime gives to a fresh array for [n] elements. *)
Class GrowSlice := growslice : nat -> nat.

(** For the first function value it is one: the smallest allocation of the
    runtime is of a pointer's size. *)
Class GrowSliceLaws `{GrowSlice} : Prop := {
  growslice_enough n : n <= growslice n;
  growslice_one : growslice 1 = 1
}.

Definition contents (mem : list (list (option tlsOpt))) (s : tlsSlice) : list tlsOpt :=
  match s with
  | SliceNil => []
  | SliceOf a len _ => omap id (take len (default [] (mem !! a)))
  end.

Definition append `{GrowSlice} (mem : list (list (option tlsOpt))) (s : tlsSlice) (x : tlsOpt)
    : list (list (option tlsOpt)) * tlsSlice :=
  match s with
  | SliceOf a len cap =>
      if (len <? cap)%nat then
        (alter (fun arr => <[len := Some x]> arr) a mem, SliceOf a (S len) cap)
      else
        let cap' := growslice (S len) in
        let old := take len (default [] (mem !! a)) in
        (mem ++ [old ++ [Some x] ++ replicate (cap' - S len) None],
         SliceOf (length mem) (S len) cap')
  | SliceNil =>
      let cap' := growslice 1 in
      (mem ++ [[Some x] ++ replicate (cap' - 1) None], SliceOf (length mem) 1 cap')
  end.

(** ** API types *)

(** [GroupVersion] of the API package, and the types its [init] registers. *)
Definition GroupVersion : string * string := ("drain.k8s.slyng.dk", "v1").
Definition registeredKinds : list string := ["Node"; "NodeList"].

(** ** Flags *)

Record Flags := mkFlags {
  metricsAddr : string;
  probeAddr : string;
  enableLeaderElection : bool;
  secureMetrics : bool;
  webhookCertPath : string; webhookCertName : string; webhookCertKey : string;
  metricsCertPath : string; metricsCertName : string; metricsCertKey : string;
  enableHTTP2 : bool;
  namespaceFlag : string;
  configMapName : string
}.

(** The defaults given to the [flag] package. *)
Definition defaultFlags (getenv : string -> string) : Flags :=
  mkFlags "0" ":8081" false true EmptyString "tls.crt" "tls.key" EmptyString "tls.crt" "tls.key"
    false (getenv "POD_NAMESPACE") "nodedrain-config".

Section Main.
Context {W L K D A : Type}.
Context `{Env W} `{StartEnv W} `{Zap L} `{Koanf K D A} `{GrowSlice}.
(** The file system, the environment, what [flag.Parse] makes of the defaults,
    and [koanf.Duration]. *)
Context (fs : FileSystem) (getenv : string -> string) (parse : Flags -> Flags).
Context (Duration : K -> string -> Z).

(** ** Primitives *)

Definition exit_with {X} (e : exit) : Boot W K X := fun p => ([], p, inl e).

Definition request (q : SReq) : Boot W K (option error) := fun p =>
  let '(err, w) := shandle q (world p) in
  ([Started q err], mkProc w (pconfig p) (plog p) (arrays p), inr err).

(** A call without a result. *)
Definition notify (q : SReq) : Boot W K unit := fun p =>
  let '(_, w) := shandle q (world p) in
  ([Started q None], mkProc w (pconfig p) (plog p) (arrays p), inr tt).

(** [if err != nil { ... }] with an exit, or with [setupLog.Fatal(msg)]. *)
Definition orExit (how : error -> exit) (err : option error) : Boot W K unit :=
  match err with Some e => exit_with (how e) | None => mret tt end.
Definition fatal (msg : string) : option error -> Boot W K unit := orExit (Fatal msg).

(** A call that fails with an error the process does not survive. *)
Definition must {X} (msg : string) (m : Boot W K (error + X)) : Boot W K X :=
  r ← m; match r with inl e => exit_with (Fatal msg e) | inr x => mret x end.

(** Code of the controller, run in its own world. *)
Definition inner {X} (m : M W X) : Boot W K (error + X) := fun p =>
  let '(evs, w, r) := m (world p) in
  (map Inner evs, mkProc w (pconfig p) (plog p) (arrays p), inr r).

Definition loadConfig : Boot W K (error + Config) := fun p =>
  let '(c, r) := LoadConfig fs (pconfig p) in
  ([], mkProc (world p) c (plog p) (arrays p), inr r).

Definition getLogger (level format : string) : Boot W K (error + L) := fun p =>
  let '(s, r) := Logging.GetLogger (plog p) level format in
  ([], mkProc (world p) (pconfig p) s (arrays p), inr r).

Definition getNamedLogger (name : string) : Boot W K (error + L) := fun p =>
  let '(s, r) := GetNamedLogger (LoadConfig.GetConfig (pconfig p)) (plog p) name in
  ([], mkProc (world p) (pconfig p) s (arrays p),
   match r with Returns l => inr (inr l) | Fails e => inr (inl e) | Panics => inl Panicked end).

Definition appendTLS (s : tlsSlice) (x : tlsOpt) : Boot W K tlsSlice := fun p =>
  let '(a, s') := append (arrays p) s x in
  ([], mkProc (world p) (pconfig p) (plog p) a, inr s').

Definition readTLS (s : tlsSlice) : Boot W K (list tlsOpt) := fun p =>
  ([], p, inr (contents (arrays p) s)).

Definition koanfDuration : Boot W K (string -> Z) := fun p =>
  ([], p, inr (Duration (koanf (pconfig p)))).

Definition wrapE {X} (prefix : string) (m : Boot W K (error + X)) : Boot W K (error + X) :=
  r ← m; mret (match r with inl e => inl (WrapError prefix e) | inr x => inr x end).

(** [if err != nil { return nil, err }]. *)
Definition andThen {X Y} (m : Boot W K (error + X)) (f : X -> Boot W K (error + Y)) : Boot W K (error + Y) :=
  r ← m; match r with inl e => mret (inl e) | inr x => f x end.

(** ** Registration *)

(** [func NewNodeReconciler(...)] with its loggers. *)
Definition newNodeReconciler (conf : Config) (ns node : string) : Boot W K (error + nodeReconciler) :=
  andThen (getNamedLogger "node") (fun _ =>
  andThen (wrapE "failed to create reboot manager: "
             (inner (NewRebootManager ns conf))) (fun rebootManager =>
  andThen (wrapE "failed to create drain manager: "
             (andThen (getNamedLogger "drain-plugin-client") (fun _ => inner NewDrainManager)))
    (fun drainManager =>
  duration ← koanfDuration;
  mret (inr (mkNodeReconciler ns node rebootManager drainManager duration))))).

(** [func (r *nodeReconciler) SetupWithManager(mgr) error]. *)
Definition SetupWithManager (r : nodeReconciler) : Boot W K (option error) :=
  err ← request (IndexField "status.currentState");
  match err with
  | Some e => mret (Some e)
  | None => request (CompleteController (managerNamespace r) (nodeName r))
  end.

(** [func SetupNodeWebhookWithManager(mgr) error]. *)
Definition SetupNodeWebhookWithManager : Boot W K (option error) :=
  l ← wrapE "failed to get logger: " (getNamedLogger "node-webhook");
  match l with
  | inl e => mret (Some e)
  | inr _ => request CompleteWebhook
  end.

(** ** main *)

(** The certificate watcher of a server and its entry in the TLS options, if a
    directory is given. *)
Definition certWatcher (msg dir cert key : string) (opts : tlsSlice)
    : Boot W K (option (Path * Path) * tlsSlice) :=
  if negb (String.length dir =? 0)%nat then
    err ← request (NewCertWatcher (Join dir cert) (Join dir key));
    _ ← fatal msg err;
    opts ← appendTLS opts (GetCertificate (Join dir cert) (Join dir key));
    mret (Some (Join dir cert, Join dir key), opts)
  else mret (None, opts).

Definition addWatcher (msg : string) (w : option (Path * Path)) : Boot W K unit :=
  match w with
  | Some (cert, key) => err ← request (AddCertWatcher cert key); fatal msg err
  | None => mret tt
  end.

(** The first call of [init]. *)
Definition loadDefaultConfig (defaultConfigYaml : string) : Boot W K unit := fun p =>
  match LoadDefaultConfig defaultConfigYaml (pconfig p) with
  | inr c => ([], mkProc (world p) c (plog p) (arrays p), inr tt)
  | inl err => ([], p, inl (OsExit "failed to load default config: " err))
  end.

(** [func init()]: [utilruntime.Must] panics on an error. *)
Definition init (defaultConfigYaml : string) : Boot W K unit :=
  _ ← loadDefaultConfig defaultConfigYaml;
  err ← request AddClientGoToScheme;
  _ ← orExit (fun _ => Panicked) err;
  err ← request (AddToScheme (fst GroupVersion) (snd GroupVersion) registeredKinds);
  orExit (fun _ => Panicked) err.

(** [func setGlobalLoggers(l)]. *)
Definition setGlobalLoggers : Boot W K unit :=
  _ ← notify (SetGlobalLogger "zap" EmptyString);
  _ ← notify ClearKlogLogger;
  _ ← notify (SetGlobalLogger "klog" "kubeclient");
  _ ← notify (SetGlobalLogger "log" EmptyString);
  _ ← notify (SetGlobalLogger "ctrl" EmptyString);
  notify (SetGlobalLogger "slog" EmptyString).

Definition managerNamespaceOf (f : Flags) : string :=
  if namespaceFlag f =? EmptyString then "default" else namespaceFlag f.

Definition nodeNameOf : string :=
  let nodeName := getenv "POD_NODENAME" in
  if nodeName =? EmptyString then "no-node-name" else nodeName.

(** The webhooks, unless switched off. *)
Definition setupWebhooks : Boot W K unit :=
  if negb (getenv "ENABLE_WEBHOOKS" =? "false") then
    err ← SetupNodeWebhookWithManager; fatal "unable to create webhook" err
  else mret tt.

(** [main] once the manager exists. *)
Definition runManager (conf : Config) (managerNamespace nodeName : string)
    (metricsCertWatcher webhookCertWatcher : option (Path * Path)) : Boot W K unit :=
  nodeReconciler ← must "unable to create node reconciler"
    (newNodeReconciler conf managerNamespace nodeName);
  err ← SetupWithManager nodeReconciler;
  _ ← fatal "unable to create controller" err;
  _ ← setupWebhooks;
  _ ← addWatcher "unable to add metrics certificate watcher to manager" metricsCertWatcher;
  _ ← addWatcher "unable to add webhook certificate watcher to manager" webhookCertWatcher;
  err ← request (AddHealthzCheck "healthz");
  _ ← fatal "unable to set up health check" err;
  err ← request (AddReadyzCheck "readyz");
  _ ← fatal "unable to set up ready check" err;
  err ← request Start;
  fatal "problem running manager" err.

(** [func main()]. *)
Definition main : Boot W K unit :=
  let f := parse (defaultFlags getenv) in
  let managerNamespace := managerNamespaceOf f in
  conf ← loadConfig;
  match conf with
  | inl e => exit_with (OsExit "Failed to load config: " e)
  | inr conf =>
  l ← getLogger (Log_Level (Config.Log conf)) (Log_Format (Config.Log conf));
  match l with
  | inl e => exit_with (OsExit "Failed to create logger: " e)
  | inr _ =>
  _ ← setGlobalLoggers;
  let nodeName := nodeNameOf in
  tlsOpts ← (if negb (enableHTTP2 f) then appendTLS SliceNil disableHTTP2 else mret SliceNil);
  '(webhookCertWatcher, webhookTLSOpts) ←
    certWatcher "Failed to initialize webhook certificate watcher"
      (webhookCertPath f) (webhookCertName f) (webhookCertKey f) tlsOpts;
  '(metricsCertWatcher, metricsTLSOpts) ←
    certWatcher "to initialize metrics certificate watcher"
      (metricsCertPath f) (metricsCertName f) (metricsCertKey f) tlsOpts;
  err ← request GetConfigOrDie;
  _ ← orExit (OsExit "unable to get kubeconfig") err;
  metricsOpts ← readTLS metricsTLSOpts;
  webhookOpts ← readTLS webhookTLSOpts;
  err ← request (NewManager (mkManagerOptions (metricsAddr f) (secureMetrics f) metricsOpts
          (secureMetrics f) webhookOpts (probeAddr f) (enableLeaderElection f)
          "223f13cc.k8s.slyng.dk" managerNamespace (GetFieldOwner managerNamespace)));
  _ ← fatal "unable to create new manager" err;
  _ ← notify SetupSignalHandler;
  runManager conf managerNamespace nodeName metricsCertWatcher webhookCertWatcher
  end
  end.

(** The process: Go runs [init] before [main]. *)
Definition process (defaultConfigYaml : string) : Boot W K unit :=
  _ ← init defaultConfigYaml; main.

End Main.

(** ** Facts on slices *)

Section Slices.
Context `{GrowSlice} `{!GrowSliceLaws}.
Implicit Types (mem : list (list (option tlsOpt))) (s t : tlsSlice) (l : list tlsOpt).

(** [s] is a slice of an existing array and reads [l]. *)
Definition reads mem s l : Prop :=
  match s with
  | SliceNil => l = []
  | SliceOf a len _ => exists arr, mem !! a = Some arr /\ len <= length arr /\
      omap id (take len arr) = l
  end.

(** There is no room behind the slice. *)
Definition full s : Prop := match s with SliceNil => True | SliceOf _ len cap => len = cap end.

Lemma reads_contents mem s l : reads mem s l -> contents mem s = l.
Proof. destruct s as [|a len cap]; [done|]. intros (arr & Ha & _ & <-). simpl. by rewrite Ha. Qed.

Lemma reads_app mem arrs s l : reads mem s l -> reads (mem ++ arrs) s l.
Proof.
  destruct s as [|a len cap]; [done|]. intros (arr & Ha & ?). exists arr.
  split; [by apply lookup_app_l_Some|done].
Qed.

(** Appending to a full slice leaves every other slice as it was. *)
Lemma append_full mem s l x mem' s' :
  full s -> reads mem s l -> append mem s x = (mem', s') ->
  reads mem' s' (l ++ [x]) /\ (forall t l', reads mem t l' -> reads mem' t l').
Proof.
  destruct s as [|a len cap]; simpl.
  - intros _ -> [= <- <-]. split; [|intros; by apply reads_app].
    eexists. rewrite lookup_app_r, Nat.sub_diag by done. split; [done|]. simpl. split; [lia|done].
  - intros -> (arr & Ha & Hlen & Hl). rewrite Nat.ltb_irrefl, Ha. simpl. intros [= <- <-].
    split; [|intros; by apply reads_app].
    assert (Htake : length (take cap arr) = cap) by (rewrite length_take; lia).
    eexists. rewrite lookup_app_r, Nat.sub_diag by done. split; [done|].
    split; [rewrite !length_app, Htake; simpl; lia|].
    rewrite cons_middle, app_assoc, take_app_le by (rewrite length_app, Htake; simpl; lia).
    rewrite take_ge by (rewrite length_app, Htake; simpl; lia).
    rewrite omap_app. by rewrite Hl.
Qed.

(** The first append to a nil slice leaves no room behind it. *)
Lemma append_nil_full mem x : full (append mem SliceNil x).2.
Proof. simpl. by rewrite growslice_one. Qed.

End Slices.

(** ** The plan of a start *)

Section Plan.
Context (getenv : string -> string) (f : Flags).

Definition given (dir : string) : bool := negb (String.length dir =? 0)%nat.

Definition watcherOf (dir cert key : string) : option (Path * Path) :=
  if given dir then Some (Join dir cert, Join dir key) else None.
Definition webhookWatcher := watcherOf (webhookCertPath f) (webhookCertName f) (webhookCertKey f).
Definition metricsWatcher := watcherOf (metricsCertPath f) (metricsCertName f) (metricsCertKey f).

Definition newWatcher (w : option (Path * Path)) : list SReq :=
  match w with Some (c, k) => [NewCertWatcher c k] | None => [] end.
Definition registerWatcher (w : option (Path * Path)) : list SReq :=
  match w with Some (c, k) => [AddCertWatcher c k] | None => [] end.

(** The TLS options a server is to have: no HTTP/2 unless enabled, and its own
    certificate if one is given. *)
Definition wantedTLS (w : option (Path * Path)) : list tlsOpt :=
  (if negb (enableHTTP2 f) then [disableHTTP2] else []) ++
  match w with Some (c, k) => [GetCertificate c k] | None => [] end.

Definition wantedOptions : ManagerOptions :=
  let ns := managerNamespaceOf f in
  mkManagerOptions (metricsAddr f) (secureMetrics f) (wantedTLS metricsWatcher) (secureMetrics f)
    (wantedTLS webhookWatcher) (probeAddr f) (enableLeaderElection f) "223f13cc.k8s.slyng.dk"
    ns (GetFieldOwner ns).

Definition schemes : list SReq :=
  [AddClientGoToScheme] ++ [AddToScheme "drain.k8s.slyng.dk" "v1" ["Node"; "NodeList"]].

Definition globalLoggers : list SReq :=
  [SetGlobalLogger "zap" EmptyString; ClearKlogLogger; SetGlobalLogger "klog" "kubeclient";
   SetGlobalLogger "log" EmptyString; SetGlobalLogger "ctrl" EmptyString;
   SetGlobalLogger "slog" EmptyString].

(** Everything a start asks of the libraries, in order: first what [init] does. *)
Definition mainPlan : list SReq :=
  globalLoggers ++ newWatcher webhookWatcher ++ newWatcher metricsWatcher ++
  [GetConfigOrDie] ++ [NewManager wantedOptions] ++ [SetupSignalHandler] ++
  [IndexField "status.currentState"; CompleteController (managerNamespaceOf f) (nodeNameOf getenv)] ++
  (if negb (getenv "ENABLE_WEBHOOKS" =? "false") then [CompleteWebhook] else []) ++
  registerWatcher metricsWatcher ++ registerWatcher webhookWatcher ++
  [AddHealthzCheck "healthz"] ++ [AddReadyzCheck "readyz"] ++ [Start].

Definition plan : list SReq := schemes ++ mainPlan.

End Plan.

(** The requests of a run to controller-runtime, with their answers. *)
Definition requests (evs : list SEv) : list (SReq * option error) :=
  omap (fun e => match e with Started q err => Some (q, err) | Inner _ => None end) evs.

(** The whole of a plan was done and every step succeeded. *)
Definition performed (pl : list SReq) (qs : list (SReq * option error)) : Prop :=
  qs = map (fun q => (q, None)) pl.

(** A part of a plan was done, each step after the success of the one before. *)
Definition attempted (pl : list SReq) (qs : list (SReq * option error)) : Prop :=
  exists pl1 pl2, pl = pl1 ++ pl2 /\
    (performed pl1 qs \/ exists q e pl0, pl1 = pl0 ++ [q] /\
       qs = map (fun q => (q, None)) pl0 ++ [(q, Some e)]).

Section Runs.
Context {W K : Type}.

(** A run from a state in [P]: it follows [pl]; it ends in [Q] with the whole of it
    done, or the process exits, or it returns a value in [E] that reports failure. *)
Definition runs {X} (P : proc W K -> Prop) (pl : list SReq) (m : Boot W K X)
    (Q : X -> proc W K -> Prop) (E : X -> Prop) : Prop :=
  forall p, P p ->
  match m p with
  | (evs, _, inl _) => attempted pl (requests evs)
  | (evs, p', inr x) => (performed pl (requests evs) /\ Q x p') \/
                        (E x /\ attempted pl (requests evs))
  end.

(** Passing on a failure without another request. *)
Definition fails {X} (m : Boot W K X) (E : X -> Prop) : Prop :=
  forall p, match m p with
            | (evs, _, inl _) => evs = []
            | (evs, _, inr x) => evs = [] /\ E x
            end.

Lemma requests_app evs evs' : requests (evs ++ evs') = requests evs ++ requests evs'.
Proof. apply omap_app. Qed.

Lemma attempted_app pl pl' qs : attempted pl qs -> attempted (pl ++ pl') qs.
Proof.
  intros (pl1 & pl2 & -> & Hq). exists pl1, (pl2 ++ pl'). by rewrite app_assoc.
Qed.

Lemma attempted_after pl pl' qs qs' :
  performed pl qs -> attempted pl' qs' -> attempted (pl ++ pl') (qs ++ qs').
Proof.
  intros -> (pl1 & pl2 & -> & Hq). exists (pl ++ pl1), pl2. split; [by rewrite app_assoc|].
  unfold performed. rewrite map_app. destruct Hq as [->|(q & e & pl0 & -> & ->)]; [by left|].
  right. exists q, e, (pl ++ pl0). by rewrite map_app, !app_assoc.
Qed.

Lemma runs_bind {X Y} P pl pl' (m : Boot W K X) (g : X -> Boot W K Y) Q E Q' E' :
  runs P pl m Q E -> (forall x, E x -> fails (g x) E') ->
  (forall x, runs (Q x) pl' (g x) Q' E') -> runs P (pl ++ pl') (m ≫= g) Q' E'.
Proof.
  intros Hm Hf Hg p Hp. specialize (Hm p Hp). unfold mbind, Boot_bind.
  destruct (m p) as [[evs p'] [e|x]]; [by apply attempted_app|].
  destruct Hm as [[Hd HQ]|[HE Ha]].
  - specialize (Hg x p' HQ). destruct (g x p') as [[evs' p''] [e|y]]; rewrite requests_app.
    + by apply attempted_after.
    + destruct Hg as [[Hd' HQ']|[HE' Ha]].
      * left. split; [|done]. unfold performed in *. by rewrite Hd, Hd', map_app.
      * right. split; [done|]. by apply attempted_after.
  - specialize (Hf x HE p'). destruct (g x p') as [[evs' p''] [e|y]].
    + subst evs'. rewrite app_nil_r. by apply attempted_app.
    + destruct Hf as [-> HE']. rewrite app_nil_r. right. split; [done|]. by apply attempted_app.
Qed.

(** A step that makes no request. *)
Lemma runs_silent {X} P (m : Boot W K X) (Q : X -> proc W K -> Prop) (E : X -> Prop) :
  (forall p, P p -> match m p with
     | (evs, _, inl _) => requests evs = []
     | (evs, p', inr x) => requests evs = [] /\ (Q x p' \/ E x)
     end) -> runs P [] m Q E.
Proof.
  intros Hm p Hp. specialize (Hm p Hp). destruct (m p) as [[evs p'] [e|x]].
  - exists [], []. split; [done|]. by left.
  - destruct Hm as [Hr [HQ|HE]]; [left; done|right]. split; [done|].
    exists [], []. split; [done|]. by left.
Qed.

Lemma runs_weaken {X} P pl (m : Boot W K X) (Q Q' : X -> proc W K -> Prop) E :
  (forall x p, Q x p -> Q' x p) -> runs P pl m Q E -> runs P pl m Q' E.
Proof.
  intros HQ Hm p Hp. specialize (Hm p Hp). destruct (m p) as [[evs p'] [e|x]]; naive_solver.
Qed.

Lemma runs_ret {X} (P : proc W K -> Prop) (x : X) (Q : X -> proc W K -> Prop) E :
  (forall p, P p -> Q x p) -> runs P [] (mret x) Q E.
Proof. intros Hx. apply runs_silent. intros p Hp. simpl. auto. Qed.

(** Only the arrays of slices matter to what a start asks for. *)
Definition onArrays (P : list (list (option tlsOpt)) -> Prop) (p : proc W K) : Prop :=
  P (arrays p).

Lemma runs_request `{StartEnv W} P q :
  runs (onArrays P) [q] (request q) (fun o p => o = None /\ onArrays P p)
    (fun o => is_Some o).
Proof.
  intros p Hp. unfold request. destruct (shandle q (world p)) as [[e|] w]; simpl.
  - right. split; [by eexists|]. exists [q], []. split; [done|]. right. by exists q, e, [].
  - left. done.
Qed.

Lemma runs_notify `{StartEnv W} P q :
  runs (onArrays P) [q] (notify q) (fun _ => onArrays P) (fun _ => False).
Proof.
  intros p Hp. unfold notify. destruct (shandle q (world p)) as [err w]. by left.
Qed.

(** [err = f(); if err != nil { Fatal }] and what follows. *)
Lemma runs_fatal {X} P pl pl' how (m : Boot W K (option error)) (g : unit -> Boot W K X) Q E :
  runs (onArrays P) pl m (fun o p => o = None /\ onArrays P p) (fun o => is_Some o) ->
  runs (onArrays P) pl' (g tt) Q E ->
  runs (onArrays P) (pl ++ pl') (o ← m; _ ← orExit how o; g tt) Q E.
Proof.
  intros Hm Hg. eapply runs_bind; [exact Hm| |].
  - by intros o [e ->] p.
  - intros o p [-> Hp]. specialize (Hg p Hp). unfold mbind, Boot_bind, orExit, mret, Boot_ret.
    destruct (g tt p) as [[evs p'] r]. exact Hg.
Qed.

(** Facts that do not depend on the state, and weaker starting points. *)
Lemma runs_pre {X} (phi : Prop) (P P' : proc W K -> Prop) pl (m : Boot W K X) Q E :
  (forall p, P p -> phi /\ P' p) -> (phi -> runs P' pl m Q E) -> runs P pl m Q E.
Proof. intros HP Hm p Hp. destruct (HP p Hp) as [Hphi Hp']. by apply Hm. Qed.

Lemma runs_readTLS {X} P pl s l (g : list tlsOpt -> Boot W K X) Q E :
  (forall mem, P mem -> reads mem s l) -> runs (onArrays P) pl (g l) Q E ->
  runs (onArrays P) pl (readTLS s ≫= g) Q E.
Proof.
  intros Hs Hg p Hp. specialize (Hg p Hp). unfold mbind, Boot_bind, readTLS.
  rewrite (reads_contents _ _ _ (Hs _ Hp)). destruct (g l p) as [[evs p'] r]. exact Hg.
Qed.

Lemma runs_fatal_last P pl how (m : Boot W K (option error)) :
  runs (onArrays P) pl m (fun o p => o = None /\ onArrays P p) (fun o => is_Some o) ->
  runs (onArrays P) pl (o ← m; orExit how o) (fun _ => onArrays P) (fun _ => False).
Proof.
  intros Hm. rewrite <- (app_nil_r pl). eapply runs_bind; [exact Hm| |].
  - by intros o [e ->] p.
  - intros o p [-> Hp]. by apply (runs_ret (onArrays P)).
Qed.

End Runs.

(** ** Facts on main *)

Section MainFacts.
Context {W L K D A : Type}.
Context `{Env W} `{StartEnv W} `{Zap L} `{Koanf K D A} `{GrowSlice} `{!GrowSliceLaws}.
Context (fs : FileSystem) (getenv : string -> string) (parse : Flags -> Flags).
Context (Duration : K -> string -> Z).

(** A computation that asks nothing of controller-runtime, leaves the slices alone
    and returns only values in [V]. *)
Definition quiet {X} (m : Boot W K X) (V : X -> Prop) : Prop :=
  forall p, match m p with
            | (evs, p', r) => requests evs = [] /\ arrays p' = arrays p /\
                match r with inr x => V x | inl _ => True end
            end.

Lemma quiet_bind {X Y} (m : Boot W K X) (g : X -> Boot W K Y) V V' :
  quiet m V -> (forall x, V x -> quiet (g x) V') -> quiet (m ≫= g) V'.
Proof.
  intros Hm Hg p. specialize (Hm p). unfold mbind, Boot_bind.
  destruct (m p) as [[evs p'] [e|x]]; [done|]. destruct Hm as (Hr & Ha & Hx).
  specialize (Hg x Hx p'). destruct (g x p') as [[evs' p''] r].
  rewrite requests_app, Hr. destruct Hg as (-> & -> & ?). done.
Qed.

Lemma quiet_ret {X} (x : X) (V : X -> Prop) : V x -> quiet (mret x) V.
Proof. intros Hx p. done. Qed.

Lemma quiet_inner {X} (m : M W X) : quiet (inner m) (fun _ => True).
Proof.
  intros p. unfold inner. destruct (m (world p)) as [[evs w] r]. simpl. split; [|done].
  induction evs; done.
Qed.

Lemma quiet_named name : quiet (getNamedLogger (L := L) name) (fun _ => True).
Proof.
  intros p. unfold getNamedLogger. destruct (GetNamedLogger _ _ _) as [s r]. by destruct r.
Qed.

Lemma quiet_wrapE {X} prefix (m : Boot W K (error + X)) :
  quiet m (fun _ => True) -> quiet (wrapE prefix m) (fun _ => True).
Proof. intros Hm. eapply quiet_bind; [exact Hm|]. intros x _. by apply quiet_ret. Qed.

(** Values that, if they are no error, satisfy [V]. *)
Definition okAnd {X} (V : X -> Prop) (r : error + X) : Prop :=
  match r with inr x => V x | inl _ => True end.

Lemma quiet_andThen {X Y} (m : Boot W K (error + X)) (g : X -> Boot W K (error + Y)) V :
  quiet m (fun _ => True) -> (forall x, quiet (g x) (okAnd V)) -> quiet (andThen m g) (okAnd V).
Proof.
  intros Hm Hg. eapply quiet_bind; [exact Hm|]. intros [e|x] _; [by apply quiet_ret|apply Hg].
Qed.

Lemma quiet_weaken {X} (m : Boot W K X) (V V' : X -> Prop) :
  (forall x, V x -> V' x) -> quiet m V -> quiet m V'.
Proof.
  intros HV Hm p. specialize (Hm p). destruct (m p) as [[evs p'] [e|x]]; [done|]. naive_solver.
Qed.

Lemma quiet_newNodeReconciler conf ns node :
  quiet (newNodeReconciler (L := L) Duration conf ns node)
    (okAnd (fun r => managerNamespace r = ns /\ nodeName r = node)).
Proof.
  apply quiet_andThen; [apply quiet_named|intros _].
  apply quiet_andThen; [apply quiet_wrapE, quiet_inner|intros rm].
  apply quiet_andThen.
  - apply quiet_wrapE. eapply quiet_weaken; [|apply (quiet_andThen _ _ (fun _ => True))].
    + done.
    + apply quiet_named.
    + intros _. eapply quiet_weaken; [|apply quiet_inner]. by intros [].
  - intros d. eapply (quiet_bind _ _ (fun _ => True)); [done|]. intros k _. by apply quiet_ret.
Qed.

Lemma runs_must {X} P (m : Boot W K (error + X)) (V : X -> Prop) msg :
  quiet m (okAnd V) ->
  runs (onArrays P) [] (must msg m) (fun x p => V x /\ onArrays P p) (fun _ => False).
Proof.
  intros Hm. apply runs_silent. intros p Hp. specialize (Hm p).
  unfold must, mbind, Boot_bind. destruct (m p) as [[evs p'] [e|[e|x]]]; simpl in Hm |- *.
  - naive_solver.
  - rewrite app_nil_r. naive_solver.
  - rewrite app_nil_r. destruct Hm as (Hr & Ha & Hx). split; [done|]. left. split; [done|].
    unfold onArrays. by rewrite Ha.
Qed.

(** The state of the three slices while [main] builds them. *)
Definition threeSlices (tls s t : tlsSlice) (l l1 l2 : list tlsOpt) mem : Prop :=
  full tls /\ reads mem tls l /\ reads mem s l1 /\ reads mem t l2.

Lemma runs_certWatcher msg dir cert key tls t l lt :
  runs (onArrays (threeSlices tls tls t l l lt))
    (newWatcher (watcherOf dir cert key))
    (certWatcher (W := W) (K := K) msg dir cert key tls)
    (fun '(w, s) p => w = watcherOf dir cert key /\
       onArrays (threeSlices tls s t l
         (l ++ match w with Some (c, k) => [GetCertificate c k] | None => [] end) lt) p)
    (fun _ => False).
Proof.
  unfold certWatcher, watcherOf, given. destruct (negb _).
  - apply (runs_fatal _ [NewCertWatcher _ _] [] (Fatal msg) (request _)
             (fun _ => opts ← appendTLS tls _; mret (Some _, opts))); [apply runs_request|].
    apply runs_silent. intros p (Hf & Hr & _ & Ht). unfold mbind, Boot_bind, appendTLS.
    destruct (append (arrays p) tls _) as [mem' s'] eqn:E.
    destruct (append_full _ _ _ _ _ _ Hf Hr E) as [Hs Hother].
    simpl. split; [done|]. left. split; [done|]. split_and!; auto.
  - apply runs_ret. intros p Hp. split; [done|]. by rewrite app_nil_r.
Qed.

Lemma runs_addWatcher P msg w :
  runs (onArrays P) (registerWatcher w) (addWatcher (W := W) (K := K) msg w)
    (fun _ => onArrays P) (fun _ => False).
Proof.
  destruct w as [[c k]|]; [apply runs_fatal_last, runs_request|by apply runs_ret].
Qed.

Lemma runs_SetupWithManager P r :
  runs (onArrays P)
    [IndexField "status.currentState"; CompleteController (managerNamespace r) (nodeName r)]
    (SetupWithManager (W := W) (K := K) r) (fun o p => o = None /\ onArrays P p)
    (fun o => is_Some o).
Proof.
  apply (runs_bind _ [_] [_] _ _ _ _ _ _ (runs_request _ _)).
  - intros o [e ->] p. by split; [|eexists].
  - intros o p [-> Hp]. by apply runs_request.
Qed.

Lemma runs_SetupNodeWebhook P :
  runs (onArrays P) [CompleteWebhook] (SetupNodeWebhookWithManager (L := L) (W := W) (K := K))
    (fun o p => o = None /\ onArrays P p) (fun o => is_Some o).
Proof.
  apply (runs_bind _ [] [CompleteWebhook] _ _
           (fun l p => is_Some (match l with inl _ => None | inr x => Some x end) /\ onArrays P p)
           (fun l => exists e, l = inl e)).
  - apply runs_silent. intros p Hp.
    pose proof (quiet_wrapE "failed to get logger: " _ (quiet_named "node-webhook") p) as Hq.
    destruct (wrapE _ _ p) as [[evs p'] [e|[e|x]]]; [naive_solver|naive_solver|].
    destruct Hq as (Hr & Ha & _). split; [done|]. left. split; [by eexists|].
    unfold onArrays. by rewrite Ha.
  - intros l [e ->] p. by split; [|eexists].
  - intros [e|l] p [[? Hx] Hp]; [done|]. by apply runs_request.
Qed.

(** A start that was attempted came last. *)
Lemma plan_start f : exists setup, plan getenv f = setup ++ [Start] /\ Start ∉ setup.
Proof.
  unfold plan, mainPlan. eexists. split; [by rewrite !app_assoc|].
  rewrite !not_elem_of_app. unfold newWatcher, registerWatcher, schemes, globalLoggers.
  destruct (webhookWatcher f) as [[]|], (metricsWatcher f) as [[]|], (negb _);
    split_and!; set_solver.
Qed.

Lemma start_last f qs err :
  attempted (plan getenv f) qs -> (Start, err) ∈ qs ->
  exists setup, plan getenv f = setup ++ [Start] /\
    qs = map (fun q => (q, None)) setup ++ [(Start, err)].
Proof.
  destruct (plan_start f) as (setup & -> & Hsetup).
  intros (pl1 & pl2 & Hpl & Hqs) Hin. exists setup. split; [done|].
  assert (Hmap : forall l e, (Start, e) ∈ map (fun q => (q, @None error)) l -> Start ∈ l /\ e = None).
  { intros l e (q & Hq & Hin')%list_elem_of_fmap. by simplify_eq. }
  assert (pl2 = [] /\ pl1 = setup ++ [Start]) as [-> ->].
  { destruct pl2 as [|x pl2 _] using rev_ind; [by rewrite app_nil_r in Hpl|exfalso].
    rewrite app_assoc in Hpl. apply app_inj_tail in Hpl as [-> _].
    destruct Hqs as [->|(q & e & pl0 & -> & ->)]; [apply Hmap in Hin; set_solver|].
    apply elem_of_app in Hin as [Hin|Hin]; [apply Hmap in Hin|]; set_solver. }
  destruct Hqs as [->|(q & e & pl0 & Hpl0 & ->)].
  - rewrite map_app in Hin |- *. apply elem_of_app in Hin as [Hin|Hin]; [by apply Hmap in Hin as [? _]|].
    apply list_elem_of_singleton in Hin. by simplify_eq.
  - apply app_inj_tail in Hpl0 as [<- <-].
    apply elem_of_app in Hin as [Hin|Hin]; [by apply Hmap in Hin as [? _]|].
    apply list_elem_of_singleton in Hin. by simplify_eq.
Qed.

(** Both early calls change only the package variables. *)
Lemma quiet_loadConfig : quiet (loadConfig (W := W) fs) (fun _ => True).
Proof. intros p. unfold loadConfig. by destruct (LoadConfig fs (pconfig p)). Qed.

Lemma quiet_getLogger level format :
  quiet (getLogger (W := W) (K := K) (L := L) level format) (fun _ => True).
Proof. intros p. unfold getLogger. by destruct (Logging.GetLogger (plog p) level format). Qed.

Lemma runs_quiet {X Y} P pl (m : Boot W K X) (g : X -> Boot W K Y) V Q E :
  quiet m V -> (forall x, V x -> runs (onArrays P) pl (g x) Q E) ->
  runs (onArrays P) pl (m ≫= g) Q E.
Proof.
  intros Hm Hg. apply (runs_bind _ [] pl _ _ (fun x p => V x /\ onArrays P p) (fun _ => False)).
  - apply runs_silent. intros p Hp. specialize (Hm p).
    destruct (m p) as [[evs p'] [e|x]]; [naive_solver|]. destruct Hm as (Hr & Ha & Hx).
    split; [done|]. left. split; [done|]. unfold onArrays. by rewrite Ha.
  - done.
  - intros x p [Hx Hp]. by apply Hg.
Qed.

Lemma runs_exit {X} P pl e (Q : X -> proc W K -> Prop) E : runs P pl (exit_with e) Q E.
Proof. intros p Hp. exists [], pl. split; [done|]. by left. Qed.

(** The first TLS option. *)
Lemma runs_tlsOpts (f : Flags) P :
  let l := if negb (enableHTTP2 f) then [disableHTTP2] else [] in
  runs P [] (if negb (enableHTTP2 f) then appendTLS (W := W) (K := K) SliceNil disableHTTP2
             else mret SliceNil)
    (fun tls p => onArrays (threeSlices tls tls tls l l l) p) (fun _ => False).
Proof.
  simpl. apply runs_silent. intros p _. destruct (negb (enableHTTP2 f)).
  - unfold appendTLS. destruct (append (arrays p) SliceNil disableHTTP2) as [mem' s'] eqn:E.
    pose proof (append_nil_full (arrays p) disableHTTP2) as Hf. rewrite E in Hf.
    destruct (append_full _ SliceNil [] _ _ _ I eq_refl E) as [Hs _].
    split; [done|]. left. by split_and!.
  - split; [done|]. left. by split_and!.
Qed.

Lemma runs_setupWebhooks P :
  runs (onArrays P) (if negb (getenv "ENABLE_WEBHOOKS" =? "false") then [CompleteWebhook] else [])
    (setupWebhooks (W := W) (K := K) (L := L) getenv) (fun _ => onArrays P) (fun _ => False).
Proof.
  unfold setupWebhooks. destruct (negb _); [|by apply runs_ret].
  apply runs_fatal_last, runs_SetupNodeWebhook.
Qed.

(** Steps in sequence that return nothing. *)
Lemma runs_seq {X} P pl pl' (m : Boot W K unit) (k : Boot W K X) Q E :
  runs (onArrays P) pl m (fun _ => onArrays P) (fun _ => False) ->
  runs (onArrays P) pl' k Q E -> runs (onArrays P) (pl ++ pl') (_ ← m; k) Q E.
Proof. intros Hm Hk. eapply runs_bind; [exact Hm|done|]. intros u. exact Hk. Qed.

Lemma runs_runManager P conf ns node mw ww :
  runs (onArrays P)
    ([IndexField "status.currentState"; CompleteController ns node] ++
     (if negb (getenv "ENABLE_WEBHOOKS" =? "false") then [CompleteWebhook] else []) ++
     registerWatcher mw ++ registerWatcher ww ++
     [AddHealthzCheck "healthz"] ++ [AddReadyzCheck "readyz"] ++ [Start])
    (runManager (L := L) getenv Duration conf ns node mw ww) (fun _ _ => True) (fun _ => False).
Proof.
  apply (runs_bind _ [] _ _ _ (fun r p => (managerNamespace r = ns /\ nodeName r = node) /\
           onArrays P p) (fun _ => False)); [apply runs_must, quiet_newNodeReconciler|done|].
  intros r p [[Hns Hnode] Hp]. rewrite <- Hns, <- Hnode. revert p Hp.
  apply (runs_fatal _ [_; _] _ _ _ (fun _ => _)); [apply runs_SetupWithManager|].
  apply runs_seq; [apply runs_setupWebhooks|].
  apply runs_seq; [apply runs_addWatcher|]. apply runs_seq; [apply runs_addWatcher|].
  apply (runs_fatal _ _ _ _ _ (fun _ => _)); [apply runs_request|].
  apply (runs_fatal _ _ _ _ _ (fun _ => _)); [apply runs_request|].
  eapply runs_weaken; [|apply runs_fatal_last, runs_request]. done.
Qed.

Lemma runs_setGlobalLoggers P :
  runs (onArrays P) globalLoggers (setGlobalLoggers (W := W) (K := K))
    (fun _ => onArrays P) (fun _ => False).
Proof.
  unfold setGlobalLoggers. do 5 (apply (runs_seq _ [_]); [apply runs_notify|]). apply runs_notify.
Qed.

Lemma runs_init yaml :
  runs (onArrays (fun _ => True)) schemes (init (W := W) (K := K) yaml)
    (fun _ => onArrays (fun _ => True)) (fun _ => False).
Proof.
  apply (runs_seq _ []).
  - apply runs_silent. intros p _. unfold loadDefaultConfig.
    destruct (LoadDefaultConfig _ _); [done|]. split; [done|]. by left.
  - apply (runs_fatal _ [_] [_] _ _ (fun _ => _)); [apply runs_request|].
    apply runs_fatal_last, runs_request.
Qed.

(** [main] from the TLS options on. *)
Lemma runs_main :
  runs (onArrays (fun _ => True)) (mainPlan getenv (parse (defaultFlags getenv)))
    (main (W := W) (L := L) fs getenv parse Duration) (fun _ _ => True) (fun _ => False).
Proof.
  unfold main. set (f := parse (defaultFlags getenv)). cbv zeta.
  apply (runs_quiet (fun _ => True) _ _ _ _ _ _ quiet_loadConfig). intros [e|conf] _; [apply runs_exit|].
  eapply runs_quiet; [apply quiet_getLogger|]. intros [e|l] _; [apply runs_exit|].
  apply runs_seq; [apply runs_setGlobalLoggers|].
  eapply (runs_bind _ []); [apply (runs_tlsOpts f)|done|]. intros tls.
  eapply runs_bind; [apply runs_certWatcher|done|]. intros [ww ws].
  set (base := if negb (enableHTTP2 f) then [disableHTTP2] else []).
  apply (runs_pre (ww = webhookWatcher f) _
    (onArrays (threeSlices tls tls ws base base (wantedTLS f (webhookWatcher f))))).
  { intros p [-> (Hf & Htls & Hws & _)]. by split_and!. }
  intros ->. eapply runs_bind; [apply runs_certWatcher|done|]. intros [mw ms].
  apply (runs_pre (mw = metricsWatcher f) _
    (onArrays (threeSlices tls ms ws base (wantedTLS f (metricsWatcher f))
                 (wantedTLS f (webhookWatcher f))))).
  { intros p [-> (Hf & Htls & Hms & Hws)]. by split_and!. }
  intros ->. apply (runs_fatal _ _ _ _ _ (fun _ => _)); [apply runs_request|].
  eapply runs_readTLS; [by intros mem (_ & _ & ? & _)|].
  eapply runs_readTLS; [by intros mem (_ & _ & _ & ?)|].
  apply (runs_fatal _ _ _ _ _ (fun _ => _)); [apply runs_request|].
  apply runs_seq; [apply runs_notify|]. apply runs_runManager.
Qed.

Lemma runs_process yaml :
  runs (onArrays (fun _ => True)) (plan getenv (parse (defaultFlags getenv)))
    (process (W := W) (L := L) fs getenv parse Duration yaml) (fun _ _ => True) (fun _ => False).
Proof. apply runs_seq; [apply runs_init|apply runs_main]. Qed.

(** C21. A start follows its plan: the process registers the API types with the scheme,
    replaces the global loggers, and asks controller-runtime for the watchers, the
    manager, the controller, the webhooks (unless switched off) and the checks in
    order, each only after the one before succeeded, and starts the manager last.
    The options are the ones the flags ask for: each server has its own certificate
    even though both lists of TLS options grow from one slice, and the client writes
    under the field owner that belongs to the namespace the controller is given.
    [main] returns normally only if all of it succeeded. *)
Theorem startup_follows_plan yaml p :
  let pl := plan getenv (parse (defaultFlags getenv)) in
  let run := process (W := W) (L := L) fs getenv parse Duration yaml p in
  match run with
  | (evs, _, inl _) => attempted pl (requests evs)
  | (evs, _, inr _) => performed pl (requests evs)
  end /\
  (forall evs p' r err,
     run = (evs, p', r) -> (Start, err) ∈ requests evs ->
     exists setup, pl = setup ++ [Start] /\
       requests evs = map (fun q => (q, None)) setup ++ [(Start, err)]).
Proof.
  intros pl run. pose proof (runs_process yaml p I) as Hrun. fold pl run in Hrun.
  assert (Hatt : match run with (evs, _, _) => attempted pl (requests evs) end).
  { destruct run as [[evs p'] [e|x]]; [done|].
    destruct Hrun as [[Hd _]|[[] _]]. exists pl, []. split; [by rewrite app_nil_r|by left]. }
  split.
  - destruct run as [[evs p'] [e|x]]; [done|]. by destruct Hrun as [[Hd _]|[[] _]].
  - intros evs p' r err E Hin. rewrite E in Hatt. by apply start_last.
Qed.

End MainFacts.
