(* ===== verification/Traces.v ===== *)
(** * Runs, interaction by interaction

    A computation of the model may in principle report interactions it never had.
    This file shows that the reconciliation does not: the interactions of a run are
    the answers of the worlds it goes through, one after the other, so that a run can
    be followed, and cut off, at any of them. *)

From stdpp Require Import base gmap strings list.
From S2P Require Import Prelude NodeTypes Json Requests Effects Plugins Config Utils DrainManager.
From S2P Require Import RebootManager NodeController.

Local Open Scope list_scope.

Section Wrun.
Context {W : Type} `{Env W}.

(** The worlds an interaction list leads through. *)
Inductive wrun : W -> list Ev -> W -> Prop :=
  | wrun_nil w : wrun w [] w
  | wrun_snoc w evs w1 q a w2 :
      wrun w evs w1 -> handle q w1 = (a, w2) -> wrun w (evs ++ [mkEv q a]) w2.

Lemma wrun_one q w a w' : handle q w = (a, w') -> wrun w [mkEv q a] w'.
Proof. intros E. apply (wrun_snoc w [] w q a w'); [constructor|done]. Qed.

Lemma wrun_app w evs w1 evs' w2 : wrun w evs w1 -> wrun w1 evs' w2 -> wrun w (evs ++ evs') w2.
Proof.
  intros H1 H2. induction H2 as [|w1 evs' w2 q a w3 H2 IH E]; [by rewrite app_nil_r|].
  rewrite app_assoc. econstructor; eauto.
Qed.

(** Each interaction of a run is an answer of some world on the way. *)
Definition answered (e : Ev) : Prop :=
  let '(mkEv q a) := e in exists w1 w2 : W, handle q w1 = (a, w2).

Lemma wrun_answered w evs w' : wrun w evs w' -> Forall answered evs.
Proof.
  induction 1 as [|w evs w1 q a w2 _ IH E]; [constructor|].
  apply Forall_app_2; [done|]. constructor; [by exists w1, w2|constructor].
Qed.

(** A computation whose interactions are those of the world it runs in. *)
Definition traced {A} (m : M W A) : Prop :=
  forall w evs w' r, m w = (evs, w', r) -> wrun w evs w'.

Lemma traced_ret {A} (a : A) : traced (mret a).
Proof. intros w evs w' r [= <- <- <-]. constructor. Qed.

Lemma traced_raise {A} e : traced (raise (A := A) e).
Proof. intros w evs w' r [= <- <- <-]. constructor. Qed.

Lemma traced_lift {A} (r : error + A) : traced (lift r).
Proof. destruct r; [apply traced_raise | apply traced_ret]. Qed.

Lemma traced_check o : traced (check o).
Proof. destruct o; [apply traced_raise | apply traced_ret]. Qed.

Lemma traced_call q : traced (call q).
Proof.
  intros w evs w' r E. apply call_run in E as (a & E & -> & _). by apply wrun_one.
Qed.

Lemma traced_bind {A B} (m : M W A) (f : A -> M W B) :
  traced m -> (forall a, traced (f a)) -> traced (m ≫= f).
Proof.
  intros Hm Hf w evs w' r E. apply bind_run in E as [(e & E & _)|(a & ? & ? & ? & E1 & E2 & ->)].
  - by eapply Hm.
  - eapply wrun_app; [by eapply Hm | by eapply Hf].
Qed.

Lemma traced_attempt {A} (m : M W A) : traced m -> traced (attempt m).
Proof. intros Hm w evs w' r E. apply attempt_run in E as (r' & E & _). by eapply Hm. Qed.

Lemma traced_wrap {A} p (m : M W A) : traced m -> traced (wrap p m).
Proof.
  intros Hm w evs w' r. unfold wrap.
  destruct (m w) as [[??] [?|?]] eqn:E; intros [= <- <- <-]; by eapply Hm.
Qed.

Lemma traced_deferring {A} f (m : M W A) : traced f -> traced m -> traced (deferring f m).
Proof.
  intros Hf Hm w evs w' r. unfold deferring.
  destruct (m w) as [[evs1 w1] r1] eqn:E, (f w1) as [[evs2 w2] r2] eqn:E'.
  intros [= <- <- <-]. eapply wrun_app; [by eapply Hm | by eapply Hf].
Qed.

Lemma traced_poll `{!Wait W, !WaitLaws W} d t cond :
  traced cond -> traced (PollUntilContextTimeout d t false cond).
Proof.
  intros Hc w evs w' r E. pose proof (poll_law d t cond w) as Hrun.
  rewrite E in Hrun. clear E. remember (evs, w', r) as out eqn:Eo. revert evs w' r Eo.
  induction Hrun as [? ? Hs|? ? ? ? Hs|? ? ? ? ? Hs|? ? ? ? ? ? ? Hs ? Hrun IH]; intros; simplify_eq;
    apply wrun_one in Hs; [done|..]; eapply (wrun_app _ [_]); try done; try by eapply Hc.
  eapply wrun_app; [by eapply Hc|]. by eapply IH.
Qed.
End Wrun.

Create HintDb traced.

(** Decomposes program text for a [traced] goal. *)
Ltac traced_step :=
  match goal with
  | |- traced (if ?b then _ else _) => destruct b
  | |- traced (match ?x with _ => _ end) => destruct x
  | |- traced (let '_ := ?x in _) => destruct x
  | |- traced (mret _) => apply traced_ret
  | |- traced (raise _) => apply traced_raise
  | |- traced (lift _) => apply traced_lift
  | |- traced (check _) => apply traced_check
  | |- traced (mbind _ _) => apply traced_bind; [|intros ?]
  | |- traced (call ?q) => apply (traced_call q)
  | |- traced (wrap _ _) => apply traced_wrap
  | |- traced (attempt _) => apply traced_attempt
  | |- traced (deferring _ _) => apply traced_deferring
  | |- traced (PollUntilContextTimeout _ _ _ _) => apply traced_poll
  | |- traced _ => solve [eauto 2 with traced nocore]
  end.
Ltac traced_auto := repeat (cbv zeta; simpl resp; traced_step).

Section Traced.
Context {W : Type} `{Env W} `{Wait W} `{!WaitLaws W} `{ControllerUtil}.

Lemma traced_hooks (hook : string -> string -> M W unit) what n l :
  (forall c, traced (hook c n)) -> traced (run_hooks hook what n l).
Proof.
  intros Hh. induction l as [|[id c] l IH]; simpl; [apply traced_ret|].
  unfold Client_IsSupported. traced_auto.
Qed.

Lemma traced_polls (ask : string -> M W bool) neg l acc :
  (forall c, traced (ask c)) -> traced (poll_plugins ask neg acc l).
Proof.
  intros Ha. revert acc. induction l as [|[id c] l IH]; intros acc; simpl; [apply traced_ret|].
  apply traced_bind; [|done]. unfold poll_plugin. simpl. unfold Client_IsSupported. traced_auto.
Qed.

Lemma traced_RunPreDrain d node : traced (W := W) (RunPreDrain d node).
Proof.
  unfold RunPreDrain, range_map. traced_auto. apply traced_hooks. intros c. simpl.
  unfold Client_PreDrain. traced_auto.
Qed.

Lemma traced_RunPostDrain d node : traced (W := W) (RunPostDrain d node).
Proof.
  unfold RunPostDrain, range_map. traced_auto. apply traced_hooks. intros c. simpl.
  unfold Client_PostDrain. traced_auto.
Qed.

Lemma traced_cluster_healthy : traced (W := W) IsClusterNodesHealthy.
Proof. unfold IsClusterNodesHealthy. traced_auto. Qed.

Lemma traced_IsHealthy d node : traced (W := W) (DM_IsHealthy d node).
Proof.
  unfold DM_IsHealthy, IsClusterNodesHealthy, range_map, poll_verdict. traced_auto.
  apply traced_polls. intros c. simpl. unfold Client_IsHealthy. traced_auto.
Qed.

Lemma traced_IsDrainOk d node : traced (W := W) (DM_IsDrainOk d node).
Proof.
  unfold DM_IsDrainOk, range_map, poll_verdict. traced_auto.
  apply traced_polls. intros c. simpl. unfold Client_IsDrainOk. traced_auto.
Qed.

Lemma traced_CleanupNode r n : traced (W := W) (CleanupNode r n).
Proof. unfold CleanupNode. traced_auto. Qed.
End Traced.

#[export] Hint Resolve traced_RunPreDrain traced_RunPostDrain traced_cluster_healthy
  traced_IsHealthy traced_IsDrainOk traced_CleanupNode : traced.

Section TracedReconcile.
Context {W : Type} `{Env W} `{Wait W} `{!WaitLaws W} `{ControllerUtil}.

Lemma traced_setCurrentState node s : traced (W := W) (setCurrentState node s).
Proof. unfold setCurrentState. traced_auto. Qed.
Lemma traced_setState node s : traced (W := W) (setState node s).
Proof. unfold setState. traced_auto. Qed.
Lemma traced_setDrained node b : traced (W := W) (setDrained node b).
Proof. unfold setDrained. traced_auto. Qed.
Lemma traced_setBootID node k : traced (W := W) (setBootID node k).
Proof. unfold setBootID. traced_auto. Qed.
Lemma traced_setUnschedulable k b : traced (W := W) (setUnschedulable k b).
Proof. unfold setUnschedulable. traced_auto. Qed.

Lemma traced_isRebootRequired r node : traced (W := W) (isRebootRequired r node).
Proof.
  unfold isRebootRequired, RM_IsRebootRequired, GetNode, rebootRequiredBody, ExecCmd, IsPodRunning.
  traced_auto.
Qed.

Lemma traced_RebootNode r node : traced (W := W) (RebootNode r node).
Proof. unfold RebootNode, GetNode. traced_auto. Qed.

Lemma traced_IsNodeRebooted r k id : traced (W := W) (IsNodeRebooted r k id).
Proof. unfold IsNodeRebooted, IsPodCompleted. traced_auto. Qed.
End TracedReconcile.

#[export] Hint Resolve traced_setCurrentState traced_setState traced_setDrained traced_setBootID
  traced_setUnschedulable traced_isRebootRequired traced_RebootNode traced_IsNodeRebooted : traced.

Section TracedMain.
Context {W : Type} `{Env W} `{Wait W} `{!WaitLaws W} `{ControllerUtil}.

Lemma traced_undrain r node k : traced (W := W) (undrain r node k).
Proof. unfold undrain, undrainUncordon, undrainFinish. traced_auto. Qed.

Lemma traced_drain r node k : traced (W := W) (drain r node k).
Proof. unfold drain, drainStart, drainRun, rescheduleController. traced_auto. Qed.

Lemma traced_reconcileWork r node k : traced (W := W) (reconcileWork r node k).
Proof.
  pose proof traced_drain. unfold reconcileWork, rebootGate, reconcileReboot, olderThan. traced_auto.
Qed.

Lemma traced_reconcileSpec r node k : traced (W := W) (reconcileSpec r node k).
Proof. unfold reconcileSpec. traced_auto. Qed.

Lemma traced_checkRebootRequired r node : traced (W := W) (checkRebootRequired r node).
Proof. unfold checkRebootRequired, olderThan. traced_auto. Qed.

Lemma traced_reconcileLive r node k : traced (W := W) (reconcileLive r node k).
Proof.
  pose proof traced_undrain. pose proof traced_reconcileWork. pose proof traced_reconcileSpec.
  pose proof traced_checkRebootRequired.
  unfold reconcileLive, reconcileQueued, isNextNode. traced_auto.
Qed.

Lemma traced_Reconcile r name : traced (W := W) (Reconcile r name).
Proof.
  pose proof traced_reconcileLive. unfold Reconcile, createNewNode, reconcileDeleted. traced_auto.
Qed.
End TracedMain.
