(* ===== verification/Protocol.v ===== *)
(** * The protocol of a reconciliation

    What one run of [Reconcile] may do to the cluster, request by request and
    in terms of what it has seen so far.  [permitted r h e] says that after the
    interactions [h] the interaction [e] is allowed; the main lemma,
    [Reconcile_protocol], shows that every run of [Reconcile] only performs
    permitted interactions, whatever the environment answers.  The properties at
    the end are its consequences for draining, rebooting, the status life cycle,
    cordoning and the queue.

    The assumptions on the environment are [WaitLaws] and [ApiEcho]: the object the
    client returns from a status patch carries the fields the patch changed as they
    were written, and those it left out as they were in the local object, which holds
    as long as this controller is the only writer of the status; the spec may
    meanwhile have been edited by a user. *)

From stdpp Require Import base gmap strings list.
From S2P Require Import Prelude NodeTypes Json Requests Effects Plugins Config Utils DrainManager.
From S2P Require Import RebootManager NodeController.

(** ** What has been seen *)

(** The last drain node object the client returned (get or patch). *)
Definition upd_node (o : option Node) (e : Ev) : option Node :=
  let '(mkEv q a) := e in
  match q return resp q -> option Node with
  | ClientGetNode _ | ClientPatchNode _ _ | ClientStatusPatchNode _ _ =>
      fun a => match a with inr n => Some n | inl _ => o end
  | _ => fun _ => o
  end a.

(** The last kube node object the client returned. *)
Definition upd_kube (o : option KubeNode) (e : Ev) : option KubeNode :=
  let '(mkEv q a) := e in
  match q return resp q -> option KubeNode with
  | ClientGetKubeNode _ | ClientPatchKubeNode _ _ =>
      fun a => match a with inr k => Some k | inl _ => o end
  | _ => fun _ => o
  end a.

(** The drain node as first read. *)
Definition upd_first (o : option Node) (e : Ev) : option Node :=
  let '(mkEv q a) := e in
  match q return resp q -> option Node with
  | ClientGetNode _ => fun a => match a with inr n => Some n | inl _ => o end
  | _ => fun _ => o
  end a.

Definition last_node (h : list Ev) : option Node := foldl upd_node None h.
Definition last_kube (h : list Ev) : option KubeNode := foldl upd_kube None h.
Definition first_node (h : list Ev) : option Node := foldl upd_first None h.

(** Requests the protocol leaves free: they change neither the two objects nor
    the workloads of a node. *)
Definition quiet (q : Req) : bool :=
  match q with
  | ClientGetKubeNode _ | ClientGetNode _ | ClientCreateNode _ | ClientUpdateNode _
  | ClientPatchNode _ _ | ClientStatusPatchNode _ _ | ClientPatchKubeNode _ _
  | PodsCreate _ _ | PodsDelete _ _ true | PodsDeleteCollection _ _ _ | RunNodeDrain _ _
  | PluginRpc _ (RpcPreDrain _) | PluginRpc _ (RpcPostDrain _) => false
  | _ => true
  end.

(** Requests whose answers are not one of the two objects. *)
Definition still (q : Req) : bool :=
  match q with
  | ClientGetKubeNode _ | ClientGetNode _
  | ClientPatchNode _ _ | ClientStatusPatchNode _ _ | ClientPatchKubeNode _ _ => false
  | _ => true
  end.

Definition quiet_ev (e : Ev) : Prop := quiet (ev_req e) = true.
Definition still_ev (e : Ev) : Prop := still (ev_req e) = true.

Lemma quiet_still e : quiet_ev e -> still_ev e.
Proof. destruct e as [q a]. unfold quiet_ev, still_ev. by destruct q. Qed.

Lemma still_seen h evs :
  Forall still_ev evs ->
  last_node (h ++ evs) = last_node h /\ last_kube (h ++ evs) = last_kube h /\
  first_node (h ++ evs) = first_node h.
Proof.
  intros Hs. unfold last_node, last_kube, first_node. rewrite !foldl_app.
  revert Hs. generalize (foldl upd_node None h), (foldl upd_kube None h), (foldl upd_first None h).
  induction evs as [|[q a] evs IH]; intros o1 o2 o3 Hs; [done|].
  apply Forall_cons in Hs as [Hq Hs]. simpl. destruct q; try discriminate Hq; by apply IH.
Qed.

Lemma snoc_node h e : last_node (h ++ [e]) = upd_node (last_node h) e.
Proof. unfold last_node. by rewrite foldl_app. Qed.
Lemma snoc_kube h e : last_kube (h ++ [e]) = upd_kube (last_kube h) e.
Proof. unfold last_kube. by rewrite foldl_app. Qed.
Lemma snoc_first h e : first_node (h ++ [e]) = upd_first (first_node h) e.
Proof. unfold first_node. by rewrite foldl_app. Qed.

(** The name a reconciliation was asked for, which its first request reads. *)
Definition req_name (h : list Ev) : option string :=
  match h with
  | e :: _ => match ev_req e with ClientGetKubeNode n => Some n | _ => None end
  | [] => None
  end.

Lemma req_name_app h evs n : req_name h = Some n -> req_name (h ++ evs) = Some n.
Proof. by destruct h. Qed.

(** A status patch that failed: the store may or may not have taken it. *)
Definition patch_failed (e : Ev) : bool :=
  let '(mkEv q a) := e in
  match q return resp q -> bool with
  | ClientStatusPatchNode _ _ => fun a => match a with inl _ => true | inr _ => false end
  | _ => fun _ => false
  end a.

(** No status patch failed, so the object at hand is no older than the last
    write. *)
Definition clean (h : list Ev) : Prop := Forall (fun e => patch_failed e = false) h.

Lemma still_clean evs : Forall still_ev evs -> clean evs.
Proof.
  intros Hs. eapply Forall_impl; [exact Hs|]. intros [q a]. unfold still_ev. by destruct q.
Qed.

Lemma clean_snoc h e : clean h -> patch_failed e = false -> clean (h ++ [e]).
Proof. intros Hh He. apply Forall_app_2; [done|by constructor]. Qed.

(** The view of the cluster a reconciliation works on: the object as first
    read, and the two objects as last returned by the client.  After a failed
    status patch there is none: the reconciliation gives up. *)
Record seen (h : list Ev) (f node : Node) (k : KubeNode) : Prop := mkSeen {
  seen_first : first_node h = Some f;
  seen_node : last_node h = Some node;
  seen_kube : last_kube h = Some k;
  seen_req : req_name h = Some (Name node);
  seen_fname : Name f = Name node;
  seen_kname : kn_Name k = Name node;
  seen_clean : clean h
}.

Lemma seen_still h f node k evs :
  seen h f node k -> Forall still_ev evs -> seen (h ++ evs) f node k.
Proof.
  intros [Hf Hn Hk Hr ? ? Hc] Hs. destruct (still_seen h evs Hs) as (En & Ek & Ef).
  apply (req_name_app h evs) in Hr. split; try congruence.
  apply Forall_app_2; [done|by apply still_clean].
Qed.

Definition deleting (n : Node) : bool :=
  match DeletionTimestamp n with Some t => negb (IsZero t) | None => false end.

(** ** Status writes *)

(** The node's reboot check may run: outside the work states, or for a
    requested reboot just before the drain and just before the reboot. *)
Definition may_check (node : Node) : Prop :=
  WorkState (ncurrent node) = false \/
  (nstate node = NodeStateRebootIfRequired /\
   (ncurrent node = NodeCurrentStateNext \/ ncurrent node = NodeCurrentStateDrained)).

(** The health gate in front of a drain. *)
Definition gate_passed (d : DrainManager) (n : string) (h : list Ev) : Prop :=
  nodes_ready_in h /\ healthy_in d h /\ drainok_in d n h.

(** What the spec asks, or asked at the last status write: the object returned
    by a write may carry an edit made since the decision was taken. *)
Definition wanted (P : NodeState -> Prop) (h : list Ev) (node : Node) : Prop :=
  P (nstate node) \/
  exists base n, mkEv (ClientStatusPatchNode base n) (inr node) ∈ h /\ P (nstate base).

(** The node is being emptied: its spec asks for it, it is not drained yet, and
    it is past the gate (in a work state other than Next and Undraining).  A
    reconciliation that found it in Next has passed the gate itself. *)
Definition emptying (r : nodeReconciler) (h : list Ev) (f node : Node) : Prop :=
  wanted (fun s => Drain s = true) h node /\ ndrained node = false /\ WorkState (ncurrent node) = true /\
  ncurrent node <> NodeCurrentStateNext /\ ncurrent node <> NodeCurrentStateUndraining /\
  (ncurrent f = NodeCurrentStateNext -> gate_passed (drainManager r) (Name node) h).

(** The node is drained and waits for its requested reboot. *)
Definition reboot_due (h : list Ev) (node : Node) : Prop :=
  wanted (fun s => s = NodeStateRebootIfRequired) h node /\
  ncurrent node = NodeCurrentStateDrained /\ ndrained node = true.

(** The status life cycle: what a status patch may change, given the view.
    [f] is the object the reconciliation started from. *)
Inductive status_step (r : nodeReconciler) (h : list Ev) (f base : Node) (k : KubeNode)
    : Node -> Prop :=
  | step_undrain :
      nstate base = NodeStateActive ->
      ncurrent base = NodeCurrentStateDrained \/ ncurrent base = NodeCurrentStateDraining \/
        ncurrent base = NodeCurrentStateRebooting ->
      status_step r h f base k (set_CurrentState base NodeCurrentStateUndraining)
  | step_reset :
      kn_Unschedulable k = false -> ndrained base = true ->
      (ncurrent base = NodeCurrentStateUndraining ->
         postdrain_done (drainManager r) (Name base) h) ->
      status_step r h f base k (set_Drained base false)
  | step_undrained :
      kn_Unschedulable k = false -> ndrained base = false ->
      ncurrent base = NodeCurrentStateUndraining ->
      postdrain_done (drainManager r) (Name base) h ->
      status_step r h f base k (set_CurrentState base NodeCurrentStateOk)
  | step_checked required now :
      may_check base ->
      status_step r h f base k
        (set_RebootRequiredLastChecked (set_RebootRequired base (Some required)) (Some now))
  | step_active :
      nstate base = NodeStateActive -> kn_Unschedulable k = false ->
      ncurrent base <> NodeCurrentStateUndraining ->
      (ncurrent base = NodeCurrentStateDrained \/ ncurrent base = NodeCurrentStateDraining \/
         ncurrent base = NodeCurrentStateRebooting -> nstate f <> NodeStateActive) ->
      status_step r h f base k (set_CurrentState base NodeCurrentStateOk)
  | step_cordon :
      nstate base = NodeStateCordoned -> kn_Unschedulable k = true ->
      ncurrent base <> NodeCurrentStateUndraining ->
      status_step r h f base k (set_CurrentState base NodeCurrentStateCordoned)
  | step_queue :
      Drain (nstate base) = true ->
      ncurrent base = NodeCurrentStateOk \/ ncurrent base = NodeCurrentStateCordoned ->
      status_step r h f base k (set_CurrentState base NodeCurrentStateQueued)
  | step_next items :
      nstate base <> NodeStateActive -> nstate base <> NodeStateCordoned ->
      ncurrent base = NodeCurrentStateQueued ->
      last h = Some (mkEv ClientListNodes (inr items)) ->
      Forall (fun n => WorkState (ncurrent n) = false) items ->
      status_step r h f base k (set_CurrentState base NodeCurrentStateNext)
  | step_draining :
      Drain (nstate base) = true -> ndrained base = false ->
      ncurrent base = NodeCurrentStateNext ->
      gate_passed (drainManager r) (Name base) h ->
      status_step r h f base k (set_CurrentState base NodeCurrentStateDraining)
  | step_drained :
      emptying r h f base -> kn_Unschedulable k = true -> Name base <> nodeName r ->
      last h = Some (mkEv (RunNodeDrain drainHelper (Name base)) None) ->
      status_step r h f base k (set_CurrentState (set_Drained base true) NodeCurrentStateDrained)
  | step_bootid :
      reboot_due h base -> BootID (Status base) <> kn_BootID k ->
      status_step r h f base k (set_BootID base (kn_BootID k))
  | step_rebooting :
      reboot_due h base -> BootID (Status base) = kn_BootID k ->
      status_step r h f base k (set_CurrentState base NodeCurrentStateRebooting)
  | step_rebooted now :
      nstate base = NodeStateRebootIfRequired ->
      ncurrent base = NodeCurrentStateRebooting ->
      (ContainerNode (rm_config (rebootManager r)) = false ->
         kn_BootID k <> BootID (Status base) /\ nodeReady (kn_Conditions k) = true) ->
      status_step r h f base k
        (set_RebootRequiredLastChecked
           (set_RebootRequired (set_BootID base EmptyString) (Some false)) (Some now)).

(** ** The other effects *)

(** Scheduling is taken away only from nodes to be cordoned or emptied, and
    given back only by a healthy undrain or to a node whose cordon is our own
    (or nobody's). *)
Definition kube_step (r : nodeReconciler) (h : list Ev) (f node : Node) (k k' : KubeNode) : Prop :=
  kn_Unschedulable k <> kn_Unschedulable k' /\ k' = set_Unschedulable k (kn_Unschedulable k') /\
  if kn_Unschedulable k' then
    (nstate node = NodeStateCordoned /\ ncurrent node <> NodeCurrentStateUndraining) \/ emptying r h f node
  else
    (ncurrent node = NodeCurrentStateUndraining /\ nodes_ready_in h) \/
    (nstate node = NodeStateActive /\ ncurrent node <> NodeCurrentStateUndraining /\
     (getManagerOfUnschedulable k = EmptyString \/
      getManagerOfUnschedulable k = GetFieldOwner (managerNamespace r))).

(** The command that tests for the marker file was refused or failed. *)
Definition test_failed (h : list Ev) : Prop :=
  exists ns pod opts e,
    mkEv (NewSPDYExecutor ns pod opts) (Some e) ∈ h \/ mkEv (StreamWithContext ns pod opts) (Some e) ∈ h.

(** The status of a node after a check with the result [required]. *)
Definition checked_status (node : Node) (required : bool) (now : Time) : Node :=
  set_RebootRequiredLastChecked (set_RebootRequired node (Some required)) (Some now).

(** The status of a node that is back from its reboot. *)
Definition rebooted_status (node : Node) (now : Time) : Node :=
  set_RebootRequiredLastChecked (set_RebootRequired (set_BootID node EmptyString) (Some false)) (Some now).

(** The last check is recent by a clock that was read. *)
Definition not_due (h : list Ev) (node : Node) : Prop :=
  exists t now, RebootRequiredLastChecked (Status node) = Some t /\ IsZero t = false /\
    mkEv Now now ∈ h /\ Before t (now - 2 * Minute)%Z = false.

(** No reboot is needed: the status says so, as written by a check of this run that
    found no marker file, or by one that is at most two minutes old by the clock. *)
Definition not_required (h : list Ev) (node : Node) : Prop :=
  RebootRequired (Status node) <> Some true /\
  ((test_failed h /\ exists base now,
      mkEv (ClientStatusPatchNode base (checked_status base false now)) (inr node) ∈ h) \/
   not_due h node).

(** The reboot has happened: this run has just recorded so, for a node in Rebooting
    whose kube node, on a real machine, has another boot id and is ready. *)
Definition has_rebooted (r : nodeReconciler) (h : list Ev) (k : KubeNode) (node : Node) : Prop :=
  exists base now, mkEv (ClientStatusPatchNode base (rebooted_status base now)) (inr node) ∈ h /\
    ncurrent base = NodeCurrentStateRebooting /\
    (ContainerNode (rm_config (rebootManager r)) = false ->
       kn_BootID k <> BootID (Status base) /\ nodeReady (kn_Conditions k) = true).

(** The spec is written by the controller only to finish a requested reboot:
    because it is not needed, or because it has happened. *)
Definition spec_step (r : nodeReconciler) (h : list Ev) (k : KubeNode) (node node' : Node) : Prop :=
  nstate node <> NodeStateActive /\ node' = set_State node NodeStateActive /\
  wanted (fun s => s = NodeStateRebootIfRequired) h node /\
  (((ncurrent node = NodeCurrentStateNext \/ ncurrent node = NodeCurrentStateDrained) /\
      not_required h node) \/
   (ncurrent node = NodeCurrentStateRebooting /\ BootID (Status node) = EmptyString /\
      has_rebooted r h k node)).

Definition pod_step (r : nodeReconciler) (h : list Ev) (node : Node) (k : KubeNode)
    (ns : string) (p : Pod) : Prop :=
  let rm := rebootManager r in
  ns = rm_namespace rm /\
  ((p = rebootRequiredPod rm (Name node) /\ may_check node) \/
   (p = rebootRequiredRemovePod rm (Name node) /\ ContainerNode (rm_config rm) = true /\
    nstate node = NodeStateRebootIfRequired /\ ncurrent node = NodeCurrentStateRebooting) \/
   (p = rebootNodePod rm (Name node) /\ ContainerNode (rm_config rm) = false /\
    reboot_due h node /\ BootID (Status node) = kn_BootID k /\
    exists k', mkEv (NodesGet (Name node)) (inr k') ∈ h /\ kn_Unschedulable k' = true)).

(** The field selector for the pods of a node. *)
Definition on_node (name : string) : string := ("spec.nodeName=" +:+ name)%string.

(** What may be asked on an existing object, given the view. *)
Definition allowed `{ControllerUtil} (r : nodeReconciler) (h : list Ev) (f node : Node)
    (k : KubeNode) (q : Req) : Prop :=
  match q with
  | ClientStatusPatchNode base n => base = node /\ status_step r h f node k n
  | ClientPatchNode base n => base = node /\ spec_step r h k node n
  | ClientPatchKubeNode base k' => base = k /\ kube_step r h f node k k'
  | ClientUpdateNode n =>
      node = f /\ ContainsFinalizer (Finalizers f) nodeDrainFinalizer = true /\
      n = set_Finalizers f (RemoveFinalizer (Finalizers f) nodeDrainFinalizer)
  | PodsCreate ns p => pod_step r h node k ns p
  | RunNodeDrain dh n =>
      dh = drainHelper /\ n = Name node /\ emptying r h f node /\ kn_Unschedulable k = true /\
      Name node <> nodeName r /\ predrain_done (drainManager r) (Name node) h
  | PodsDelete ns _ true =>
      ns = managerNamespace r /\ Name node = nodeName r /\ emptying r h f node /\
      kn_Unschedulable k = true
  | PodsDeleteCollection ns _ fields =>
      ns = rm_namespace (rebootManager r) /\ fields = on_node (Name node)
  | PluginRpc _ (RpcPreDrain n) =>
      n = Some (Name node) /\ emptying r h f node /\ kn_Unschedulable k = true /\
      Name node <> nodeName r
  | PluginRpc _ (RpcPostDrain n) =>
      n = Some (Name node) /\ ncurrent node = NodeCurrentStateUndraining /\
      kn_Unschedulable k = false
  | _ => False
  end.

(** A drain node is created only for a kube node that has none. *)
Definition create_step `{ControllerUtil} (h : list Ev) (n : Node) : Prop :=
  exists k e, req_name h = Some (kn_Name k) /\ last_kube h = Some k /\ last_node h = None /\
    mkEv (ClientGetNode (kn_Name k)) (inl e) ∈ h /\ IsNotFound e = true /\
    exists o, mkEv (SetOwnerReference k (mkNode (kn_Name k) None [] []
        (mkNodeSpec (if kn_Unschedulable k then NodeStateCordoned else NodeStateActive))
        zeroNodeStatus)) (inr o) ∈ h /\
      n = set_Finalizers o (AddFinalizer (Finalizers o) nodeDrainFinalizer).

Definition permitted `{ControllerUtil} (r : nodeReconciler) (h : list Ev) (e : Ev) : Prop :=
  match ev_req e with
  | ClientGetKubeNode _ => h = []
  | ClientGetNode n => exists k, h = [mkEv (ClientGetKubeNode n) (inr k)]
  | ClientCreateNode n => create_step h n
  | q =>
      if quiet q then True
      else exists f node k, seen h f node k /\
        deleting f = match q with ClientUpdateNode _ => true | _ => false end /\
        allowed r h f node k q
  end.

(** ** What the client promises *)

(** The status fields the controller's decisions rest on. *)
Definition same_status (n n' : Node) : Prop :=
  Name n = Name n' /\ ncurrent n = ncurrent n' /\ ndrained n = ndrained n' /\
  BootID (Status n) = BootID (Status n').

(** The API client.  Reads return the object asked for.  A patch is a merge patch: it
    sends the fields in which the object differs from its base, and the client returns
    the object as stored, so those come back as sent ([status_patch_echo]).  The status
    fields left out come back as the controller has read them ([status_patch_rest]):
    the status is its own, written by one reconciliation at a time, and the base was
    current.  Nothing is said of the spec returned by a status patch: users edit it
    concurrently. *)
Class ApiEcho (W : Type) `{Env W} : Prop := {
  get_kube_echo name w k w' :
    handle (ClientGetKubeNode name) w = (inr k, w') -> kn_Name k = name;
  get_node_echo name w n w' :
    handle (ClientGetNode name) w = (inr n, w') -> Name n = name;
  status_patch_echo base n w n' w' :
    handle (ClientStatusPatchNode base n) w = (inr n', w') ->
    Name n' = Name n /\
    (ncurrent n <> ncurrent base -> ncurrent n' = ncurrent n) /\
    (ndrained n <> ndrained base -> ndrained n' = ndrained n) /\
    (BootID (Status n) <> BootID (Status base) -> BootID (Status n') = BootID (Status n)) /\
    (RebootRequired (Status n) <> RebootRequired (Status base) ->
       RebootRequired (Status n') = RebootRequired (Status n));
  status_patch_rest base n w n' w' :
    handle (ClientStatusPatchNode base n) w = (inr n', w') ->
    (ncurrent n = ncurrent base -> ncurrent n' = ncurrent base) /\
    (ndrained n = ndrained base -> ndrained n' = ndrained base) /\
    (BootID (Status n) = BootID (Status base) -> BootID (Status n') = BootID (Status base)) /\
    (RebootRequired (Status n) = RebootRequired (Status base) ->
       RebootRequired (Status n') = RebootRequired (Status base));
  kube_patch_echo base k w k' w' :
    handle (ClientPatchKubeNode base k) w = (inr k', w') ->
    kn_Name k' = kn_Name k /\ kn_Unschedulable k' = kn_Unschedulable k
}.

(** Together: the status comes back as the controller wrote it. *)
Lemma status_patch_same {W} `{ApiEcho W} base n (w : W) n' w' :
  handle (ClientStatusPatchNode base n) w = (inr n', w') ->
  same_status n' n /\ RebootRequired (Status n') = RebootRequired (Status n).
Proof.
  intros E. destruct (status_patch_echo _ _ _ _ _ E) as (Hn & Hc & Hd & Hb & Hr).
  destruct (status_patch_rest _ _ _ _ _ E) as (Hc' & Hd' & Hb' & Hr').
  unfold same_status. split_and!; [done| | | |].
  - destruct (decide (ncurrent n = ncurrent base)) as [E1|E1]; [rewrite E1|]; auto.
  - destruct (decide (ndrained n = ndrained base)) as [E1|E1]; [rewrite E1|]; auto.
  - destruct (decide (BootID (Status n) = BootID (Status base))) as [E1|E1]; [rewrite E1|]; auto.
  - destruct (decide (RebootRequired (Status n) = RebootRequired (Status base))) as [E1|E1];
      [rewrite E1|]; auto.
Qed.

(** ** Quiet computations *)

Section Quiet.
Context {W : Type} `{Env W} `{Wait W} `{!WaitLaws W} `{ControllerUtil}.

Lemma permitted_quiet r h e : quiet_ev e -> permitted r h e.
Proof.
  destruct e as [q a]. unfold quiet_ev, permitted. cbn [ev_req]. intros Hq.
  destruct q; try discriminate Hq; by rewrite Hq.
Qed.

Lemma triple_quiet {A} r h f node k (m : M W A) Q :
  seen h f node k -> emits quiet_ev m ->
  (forall w evs a w', m w = (evs, w', inr a) -> seen (h ++ evs) f node k -> Q a (h ++ evs)) ->
  triple (permitted r) h m Q.
Proof.
  intros Hs Hm HQ. eapply triple_emits; [done|by intros; apply permitted_quiet|].
  intros w evs a w' E Hevs. eapply HQ; [done|]. apply seen_still; [done|].
  eapply Forall_impl; [done|]. apply quiet_still.
Qed.

Lemma quiet_range_map {V} (m : gmap string V) : emits (W := W) quiet_ev (range_map m).
Proof. unfold range_map. emits_auto. Qed.

Lemma quiet_poll_plugins (ask : string -> M W bool) neg l acc :
  (forall c, emits quiet_ev (ask c)) -> emits quiet_ev (poll_plugins ask neg acc l).
Proof.
  intros Hask. revert acc. induction l as [|[id c] l IH]; intros acc; simpl; [apply emits_ret|].
  apply emits_bind; [|done]. unfold poll_plugin. simpl. unfold Client_IsSupported.
  emits_auto.
Qed.

Lemma quiet_cluster_healthy : emits (W := W) quiet_ev IsClusterNodesHealthy.
Proof. unfold IsClusterNodesHealthy. emits_auto. Qed.

Lemma quiet_IsHealthy d node : emits (W := W) quiet_ev (DM_IsHealthy d node).
Proof.
  unfold DM_IsHealthy. pose proof (@quiet_range_map). pose proof quiet_cluster_healthy.
  unfold poll_verdict. emits_auto; eauto.
  apply quiet_poll_plugins. intros c. simpl. unfold Client_IsHealthy. emits_auto.
Qed.

Lemma quiet_IsDrainOk d node : emits (W := W) quiet_ev (DM_IsDrainOk d node).
Proof.
  unfold DM_IsDrainOk. pose proof (@quiet_range_map). unfold poll_verdict. emits_auto; eauto.
  apply quiet_poll_plugins. intros c'. simpl. unfold Client_IsDrainOk. emits_auto.
Qed.

Lemma quiet_olderThan t d : emits (W := W) quiet_ev (olderThan t d).
Proof. unfold olderThan. emits_auto. Qed.
End Quiet.

#[export] Hint Resolve quiet_range_map quiet_cluster_healthy quiet_IsHealthy quiet_IsDrainOk
  quiet_olderThan : emits.

(** ** Monotonicity in the history *)

Lemma wanted_mono P h evs node : wanted P h node -> wanted P (h ++ evs) node.
Proof. intros [?|(b & n & ? & ?)]; [by left|]. right. exists b, n. set_solver. Qed.

Lemma reboot_due_mono h evs node : reboot_due h node -> reboot_due (h ++ evs) node.
Proof. intros (? & ?). split; [by apply wanted_mono|done]. Qed.

Lemma test_failed_app h evs : test_failed h \/ test_failed evs -> test_failed (h ++ evs).
Proof. intros [(ns & p & o & e & He)|(ns & p & o & e & He)]; exists ns, p, o, e; set_solver. Qed.

Lemma test_failed_mono h evs : test_failed h -> test_failed (h ++ evs).
Proof. intros. apply test_failed_app. by left. Qed.

Lemma each_supported_app yes h evs l :
  each_supported yes h l \/ each_supported yes evs l -> each_supported yes (h ++ evs) l.
Proof. intros [?|?]; (eapply each_supported_mono; [|eassumption]); set_solver. Qed.

Lemma nodes_ready_in_app h evs :
  nodes_ready_in h \/ nodes_ready_in evs -> nodes_ready_in (h ++ evs).
Proof. intros [(l & ? & ?)|(l & ? & ?)]; exists l; set_solver. Qed.

Lemma gate_passed_mono d n h evs : gate_passed d n h -> gate_passed d n (h ++ evs).
Proof.
  intros (? & ? & ?). split_and!;
    [apply nodes_ready_in_app|apply each_supported_app|apply each_supported_app]; by left.
Qed.

Lemma emptying_mono r h evs f node : emptying r h f node -> emptying r (h ++ evs) f node.
Proof.
  intros (? & ? & ? & ? & ? & ?). split_and!; auto using wanted_mono, gate_passed_mono.
Qed.

(** The states [undrain] leaves to the rest of the function. *)
Definition after_undrain (f node : Node) : Prop :=
  ncurrent node <> NodeCurrentStateUndraining /\
  (ncurrent node = NodeCurrentStateDrained \/ ncurrent node = NodeCurrentStateDraining \/
     ncurrent node = NodeCurrentStateRebooting -> nstate f <> NodeStateActive) /\
  (ncurrent f = NodeCurrentStateNext -> ncurrent node = NodeCurrentStateNext).

(** ** Single writes *)

Section Writes.
Context {W : Type} `{Env W} `{Wait W} `{!WaitLaws W} `{!ApiEcho W} `{ControllerUtil}.
Context (r : nodeReconciler) (f : Node) (Hlive : deleting f = false).
Implicit Types (node : Node) (k : KubeNode) (h : list Ev).

#[warnings="-closed-notation-not-level-0"]
Local Notation "{{ h }} m {{ Q }}" := (triple (W := W) (permitted r) h m Q)
  (at level 20, m at level 100, Q at level 200, format "{{  h  }}  m  {{  Q  }}").

Lemma permitted_allowed h node k q a :
  seen h f node k -> match q with ClientUpdateNode _ => False | _ => True end ->
  allowed r h f node k q -> permitted r h (mkEv q a).
Proof.
  intros Hs Hu Ha. unfold permitted. cbn [ev_req].
  destruct q; try done; destruct (quiet _); try done; exists f, node, k; auto.
Qed.

Lemma triple_status p h node k n :
  seen h f node k -> Name n = Name node -> status_step r h f node k n ->
  {{ h }} (res ← call (ClientStatusPatchNode node n); wrap p (lift res))
  {{ fun n' h' => h' = h ++ [mkEv (ClientStatusPatchNode node n) (inr n')] /\
       seen h' f n' k /\ same_status n' n /\ RebootRequired (Status n') = RebootRequired (Status n) }}.
Proof.
  intros Hs Hn Hst. eapply triple_bind.
  - apply (triple_call _ _ (ClientStatusPatchNode node n)
      (fun a h' => h' = h ++ [mkEv (ClientStatusPatchNode node n) a] /\
        forall n', a = inr n' -> same_status n' n /\ RebootRequired (Status n') = RebootRequired (Status n))).
    intros w a w' E. split_and!; [|done|].
    + by eapply permitted_allowed.
    + intros n' ->. by eapply status_patch_same.
  - intros a h' [-> Ha]. triple_step. triple_step. destruct (Ha _ eq_refl) as [Hss Hrr].
    split_and!; [done| |done|done].
    destruct Hs as [Hf Hnd Hk Hr Hfn Hkn Hcl]. destruct Hss as (Hn' & _).
    split; rewrite ?snoc_first, ?snoc_node, ?snoc_kube, ?(req_name_app _ _ _ Hr); simpl;
      try congruence. by apply clean_snoc.
Qed.

Lemma triple_status_bind {B} p h node k n (K : Node -> M W B) Q :
  seen h f node k -> Name n = Name node -> status_step r h f node k n ->
  (forall n' h', h' = h ++ [mkEv (ClientStatusPatchNode node n) (inr n')] ->
     seen h' f n' k -> same_status n' n -> RebootRequired (Status n') = RebootRequired (Status n) ->
     {{ h' }} K n' {{ Q }}) ->
  {{ h }} (res ← call (ClientStatusPatchNode node n); n' ← wrap p (lift res); K n') {{ Q }}.
Proof.
  intros Hs Hn Hst HK. rewrite <- bind_assoc.
  eapply triple_bind; [by apply triple_status|]. naive_solver.
Qed.

Lemma triple_setCurrentState h node k s :
  seen h f node k ->
  (ncurrent node <> s -> status_step r h f node k (set_CurrentState node s)) ->
  {{ h }} setCurrentState node s
  {{ fun n' h' => seen h' f n' k /\ same_status n' (set_CurrentState node s) /\
       (n' = node /\ h' = h \/
        h' = h ++ [mkEv (ClientStatusPatchNode node (set_CurrentState node s)) (inr n')]) }}.
Proof.
  intros Hs Hst. unfold setCurrentState.
  destruct (String.eqb_spec (ncurrent node) s) as [<-|Hne].
  - apply triple_ret. repeat split; auto; apply Hs.
  - cbv zeta. eapply triple_mono; [by apply triple_status; auto|]. naive_solver.
Qed.

Lemma triple_setDrained h node k :
  seen h f node k -> status_step r h f node k (set_Drained node false) ->
  {{ h }} setDrained node false
  {{ fun n' h' => seen h' f n' k /\ same_status n' (set_Drained node false) /\
       h' = h ++ [mkEv (ClientStatusPatchNode node (set_Drained node false)) (inr n')] }}.
Proof.
  intros Hs Hst. unfold setDrained. cbv zeta.
  eapply triple_mono; [by apply triple_status|]. naive_solver.
Qed.

Lemma triple_setState h node k :
  seen h f node k ->
  (nstate node <> NodeStateActive -> spec_step r h k node (set_State node NodeStateActive)) ->
  {{ h }} setState node NodeStateActive {{ fun _ _ => True }}.
Proof.
  intros Hs Hst. unfold setState.
  destruct (String.eqb_spec (nstate node) NodeStateActive) as [|Hne]; [by apply triple_ret|].
  cbv zeta. eapply triple_bind; [|by intros; do 2 triple_step].
  apply (triple_call _ _ (ClientPatchNode _ _) (fun _ _ => True)).
  intros w a w' _. split; [|done]. eapply permitted_allowed; [done..|]. simpl. auto.
Qed.

Lemma triple_setUnschedulable h node k b :
  seen h f node k ->
  (kn_Unschedulable k <> b -> kube_step r h f node k (set_Unschedulable k b)) ->
  {{ h }} setUnschedulable k b
  {{ fun k' h' => seen h' f node k' /\ kn_Unschedulable k' = b /\ exists evs, h' = h ++ evs }}.
Proof.
  intros Hs Hst. unfold setUnschedulable.
  destruct (Bool.eqb_spec (kn_Unschedulable k) b) as [|Hne]; simpl.
  { apply triple_ret. split_and!; auto. exists []. by rewrite app_nil_r. }
  eapply triple_bind.
  - apply (triple_call _ _ (ClientPatchKubeNode k _)
      (fun a h' => h' = h ++ [mkEv (ClientPatchKubeNode k (set_Unschedulable k b)) a] /\
        forall k', a = inr k' -> kn_Name k' = kn_Name k /\ kn_Unschedulable k' = b)).
    intros w a w' E. split_and!; [|done|].
    + eapply permitted_allowed; [done..|]. simpl. auto.
    + intros k' ->. by apply kube_patch_echo in E.
  - intros a h' [-> Ha]. do 2 triple_step. destruct (Ha _ eq_refl) as [Hn Hu].
    destruct Hs as [Hf Hnd Hk Hr Hfn Hkn Hcl]. split_and!; [|done|eauto].
    split; rewrite ?snoc_first, ?snoc_node, ?snoc_kube, ?(req_name_app _ _ _ Hr); simpl;
      try congruence. by apply clean_snoc.
Qed.

(** ** Hooks *)

(** The interactions of a hook loop: quiet ones and calls of one hook. *)
Definition hook_ev (m : Rpc) (e : Ev) : Prop :=
  quiet_ev e \/ exists c, ev_req e = PluginRpc c m.

Lemma hook_still m e : hook_ev m e -> still_ev e.
Proof.
  intros [?|[c Hc]]; [by apply quiet_still|]. unfold still_ev. by rewrite Hc.
Qed.

Lemma emits_run_hooks (hook : string -> string -> M W unit) m what n l :
  (forall c, emits (hook_ev m) (hook c n)) -> emits (hook_ev m) (run_hooks hook what n l).
Proof.
  intros Hh. induction l as [|[id c] l IH]; simpl; [apply emits_ret|].
  unfold Client_IsSupported. emits_auto; by left.
Qed.

Lemma emits_RunPreDrain d node :
  emits (W := W) (hook_ev (RpcPreDrain (Some (Name node)))) (RunPreDrain d node).
Proof.
  unfold RunPreDrain, range_map. emits_auto; [by left| |by left].
  apply emits_run_hooks. intros c. simpl. unfold Client_PreDrain. emits_auto. right. by exists c.
Qed.

Lemma emits_RunPostDrain d node :
  emits (W := W) (hook_ev (RpcPostDrain (Some (Name node)))) (RunPostDrain d node).
Proof.
  unfold RunPostDrain, range_map. emits_auto; [by left| |by left].
  apply emits_run_hooks. intros c. simpl. unfold Client_PostDrain. emits_auto. right. by exists c.
Qed.

Lemma triple_hooks m h node k (c : M W unit) (Q : list Ev -> Prop) :
  seen h f node k -> emits (hook_ev m) c ->
  (forall h' p a, seen h' f node k -> (exists evs, h' = h ++ evs) -> permitted r h' (mkEv (PluginRpc p m) a)) ->
  (forall w evs w', c w = (evs, w', inr tt) -> Q evs) ->
  {{ h }} c {{ fun _ h' => exists evs, h' = h ++ evs /\ seen h' f node k /\ Q evs }}.
Proof.
  intros Hs Hm Hp HQ. apply (triple_emits _ (hook_ev m)); [done| |].
  - intros evs e Hevs [Hq|[p Hq]]; [by apply permitted_quiet|].
    destruct e as [q a]. simpl in Hq. subst q. apply Hp; [|eauto].
    apply seen_still; [done|]. eapply Forall_impl; [done|]. apply hook_still.
  - intros w evs [] w' E Hevs. exists evs. split_and!; [done| |eauto].
    apply seen_still; [done|]. eapply Forall_impl; [done|]. apply hook_still.
Qed.

(** ** Cleaning up *)

(** The interactions of a cleanup: quiet ones and the deletion of the node's pods. *)
Definition cleanup_ev (name : string) (e : Ev) : Prop :=
  quiet_ev e \/ exists labels,
    ev_req e = PodsDeleteCollection (rm_namespace (rebootManager r)) labels (on_node name).

Lemma cleanup_still name e : cleanup_ev name e -> still_ev e.
Proof.
  intros [?|[l Hl]]; [by apply quiet_still|]. unfold still_ev. by rewrite Hl.
Qed.

Lemma emits_CleanupNode name :
  emits (W := W) (cleanup_ev name) (CleanupNode (rebootManager r) name).
Proof. unfold CleanupNode. emits_auto; by first [left; reflexivity | right; eexists]. Qed.

Lemma triple_cleanup {A} h node k (c : M W A) (Q : A -> list Ev -> Prop) :
  seen h f node k -> emits (cleanup_ev (Name node)) c ->
  (forall w evs a w', c w = (evs, w', inr a) -> seen (h ++ evs) f node k -> Q a (h ++ evs)) ->
  {{ h }} c {{ Q }}.
Proof.
  intros Hs Hm HQ.
  assert (Hseen : forall evs, Forall (cleanup_ev (Name node)) evs -> seen (h ++ evs) f node k)
    by (intros evs Hevs; apply seen_still; [done|]; eapply Forall_impl; [done|]; apply cleanup_still).
  apply (triple_emits _ (cleanup_ev (Name node))); [done| |eauto].
  intros evs e Hevs [Hq|[l Hq]]; [by apply permitted_quiet|].
  destruct e as [q a]. simpl in Hq. subst q. eapply permitted_allowed; [by apply Hseen|done|done].
Qed.

(** ** Undraining *)

Lemma triple_undrainUncordon h node k :
  seen h f node k -> ncurrent node = NodeCurrentStateUndraining ->
  {{ h }} undrainUncordon k
  {{ fun o h' => forall k', o = Some k' -> seen h' f node k' /\ kn_Unschedulable k' = false }}.
Proof.
  intros Hs Hc. unfold undrainUncordon. destruct (kn_Unschedulable k) eqn:Hu;
    [|apply triple_ret; naive_solver].
  eapply triple_bind.
  - apply (triple_quiet r h f node k _ (fun a h' => seen h' f node k /\
      (a = inr true -> nodes_ready_in h'))); [done|by emits_auto|].
    intros w evs a w' E Hs'. split; [done|]. intros ->. inv_ok.
    apply nodes_ready_in_app. right. by eapply IsClusterNodesHealthy_yes.
  - intros [e|[]] h' [Hs' Hr]; try by apply triple_ret.
    eapply triple_bind; [apply (triple_attempt _ _ _ (fun a h'' => forall k', a = inr k' ->
      seen h'' f node k' /\ kn_Unschedulable k' = false)); [|done]|].
    + eapply triple_mono; [apply (triple_setUnschedulable _ node)|naive_solver]; [done|].
      intros _. unfold kube_step. simpl. rewrite Hu. split_and!; [done|done|]. auto.
    + intros [e|k'] h'' Hk; apply triple_ret; naive_solver.
Qed.

Lemma triple_undrainFinish h node k :
  seen h f node k -> ncurrent node = NodeCurrentStateUndraining -> kn_Unschedulable k = false ->
  {{ h }} undrainFinish r node k
  {{ fun '(ok, _, node', k') h' => ok = true ->
       seen h' f node' k' /\ ncurrent node' = NodeCurrentStateOk /\ ndrained node' = false }}.
Proof.
  intros Hs Hc Hu. unfold undrainFinish. eapply triple_bind.
  { apply (triple_attempt _ _ _ (fun a h' => a = inr tt -> seen h' f node k /\
      postdrain_done (drainManager r) (Name node) h')); [|done].
    eapply triple_mono; [apply (triple_hooks _ h node k _
      (fun evs => postdrain_done (drainManager r) (Name node) evs) Hs (emits_RunPostDrain _ _))|].
    - intros h' p a Hs' _. eapply permitted_allowed; [done..|]. simpl. auto.
    - intros w evs w'. apply RunPostDrain_done.
    - intros [] h' (evs & -> & Hs' & Hp) _. split; [done|]. apply each_supported_app. auto. }
  intros [e|[]] h' Hp; [by apply triple_ret|]. destruct (Hp eq_refl) as [Hs' Hpd].
  eapply (triple_bind _ _ _ _ (fun a h' => forall n', a = inr n' -> seen h' f n' k /\
    same_status n' (set_Drained node false) /\ postdrain_done (drainManager r) (Name n') h')).
  { destruct (ndrained node) eqn:Hd.
    - apply triple_attempt; [|done].
      eapply triple_mono; [by apply triple_setDrained; [done|apply step_reset]|].
      intros n' h'' (Hs'' & Hst & ->) n'' [= <-]. split_and!; [done..|].
      destruct Hst as (-> & _). apply each_supported_app. by left.
    - apply triple_ret. intros n' [= <-]. split_and!; [done| |done]. by split_and!. }
  intros [e|n'] h'' Hn; [by apply triple_ret|]. destruct (Hn _ eq_refl) as (Hs2 & Hst & Hpd2).
  destruct Hst as (Hnn & Hcc & Hdd & _).
  eapply triple_bind; [apply triple_setCurrentState; [done|]|].
  { intros _. apply step_undrained; [done|done|by rewrite Hcc|done]. }
  intros n2 h3 (Hs3 & (_ & Hc3 & Hd3 & _) & _).
  eapply triple_bind; [apply (triple_quiet r h3 f n2 k _ (fun _ h' => seen h' f n2 k)); [done|by emits_auto|done]|].
  intros ? h4 Hs4. apply triple_ret. intros _. split_and!; [done|done|]. by rewrite Hd3.
Qed.

Lemma triple_undrain h k :
  seen h f f k ->
  {{ h }} undrain r f k
  {{ fun '(ok, _, node', k') h' => ok = true -> seen h' f node' k' /\ after_undrain f node' }}.
Proof.
  intros Hs. unfold undrain.
  destruct (String.eqb_spec (ncurrent f) NodeCurrentStateUndraining) as [Hc|Hc].
  { eapply triple_bind; [by apply triple_undrainUncordon|].
    intros [k'|] h' Hk; [|by apply triple_ret]. destruct (Hk _ eq_refl) as [Hs' Hu].
    eapply triple_mono; [by apply triple_undrainFinish|].
    intros [[[ok res] n'] k2] h2 Hok ->. destruct (Hok eq_refl) as (? & Hc' & _).
    split; [done|]. unfold after_undrain. rewrite Hc'. split_and!; [done|by intros [|[|]]|].
    intros Hx. by rewrite Hx in Hc. }
  destruct (String.eqb_spec (ncurrent f) NodeCurrentStateDrained),
    (String.eqb_spec (ncurrent f) NodeCurrentStateDraining),
    (String.eqb_spec (ncurrent f) NodeCurrentStateRebooting); simpl;
    try (apply triple_ret; intros _; split; [done|]; split_and!; [done|naive_solver|done]).
  all: destruct (String.eqb_spec (nstate f) NodeStateActive) as [Ha|Ha];
    [eapply triple_bind;
       [apply triple_setCurrentState; [done|intros _; apply step_undrain; auto]|];
     intros n' h' _; by apply triple_ret|].
  all: destruct (_ || _ || _); [|apply triple_raise].
  all: apply triple_ret; intros _; split; [done|]; by split_and!.
Qed.

(** ** Reboot checks *)

(** The interactions of a check: quiet ones and the creation of the test pod. *)
Definition check_ev (node : Node) (e : Ev) : Prop :=
  quiet_ev e \/ ev_req e = PodsCreate (rm_namespace (rebootManager r))
                  (rebootRequiredPod (rebootManager r) (Name node)).

Lemma emits_IsRebootRequired node :
  emits (W := W) (check_ev node) (RM_IsRebootRequired (rebootManager r) (Name node)).
Proof.
  unfold RM_IsRebootRequired, GetNode, rebootRequiredBody, ExecCmd, IsPodRunning.
  emits_auto; by first [left; reflexivity | right].
Qed.

Lemma ExecCmd_failed ns name cmd i (w : W) evs w' e :
  ExecCmd ns name cmd i w = (evs, w', inl e) -> test_failed evs.
Proof.
  unfold ExecCmd, test_failed, mbind, M_bind, call. cbv zeta. intros E.
  destruct (handle (NewSPDYExecutor _ _ _) w) as [[e1|] w1]; simpl in E.
  - injection E as <- _ _. do 4 eexists. left. apply list_elem_of_here.
  - destruct (handle (StreamWithContext _ _ _) w1) as [[e2|] w2]; simpl in E; [|done].
    injection E as <- _ _. do 4 eexists. right. apply list_elem_of_further, list_elem_of_here.
Qed.

(** A check that says no has run the test and seen it fail. *)
Lemma IsRebootRequired_no rm name (w : W) evs w' :
  RM_IsRebootRequired rm name w = (evs, w', inr false) -> test_failed evs.
Proof.
  unfold RM_IsRebootRequired, rebootRequiredBody. intros E. inv_cases; simplify_eq.
  match goal with E : ExecCmd _ _ _ _ _ = (_, _, ?x) |- _ => destruct x; [apply ExecCmd_failed in E|done] end.
  do 3 (apply test_failed_app; right). apply test_failed_app. left.
  do 2 (apply test_failed_app; right). by apply test_failed_app; left.
Qed.

Lemma triple_isRebootRequired h node k :
  seen h f node k -> may_check node ->
  {{ h }} isRebootRequired r node
  {{ fun '(required, n') h' => seen h' f n' k /\ same_status n' node /\
       RebootRequired (Status n') = Some required /\ (required = false -> test_failed h') /\
       exists now, mkEv (ClientStatusPatchNode node (checked_status node required now)) (inr n') ∈ h' }}.
Proof.
  intros Hs Hc. unfold isRebootRequired. eapply triple_bind.
  { apply triple_wrap.
    apply (triple_emits _ (check_ev node) _ _ (fun b h' => seen h' f node k /\ (b = false -> test_failed h')));
      [apply emits_IsRebootRequired| |].
    - intros evs e Hevs [Hq|Hq]; [by apply permitted_quiet|].
      destruct e as [q a]. simpl in Hq. subst q. eapply permitted_allowed; [|done|].
      + apply seen_still; [done|]. eapply Forall_impl; [done|].
        intros e [?|He]; [by apply quiet_still|]. unfold still_ev. by rewrite He.
      + simpl. split; [done|]. by left.
    - intros w evs a w' E Hevs. split.
      + apply seen_still; [done|]. eapply Forall_impl; [done|].
        intros e [?|He]; [by apply quiet_still|]. unfold still_ev. by rewrite He.
      + intros ->. apply test_failed_app. right. by eapply IsRebootRequired_no. }
  intros required h1 [Hs1 Ht1]. cbv zeta.
  eapply triple_bind; [apply (triple_quiet r h1 f node k _ (fun _ h' => seen h' f node k /\
    (required = false -> test_failed h')));
    [done|by emits_auto|intros; split; [done|auto using test_failed_mono]]|].
  intros now h2 [Hs2 Ht2]. apply (triple_status_bind _ _ _ k); [done|done|by apply step_checked|].
  intros n' h3 Hh3 Hs3 Hst Hrr.
  eapply triple_bind; [apply (triple_quiet r h3 f n' k _ (fun _ h' => seen h' f n' k /\
    exists evs, h' = h3 ++ evs)); [done|by emits_auto|eauto]|].
  intros ? h4 [Hs4 [evs ->]]. apply triple_ret. split_and!; [done..|by subst h3; auto using test_failed_mono|].
  subst h3. exists now. apply elem_of_app. left. apply elem_of_app. right. by apply list_elem_of_singleton.
Qed.

Lemma triple_checkRebootRequired h node k :
  seen h f node k ->
  {{ h }} checkRebootRequired r node
  {{ fun n' h' => seen h' f n' k /\ same_status n' node }}.
Proof.
  intros Hs. unfold checkRebootRequired.
  destruct (WorkState (ncurrent node)) eqn:Hw; [by apply triple_ret|]. cbv zeta.
  eapply triple_bind; [apply (triple_quiet r h f node k _ (fun _ h' => seen h' f node k));
    [done|by emits_auto|done]|].
  intros due h1 Hs1. destruct due; [|by apply triple_ret].
  eapply triple_bind; [apply triple_isRebootRequired; [done|by left]|].
  intros [required n'] h2 (? & ? & _). by apply triple_ret.
Qed.

(** ** The spec *)

Lemma triple_reconcileSpec h node k :
  seen h f node k -> after_undrain f node ->
  {{ h }} reconcileSpec r node k
  {{ fun s h' => match s with
       | inl _ => True
       | inr (n', k') => seen h' f n' k' /\ ncurrent n' <> NodeCurrentStateUndraining /\
           (ncurrent n' = NodeCurrentStateQueued ->
              nstate n' <> NodeStateActive /\ nstate n' <> NodeStateCordoned) /\
           (WorkState (ncurrent n') = true -> ncurrent f = NodeCurrentStateNext ->
              ncurrent n' = NodeCurrentStateNext)
       end }}.
Proof.
  intros Hs (Hc & Hact & Hnx). unfold reconcileSpec.
  destruct (String.eqb_spec (nstate node) NodeStateActive) as [Ha|Ha].
  { cbv zeta. destruct (_ && _) eqn:Hm.
    { eapply triple_bind; [apply (triple_quiet r h f node k _ (fun _ _ => True)); [done|by emits_auto|done]|].
      intros. by apply triple_ret. }
    eapply triple_bind; [apply (triple_setUnschedulable _ node); [done|]|].
    { intros Hu. unfold kube_step. simpl. split_and!; [done..|]. right. split_and!; [done..|].
      apply andb_false_iff in Hm as [Hm|Hm]; boolify; auto. }
    intros k' h1 (Hs1 & Hk & _).
    eapply triple_bind; [by apply triple_setCurrentState; [done|intros _; apply step_active]|].
    intros n' h2 (Hs2 & (_ & Hc2 & _) & _).
    eapply triple_bind; [apply (triple_cleanup h2 n' k' _ (fun _ h' => seen h' f n' k'));
      [done|by apply emits_attempt, emits_CleanupNode|done]|].
    intros ? h3 Hs3. apply triple_ret. rewrite Hc2. simpl. split_and!; done. }
  destruct (String.eqb_spec (nstate node) NodeStateCordoned) as [Hco|Hco].
  { eapply triple_bind; [apply (triple_setUnschedulable _ node); [done|]|].
    { intros Hu. unfold kube_step. simpl. split_and!; [done..|]. by left. }
    intros k' h1 (Hs1 & Hk & _).
    eapply triple_bind; [by apply triple_setCurrentState; [done|intros _; apply step_cordon]|].
    intros n' h2 (Hs2 & (_ & Hc2 & _) & _). apply triple_ret. rewrite Hc2. by split_and!. }
  destruct (_ || _) eqn:Hd; [|by apply triple_ret; split_and!; auto].
  destruct (negb _ && negb _) eqn:Hq; [|by apply triple_ret; split_and!; auto]. boolify.
  eapply triple_bind; [apply triple_setCurrentState; [done|]|by intros; apply triple_ret].
  intros _. apply step_queue; [unfold Drain; by rewrite Hd|].
  match goal with Hw : WorkState _ = false |- _ => apply WorkState_false_iff in Hw end. tauto.
Qed.

(** ** Draining *)

Lemma olderThan_no h node (w : W) evs w' :
  olderThan (RebootRequiredLastChecked (Status node)) (2 * Minute) w = (evs, w', inr false) ->
  not_due (h ++ evs) node.
Proof.
  unfold olderThan, not_due. intros E.
  destruct (RebootRequiredLastChecked (Status node)) as [t|]; [|discriminate E].
  destruct (IsZero t) eqn:Hz; [discriminate E|]. inv_ok. exists t. eexists. split_and!; [done..| |done].
  apply elem_of_app. right. apply list_elem_of_here.
Qed.

Lemma triple_rebootGate h node k :
  seen h f node k ->
  {{ h }} rebootGate r node
  {{ fun g h' => forall n', g = inr n' -> seen h' f n' k /\ same_status n' node }}.
Proof.
  intros Hs. unfold rebootGate.
  destruct (_ && _) eqn:Hg; [|by apply triple_ret; intros n' [= <-]]. boolify.
  rewrite orb_true_iff, !String.eqb_eq in *.
  eapply triple_bind; [apply (triple_quiet r h f node k _ (fun b h' => seen h' f node k /\
    (b = false -> not_due h' node))); [done|by emits_auto|]|].
  { intros w evs b w' E Hs'. split; [done|]. intros ->. by eapply olderThan_no. }
  intros recheck h1 [Hs1 Hdue].
  eapply (triple_bind _ _ _ _ (fun '(required, n') h' => seen h' f n' k /\ same_status n' node /\
    wanted (fun s => s = NodeStateRebootIfRequired) h' n' /\ (required = false -> not_required h' n'))).
  { destruct recheck.
    - eapply triple_mono; [apply triple_isRebootRequired; [done|by right]|].
      intros [required n'] h' (? & ? & Hrr & Ht & now & Hin). split_and!; [done..|right; eauto|].
      intros ->. split; [by rewrite Hrr|]. left. eauto.
    - apply triple_ret. split_and!; [done..|by left|]. intros Hr.
      split; [intros E; by rewrite E in Hr|]. right. by apply Hdue. }
  intros [required n'] h2 (Hs2 & Hst & Hw & Hno).
  destruct required; simpl; [by apply triple_ret; intros ? [= <-]|].
  eapply triple_bind; [eapply triple_setState; [done|]|by intros; apply triple_ret].
  intros Hna. destruct Hst as (_ & Hc & _). split_and!; [done..|]. rewrite Hc. auto.
Qed.

Lemma triple_drainStart h node k :
  seen h f node k -> Drain (nstate node) = true -> ndrained node = false ->
  ncurrent node = NodeCurrentStateNext ->
  {{ h }} drainStart r node
  {{ fun n' h' => seen h' f n' k /\ emptying r h' f n' }}.
Proof.
  intros Hs Hd Hnd Hc. unfold drainStart.
  eapply triple_bind; [apply triple_wrap, (triple_quiet r h f node k _ (fun b h' =>
    seen h' f node k /\ (b = true -> nodes_ready_in h' /\ healthy_in (drainManager r) h')));
    [done|by emits_auto|]|].
  { intros w evs b w' E Hs'. split; [done|]. intros ->. apply DM_IsHealthy_yes in E as [? ?].
    split; [apply nodes_ready_in_app|apply each_supported_app]; auto. }
  intros healthy h1 [Hs1 Hh]. destruct healthy; simpl; [|apply triple_raise].
  destruct (Hh eq_refl) as [Hr Hp].
  eapply triple_bind; [apply triple_wrap, (triple_quiet r h1 f node k _ (fun b h' =>
    seen h' f node k /\ (b = true -> gate_passed (drainManager r) (Name node) h')));
    [done|by emits_auto|]|].
  { intros w evs b w' E Hs'. split; [done|]. intros ->. apply DM_IsDrainOk_yes in E.
    split_and!; [apply nodes_ready_in_app|apply each_supported_app|apply each_supported_app]; auto. }
  intros ok h2 [Hs2 Hg]. destruct ok; simpl; [|apply triple_raise].
  eapply triple_mono; [apply triple_setCurrentState; [done|intros _; apply step_draining; auto]|].
  intros n' h3 (Hs3 & (Hn' & Hc' & Hd' & _) & He). split; [done|].
  split_and!; [|by rewrite Hd'|by rewrite Hc'|by rewrite Hc'|by rewrite Hc'|].
  2: { intros _. rewrite Hn'. specialize (Hg eq_refl).
       destruct He as [[-> ->]| ->]; auto using gate_passed_mono. }
  destruct He as [[-> ->]| ->]; [by left|]. right.
  exists node, (set_CurrentState node NodeCurrentStateDraining). split; [set_solver|done].
Qed.

Lemma triple_drainRun h node k :
  seen h f node k -> emptying r h f node -> kn_Unschedulable k = true -> Name node <> nodeName r ->
  {{ h }} drainRun r node {{ fun n' h' => seen h' f n' k }}.
Proof.
  intros Hs He Hu Hne. unfold drainRun.
  eapply triple_bind; [apply triple_wrap, (triple_hooks _ h node k _
    (predrain_done (drainManager r) (Name node)) Hs (emits_RunPreDrain _ _))|].
  { intros h' p a Hs' [evs ->]. eapply permitted_allowed; [done..|]. simpl.
    split_and!; auto using emptying_mono. }
  { intros w evs w'. apply RunPreDrain_done. }
  intros [] h1 (evs & -> & Hs1 & Hpre).
  eapply triple_bind; [apply (triple_quiet r _ f node k _ (fun _ h' => seen h' f node k /\
    exists evs', h' = (h ++ evs) ++ evs')); [done|by emits_auto|by eauto]|].
  intros err h2 [Hs2 [evs2 ->]]. simpl in err.
  eapply (triple_bind _ _ _ _ (fun _ h' => seen h' f node k /\ err = None /\ h' = (h ++ evs) ++ evs2));
    [by triple_step|].
  intros ? h2' (_ & -> & ->).
  eapply triple_bind; [apply triple_wrap, (triple_cleanup _ node k _ (fun _ h' => seen h' f node k /\
    exists evs', h' = ((h ++ evs) ++ evs2) ++ evs')); [done|apply emits_CleanupNode|by eauto]|].
  intros ? h3 [Hs3 [evs3 ->]].
  assert (He3 : emptying r (((h ++ evs) ++ evs2) ++ evs3) f node) by auto using emptying_mono.
  eapply triple_bind.
  { apply (triple_call _ _ (RunNodeDrain drainHelper (Name node)) (fun a h' =>
      h' = (((h ++ evs) ++ evs2) ++ evs3) ++ [mkEv (RunNodeDrain drainHelper (Name node)) a])).
    intros ? ? ? _. split; [|done]. eapply permitted_allowed; [done..|]. simpl.
    split_and!; [done..|]. do 2 (apply each_supported_app; left). apply each_supported_app. by right. }
  intros err' h4 ->. simpl in err'. destruct err' as [e|]; [apply triple_raise|]. cbv zeta.
  apply (triple_status_bind _ _ _ k).
  - apply seen_still; [done|]. by repeat constructor.
  - done.
  - apply step_drained; [by apply emptying_mono|done|done|]. by rewrite last_snoc.
  - intros n' h5 _ Hs5 _ _.
    eapply triple_bind; [apply (triple_quiet r h5 f n' k _ (fun _ h' => seen h' f n' k));
      [done|by emits_auto|done]|].
    intros. by apply triple_ret.
Qed.

Lemma triple_reschedule h node k :
  seen h f node k -> emptying r h f node -> kn_Unschedulable k = true -> Name node = nodeName r ->
  {{ h }} rescheduleController r {{ fun _ _ => True }}.
Proof.
  intros Hs He Hu Hn. unfold rescheduleController.
  eapply triple_bind; [apply (triple_quiet r h f node k _ (fun _ h' => seen h' f node k /\ emptying r h' f node));
    [done|by emits_auto|by auto using emptying_mono]|].
  intros err h1 [Hs1 He1]. simpl in err.
  eapply (triple_bind _ _ _ _ (fun _ h' => h' = h1)); [by repeat triple_step|]. intros ? ? ->.
  eapply triple_bind; [apply (triple_quiet r h1 f node k _ (fun _ h' => seen h' f node k /\ emptying r h' f node));
    [done|by emits_auto|by auto using emptying_mono]|].
  intros res h2 [Hs2 He2]. simpl in res.
  eapply (triple_bind _ _ _ _ (fun _ h' => h' = h2)); [by repeat triple_step|]. intros pod ? ->.
  eapply triple_bind.
  - apply (triple_call _ _ (PodsDelete _ _ true) (fun _ _ => True)). intros ? ? ? _.
    split; [|done]. eapply permitted_allowed; [done..|]. simpl. auto.
  - intros ? ? _. simpl. by triple_step.
Qed.

Lemma triple_drain h node k :
  seen h f node k -> WorkState (ncurrent node) = true ->
  ncurrent node <> NodeCurrentStateUndraining ->
  (ncurrent f = NodeCurrentStateNext -> ncurrent node = NodeCurrentStateNext) ->
  {{ h }} drain r node k
  {{ fun '(res, n', k') h' => res = None -> seen h' f n' k' }}.
Proof.
  intros Hs Hw Hc Hnx. unfold drain.
  destruct (negb _ || _) eqn:Hd; [by apply triple_ret|]. boolify.
  eapply (triple_bind _ _ _ _ (fun n' h' => seen h' f n' k /\ emptying r h' f n')).
  { destruct (String.eqb_spec (ncurrent node) NodeCurrentStateNext).
    - by apply triple_drainStart.
    - apply triple_ret. split; [done|]. split_and!; [by left|done..|]. intros Hf. by apply Hnx in Hf. }
  intros n' h1 [Hs1 He1].
  eapply (triple_bind _ _ _ _ (fun k' h' => seen h' f n' k' /\ emptying r h' f n' /\ kn_Unschedulable k' = true)).
  { destruct (kn_Unschedulable k) eqn:Hu; simpl; [by apply triple_ret|].
    eapply triple_mono; [apply (triple_setUnschedulable _ n'); [done|]|].
    - intros _. unfold kube_step. simpl. rewrite Hu. split_and!; [done|done|]. by right.
    - intros k' h' (? & ? & evs & ->). auto using emptying_mono. }
  intros k' h2 (Hs2 & He2 & Hu2).
  destruct (String.eqb_spec (nodeName r) (Name n')) as [Hn|Hn].
  - eapply triple_bind; [eapply triple_wrap, triple_reschedule; done|].
    intros. by apply triple_ret.
  - eapply triple_bind; [by apply triple_drainRun|]. intros n2 h3 Hs3. by apply triple_ret.
Qed.

(** ** Rebooting *)

Lemma triple_RebootNode h node k :
  seen h f node k -> reboot_due h node -> BootID (Status node) = kn_BootID k ->
  {{ h }} RebootNode (rebootManager r) node
  {{ fun _ h' => seen h' f node k /\ reboot_due h' node }}.
Proof.
  intros Hs Hd Hb. unfold RebootNode, GetNode.
  eapply (triple_bind _ _ _ _ (fun o h' => seen h' f node k /\ reboot_due h' node /\
    forall k', o = Some k' -> mkEv (NodesGet (Name node)) (inr k') ∈ h')).
  { eapply triple_quiet; [done|by emits_auto|].
    intros w evs a w' E Hs'. split_and!; [done|by apply reboot_due_mono|].
    intros k' ->. inv_cases; simplify_eq. set_solver. }
  intros [k'|] h1 (Hs1 & Hd1 & Hk); [|apply triple_raise].
  destruct (kn_Unschedulable k') eqn:Hu; simpl; [|apply triple_raise].
  destruct (ContainerNode _) eqn:Hc.
  { eapply triple_quiet; [done|by emits_auto|auto using reboot_due_mono]. }
  eapply triple_bind; [apply (triple_quiet r h1 f node k _ (fun _ h' => seen h' f node k /\
    exists evs, h' = h1 ++ evs)); [done|by emits_auto|by eauto]|].
  intros ? h2 [Hs2 [evs ->]].
  eapply (triple_bind _ _ _ _ (fun _ h' => seen h' f node k /\ exists evs', h' = (h1 ++ evs) ++ evs')).
  { apply (triple_call _ _ (PodsCreate _ _)). intros ? ? ? _. split.
    - eapply permitted_allowed; [done..|]. simpl. split; [done|]. right; right.
      split_and!; [done|done|by apply reboot_due_mono|done|]. exists k'. set_solver.
    - split; [|eauto]. apply seen_still; [done|]. by repeat constructor. }
  intros res h3 [Hs3 [evs3 ->]]. simpl in res. destruct res as [e|p].
  - eapply triple_bind; [apply (triple_quiet r _ f node k _ (fun _ _ => True));
      [done|by emits_auto|done]|]. intros. apply triple_raise.
  - apply triple_ret. auto using reboot_due_mono.
Qed.

Lemma triple_IsNodeRebooted h node k :
  seen h f node k -> nstate node = NodeStateRebootIfRequired ->
  ncurrent node = NodeCurrentStateRebooting ->
  {{ h }} IsNodeRebooted (rebootManager r) k (BootID (Status node))
  {{ fun b h' => seen h' f node k /\
       (b = true -> ContainerNode (rm_config (rebootManager r)) = false ->
          kn_BootID k <> BootID (Status node) /\ nodeReady (kn_Conditions k) = true) }}.
Proof.
  intros Hs Hst Hc. unfold IsNodeRebooted.
  destruct (ContainerNode _) eqn:Hcn.
  { cbv zeta. rewrite (seen_kname _ _ _ _ Hs).
    eapply (triple_bind _ _ _ _ (fun _ h' => seen h' f node k)).
    { apply (triple_call _ _ (PodsCreate _ _)). intros ? ? ? _. split.
      - eapply permitted_allowed; [done..|]. simpl. split; [done|]. right; left. auto.
      - apply seen_still; [done|]. by repeat constructor. }
    intros res h1 Hs1. simpl in res.
    eapply (triple_bind _ _ _ _ (fun _ h' => h' = h1)); [by repeat triple_step|]. intros pod ? ->.
    eapply (triple_quiet r h1 f node k); [done|unfold IsPodCompleted; by emits_auto|by auto]. }
  destruct (String.eqb_spec (kn_BootID k) (BootID (Status node))); simpl; [by apply triple_ret|].
  eapply (triple_bind _ _ _ _ (fun _ h' => seen h' f node k)).
  - destruct (nodeReady _); [|by apply triple_ret].
    eapply (triple_cleanup _ node k); [done| |done]. rewrite (seen_kname _ _ _ _ Hs).
    apply emits_wrap, emits_CleanupNode.
  - intros ? ? ?. by apply triple_ret.
Qed.

Lemma triple_reconcileReboot h node k :
  seen h f node k -> {{ h }} reconcileReboot r node k {{ fun _ _ => True }}.
Proof.
  intros Hs. unfold reconcileReboot.
  destruct (String.eqb_spec (nstate node) NodeStateRebootIfRequired) as [Hst|];
    [|by apply triple_ret].
  destruct (String.eqb_spec (ncurrent node) NodeCurrentStateDrained) as [Hc|Hc];
    simpl; [destruct (ndrained node) eqn:Hd|].
  - eapply (triple_bind _ _ _ _ (fun n' h' => seen h' f n' k /\ reboot_due h' n' /\
      BootID (Status n') = kn_BootID k)).
    { unfold setBootID. destruct (String.eqb_spec (kn_BootID k) (BootID (Status node))) as [Hb|Hb]; simpl.
      - apply triple_ret. split_and!; [done| |done]. split_and!; [by left|done..].
      - eapply triple_mono; [apply triple_status; [done|done|apply step_bootid; [|done]]|].
        + split_and!; [by left|done..].
        + intros n' h' (-> & Hs' & (_ & Hc' & Hd' & Hb') & _). split_and!; [done| |done].
          split_and!; [|by rewrite Hc'|by rewrite Hd'].
          right. exists node, (set_BootID node (kn_BootID k)). split; [set_solver|done]. }
    intros n' h1 (Hs1 & Hd1 & Hb1).
    eapply triple_bind; [by apply triple_RebootNode|]. intros ? h2 [Hs2 Hd2].
    eapply triple_bind; [by apply triple_setCurrentState; [done|intros _; apply step_rebooting]|].
    intros. by apply triple_ret.
  - rewrite Hc. by apply triple_ret.
  - destruct (String.eqb_spec (ncurrent node) NodeCurrentStateRebooting) as [Hr|];
      [|by apply triple_ret].
    eapply triple_bind; [by apply triple_IsNodeRebooted|].
    intros b h1 [Hs1 Hb]. destruct b; [|by apply triple_ret]. cbv zeta.
    eapply triple_bind; [apply (triple_quiet r h1 f node k _ (fun _ h' => seen h' f node k));
      [done|by emits_auto|done]|].
    intros now h2 Hs2. simpl in now.
    apply (triple_status_bind _ _ _ k); [done|done|by apply step_rebooted; auto|].
    intros n' h3 -> Hs3 (_ & Hc3 & _ & Hb3) _.
    eapply triple_bind; [eapply triple_setState; [done|]|].
    { assert (Hlast : forall e, e ∈ h2 ++ [e]) by (intros; apply elem_of_app; right; apply list_elem_of_here).
      intros Hna. split_and!; [done|done| |].
      - right. exists node. eexists. split; [apply Hlast|done].
      - right. rewrite Hc3, Hb3. split_and!; [done..|]. exists node, now. split_and!; [apply Hlast|done|auto]. }
    intros n4 h4 _. eapply (triple_bind _ _ _ _ (fun _ _ => True)); [|by intros; apply triple_ret].
    apply (triple_call _ _ (Eventf _ _ _ _)). intros. split; [|done]. by apply permitted_quiet.
Qed.

(** ** Reconcile *)

Lemma triple_reconcileWork h node k :
  seen h f node k -> WorkState (ncurrent node) = true ->
  ncurrent node <> NodeCurrentStateUndraining ->
  (ncurrent f = NodeCurrentStateNext -> ncurrent node = NodeCurrentStateNext) ->
  {{ h }} reconcileWork r node k {{ fun _ _ => True }}.
Proof.
  intros Hs Hw Hc Hnx. unfold reconcileWork.
  eapply triple_bind; [by eapply triple_rebootGate|].
  intros [res|n'] h1 Hn; [by apply triple_ret|].
  destruct (Hn _ eq_refl) as (Hs1 & _ & Hc1 & _).
  eapply (triple_bind _ _ _ _ (fun '(res, n2, k2) h' => res = None -> seen h' f n2 k2)).
  - destruct (_ && _); [|by apply triple_ret].
    apply triple_drain; rewrite ?Hc1; done.
  - intros [[[res|] n2] k2] h2 Hs2; [by apply triple_ret|]. apply triple_reconcileReboot. auto.
Qed.

Lemma triple_reconcileQueued h node k :
  seen h f node k -> ncurrent node = NodeCurrentStateQueued ->
  nstate node <> NodeStateActive -> nstate node <> NodeStateCordoned ->
  {{ h }} reconcileQueued node {{ fun _ _ => True }}.
Proof.
  intros Hs Hc Ha Hco. unfold reconcileQueued, isNextNode.
  eapply (triple_bind _ _ _ _ (fun _ _ => True)); [|intros [[] ?] ? _; by apply triple_ret].
  eapply (triple_bind _ _ _ _ (fun a h' => seen h' f node k /\ last h' = Some (mkEv ClientListNodes a))).
  { apply (triple_call _ _ ClientListNodes). intros w a w' _. split; [by apply permitted_quiet|].
    split; [|by rewrite last_snoc]. apply seen_still; [done|]. by repeat constructor. }
  intros a h1 [Hs1 Hl]. simpl in a.
  eapply (triple_bind _ _ _ _ (fun items h' => h' = h1 /\ a = inr items)); [by triple_step|].
  intros items ? [-> ->]. destruct (existsb _ items) eqn:Hx; [by apply triple_ret|].
  rewrite Hc. simpl.
  eapply triple_bind; [apply triple_setCurrentState; [done|intros _; eapply step_next; try done]|].
  - apply Forall_forall. intros n Hn. destruct (WorkState (ncurrent n)) eqn:Hw; [|done].
    exfalso. apply not_true_iff_false in Hx. apply Hx, existsb_exists. exists n.
    split; [by apply list_elem_of_In|done].
  - intros. by apply triple_ret.
Qed.

Lemma triple_reconcileLive h k :
  seen h f f k -> {{ h }} reconcileLive r f k {{ fun _ _ => True }}.
Proof.
  intros Hs. unfold reconcileLive.
  eapply triple_bind; [by apply triple_undrain|].
  intros [[[ok res] n1] k1] h1 Hok. destruct ok; simpl; [|by apply triple_ret].
  destruct (Hok eq_refl) as [Hs1 Hau].
  eapply (triple_bind _ _ _ _ (fun n' h' => seen h' f n' k1 /\ after_undrain f n')).
  { destruct (_ && _) eqn:Hr; [boolify|by apply triple_ret].
    eapply triple_mono; [apply triple_setDrained; [done|apply step_reset; [done..|]]|].
    - intros Hu. by destruct Hau.
    - intros n' h' (Hs' & (_ & Hc' & _) & _). split; [done|]. unfold after_undrain. by rewrite Hc'. }
  intros n2 h2 [Hs2 Hau2].
  eapply triple_bind; [by apply triple_checkRebootRequired|].
  intros n3 h3 [Hs3 (_ & Hc3 & _)].
  eapply triple_bind; [apply triple_reconcileSpec; [done|]|].
  { unfold after_undrain. by rewrite Hc3. }
  intros [res'|[n4 k4]] h4; [by intros _; apply triple_ret|]. intros (Hs4 & Hc4 & Hq4 & Hnx).
  destruct (WorkState (ncurrent n4)) eqn:Hw; [by apply triple_reconcileWork; auto|].
  destruct (String.eqb_spec (ncurrent n4) NodeCurrentStateQueued) as [Hq|]; [|by apply triple_ret].
  destruct (Hq4 Hq). by eapply triple_reconcileQueued.
Qed.
End Writes.

Section Main.
Context {W : Type} `{Env W} `{Wait W} `{!WaitLaws W} `{!ApiEcho W} `{ControllerUtil}.

Lemma triple_createNewNode r name k e :
  kn_Name k = name -> IsNotFound e = true ->
  triple (W := W) (permitted r)
    [mkEv (ClientGetKubeNode name) (inr k); mkEv (ClientGetNode name) (inl e)]
    (createNewNode r k) (fun _ _ => True).
Proof.
  intros <- Hnf. unfold createNewNode. cbv zeta.
  set (h := [_; _]). set (n := mkNode _ _ _ _ _ _).
  eapply (triple_bind _ _ _ _ (fun a h' => h' = h ++ [mkEv (SetOwnerReference k n) a])).
  { apply (triple_call _ _ (SetOwnerReference k n)). intros. split; [by apply permitted_quiet|done]. }
  intros a ? ->. simpl in a.
  eapply (triple_bind _ _ _ _ (fun o h' => a = inr o /\ h' = h ++ [mkEv (SetOwnerReference k n) a]));
    [by triple_step|].
  intros o ? [-> ->].
  eapply (triple_bind _ _ _ _ (fun _ _ => True)).
  - apply (triple_call _ _ (ClientCreateNode _)). intros ? ? ? _. split; [|done].
    exists k, e. split_and!; [done..|set_solver|done|]. exists o. split; [set_solver|done].
  - intros a ? _. simpl in a. eapply (triple_bind _ _ _ _ (fun _ _ => True));
      [by triple_step|by intros; apply triple_ret].
Qed.

Lemma triple_reconcileDeleted r h n k :
  seen h n n k -> deleting n = true ->
  triple (W := W) (permitted r) h (reconcileDeleted n) (fun _ _ => True).
Proof.
  intros Hs Hd. unfold reconcileDeleted. destruct (ContainsFinalizer _ _) eqn:Hf; [|by apply triple_ret].
  cbv zeta. eapply (triple_bind _ _ _ _ (fun _ _ => True)).
  - apply (triple_call _ _ (ClientUpdateNode _)). intros ? ? ? _. split; [|done].
    exists n, n, k. by split_and!.
  - intros a ? _. simpl in a. eapply (triple_bind _ _ _ _ (fun _ _ => True));
      [by triple_step|by intros; apply triple_ret].
Qed.

Lemma triple_Reconcile r name :
  triple (W := W) (permitted r) [] (Reconcile r name) (fun _ _ => True).
Proof.
  unfold Reconcile.
  eapply (triple_bind _ _ _ _ (fun a h' => h' = [mkEv (ClientGetKubeNode name) a] /\
    forall k, a = inr k -> kn_Name k = name)).
  { apply (triple_call _ _ (ClientGetKubeNode name)). intros w a w' E. split_and!; [done|done|].
    intros k ->. by eapply get_kube_echo. }
  intros a ? [-> Hk]. simpl in a.
  eapply (triple_bind _ _ _ _ (fun k h' => a = inr k /\ h' = [mkEv (ClientGetKubeNode name) a]));
    [by triple_step|].
  intros k ? [-> ->]. specialize (Hk _ eq_refl).
  eapply (triple_bind _ _ _ _ (fun a h' => h' = [mkEv (ClientGetKubeNode name) (inr k);
    mkEv (ClientGetNode name) a] /\ forall n, a = inr n -> Name n = name)).
  { apply (triple_call _ _ (ClientGetNode name)). intros w a w' E. split_and!; [by exists k|done|].
    intros n ->. by eapply get_node_echo. }
  intros a ? [-> Hn]. simpl in a. destruct a as [e|n].
  { destruct (IsNotFound e) eqn:He; [by apply triple_createNewNode|apply triple_raise]. }
  assert (Hs : seen [mkEv (ClientGetKubeNode name) (inr k); mkEv (ClientGetNode name) (inr n)] n n k).
  { split; try done; simpl; [by rewrite (Hn n eq_refl)|by rewrite Hk, (Hn n eq_refl)|by repeat constructor]. }
  destruct (DeletionTimestamp n) as [t|] eqn:Ht.
  - destruct (negb (IsZero t)) eqn:Hz.
    + apply (triple_reconcileDeleted _ _ _ k Hs). unfold deleting. by rewrite Ht.
    + apply (triple_reconcileLive r n); [unfold deleting; by rewrite Ht|done].
  - apply (triple_reconcileLive r n); [unfold deleting; by rewrite Ht|done].
Qed.

Lemma Reconcile_protocol r name (w : W) evs w' res :
  Reconcile r name w = (evs, w', res) -> guarded (permitted r) [] evs.
Proof. apply triple_run with (1 := triple_Reconcile r name). Qed.

Lemma Reconcile_req r name (w : W) evs w' res :
  Reconcile r name w = (evs, w', res) -> req_name evs = Some name.
Proof.
  unfold Reconcile. intros E. apply bind_run in E as [(e&E&_)|(a&evs1&w1&evs2&E&_&->)];
    by apply (call_run (ClientGetKubeNode name)) in E as (a' & _ & -> & _).
Qed.

(** Any interaction of a run was permitted when it happened. *)
Lemma Reconcile_permitted r name (w : W) pre e post w' res :
  Reconcile r name w = (pre ++ e :: post, w', res) -> permitted r pre e.
Proof.
  intros E. apply Reconcile_protocol in E. by eapply (guarded_at _ []).
Qed.

(** The same for the interactions on an existing object. *)
Lemma Reconcile_allowed r name (w : W) pre q a post w' res :
  Reconcile r name w = (pre ++ mkEv q a :: post, w', res) ->
  match q with ClientGetKubeNode _ | ClientGetNode _ | ClientCreateNode _ => False | _ => True end ->
  quiet q = false ->
  exists f node k, seen pre f node k /\ Name node = name /\
    deleting f = (match q with ClientUpdateNode _ => true | _ => false end) /\
    allowed r pre f node k q.
Proof.
  intros E Hq Hnq. pose proof (Reconcile_req _ _ _ _ _ _ E) as Hreq.
  apply Reconcile_permitted in E. unfold permitted in E. cbn [ev_req] in E.
  assert (Hx : exists f node k, seen pre f node k /\
    deleting f = (match q with ClientUpdateNode _ => true | _ => false end) /\
    allowed r pre f node k q) by (destruct q; try done; by rewrite Hnq in E).
  destruct Hx as (f & node & k & Hs & Hd & Ha). exists f, node, k. split_and!; [done| |done..].
  apply seen_req, (req_name_app _ (mkEv q a :: post)) in Hs. congruence.
Qed.
End Main.
