(* ===== verification/Safety.v ===== *)
(** * Safety of a reconciliation

    Consequences of the protocol for one run of [Reconcile], stated on the run's
    trace: at the point where a run does something that matters (evicts pods,
    reboots, writes a status, cordons, calls a hook, touches a finalizer), what
    it has seen before justifies it.  They hold for every environment whose
    client echoes writes ([ApiEcho]), whatever fails. *)

From stdpp Require Import base gmap strings list.
From S2P Require Import Prelude NodeTypes Json Requests Effects Plugins Config Utils DrainManager.
From S2P Require Import RebootManager NodeController Traces Protocol.

Local Open Scope string_scope.
Local Open Scope list_scope.

(** ** The abstract life cycle

    The state machine the status goes through, without the reasons: a node is
    idle (OK, Cordoned), waits (Queued), is selected (Next), is emptied
    (Draining, Drained), reboots, and comes back (Undraining, OK).  The flag is
    [status.drained]. *)
Inductive lifecycle : NodeCurrentState * bool -> NodeCurrentState * bool -> Prop :=
  | lc_refresh c d : lifecycle (c, d) (c, d)
  | lc_rescheduled c : lifecycle (c, true) (c, false)
  | lc_cordon c d : c <> NodeCurrentStateUndraining ->
      lifecycle (c, d) (NodeCurrentStateCordoned, d)
  | lc_activate c d : c <> NodeCurrentStateUndraining -> lifecycle (c, d) (NodeCurrentStateOk, d)
  | lc_queue c d : c = NodeCurrentStateOk \/ c = NodeCurrentStateCordoned ->
      lifecycle (c, d) (NodeCurrentStateQueued, d)
  | lc_next d : lifecycle (NodeCurrentStateQueued, d) (NodeCurrentStateNext, d)
  | lc_draining : lifecycle (NodeCurrentStateNext, false) (NodeCurrentStateDraining, false)
  | lc_drained c : WorkState c = true -> c <> NodeCurrentStateNext ->
      c <> NodeCurrentStateUndraining -> lifecycle (c, false) (NodeCurrentStateDrained, true)
  | lc_reboot : lifecycle (NodeCurrentStateDrained, true) (NodeCurrentStateRebooting, true)
  | lc_undrain c d : c = NodeCurrentStateDrained \/ c = NodeCurrentStateDraining \/
      c = NodeCurrentStateRebooting -> lifecycle (c, d) (NodeCurrentStateUndraining, d)
  | lc_undrained : lifecycle (NodeCurrentStateUndraining, false) (NodeCurrentStateOk, false).

(** The abstract state of an object. *)
Definition abs_status (n : Node) : NodeCurrentState * bool := (ncurrent n, ndrained n).

Lemma status_step_lifecycle r h f base k n :
  status_step r h f base k n -> lifecycle (abs_status base) (abs_status n).
Proof.
  unfold abs_status.
  destruct 1; simpl; unfold ncurrent, ndrained in *; simpl;
    repeat match goal with
    | Hd : Drained (Status base) = _ |- _ => rewrite Hd
    | He : emptying _ _ _ _ |- _ => destruct He as (_ & Hnd & ? & ? & ? & _); unfold ndrained in Hnd; rewrite Hnd
    | Hr : reboot_due _ _ |- _ => destruct Hr as (_ & Hc & Hd); unfold ncurrent, ndrained in Hc, Hd; rewrite ?Hc, ?Hd
    | Hc : CurrentState (Status base) = _ |- _ => rewrite Hc
    end; eauto using lifecycle.
Qed.

(** The life cycle stays within the declared states. *)
Lemma lifecycle_declared s s' :
  lifecycle s s' -> s'.1 = s.1 \/ s'.1 ∈ GetNodeCurrentStates.
Proof. destruct 1; simpl; try (by left); right; unfold GetNodeCurrentStates; set_solver. Qed.

Section Safety.
Context {W : Type} `{Env W} `{Wait W} `{!WaitLaws W} `{!ApiEcho W} `{ControllerUtil}.


(** C3. Drain safety.  Whenever a run of [Reconcile] starts an eviction, it is
    for the requested node and with the fixed drain options, the node is not the
    one the controller itself runs on, the kube node last seen is cordoned, the
    drain node last seen is not drained yet and past the Next state, its spec
    asked for a drain when the run last decided, the PreDrain hook of every
    supported plugin has succeeded on it in this run, and if the run began with
    the node in Next, all nodes were ready and every supported plugin called the
    cluster healthy and agreed to this drain. *)
Theorem reconcile_drain_safety r name (w : W) pre dh n a post w' res :
  Reconcile r name w = (pre ++ mkEv (RunNodeDrain dh n) a :: post, w', res) ->
  exists f node k,
    first_node pre = Some f /\ last_node pre = Some node /\ last_kube pre = Some k /\
    n = name /\ Name node = name /\ kn_Name k = name /\ dh = drainHelper /\
    name <> nodeName r /\ kn_Unschedulable k = true /\ ndrained node = false /\
    WorkState (ncurrent node) = true /\ ncurrent node <> NodeCurrentStateNext /\
    ncurrent node <> NodeCurrentStateUndraining /\
    wanted (fun s => Drain s = true) pre node /\
    predrain_done (drainManager r) name pre /\
    (ncurrent f = NodeCurrentStateNext -> gate_passed (drainManager r) name pre).
Proof.
  intros E. apply Reconcile_allowed in E as (f & node & k & [? ? ? ? ? ?] & <- & _ & Ha); [|done..].
  destruct Ha as (-> & -> & (? & ? & ? & ? & ? & ?) & ? & ? & ?).
  exists f, node, k. by split_and!.
Qed.

(** C5. Reboot safety.  A run creates the reboot pod only for the requested
    node, on real machines, when the drain node last seen is Drained with its
    drained flag set, its spec asked for a reboot when the run last decided, the
    boot id on record is the one the kube node had, and a fresh read of the kube
    node, after everything else, found it cordoned. *)
Theorem reconcile_reboot_safety r name (w : W) pre ns n a post w' res :
  Reconcile r name w =
    (pre ++ mkEv (PodsCreate ns (rebootNodePod (rebootManager r) n)) a :: post, w', res) ->
  exists node k k',
    last_node pre = Some node /\ last_kube pre = Some k /\
    n = name /\ Name node = name /\ kn_Name k = name /\
    ns = rm_namespace (rebootManager r) /\
    ContainerNode (rm_config (rebootManager r)) = false /\
    ncurrent node = NodeCurrentStateDrained /\ ndrained node = true /\
    wanted (fun s => s = NodeStateRebootIfRequired) pre node /\
    BootID (Status node) = kn_BootID k /\
    mkEv (NodesGet name) (inr k') ∈ pre /\ kn_Unschedulable k' = true.
Proof.
  intros E. apply Reconcile_allowed in E as (f & node & k & [? ? ? ? ? ?] & <- & _ & Ha); [|done..].
  destruct Ha as [-> Ha].
  assert (Hn : forall m, rebootNodePod (rebootManager r) n = m -> pod_NodeName m = n) by (by intros ? <-).
  destruct Ha as [(E & _)|[(E & _)|(E & ? & (? & ? & ?) & ? & k' & ? & ?)]].
  - apply (f_equal pod_Containers) in E. discriminate E.
  - apply (f_equal pod_Containers) in E. discriminate E.
  - apply Hn in E. simpl in E. subst n. exists node, k, k'. by split_and!.
Qed.

(** C4. Life cycle.  Every status write of a run is made on the object last
    returned by the client, of the requested name and not being deleted, and is
    a transition of the abstract life cycle. *)
Theorem reconcile_status_refines r name (w : W) pre base n a post w' res :
  Reconcile r name w = (pre ++ mkEv (ClientStatusPatchNode base n) a :: post, w', res) ->
  last_node pre = Some base /\ Name n = name /\
  (exists f, first_node pre = Some f /\ deleting f = false) /\
  lifecycle (abs_status base) (abs_status n).
Proof.
  intros E. apply Reconcile_allowed in E as (f & node & k & [? ? ? ? ? ?] & <- & Hd & -> & Hst); [|done..].
  split_and!; [done|by destruct Hst|eauto|by eapply status_step_lifecycle].
Qed.

(** Declared states.  A status write of a run leaves the current state as it is
    or sets it to one of [GetNodeCurrentStates]; in particular it never produces
    the empty state of an object without a status. *)
Theorem reconcile_states_declared r name (w : W) pre base n a post w' res :
  Reconcile r name w = (pre ++ mkEv (ClientStatusPatchNode base n) a :: post, w', res) ->
  ncurrent n = ncurrent base \/
  (ncurrent n ∈ GetNodeCurrentStates /\ ncurrent n <> EmptyString).
Proof.
  intros E. apply Reconcile_allowed in E as (f & node & k & _ & _ & _ & -> & Hst); [|done..].
  apply status_step_lifecycle, lifecycle_declared in Hst as [Hs|Hs]; simpl in Hs; [by left|].
  right. split; [done|]. intros E. rewrite E in Hs. unfold GetNodeCurrentStates in Hs.
  unfold_states. set_solver.
Qed.

(** C8. Cordons.  A run changes nothing of a kube node but [spec.unschedulable].  It
    takes scheduling away only when the spec says Cordoned or the node is being
    emptied.  It gives scheduling back only to a node in Undraining after a listing
    with every node ready, whoever owns the cordon, or to a node whose spec says
    Active and whose cordon belongs to nobody or to this controller's field owner: on
    an active node that is not being undrained, a cordon set by somebody else stays. *)
Theorem reconcile_cordon_ownership r name (w : W) pre k k' a post w' res :
  Reconcile r name w = (pre ++ mkEv (ClientPatchKubeNode k k') a :: post, w', res) ->
  last_kube pre = Some k /\ kn_Name k = name /\
  k' = set_Unschedulable k (negb (kn_Unschedulable k)) /\
  exists f node, first_node pre = Some f /\ last_node pre = Some node /\
    if kn_Unschedulable k then
      (ncurrent node = NodeCurrentStateUndraining /\ nodes_ready_in pre) \/
      (nstate node = NodeStateActive /\ ncurrent node <> NodeCurrentStateUndraining /\
       (getManagerOfUnschedulable k = EmptyString \/
        getManagerOfUnschedulable k = GetFieldOwner (managerNamespace r)))
    else nstate node = NodeStateCordoned \/ emptying r pre f node.
Proof.
  intros E. apply Reconcile_allowed in E as (f & node & kb & [? ? ? ? ? Hkn] & <- & _ & -> & Hne & Hk' & Hst);
    [|done..].
  split_and!; [done|done| |].
  - rewrite Hk'. f_equal. by destruct (kn_Unschedulable kb), (kn_Unschedulable k').
  - exists f, node. split_and!; [done..|].
    destruct (kn_Unschedulable k'), (kn_Unschedulable kb); try done; naive_solver.
Qed.

(** C13. The spec belongs to the user.  A run writes it only to turn a requested reboot
    back into Active, and for one of two reasons.  In Next or Drained, no reboot is
    needed: the status of the object does not say that one is required, and either
    this run's own check ran the test for the marker file, which failed, and recorded
    it, or the last check is at most two minutes old by the clock the run has read.  In
    Rebooting, the reboot has happened: this run has just cleared the recorded boot id,
    and on real machines the kube node has another boot id than the one recorded and is
    ready. *)
Theorem reconcile_spec_write r name (w : W) pre base n a post w' res :
  Reconcile r name w = (pre ++ mkEv (ClientPatchNode base n) a :: post, w', res) ->
  last_node pre = Some base /\ Name base = name /\ nstate base <> NodeStateActive /\
  n = set_State base NodeStateActive /\
  wanted (fun s => s = NodeStateRebootIfRequired) pre base /\
  (((ncurrent base = NodeCurrentStateNext \/ ncurrent base = NodeCurrentStateDrained) /\
      not_required pre base) \/
   (ncurrent base = NodeCurrentStateRebooting /\ BootID (Status base) = EmptyString /\
      exists k, last_kube pre = Some k /\ kn_Name k = name /\ has_rebooted r pre k base)).
Proof.
  intros E. apply Reconcile_allowed in E as (f & node & k & [? ? ? ? ? ?] & <- & _ & -> & ? & ? & ? & Hwhy);
    [|done..]. split_and!; [done..|]. destruct Hwhy as [?|(? & ? & ?)]; [by left|]. right. eauto 10.
Qed.

(** C9. Undrain order.  When a run moves a node from Undraining to OK, the kube
    node last seen is schedulable, the drained flag is already cleared, and the
    PostDrain hook of every supported plugin has succeeded in this run. *)
Theorem reconcile_undrained r name (w : W) pre base n a post w' res :
  Reconcile r name w = (pre ++ mkEv (ClientStatusPatchNode base n) a :: post, w', res) ->
  ncurrent base = NodeCurrentStateUndraining -> ncurrent n <> NodeCurrentStateUndraining ->
  ncurrent n = NodeCurrentStateOk /\ ndrained base = false /\
  (exists k, last_kube pre = Some k /\ kn_Unschedulable k = false) /\
  postdrain_done (drainManager r) name pre.
Proof.
  intros E Hb Hn. apply Reconcile_allowed in E
    as (f & node & k & [? ? ? ? ? ?] & <- & _ & -> & Hst); [|done..].
  destruct Hst;
    repeat match goal with
    | He : emptying _ _ _ _ |- _ => destruct He as (_ & _ & _ & _ & ? & _)
    | Hr : reboot_due _ _ |- _ => destruct Hr as (_ & ? & _)
    | Hc : may_check _ |- _ => destruct Hc as [Hc|[_ Hc]]
    | Ho : _ \/ _ |- _ => destruct Ho
    end; unfold ncurrent in *; simpl in *; try (unfold_states; congruence).
  split_and!; [done..|eauto|done].
Qed.

(** C15. Deletion.  On an object that is being deleted a run does at most one more
    thing after the two reads: it removes this controller's finalizer, and no
    other, by an update of the object it has read. *)
Theorem reconcile_deletion r name (w : W) k w1 n w2 :
  handle (ClientGetKubeNode name) w = (inr k, w1) ->
  handle (ClientGetNode name) w1 = (inr n, w2) ->
  deleting n = true ->
  exists rest w' res,
    Reconcile r name w = (mkEv (ClientGetKubeNode name) (inr k) ::
                          mkEv (ClientGetNode name) (inr n) :: rest, w', res) /\
    if ContainsFinalizer (Finalizers n) nodeDrainFinalizer then
      exists a, rest = [mkEv (ClientUpdateNode
        (set_Finalizers n (RemoveFinalizer (Finalizers n) nodeDrainFinalizer))) a] /\
      match a with inl e => res = inl e | inr _ => res = inr Result0 end
    else rest = [] /\ res = inr Result0.
Proof.
  intros E1 E2 Hd. unfold deleting in Hd.
  unfold Reconcile, mbind, M_bind, call. rewrite E1. simpl. rewrite E2.
  destruct (DeletionTimestamp n) as [t|]; [|done]. rewrite Hd. unfold reconcileDeleted.
  destruct (ContainsFinalizer _ _); [|by eexists _, _, _].
  unfold mbind, M_bind, call. destruct (handle (ClientUpdateNode _) w2) as [[e|n'] w3];
    eexists _, _, _; (split; [reflexivity|]); eexists; (split; [reflexivity|done]).
Qed.

(** The object [createNewNode] starts from. *)
Definition newNode (k : KubeNode) : Node :=
  mkNode (kn_Name k) None [] []
    (mkNodeSpec (if kn_Unschedulable k then NodeStateCordoned else NodeStateActive)) zeroNodeStatus.

(** C16. Creation.  When the kube node is there and reading its drain node fails, a run
    does this and nothing else: unless the error says that there is no such object, it
    fails with it; else it has the owner reference set on a new object and creates it,
    and asks to be called again in five seconds, failing with the first error it meets.
    The object created has the kube node's name, which is the requested one, refers to
    it as its owner, carries our finalizer, has no status, and mirrors the kube node:
    Cordoned if it is unschedulable and Active otherwise, so that no drain is asked
    for. *)
Theorem reconcile_creation `{!ControllerUtilLaws} `{!OwnerReferenceLaws W} r name (w : W) k w1 e w2 :
  handle (ClientGetKubeNode name) w = (inr k, w1) ->
  handle (ClientGetNode name) w1 = (inl e, w2) ->
  exists rest w' res,
    Reconcile r name w = (mkEv (ClientGetKubeNode name) (inr k) ::
                          mkEv (ClientGetNode name) (inl e) :: rest, w', res) /\
    if IsNotFound e then
      exists a, match a with
      | inl err => rest = [mkEv (SetOwnerReference k (newNode k)) a] /\ res = inl err
      | inr _ => exists n b,
          rest = [mkEv (SetOwnerReference k (newNode k)) a; mkEv (ClientCreateNode n) b] /\
          res = match b with inl err => inl err | inr _ => inr (mkResult (5 * Second)) end /\
          Name n = name /\ kn_Name k ∈ OwnerReferences n /\
          ContainsFinalizer (Finalizers n) nodeDrainFinalizer = true /\
          DeletionTimestamp n = None /\ Status n = zeroNodeStatus /\
          nstate n = (if kn_Unschedulable k then NodeStateCordoned else NodeStateActive)
      end
    else rest = [] /\ res = inl e.
Proof.
  intros E1 E2. pose proof (get_kube_echo _ _ _ _ E1) as Hk.
  unfold Reconcile, mbind, M_bind, call. rewrite E1. simpl. rewrite E2.
  destruct (IsNotFound e); [|by eexists _, _, _].
  unfold createNewNode, mbind, M_bind, call. cbv zeta. fold (newNode k).
  destruct (handle (SetOwnerReference k (newNode k)) w2) as [[err|o] w3] eqn:E3; simpl.
  { eexists _, _, _. split; [reflexivity|]. by exists (inl err). }
  destruct (owner_reference_set _ _ _ _ _ E3) as (Hn & Hd & Hf & Hsp & Hst & Ho).
  destruct (handle (ClientCreateNode _) w3) as [b w4].
  eexists _, w4, (match b with inl err => inl err | inr _ => inr (mkResult (5 * Second)) end).
  split; [by destruct b|]. exists (inr o). eexists _, b. split_and!; [by destruct b|done|..].
  - by rewrite <- Hk.
  - done.
  - apply contains_add.
  - done.
  - done.
  - unfold nstate. simpl. by rewrite Hsp.
Qed.

(** C14. Self protection.  A run deletes a pod in the foreground (its own, in the
    manager namespace) only when the node being emptied is the one it runs on,
    already cordoned, so that the replacement starts elsewhere. *)
Theorem reconcile_self_eviction r name (w : W) pre ns pod a post w' res :
  Reconcile r name w = (pre ++ mkEv (PodsDelete ns pod true) a :: post, w', res) ->
  ns = managerNamespace r /\ name = nodeName r /\
  exists f node k, first_node pre = Some f /\ last_node pre = Some node /\
    last_kube pre = Some k /\ kn_Unschedulable k = true /\ emptying r pre f node.
Proof.
  intros E. apply Reconcile_allowed in E as (f & node & k & [? ? ? ? ? ?] & <- & _ & ? & ? & ? & ?);
    [|done..]. split_and!; [done..|]. exists f, node, k. by split_and!.
Qed.



End Safety.
