(* ===== verification/Behaviour.v ===== *)
(** * Behaviour of the controller's functions

    What single functions of the node controller compute, on every branch and in
    any environment: who owns a cordon, when a reboot check runs, who is next in
    the queue, a drain that skips the queue, and a state the controller cannot leave. *)

From stdpp Require Import base gmap strings list.
From S2P Require Import Prelude NodeTypes Json Requests Effects Plugins Config Utils DrainManager.
From S2P Require Import RebootManager NodeController Protocol.

Local Open Scope list_scope.

(** ** Cordon ownership *)

(** The entry is about the object itself (no subresource) and its fields
    include [spec.unschedulable]. *)
Definition entry_owns (f : ManagedFieldsEntry) : Prop :=
  mf_Subresource f = EmptyString /\
  exists raw m s v, mf_FieldsV1 f = Some raw /\ Unmarshal raw = Some (JObject m) /\
    jlookup "f:spec" m = Some (JObject s) /\ jlookup "f:unschedulable" s = Some v.

Lemma owns_unschedulable_iff raw :
  owns_unschedulable raw = true <->
  exists m s v, Unmarshal raw = Some (JObject m) /\ jlookup "f:spec" m = Some (JObject s) /\
    jlookup "f:unschedulable" s = Some v.
Proof.
  unfold owns_unschedulable, decodedOwns. split.
  - intros E. repeat (case_match; try discriminate E). eauto 10.
  - intros (m & s & v & -> & -> & ->). done.
Qed.

Lemma entry_owns_iff f :
  entry_owns f <-> mf_Subresource f = EmptyString /\
    exists raw, mf_FieldsV1 f = Some raw /\ owns_unschedulable raw = true.
Proof.
  unfold entry_owns. setoid_rewrite owns_unschedulable_iff. naive_solver.
Qed.

(** One step of the search. *)
Lemma manager_step f fields :
  (entry_owns f /\ managerOfUnschedulable (f :: fields) = mf_Manager f) \/
  (~ entry_owns f /\ managerOfUnschedulable (f :: fields) = managerOfUnschedulable fields).
Proof.
  rewrite entry_owns_iff. simpl. destruct (String.eqb_spec (mf_Subresource f) EmptyString) as [Hs|Hs];
    simpl; [|naive_solver].
  destruct (mf_FieldsV1 f) as [raw|]; [|naive_solver].
  destruct (owns_unschedulable raw) eqn:Ho; [naive_solver|].
  right. split; [|done]. intros (_ & raw' & [= <-] & ?). congruence.
Qed.

(** C26. [getManagerOfUnschedulable] returns the manager of the first entry that
    owns [spec.unschedulable] outside a subresource, whatever unparsable or
    foreign entries precede it, and the empty string when no entry does. *)
Theorem manager_of_unschedulable_first k :
  (exists pre f post, kn_ManagedFields k = pre ++ f :: post /\ entry_owns f /\
     Forall (fun g => ~ entry_owns g) pre /\ getManagerOfUnschedulable k = mf_Manager f) \/
  (Forall (fun g => ~ entry_owns g) (kn_ManagedFields k) /\
     getManagerOfUnschedulable k = EmptyString).
Proof.
  unfold getManagerOfUnschedulable. induction (kn_ManagedFields k) as [|f fields IH]; [by right|].
  destruct (manager_step f fields) as [[Ho ->]|[Ho ->]].
  - left. exists [], f, fields. by split_and!.
  - destruct IH as [(pre & g & post & -> & Hg & Hpre & ->)|[Hall ->]].
    + left. exists (f :: pre), g, post. split_and!; [done|done|by constructor|done].
    + right. split; [by constructor|done].
Qed.

Section Behaviour.
Context {W : Type} `{Env W} `{Wait W} `{ControllerUtil}.

(** ** Reboot checks *)




(** ** The queue *)

(** C24. Who is next.  [isNextNode] makes one listing.  It fails with the listing's
    error; it says no, writing nothing, when any listed node is in a work state
    (a state never written included) or the node is not queued; otherwise it
    writes Next and says yes exactly if that write succeeds. *)
Theorem is_next_node_spec node (w : W) res w1 :
  handle ClientListNodes w = (res, w1) ->
  match res with
  | inl e => isNextNode node w = ([mkEv ClientListNodes res], w1, inl e)
  | inr items =>
      if decide (Forall (fun n => WorkState (ncurrent n) = false) items /\
                 ncurrent node = NodeCurrentStateQueued) then
        let node' := set_CurrentState node NodeCurrentStateNext in
        let '(a, w2) := handle (ClientStatusPatchNode node node') w1 in
        isNextNode node w =
          ([mkEv ClientListNodes res; mkEv (ClientStatusPatchNode node node') a], w2,
           match a with
           | inl e => inl (WrapError "failed to update current state on node: " e)
           | inr n => inr (true, n)
           end)
      else isNextNode node w = ([mkEv ClientListNodes res], w1, inr (false, node))
  end.
Proof.
  intros Hl.
  assert (Hrun : isNextNode node w = let '(evs, w2, r) := (
      items ← lift res;
      if existsb (fun n => WorkState (ncurrent n)) items then mret (false, node)
      else if (ncurrent node =? NodeCurrentStateQueued)%string then
        node ← setCurrentState node NodeCurrentStateNext; mret (true, node)
      else mret (false, node)) w1 in (mkEv ClientListNodes res :: evs, w2, r))
    by exact (bind_call ClientListNodes _ _ _ _ Hl).
  destruct res as [e|items]; [done|]. rewrite Hrun. clear Hrun.
  assert (Hx : existsb (fun n => WorkState (ncurrent n)) items = false <->
               Forall (fun n => WorkState (ncurrent n) = false) items).
  { clear Hl. induction items as [|n items IH]; simpl; [split; [intros _; constructor|done]|].
    rewrite orb_false_iff, IH, Forall_cons. done. }
  unfold mbind, M_bind, lift, mret, M_ret. case_decide as Hd.
  - destruct Hd as [Hf Hq]. apply Hx in Hf. rewrite Hf, Hq. unfold setCurrentState. rewrite Hq. simpl.
    unfold call, mbind, M_bind.
    destruct (handle (ClientStatusPatchNode _ _) w1) as [[e|n] w2]; done.
  - destruct (existsb _ items) eqn:E; [done|].
    destruct (String.eqb_spec (ncurrent node) NodeCurrentStateQueued); [|done]. tauto.
Qed.

(** ** A dead end *)

(** C37. A cordoned node in Next whose drained flag is already set does not leave Next
    while its spec says Drained and it stays cordoned: a reconciliation reads the two
    objects, makes no other request and does not ask to be called again.  As Next is a
    work state, no other queued node is selected meanwhile.  (Once the kube node is
    schedulable the flag is reset and the drain goes on.) *)
Theorem drained_next_is_stuck r name (w : W) k w1 n w2 :
  handle (ClientGetKubeNode name) w = (inr k, w1) ->
  handle (ClientGetNode name) w1 = (inr n, w2) ->
  deleting n = false -> nstate n = NodeStateDrained ->
  ncurrent n = NodeCurrentStateNext -> ndrained n = true -> kn_Unschedulable k = true ->
  Reconcile r name w =
    ([mkEv (ClientGetKubeNode name) (inr k); mkEv (ClientGetNode name) (inr n)], w2, inr Result0).
Proof.
  intros E1 E2 Hdel Hs Hc Hd Hu.
  assert (Hlive : reconcileLive r n k w2 = ([], w2, inr Result0)).
  { unfold reconcileLive, undrain, checkRebootRequired, reconcileSpec, reconcileWork, rebootGate,
      reconcileReboot, mbind, M_bind, mret, M_ret.
    repeat (rewrite ?Hc, ?Hs, ?Hd, ?Hu; simpl). done. }
  unfold Reconcile, mbind, M_bind, call. rewrite E1. simpl. rewrite E2.
  unfold deleting in Hdel. destruct (DeletionTimestamp n) as [t|].
  - rewrite Hdel, Hlive. done.
  - rewrite Hlive. done.
Qed.

(** ** A drain without the queue *)

(** Requests of the queue and of the health gate. *)
Definition gate_request (q : Req) : bool :=
  match q with
  | ClientListNodes | NodesList | PluginRpc _ RpcIsHealthy | PluginRpc _ (RpcIsDrainOk _) => true
  | _ => false
  end.

Definition no_gate (e : Ev) : Prop := gate_request (ev_req e) = false.

Lemma no_gate_hooks what n l :
  emits (W := W) no_gate (run_hooks (fun c => PreDrain (DrainClient c)) what n l).
Proof.
  induction l as [|[id c] l IH]; simpl; [apply emits_ret|].
  unfold Client_IsSupported, Client_PreDrain. emits_auto.
Qed.

Lemma no_gate_drain r node k :
  ncurrent node <> NodeCurrentStateNext -> emits (W := W) no_gate (drain r node k).
Proof.
  intros Hc. unfold drain. apply String.eqb_neq in Hc. rewrite Hc.
  unfold setUnschedulable, rescheduleController, drainRun, RunPreDrain, range_map, CleanupNode.
  pose proof no_gate_hooks. emits_auto.
Qed.

Lemma no_gate_reboot `{!WaitLaws W} r node k : emits (W := W) no_gate (reconcileReboot r node k).
Proof.
  unfold reconcileReboot, setBootID, RebootNode, GetNode, setCurrentState, setState, IsNodeRebooted,
    IsPodCompleted, CleanupNode. emits_auto.
Qed.

(** A drain that succeeds on a node that is not our own has evicted its pods. *)
Lemma drain_evicts r node k (w : W) evs w' x :
  Drain (nstate node) = true -> ndrained node = false -> nodeName r <> Name node ->
  ncurrent node <> NodeCurrentStateNext ->
  drain r node k w = (evs, w', inr x) ->
  mkEv (RunNodeDrain drainHelper (Name node)) None ∈ evs.
Proof.
  intros Hs Hd Hself Hc. unfold drain. rewrite Hs, Hd. apply String.eqb_neq in Hc. rewrite Hc.
  apply String.eqb_neq in Hself. simpl orb. cbv iota. intros E.
  apply bind_run_ok in E as (n1 & evs1 & w1 & evs2 & E1 & E & ->). injection E1 as <- <- <-.
  apply bind_run_ok in E as (k1 & evs3 & w3 & evs4 & _ & E & ->). rewrite Hself in E.
  unfold drainRun in E. inv_cases. set_solver.
Qed.

(** A node without a status goes straight to the drain. *)
Lemma fresh_live r n k (w : W) :
  ncurrent n = EmptyString -> ndrained n = false -> Drain (nstate n) = true ->
  reconcileLive r n k w =
    ('(result, node, kubeNode) ← drain r n k;
     match result with Some result => mret result | None => reconcileReboot r node kubeNode end) w.
Proof.
  intros Hc Hd Hs. apply Drain_true_iff in Hs as [Hs | Hs];
    unfold reconcileLive, undrain, checkRebootRequired, reconcileSpec, reconcileWork, rebootGate,
      mbind, M_bind, mret, M_ret; repeat (rewrite ?Hc, ?Hs, ?Hd, ?andb_false_r; simpl).
  all: by destruct (drain r n k w) as [[evs0 w3] [e|[[[res0|] n'] k']]];
    [| |destruct (reconcileReboot r n' k' w3) as [[? ?] ?]].
Qed.

(** C39. A drain without the queue.  The empty state of an object whose status was never
    written counts as a work state.  In any environment, a reconciliation that reads
    such an object, with a spec that asks for a drain, makes no request of the queue or
    of the health gate: it does not look at the other drain nodes, nor whether the nodes
    are ready or the plugins agree.  If it succeeds it has evicted the node's pods.  (The
    node is not the controller's own.)  So mutual exclusion needs the assumption that
    there are no such objects. *)
Theorem fresh_drain_skips_queue `{!WaitLaws W} r name (w : W) k w1 n w2 evs w' res :
  handle (ClientGetKubeNode name) w = (inr k, w1) ->
  handle (ClientGetNode name) w1 = (inr n, w2) ->
  deleting n = false -> Status n = zeroNodeStatus -> Drain (nstate n) = true -> nodeName r <> Name n ->
  Reconcile r name w = (evs, w', res) ->
  Forall (fun e => gate_request (ev_req e) = false) evs /\
  match res with
  | inr _ => mkEv (RunNodeDrain drainHelper (Name n)) None ∈ evs
  | inl _ => True
  end.
Proof.
  intros E1 E2 Hdel Hst Hs Hself E.
  assert (Hc : ncurrent n = EmptyString) by (unfold ncurrent; by rewrite Hst).
  assert (Hd : ndrained n = false) by (unfold ndrained; by rewrite Hst).
  assert (Hrun : exists evs2, evs = mkEv (ClientGetKubeNode name) (inr k) ::
    mkEv (ClientGetNode name) (inr n) :: evs2 /\ reconcileLive r n k w2 = (evs2, w', res)).
  { revert E. unfold Reconcile, mbind, M_bind, call. rewrite E1. simpl. rewrite E2. unfold deleting in Hdel.
    destruct (DeletionTimestamp n) as [t|]; [rewrite Hdel|];
      destruct (reconcileLive r n k w2) as [[evs2 w3] res2]; intros [= <- <- <-]; eauto. }
  destruct Hrun as (evs2 & -> & Hrun). rewrite fresh_live in Hrun by done. split.
  - do 2 (constructor; [done|]). revert Hrun. apply emits_bind.
    + apply no_gate_drain. by rewrite Hc.
    + intros [[[res0|] n'] k']; [apply emits_ret|apply no_gate_reboot].
  - destruct res as [e|res]; [done|]. do 2 apply list_elem_of_further.
    apply bind_run_ok in Hrun as (x & evs3 & w3 & evs4 & Ed & _ & ->).
    apply elem_of_app. left. by eapply drain_evicts; rewrite ?Hc.
Qed.
End Behaviour.
