(* ===== verification/Exclusion.v ===== *)
(** * One node at a time

    The promise of the operator to the cluster: of all managed nodes at most one
    is being worked on.  One run of [Reconcile] does not know about other runs, so
    this is a property of the system: the API server's store of drain nodes,
    users and other controllers changing it at any moment, and the controller
    running one reconciliation after another, each of which may be cut short at
    any interaction (the process can be killed; it even deletes its own pod).

    [ApiStore] says what the API server does with the status subresource: only status
    patches change it, and a failed write may have happened.  Beyond that the promise
    depends on two things no client library guarantees, so they are conditions on the
    executions considered ([observed]), not laws of the environment: what the
    controller reads is current (the manager's client reads from a cache, which
    usually is), and nobody asks for a drain of an object whose status was never
    written.  Both are needed: [stale_listing_breaks_exclusion] at the end of this
    file and [fresh_drain_skips_queue] in [Behaviour.v] show what happens otherwise.

    Being worked on means one of the five states Next, Draining, Drained, Rebooting
    and Undraining ([busy]).  [WorkState] also counts the empty state of an object
    whose status was never written; such a node is not being worked on yet. *)

From stdpp Require Import base gmap strings list.
From S2P Require Import Prelude NodeTypes Json Requests Effects Plugins Config Utils DrainManager.
From S2P Require Import RebootManager NodeController Protocol Traces.

Local Open Scope list_scope.

(** ** The store of drain nodes *)

(** What everybody but the controller may do between two of its interactions:
    edit specs, delete objects, create objects (whose status is empty).  The
    status subresource is the controller's: an object that is there keeps its
    state. *)
Definition rely (v v' : gmap string Node) : Prop :=
  forall name n', v' !! name = Some n' ->
    ncurrent n' = EmptyString \/ exists n, v !! name = Some n /\ ncurrent n = ncurrent n'.

(** No object without a status asks for a drain. *)
Definition fresh_ok (v : gmap string Node) : Prop :=
  forall name n, v !! name = Some n -> ncurrent n = EmptyString -> Drain (nstate n) = false.

(** At most one node is being worked on. *)
Definition exclusive (v : gmap string Node) : Prop :=
  forall a b na nb, v !! a = Some na -> v !! b = Some nb ->
    busy (ncurrent na) = true -> busy (ncurrent nb) = true -> a = b.

Class ApiStore (W : Type) `{Env W} (nodes : W -> gmap string Node) : Prop := {
  (* a write returns the object as stored *)
  store_patch base n w n' w' :
    handle (ClientPatchNode base n) w = (inr n', w') -> nodes w' !! Name n' = Some n';
  store_status_patch base n w n' w' :
    handle (ClientStatusPatchNode base n) w = (inr n', w') -> nodes w' !! Name n' = Some n';
  (* a status patch that changes the state sets it if it takes effect, be it behind
     an error; a patch that does not change it does not send it *)
  store_status base n w a w' :
    handle (ClientStatusPatchNode base n) w = (a, w') ->
    rely (nodes w) (nodes w') \/
    (ncurrent n <> ncurrent base /\ exists v n', rely (nodes w) v /\
       nodes w' = <[Name n := n']> v /\ ncurrent n' = ncurrent n);
  (* nothing else changes a state *)
  store_other q w a w' :
    match q with ClientStatusPatchNode _ _ => False | _ => True end ->
    handle q w = (a, w') -> rely (nodes w) (nodes w')
}.

(** ** The executions considered *)

(** What was read is what is stored. *)
Definition current (v : gmap string Node) (e : Ev) : Prop :=
  let '(mkEv q a) := e in
  match q return resp q -> Prop with
  | ClientGetNode _ => fun a =>
      match a with inr n => v !! Name n = Some n | inl _ => True end
  | ClientListNodes => fun a =>
      match a with inr items => forall name n, v !! name = Some n -> n ∈ items | inl _ => True end
  | _ => fun _ => True
  end a.

(** An interaction that reads current objects and brings no request for a drain of an
    object without a status. *)
Definition observed {W} (nodes : W -> gmap string Node) (w : W) (e : Ev) (w' : W) : Prop :=
  current (nodes w') e /\ (fresh_ok (nodes w) -> fresh_ok (nodes w')).

(** ** The system *)

Section System.
Context {W : Type} `{Env W} `{Wait W} `{ControllerUtil} (nodes : W -> gmap string Node).

(** [wrun] with every interaction observed. *)
Inductive orun : W -> list Ev -> W -> Prop :=
  | orun_nil w : orun w [] w
  | orun_snoc w evs w1 q a w2 :
      orun w evs w1 -> handle q w1 = (a, w2) -> observed nodes w1 (mkEv q a) w2 ->
      orun w (evs ++ [mkEv q a]) w2.

(** The worlds the system can get into: the environment moves, or the
    controller (of any configuration: it may be restarted with another) runs a
    reconciliation for some name, to its end or to any interaction of it. *)
Inductive reach (w0 : W) : W -> Prop :=
  | reach_init : reach w0 w0
  | reach_env w w' :
      reach w0 w -> rely (nodes w) (nodes w') ->
      (fresh_ok (nodes w) -> fresh_ok (nodes w')) -> reach w0 w'
  | reach_run w r name evs w' res pre post w1 :
      reach w0 w -> Reconcile r name w = (evs, w', res) ->
      evs = pre ++ post -> orun w pre w1 -> reach w0 w1.

(** [x] is the only node being worked on, if any is. *)
Definition alone (x : string) (v : gmap string Node) : Prop :=
  forall a na, v !! a = Some na -> busy (ncurrent na) = true -> a = x.

Lemma rely_busy v v' a na :
  rely v v' -> v' !! a = Some na -> busy (ncurrent na) = true ->
  exists na', v !! a = Some na' /\ busy (ncurrent na') = true.
Proof.
  intros Hr Ha Hb. destruct (Hr _ _ Ha) as [Hc|(n & Hn & Hc)].
  - by rewrite Hc in Hb.
  - exists n. by rewrite Hc.
Qed.

Lemma rely_exclusive v v' : rely v v' -> exclusive v -> exclusive v'.
Proof.
  intros Hr He a b na nb Ha Hb Hba Hbb.
  destruct (rely_busy _ _ _ _ Hr Ha Hba) as (na' & ? & ?).
  destruct (rely_busy _ _ _ _ Hr Hb Hbb) as (nb' & ? & ?). eauto.
Qed.

Lemma rely_alone x v v' : rely v v' -> alone x v -> alone x v'.
Proof. intros Hr Hal a na Ha Hb. destruct (rely_busy _ _ _ _ Hr Ha Hb) as (na' & ? & ?). eauto. Qed.

Lemma exclusive_alone v x n :
  exclusive v -> v !! x = Some n -> busy (ncurrent n) = true -> alone x v.
Proof. intros He Hx Hb a na Ha Hba. by eapply He. Qed.

Lemma alone_exclusive x v : alone x v -> exclusive v.
Proof. intros Hal a b na nb Ha Hb Hba Hbb. by rewrite (Hal a na), (Hal b nb). Qed.

Lemma alone_insert x n v : alone x v -> alone x (<[x := n]> v).
Proof. intros Hal a na [[<- _]|[_ Ha]]%lookup_insert_Some Hb; [done|eauto]. Qed.

Lemma idle_insert_exclusive x n v :
  busy (ncurrent n) = false -> exclusive v -> exclusive (<[x := n]> v).
Proof.
  intros Hn He a b na nb [[<- <-]|[_ Ha]]%lookup_insert_Some [[<- <-]|[_ Hb]]%lookup_insert_Some
    Hba Hbb; try congruence. eauto.
Qed.

(** ** The invariant of a run *)

(** The listing an interaction returned, and the base and result of a status
    patch that succeeded. *)
Definition list_of (e : Ev) : option (list Node) :=
  let '(mkEv q a) := e in
  match q return resp q -> option (list Node) with
  | ClientListNodes => fun a => match a with inr l => Some l | inl _ => None end
  | _ => fun _ => None
  end a.

Definition patch_of (e : Ev) : option (Node * Node) :=
  let '(mkEv q a) := e in
  match q return resp q -> option (Node * Node) with
  | ClientStatusPatchNode base _ =>
      fun a => match a with inr n => Some (base, n) | inl _ => None end
  | _ => fun _ => None
  end a.

Record run_inv (h : list Ev) (w : W) : Prop := {
  ri_exclusive : exclusive (nodes w);
  ri_fresh : fresh_ok (nodes w);
  (* if the object at hand is busy, nothing else is *)
  ri_alone n : last_node h = Some n -> busy (ncurrent n) = true -> alone (Name n) (nodes w);
  ri_state n : last_node h = Some n -> ncurrent n = EmptyString -> Drain (nstate n) = false;
  ri_patched e base n : e ∈ h -> patch_of e = Some (base, n) ->
    ncurrent n = EmptyString -> Drain (nstate base) = false;
  (* a listing just made is complete *)
  ri_listed e items : last h = Some e -> list_of e = Some items ->
    forall name n, nodes w !! name = Some n -> n ∈ items
}.

Lemma run_inv_wanted h w n :
  run_inv h w -> last_node h = Some n -> wanted (fun s => Drain s = true) h n ->
  ncurrent n <> EmptyString.
Proof.
  intros Hi Hn Hw Hc. destruct Hw as [Hd|(base & n' & He & Hd)].
  - rewrite (ri_state _ _ Hi n) in Hd by done. done.
  - rewrite (ri_patched _ _ Hi _ base n He eq_refl Hc) in Hd. done.
Qed.

Context `{!WaitLaws W} `{!ApiEcho W} `{!ApiStore W nodes}.

Lemma status_fresh r h f base k n :
  status_step r h f base k n -> ncurrent n = EmptyString -> ncurrent base = EmptyString.
Proof. destruct 1; unfold ncurrent; simpl; done. Qed.

(** A status write makes a node busy only if it was, or if nothing is. *)
Lemma status_busy r h w f base k n :
  run_inv h w -> seen h f base k -> status_step r h f base k n -> busy (ncurrent n) = true ->
  busy (ncurrent base) = true \/
  (forall name m, nodes w !! name = Some m -> busy (ncurrent m) = false).
Proof.
  intros Hi [_ Hn _ _ _ _ _] Hst Hb.
  destruct Hst as [? Hc| | | | | | |items ? ? ? Hl Hidle|? ? Hc|He| |Hr|]; try done; try (by left).
  - left. by destruct Hc as [-> | [-> | ->]].
  - right. intros name m Hm. eapply ri_listed in Hm; [|done..].
    rewrite Forall_forall in Hidle. apply Hidle in Hm. apply busy_false_iff. by left.
  - left. by rewrite Hc.
  - left. destruct He as (Hw & _ & Hws & _). apply busy_true_iff. split; [done|].
    by eapply run_inv_wanted.
  - left. destruct Hr as (_ & -> & _). done.
Qed.

Lemma run_inv_status r h w base n a w' :
  run_inv h w -> permitted r h (mkEv (ClientStatusPatchNode base n) a) ->
  handle (ClientStatusPatchNode base n) w = (a, w') ->
  observed nodes w (mkEv (ClientStatusPatchNode base n) a) w' ->
  run_inv (h ++ [mkEv (ClientStatusPatchNode base n) a]) w'.
Proof.
  intros Hi (f & node & k & Hs & _ & -> & Hst) E [_ Hfr]. specialize (Hfr (ri_fresh _ _ Hi)).
  pose proof (seen_node _ _ _ _ Hs) as Hn.
  assert (Hname : Name n = Name node) by (by destruct Hst).
  assert (Hb : busy (ncurrent n) = true -> alone (Name n) (nodes w)).
  { intros Hb. destruct (status_busy _ _ _ _ _ _ _ Hi Hs Hst Hb) as [Hb'|Hidle].
    - rewrite Hname. by eapply ri_alone.
    - intros x m Hm Hbm. rewrite (Hidle x m Hm) in Hbm. done. }
  pose proof (store_status (nodes := nodes) _ _ _ _ _ E) as Hv.
  assert (Hpres : alone (Name n) (nodes w) -> alone (Name n) (nodes w')).
  { intros Hal. destruct Hv as [Hv|(_ & v & n' & Hv & -> & _)]; [by eapply rely_alone|].
    apply alone_insert. by eapply rely_alone. }
  assert (Hal : busy (ncurrent n) = true -> alone (Name n) (nodes w')) by auto.
  assert (Hex : exclusive (nodes w')).
  { destruct (busy (ncurrent n)) eqn:Hbn; [by eapply alone_exclusive, Hal|].
    destruct Hv as [Hv|(_ & v & n' & Hv & -> & Hc)]; pose proof (rely_exclusive _ _ Hv (ri_exclusive _ _ Hi));
      [done|]. apply idle_insert_exclusive; [congruence|done]. }
  simpl in a. split; [done|done| | | |].
  - intros m. rewrite snoc_node. destruct a as [e|n']; simpl.
    + rewrite Hn. intros [= <-] Hbm. pose proof (ri_alone _ _ Hi _ Hn Hbm) as Hm.
      rewrite <- Hname in *. auto.
    + intros [= <-] Hbm. apply status_patch_same in E as [(-> & Hc & _) _]. apply Hal. congruence.
  - intros m. rewrite snoc_node. destruct a as [e|n']; simpl.
    + apply (ri_state _ _ Hi).
    + intros [= <-] Hc. eapply Hfr; [by eapply store_status_patch|done].
  - intros e b m [He|He%list_elem_of_singleton]%elem_of_app Hp Hc; [by eapply ri_patched|].
    subst e. simpl in Hp. destruct a as [e|n']; simplify_eq.
    apply status_patch_same in E as [(_ & Hc' & _) _]. eapply (ri_state _ _ Hi); [done|].
    eapply status_fresh; [done|congruence].
  - intros e items. rewrite last_snoc. intros [= <-]. done.
Qed.

(** What an answer adds to the object at hand is in the store. *)
Lemma returned_stored q w a w' o n :
  match q with ClientStatusPatchNode _ _ => False | _ => True end ->
  handle q w = (a, w') -> current (nodes w') (mkEv q a) -> upd_node o (mkEv q a) = Some n ->
  o = Some n \/ nodes w' !! Name n = Some n.
Proof.
  intros Hq E Hcur Hu. destruct q; try done; try (by left); simpl in a; destruct a as [e|n'];
    try (by left); simpl in Hu; injection Hu as ->; right;
    [done|by eapply store_patch].
Qed.

Lemma run_inv_other h w q a w' :
  run_inv h w -> match q with ClientStatusPatchNode _ _ => False | _ => True end ->
  handle q w = (a, w') -> observed nodes w (mkEv q a) w' -> run_inv (h ++ [mkEv q a]) w'.
Proof.
  intros Hi Hq E [Hcur Hfr]. specialize (Hfr (ri_fresh _ _ Hi)). pose proof (store_other (nodes := nodes) _ _ _ _ Hq E) as Hrely.
  pose proof (rely_exclusive _ _ Hrely (ri_exclusive _ _ Hi)) as Hex.
  split; [done|done| | | |].
  - intros m. rewrite snoc_node. intros Hm Hb.
    destruct (returned_stored _ _ _ _ _ _ Hq E Hcur Hm) as [Ho|Hst].
    + eapply rely_alone; [done|]. by eapply ri_alone.
    + by eapply exclusive_alone.
  - intros m. rewrite snoc_node. intros Hm Hc.
    destruct (returned_stored _ _ _ _ _ _ Hq E Hcur Hm) as [Ho|Hst]; [by eapply ri_state|by eapply Hfr].
  - intros e b m [He|He%list_elem_of_singleton]%elem_of_app Hp Hc; [by eapply ri_patched|].
    subst e. destruct q; done.
  - intros e items. rewrite last_snoc. intros [= <-] Hl. destruct q; try done.
    simpl in a, Hl. destruct a as [?|l]; [done|]. injection Hl as ->. exact Hcur.
Qed.

Lemma run_inv_step r h w q a w' :
  run_inv h w -> permitted r h (mkEv q a) -> handle q w = (a, w') ->
  observed nodes w (mkEv q a) w' -> run_inv (h ++ [mkEv q a]) w'.
Proof.
  intros Hi Hp E Ho. destruct q; try (by apply run_inv_other with (w := w)).
  by eapply run_inv_status.
Qed.

Lemma run_inv_orun r w pre w1 :
  exclusive (nodes w) -> fresh_ok (nodes w) ->
  guarded (permitted r) [] pre -> orun w pre w1 -> run_inv pre w1.
Proof.
  intros He Hf Hg Hrun. induction Hrun as [w|w evs w1 q a w2 Hrun IH E Ho].
  - split; try done. intros e b n Hin. set_solver.
  - apply guarded_app in Hg as [Hg [Hp _]]. eapply run_inv_step; [by apply IH|done..].
Qed.

(** ** Properties *)

(** C1. Mutual exclusion, in the executions in which what the controller reads is current
    and no object without a status asks for a drain ([observed], [fresh_ok]).  Start
    with at most one node being worked on (in Next, Draining, Drained, Rebooting or
    Undraining) and let users, other controllers and any number of reconciliations
    act, reconciliations being cut off anywhere and writes failing with or without
    effect: there is never more than one node being worked on. *)
Theorem mutual_exclusion w0 w :
  exclusive (nodes w0) -> fresh_ok (nodes w0) -> reach w0 w ->
  exclusive (nodes w).
Proof.
  intros He Hf Hr. apply (proj1 (B := fresh_ok (nodes w))).
  induction Hr as [|w w' Hr [IHe IHf] Hrely Hfr|w r name evs w' res pre post w1 Hr [IHe IHf] E -> Hrun].
  - done.
  - split; [by eapply rely_exclusive|auto].
  - apply Reconcile_protocol, guarded_app in E as [Hg _].
    destruct (run_inv_orun _ _ _ _ IHe IHf Hg Hrun). done.
Qed.

End System.
