(* ===== verification/History.v ===== *)
(** * How a node got where it is

    [Exclusion.v] says what the store looks like at any moment; this file says how
    it came to look like that.  The system's run is recorded step by step: each
    interaction of a reconciliation with what that reconciliation had seen before,
    and each move of the environment, both with the world they lead to.  A node
    found in a stage of the life cycle then has a history: one recorded status
    write brought it into that stage, under the conditions the stage stands for,
    and from that write on the node has not been seen outside the stage.

    Failed writes may have taken effect, objects may be deleted and created again
    meanwhile, and reconciliations may stop anywhere, as in [Exclusion.v]. *)

From stdpp Require Import base gmap strings list.
From S2P Require Import Prelude NodeTypes Json Requests Effects Plugins Config Utils DrainManager.
From S2P Require Import RebootManager NodeController Protocol Exclusion.

Local Open Scope list_scope.

Section History.
Context {W : Type} `{Env W} `{Wait W} `{ControllerUtil} (nodes : W -> gmap string Node).

(** ** Recorded runs *)

(** One step of the system: an interaction [e] of a run configured as [r] that has
    performed [h] before, or ([None]) a move of the environment. *)
Record SysStep := mkSysStep {
  by_run : option (nodeReconciler * list Ev * Ev);
  world_after : W
}.

(** The steps of a run up to some interaction. *)
Inductive run_steps (r : nodeReconciler) : W -> list Ev -> list SysStep -> W -> Prop :=
  | run_steps_nil w : run_steps r w [] [] w
  | run_steps_snoc w pre t w1 q a w2 :
      run_steps r w pre t w1 -> handle q w1 = (a, w2) -> observed nodes w1 (mkEv q a) w2 ->
      run_steps r w (pre ++ [mkEv q a]) (t ++ [mkSysStep (Some (r, pre, mkEv q a)) w2]) w2.

(** [reach] with the steps recorded. *)
Inductive history (w0 : W) : list SysStep -> W -> Prop :=
  | history_init : history w0 [] w0
  | history_env t w w' :
      history w0 t w -> rely (nodes w) (nodes w') ->
      (fresh_ok (nodes w) -> fresh_ok (nodes w')) ->
      history w0 (t ++ [mkSysStep None w']) w'
  | history_run t w r name evs w' res pre post t' w1 :
      history w0 t w -> Reconcile r name w = (evs, w', res) ->
      evs = pre ++ post -> run_steps r w pre t' w1 -> history w0 (t ++ t') w1.

Lemma orun_steps r w pre w1 : orun nodes w pre w1 -> exists t, run_steps r w pre t w1.
Proof.
  induction 1 as [w|w pre w1 q a w2 _ [t IH] E Ho]; eexists; econstructor; eauto.
Qed.

(** Whatever the system can do has such a record. *)
Lemma reach_history w0 w : reach nodes w0 w -> exists t, history w0 t w.
Proof.
  induction 1 as [|w w' _ [t IH] Hr Hf|w r name evs w' res pre post w1 _ [t IH] E He Hrun].
  - eexists. constructor.
  - eexists. by econstructor.
  - apply (orun_steps r) in Hrun as [t' Ht]. eexists. by econstructor.
Qed.

(** A reconciliation that runs to its end. *)
Lemma history_Reconcile w0 t w r name evs w' res :
  Reconcile r name w = (evs, w', res) -> orun nodes w evs w' ->
  history w0 t w -> exists t', history w0 t' w'.
Proof.
  intros E Hrun Ht. apply (orun_steps r) in Hrun as [t' Hrun]. exists (t ++ t').
  eapply history_run; [done..| |done]. by rewrite app_nil_r.
Qed.

(** ** Stages *)

Implicit Types (S : NodeCurrentState -> bool) (P : nodeReconciler -> list Ev -> Node -> Node -> Prop).

(** The node is in stage [S], unless it is gone or was created anew. *)
Definition stays_in S (x : string) (v : gmap string Node) : Prop :=
  forall n, v !! x = Some n -> ncurrent n <> EmptyString -> S (ncurrent n) = true.

(** The step is a status write on [x] made under the conditions [P]. *)
Definition wrote P (x : string) (s : SysStep) : Prop :=
  exists r h base n a,
    by_run s = Some (r, h, mkEv (ClientStatusPatchNode base n) a) /\ Name n = x /\ P r h base n.

(** Some step wrote [x] under the conditions [P], and from then on [x] has stayed
    in stage [S]. *)
Definition since S P (x : string) (t : list SysStep) : Prop :=
  exists t1 s t2, t = t1 ++ s :: t2 /\ wrote P x s /\
    Forall (fun s => stays_in S x (nodes (world_after s))) (s :: t2).

Lemma since_snoc S P x t s :
  since S P x t -> stays_in S x (nodes (world_after s)) -> since S P x (t ++ [s]).
Proof.
  intros (t1 & s1 & t2 & -> & Hw & Hs) Hn. exists t1, s1, (t2 ++ [s]).
  split_and!; [by rewrite <- app_assoc|done|].
  rewrite app_comm_cons. apply Forall_app_2; [done|by constructor].
Qed.

Lemma since_now S P x t s :
  since S P x (t ++ [s]) -> stays_in S x (nodes (world_after s)).
Proof.
  intros (t1 & s1 & t2 & Ht & _ & Hs). rewrite Forall_forall in Hs. apply Hs.
  destruct t2 as [|s2 t2 _] using rev_ind.
  - apply app_inj_tail in Ht as [_ ->]. set_solver.
  - rewrite app_comm_cons, app_assoc in Ht. apply app_inj_tail in Ht as [_ ->]. set_solver.
Qed.

Lemma rely_stays_in S x v v' : rely v v' -> stays_in S x v -> stays_in S x v'.
Proof.
  intros Hr Hv n Hn Hne. destruct (Hr _ _ Hn) as [?|(m & Hm & E)]; [done|].
  rewrite <- E. apply Hv; [done|by rewrite E].
Qed.

(** ** Entering a stage *)

Section Stage.
Context `{!WaitLaws W} `{!ApiEcho W} `{!ApiStore W nodes}.
Context S P (S_fresh : S EmptyString = false).

(** Every permitted status write that takes a node into the stage is made under
    the conditions [P]. *)
Context (entry : forall r h w f base k n,
  run_inv nodes h w -> guarded (permitted r) [] h -> seen h f base k ->
  status_step r h f base k n ->
  S (ncurrent base) = false -> S (ncurrent n) = true -> P r h base n).

(** What is known of the record [t] in the middle of a run that has done [h]. *)
Record hist_inv (h : list Ev) (t : list SysStep) (w : W) : Prop := {
  hi_run : run_inv nodes h w;
  hi_world t' s : t = t' ++ [s] -> world_after s = w;
  hi_stored x n : nodes w !! x = Some n -> S (ncurrent n) = true -> since S P x t;
  hi_seen n : clean h -> last_node h = Some n -> S (ncurrent n) = true -> since S P (Name n) t
}.

Lemma hist_now h t w x : hist_inv h t w -> since S P x t -> stays_in S x (nodes w).
Proof.
  intros Hi Hs. destruct t as [|s t _] using rev_ind.
  - destruct Hs as (t1 & s & t2 & Ht & _). by destruct t1.
  - rewrite <- (hi_world _ _ _ Hi _ _ eq_refl). by eapply since_now.
Qed.

(** A move that changes no state carries the record along. *)
Lemma hist_rely h t w w' s x :
  hist_inv h t w -> world_after s = w' -> rely (nodes w) (nodes w') ->
  since S P x t -> since S P x (t ++ [s]).
Proof.
  intros Hi <- Hr Hs. apply since_snoc; [done|].
  eapply rely_stays_in; [done|by eapply hist_now].
Qed.

Lemma hist_rely_stored h t w w' s x n :
  hist_inv h t w -> world_after s = w' -> rely (nodes w) (nodes w') ->
  nodes w' !! x = Some n -> S (ncurrent n) = true -> since S P x (t ++ [s]).
Proof.
  intros Hi Hw Hr Hn HS. eapply hist_rely; [done..|].
  destruct (Hr _ _ Hn) as [E|(m & Hm & E)]; [by rewrite E, S_fresh in HS|].
  eapply hi_stored; [done..|by rewrite E].
Qed.

Lemma hist_step_other r h t w q a w' :
  hist_inv h t w -> permitted r h (mkEv q a) ->
  match q with ClientStatusPatchNode _ _ => False | _ => True end ->
  handle q w = (a, w') -> observed nodes w (mkEv q a) w' ->
  hist_inv (h ++ [mkEv q a]) (t ++ [mkSysStep (Some (r, h, mkEv q a)) w']) w'.
Proof.
  intros Hi Hp Hq E Ho. pose proof (store_other (nodes := nodes) _ _ _ _ Hq E) as Hr.
  split.
  - eapply (run_inv_step nodes); [apply Hi|done..].
  - by intros t' s [_ <-]%app_inj_tail.
  - intros x n Hn HS. by eapply hist_rely_stored.
  - intros n Hc. rewrite snoc_node. intros Hl HS.
    destruct (returned_stored nodes _ _ _ _ _ _ Hq E (proj1 Ho) Hl) as [Hl'|Hst].
    + eapply hist_rely; [done..|]. eapply hi_seen; [done| |done..]. by apply Forall_app in Hc as [? _].
    + by eapply hist_rely_stored.
Qed.

(** The status write itself: the node was in the stage, or enters it now. *)
Lemma hist_written r h t w base n a w' v f k :
  hist_inv h t w -> guarded (permitted r) [] h -> seen h f base k -> status_step r h f base k n ->
  rely (nodes w) v -> (exists n', nodes w' = <[Name n := n']> v /\ ncurrent n' = ncurrent n) ->
  S (ncurrent n) = true ->
  since S P (Name n) (t ++ [mkSysStep (Some (r, h, mkEv (ClientStatusPatchNode base n) a)) w']).
Proof.
  intros Hi Hg Hs Hst Hr (n' & Hw & Hc) HS.
  assert (Hnow : stays_in S (Name n) (nodes w')).
  { intros m. rewrite Hw, lookup_insert_eq. intros [= <-] _. by rewrite Hc. }
  destruct (S (ncurrent base)) eqn:Hb.
  - apply since_snoc; [|done]. assert (Name n = Name base) as -> by (by destruct Hst).
    destruct Hs. by eapply hi_seen.
  - exists t, (mkSysStep (Some (r, h, mkEv (ClientStatusPatchNode base n) a)) w'), [].
    split_and!; [done| |by constructor].
    exists r, h, base, n, a. split_and!; [done..|]. eapply entry; try done. apply Hi.
Qed.

Lemma hist_step_status r h t w base n a w' :
  hist_inv h t w -> guarded (permitted r) [] h ->
  permitted r h (mkEv (ClientStatusPatchNode base n) a) ->
  handle (ClientStatusPatchNode base n) w = (a, w') ->
  observed nodes w (mkEv (ClientStatusPatchNode base n) a) w' ->
  let e := mkEv (ClientStatusPatchNode base n) a in
  hist_inv (h ++ [e]) (t ++ [mkSysStep (Some (r, h, e)) w']) w'.
Proof.
  intros Hi Hg Hp E Ho e. pose proof Hp as (f & node & k & Hs & _ & -> & Hst).
  pose proof (store_status (nodes := nodes) _ _ _ _ _ E) as Hv.
  assert (Hstored : forall x m, nodes w' !! x = Some m -> S (ncurrent m) = true ->
    since S P x (t ++ [mkSysStep (Some (r, h, e)) w'])).
  { intros x m Hm HS. destruct Hv as [Hv|(_ & v & n' & Hr & Hw & Hc)].
    - by eapply (hist_rely_stored h t w w').
    - destruct (decide (x = Name n)) as [->|Hx].
      + eapply hist_written; eauto.
        rewrite Hw, lookup_insert_eq in Hm. injection Hm as <-. by rewrite <- Hc.
      + rewrite Hw, lookup_insert_ne in Hm by done.
        destruct (Hr _ _ Hm) as [Ec|(m0 & Hm0 & Ec)]; [by rewrite Ec, S_fresh in HS|].
        apply since_snoc; [eapply hi_stored; [done..|by rewrite Ec]|].
        simpl. intros m'. rewrite Hw, lookup_insert_ne by done. rewrite Hm. by intros [= <-]. }
  split.
  - eapply (run_inv_step nodes); [apply Hi|done..].
  - by intros t' s [_ <-]%app_inj_tail.
  - done.
  - intros m Hc. rewrite snoc_node. simpl in a. destruct a as [er|n']; simpl.
    + apply Forall_app in Hc as [_ Hc]. by apply Forall_inv in Hc.
    + intros [= <-]. apply Hstored. by eapply store_status_patch.
Qed.

Lemma hist_steps r w0 t0 w pre t w1 :
  hist_inv [] t0 w0 -> guarded (permitted r) [] pre -> run_steps r w pre t w1 -> w = w0 ->
  hist_inv pre (t0 ++ t) w1.
Proof.
  intros Hi Hg Hrun ->. induction Hrun as [w|w pre t w1 q a w2 Hrun IH E Ho].
  - by rewrite app_nil_r.
  - apply guarded_app in Hg as [Hg [Hp _]]. simpl in Hp. specialize (IH Hi Hg).
    rewrite app_assoc. destruct q; try (by eapply hist_step_other).
    by eapply hist_step_status.
Qed.

Lemma hist_inv_start h t w : hist_inv h t w -> hist_inv [] t w.
Proof.
  intros [Hr Hw Hs _]. split; [|done..]. destruct Hr. split; try done.
  intros e base n He. by apply not_elem_of_nil in He.
Qed.

Lemma history_inv w0 t w :
  exclusive (nodes w0) -> fresh_ok (nodes w0) ->
  (forall x n, nodes w0 !! x = Some n -> S (ncurrent n) = false) ->
  history w0 t w -> hist_inv [] t w.
Proof.
  intros He Hf Hi. induction 1 as [|t w w' _ IH Hr Hfr|t w r name evs w' res pre post t' w1 _ IH E -> Hrun].
  - split; [|by intros [|]|intros x n Hn HS; by rewrite (Hi _ _ Hn) in HS|done].
    split; try done. intros e base n Hin. by apply not_elem_of_nil in Hin.
  - split.
    + destruct (hi_run _ _ _ IH). split; try done; [by eapply rely_exclusive|by auto].
    + by intros t' s [_ <-]%app_inj_tail.
    + intros x n Hn HS. by eapply (hist_rely_stored [] t w w').
    + done.
  - apply Reconcile_protocol, guarded_app in E as [Hg _].
    eapply hist_inv_start, hist_steps; done.
Qed.

(** A node found in the stage entered it under the conditions, and stayed. *)
Lemma in_stage_since w0 t w x n :
  exclusive (nodes w0) -> fresh_ok (nodes w0) ->
  (forall x n, nodes w0 !! x = Some n -> S (ncurrent n) = false) ->
  history w0 t w -> nodes w !! x = Some n -> S (ncurrent n) = true -> since S P x t.
Proof. intros He Hf Hi Ht. by eapply hi_stored, history_inv. Qed.
End Stage.

(** ** The stages of the life cycle *)

(** Admitted to be drained: any state behind the health gate. *)
Definition past_gate (s : NodeCurrentState) : bool :=
  busy s && negb (s =? NodeCurrentStateNext)%string.
Definition is_next (s : NodeCurrentState) : bool := (s =? NodeCurrentStateNext)%string.
Definition is_rebooting (s : NodeCurrentState) : bool := (s =? NodeCurrentStateRebooting)%string.
(** Emptied: its pods have been evicted. *)
Definition emptied (s : NodeCurrentState) : bool :=
  (s =? NodeCurrentStateDrained)%string || is_rebooting s.

(** It was taken from the queue while no node was being worked on. *)
Definition chosen (r : nodeReconciler) (h : list Ev) (base n : Node) : Prop :=
  ncurrent base = NodeCurrentStateQueued /\
  exists items, last h = Some (mkEv ClientListNodes (inr items)) /\
    Forall (fun m => WorkState (ncurrent m) = false) items.

(** It was next, a drain was asked for, all nodes were ready, and every plugin
    supported agreed. *)
Definition admitted (r : nodeReconciler) (h : list Ev) (base n : Node) : Prop :=
  ncurrent base = NodeCurrentStateNext /\ Drain (nstate base) = true /\
  gate_passed (drainManager r) (Name n) h.

(** It was not our own node, it was cordoned, the pre-drain hooks of all plugins
    had succeeded, and evicting its pods just had. *)
Definition evicted (r : nodeReconciler) (h : list Ev) (base n : Node) : Prop :=
  Name n <> nodeName r /\ past_gate (ncurrent base) = true /\
  exists h' k, h = h' ++ [mkEv (RunNodeDrain drainHelper (Name n)) None] /\
    last_kube h = Some k /\ kn_Name k = Name n /\ kn_Unschedulable k = true /\
    predrain_done (drainManager r) (Name n) h'.

(** It was drained and a reboot was asked for. *)
Definition reboot_wanted (r : nodeReconciler) (h : list Ev) (base n : Node) : Prop :=
  reboot_due h base /\ exists k, last_kube h = Some k /\ kn_BootID k = BootID (Status n).

Section Entries.
Context `{!WaitLaws W} `{!ApiEcho W} `{!ApiStore W nodes}.
Implicit Types (r : nodeReconciler) (h : list Ev) (w : W) (f base n : Node) (k : KubeNode).

Lemma same_stage (S : NodeCurrentState -> bool) base n :
  S (ncurrent base) = false -> S (ncurrent n) = true -> ncurrent n = ncurrent base -> False.
Proof. congruence. Qed.

(** Writes that do not change the state, or end outside the stage. *)
Ltac not_entering Hb Hn :=
  try discriminate Hn; try (exfalso; exact (same_stage _ _ _ Hb Hn eq_refl)).

Lemma chosen_entry r h w f base k n :
  run_inv nodes h w -> guarded (permitted r) [] h -> seen h f base k ->
  status_step r h f base k n ->
  is_next (ncurrent base) = false -> is_next (ncurrent n) = true -> chosen r h base n.
Proof.
  intros _ _ _ Hst Hb Hn. destruct Hst; not_entering Hb Hn. split; eauto.
Qed.

Lemma emptying_past_gate r h w f base :
  run_inv nodes h w -> last_node h = Some base -> emptying r h f base ->
  past_gate (ncurrent base) = true.
Proof.
  intros Hi Hl (Hw & _ & Hws & Hne & _). unfold past_gate.
  apply andb_true_iff. split; [|by apply negb_true_iff, String.eqb_neq].
  apply busy_true_iff. split; [done|by eapply run_inv_wanted].
Qed.

Lemma admitted_entry r h w f base k n :
  run_inv nodes h w -> guarded (permitted r) [] h -> seen h f base k ->
  status_step r h f base k n ->
  past_gate (ncurrent base) = false -> past_gate (ncurrent n) = true -> admitted r h base n.
Proof.
  intros Hi _ Hs Hst Hb Hn. destruct Hst as [? Hc| | | | | | | | |He| |Hr|];
    not_entering Hb Hn.
  - by destruct Hc as [Hc|[Hc|Hc]]; rewrite Hc in Hb.
  - done.
  - erewrite emptying_past_gate in Hb; [done|done|apply Hs|done].
  - destruct Hr as (_ & Hc & _). by rewrite Hc in Hb.
Qed.

Lemma evicted_entry r h w f base k n :
  run_inv nodes h w -> guarded (permitted r) [] h -> seen h f base k ->
  status_step r h f base k n ->
  emptied (ncurrent base) = false -> emptied (ncurrent n) = true -> evicted r h base n.
Proof.
  intros Hi Hg Hs Hst Hb Hn. destruct Hst as [| | | | | | | | |He Hu Hself Hl| |Hr|];
    not_entering Hb Hn.
  - split_and!; [done|eapply emptying_past_gate; [done|apply Hs|done]|].
    apply last_Some in Hl as [h' Hh]. exists h', k. destruct Hs.
    split_and!; try done. rewrite Hh in Hg. apply guarded_app in Hg as [_ [Hp _]].
    destruct Hp as (f' & node & k' & _ & _ & _ & Hname & _ & _ & _ & Hpre). simpl in Hname.
    simpl. by rewrite Hname.
  - destruct Hr as (_ & Hc & _). by rewrite Hc in Hb.
Qed.

Lemma reboot_entry r h w f base k n :
  run_inv nodes h w -> guarded (permitted r) [] h -> seen h f base k ->
  status_step r h f base k n ->
  is_rebooting (ncurrent base) = false -> is_rebooting (ncurrent n) = true ->
  reboot_wanted r h base n.
Proof.
  intros _ _ Hs Hst Hb Hn. destruct Hst as [| | | | | | | | | | |Hr Hid|];
    not_entering Hb Hn.
  split; [done|]. exists k. destruct Hs. done.
Qed.

Lemma idle_exclusive v :
  (forall x n, v !! x = Some n -> busy (ncurrent n) = false) -> exclusive v.
Proof. intros Hv a b na nb Ha Hb Hba. by rewrite (Hv a na) in Hba. Qed.

(** C2. Where a node is tells what happened to it, in the executions in which what the
    controller reads is current and no object without a status asks for a drain, as
    for mutual exclusion.  Start with no node being worked on.  A node found in state
    Next was chosen from the queue by a reconciliation that had just listed all nodes
    and found none being worked on.  A node found behind the gate (in state Draining,
    Drained, Rebooting or Undraining) was let through it: it was next, its spec asked
    for a drain, all cluster nodes were ready and every plugin that supports the
    cluster had said that it is healthy and that this node may be drained.  A node
    found in state Drained or Rebooting is not the controller's own and its pods were
    evicted, after it had been cordoned and all pre-drain hooks had succeeded.  A node
    found in state Rebooting had a reboot requested when it was drained, with its boot
    id recorded.  In each case the record of the run has the write, and ever since the
    node has stayed in that stage, unless it was deleted and created anew. *)
Theorem stage_history w0 t w x n :
  (forall x n, nodes w0 !! x = Some n -> busy (ncurrent n) = false) -> fresh_ok (nodes w0) ->
  history w0 t w -> nodes w !! x = Some n ->
  (is_next (ncurrent n) = true -> since is_next chosen x t) /\
  (past_gate (ncurrent n) = true -> since past_gate admitted x t) /\
  (emptied (ncurrent n) = true -> since emptied evicted x t) /\
  (is_rebooting (ncurrent n) = true -> since is_rebooting reboot_wanted x t).
Proof.
  intros Hidle Hf Ht Hn. pose proof (idle_exclusive _ Hidle) as He.
  assert (Hout : forall S, (forall s, S s = true -> busy s = true) ->
    forall y m, nodes w0 !! y = Some m -> S (ncurrent m) = false).
  { intros S HS y m Hm. apply not_true_iff_false. intros Hc%HS. by rewrite (Hidle y m) in Hc. }
  split_and!; intros HS;
    (eapply in_stage_since; [..|exact HS]; try done;
     [eauto using chosen_entry, admitted_entry, evicted_entry, reboot_entry
     |apply Hout; intros s Hs]).
  - unfold is_next in Hs. by apply String.eqb_eq in Hs as ->.
  - by apply andb_true_iff in Hs as [? _].
  - apply orb_true_iff in Hs as [Hs|Hs]; by apply String.eqb_eq in Hs as ->.
  - by apply String.eqb_eq in Hs as ->.
Qed.
End Entries.
End History.
