(* ===== verification/Progress.v ===== *)
(** * Progress

    The safety theorems allow a controller that does nothing.  This file and
    [Rebooting.v] show that it gets somewhere, in any environment: a reconciliation
    whose interactions all go well does its work, returns without an error, and asks
    to be called again when there is more to do.

    What going well means is a condition on the interactions of the run itself
    ([favourable]), not on a cluster: the calls succeed, reads and patches return
    what is expected, all nodes are ready, the plugins agree, and no other node is
    being worked on.  The clock may show anything, and reboot checks that fall due
    are made on the way.  What a run has done is the list of its [steps].  Runs of
    one node are put together by the situations they start from: whatever happens
    in between, the next run starts from what it reads. *)

From stdpp Require Import base gmap strings list.
From S2P Require Import Prelude NodeTypes Json Requests Effects Plugins Config Utils DrainManager.
From S2P Require Import RebootManager NodeController Protocol.

Local Open Scope list_scope.

(** ** What a run does *)

(** The steps of the life cycle: the status, the spec and the cordon are set, pods
    are evicted, a pod that reaches into the host is created. *)
Inductive Step :=
  | StatusIs (current : NodeCurrentState) (drained : bool) (bootID : string)
  | SpecIs (state : NodeState)
  | CordonIs (unschedulable : bool)
  | Evicts (h : DrainHelper) (name : string)
  | Creates (p : Pod).

(** The part of the status the life cycle is about; the rest records reboot checks. *)
Definition life (n : Node) : NodeCurrentState * bool * string :=
  (ncurrent n, ndrained n, BootID (Status n)).

Definition step_of (q : Req) : option Step :=
  match q with
  | ClientStatusPatchNode base n =>
      if decide (life n = life base) then None
      else Some (StatusIs (ncurrent n) (ndrained n) (BootID (Status n)))
  | ClientPatchNode _ n => Some (SpecIs (nstate n))
  | ClientPatchKubeNode _ k => Some (CordonIs (kn_Unschedulable k))
  | RunNodeDrain h name => Some (Evicts h name)
  | PodsCreate _ p => if pod_HostPID p then Some (Creates p) else None
  | _ => None
  end.

Definition steps (evs : list Ev) : list Step := omap (fun e => step_of (ev_req e)) evs.

Lemma steps_app evs evs' : steps (evs ++ evs') = steps evs ++ steps evs'.
Proof. apply omap_app. Qed.

(** ** Interactions that go well *)

(** The interaction [e], after [h], in a run for the drain node [n] and the kube node
    [k]: the two objects are read as they are; a patch returns the object as patched
    (nobody edits it meanwhile); a later read of the kube node shows a cordon that
    was set before; no other node is being worked on; the nodes are ready, the
    plugins answer and agree; pods get created, run and are deleted, evictions
    succeed; and a reboot that was found to be required still is. *)
Definition favourable (n : Node) (k : KubeNode) (h : list Ev) (e : Ev) : Prop :=
  let '(mkEv q a) := e in
  match q return resp q -> Prop with
  | ClientGetKubeNode _ => fun a => a = inr k
  | ClientGetNode _ => fun a => a = inr n
  | ClientStatusPatchNode _ n' | ClientPatchNode _ n' => fun a => a = inr n'
  | ClientPatchKubeNode _ k' => fun a => a = inr k'
  | NodesGet _ => fun a => exists k', a = inr k' /\
      ((exists c, last_kube h = Some c /\ kn_Unschedulable c = true) -> kn_Unschedulable k' = true)
  | ClientListNodes => fun a => exists items, a = inr items /\
      Forall (fun m => WorkState (ncurrent m) = false) items
  | NodesList => fun a => exists items, a = inr items /\ nodes_ready items = true
  | NewForConfig | PodsDelete _ _ _ | PodsDeleteCollection _ _ _ | RunNodeDrain _ _ =>
      fun a => a = None
  | PodsCreate _ _ => fun a => exists p, a = inr p
  | PodsGet _ _ => fun a => exists p, a = (p, None) /\ pod_Phase p = PodRunning
  | NewSPDYExecutor _ _ _ | StreamWithContext _ _ _ =>
      fun a => RebootRequired (Status n) = Some true -> a = None
  | LabelSelectorIn _ _ => fun a => exists s, a = inr s
  | PluginRpc _ m => fun a => exists x, a = inr x /\
      match m return rpc_resp m -> Prop with
      | RpcIsSupported | RpcIsHealthy | RpcIsDrainOk _ => fun x => GetBool x = true
      | _ => fun _ => True
      end x
  | _ => fun _ => True
  end a.

(** A poll whose timeout leaves room for it checks its condition before it times out. *)
Class WaitPrompt (W : Type) `{Env W} `{Wait W} : Prop :=
  poll_checks d timeout cond (w w' : W) : (0 < d < timeout)%Z ->
    (forall w1, (cond w1).1.1 <> []) ->
    PollUntilContextTimeout d timeout false cond w <> ([mkEv (Sleep d) tt], w', inl errPollTimeout).

(** ** The logic *)

Section Delivers.
Context {W : Type} `{Env W} (good : list Ev -> Ev -> Prop).

(** Run after a history whose last kube node is [c], with interactions that are all
    good, [m] returns a value; [Q] tells of it, of the kube node then and of the
    steps taken. *)
Definition delivers {A} (m : M W A) (c : option KubeNode)
    (Q : A -> option KubeNode -> list Step -> Prop) : Prop :=
  forall h w evs w' r, last_kube h = c -> m w = (evs, w', r) -> guarded good h evs ->
    exists a, r = inr a /\ Q a (last_kube (h ++ evs)) (steps evs).

(** With a known outcome. *)
Definition gives {A} (m : M W A) c (a : A) c' (l : list Step) : Prop :=
  delivers m c (fun a' c'' l' => a' = a /\ c'' = c' /\ l' = l).

Lemma delivers_mono {A} (m : M W A) c (P Q : A -> option KubeNode -> list Step -> Prop) :
  delivers m c P -> (forall a c' l, P a c' l -> Q a c' l) -> delivers m c Q.
Proof.
  intros Hm HQ h w evs w' r Hc E Hg. destruct (Hm h w evs w' r Hc E Hg) as (a & -> & HP). eauto.
Qed.

Lemma delivers_ret {A} (a : A) c (Q : A -> option KubeNode -> list Step -> Prop) :
  Q a c [] -> delivers (mret a) c Q.
Proof.
  intros HQ h w evs w' r Hc [= <- <- <-] _. exists a. split; [done|]. by rewrite app_nil_r, Hc.
Qed.

Lemma gives_ret {A} (a : A) c : gives (mret a) c a c [].
Proof. by apply delivers_ret. Qed.

Lemma delivers_bind {A B} (m : M W A) (f : A -> M W B) c P Q :
  delivers m c P ->
  (forall a c' l, P a c' l -> delivers (f a) c' (fun b c'' l' => Q b c'' (l ++ l'))) ->
  delivers (m ≫= f) c Q.
Proof.
  intros Hm Hf h w evs w' r Hc E Hg. unfold mbind, M_bind in E.
  destruct (m w) as [[evs1 w1] r1] eqn:Em.
  assert (Hg1 : guarded good h evs1).
  { destruct r1 as [e|a]; [by injection E as <- <- <-|].
    destruct (f a w1) as [[evs2 w2] r2]. injection E as <- <- <-. by apply guarded_app in Hg as [? _]. }
  destruct (Hm h w evs1 w1 r1 Hc Em Hg1) as (a & -> & HP).
  destruct (f a w1) as [[evs2 w2] r2] eqn:Ef. injection E as <- <- <-.
  apply guarded_app in Hg as [_ Hg2].
  destruct (Hf _ _ _ HP (h ++ evs1) w1 evs2 w2 r2 eq_refl Ef Hg2) as (b & -> & HQ).
  exists b. split; [done|]. by rewrite steps_app, app_assoc.
Qed.

Lemma gives_bind {A B} (m : M W A) (f : A -> M W B) c a c1 l Q :
  gives m c a c1 l -> delivers (f a) c1 (fun b c2 l' => Q b c2 (l ++ l')) ->
  delivers (m ≫= f) c Q.
Proof. intros Hm Hf. eapply delivers_bind; [exact Hm|]. by intros ? ? ? (-> & -> & ->). Qed.

Lemma delivers_call q c (Q : resp q -> option KubeNode -> list Step -> Prop) :
  (forall h a, last_kube h = c -> good h (mkEv q a) ->
     Q a (upd_kube c (mkEv q a)) (option_list (step_of q))) ->
  delivers (call q) c Q.
Proof.
  intros HQ h w evs w' r Hc E Hg. apply call_run in E as (a & _ & -> & ->).
  destruct Hg as [Hg _]. exists a. split; [done|]. rewrite snoc_kube, Hc.
  replace (steps [mkEv q a]) with (option_list (step_of q))
    by (unfold steps; simpl; by destruct (step_of q)). eauto.
Qed.

Lemma delivers_wrap {A} p (m : M W A) c Q : delivers m c Q -> delivers (wrap p m) c Q.
Proof.
  intros Hm h w evs w' r Hc E Hg. unfold wrap in E.
  destruct (m w) as [[evs1 w1] [e|a]] eqn:Em; injection E as <- <- <-;
    destruct (Hm h w _ _ _ Hc Em Hg) as (a' & Ha & HQ); [done|]. injection Ha as <-. eauto.
Qed.

Lemma delivers_attempt {A} (m : M W A) c Q :
  delivers m c (fun a => Q (inr a)) -> delivers (attempt m) c Q.
Proof.
  intros Hm h w evs w' r Hc E Hg. apply attempt_run in E as (r' & E & ->).
  destruct (Hm h w _ _ _ Hc E Hg) as (a & -> & HQ). eauto.
Qed.

Lemma gives_attempt {A} (m : M W A) c a c' l :
  gives m c a c' l -> gives (attempt m) c (inr a) c' l.
Proof.
  intros Hm. apply delivers_attempt. eapply delivers_mono; [exact Hm|]. by intros ? ? ? (-> & -> & ->).
Qed.

Lemma delivers_call_bind {B} q (f : resp q -> M W B) c Q :
  (forall h a, last_kube h = c -> good h (mkEv q a) ->
     delivers (f a) (upd_kube c (mkEv q a)) (fun b c' l => Q b c' (option_list (step_of q) ++ l))) ->
  delivers (call q ≫= f) c Q.
Proof.
  intros Hf. eapply delivers_bind; [apply (delivers_call q c (fun a c' l => exists h,
    last_kube h = c /\ good h (mkEv q a) /\ c' = upd_kube c (mkEv q a) /\ l = option_list (step_of q)))|].
  - eauto.
  - intros a c' l (h & Hc & Hg & -> & ->). eauto.
Qed.

(** A call whose answer is known. *)
Lemma gives_call q c a :
  (forall h x, good h (mkEv q x) -> x = a) ->
  gives (call q) c a (upd_kube c (mkEv q a)) (option_list (step_of q)).
Proof. intros Ha. apply (delivers_call q). intros h x Hc Hg. by rewrite (Ha h x Hg). Qed.

(** Without steps, and without news of the kube node. *)
Definition yields {A} (m : M W A) (P : option KubeNode -> A -> Prop) : Prop :=
  forall c, delivers m c (fun a c' l => P c a /\ c' = c /\ l = []).

Lemma yields_bind {A B} (m : M W A) (f : A -> M W B) c P Q :
  yields m P -> (forall a, P c a -> delivers (f a) c Q) -> delivers (m ≫= f) c Q.
Proof. intros Hm Hf. eapply delivers_bind; [apply Hm|]. intros a ? ? (HP & -> & ->). by apply Hf. Qed.

Lemma yields_wrap {A} p (m : M W A) P : yields m P -> yields (wrap p m) P.
Proof. intros Hm c. apply delivers_wrap, Hm. Qed.

Lemma yields_attempt {A} (m : M W A) (P : option KubeNode -> A -> Prop) :
  yields m P -> yields (attempt m) (fun c x => exists a, x = inr a /\ P c a).
Proof.
  intros Hm c. apply delivers_attempt. eapply delivers_mono; [apply Hm|]. intros a c' l (? & -> & ->). eauto.
Qed.

(** What is tried may fail, when the error is looked at and dropped. *)
Definition idle_ev (e : Ev) : Prop := still_ev e /\ step_of (ev_req e) = None.

Lemma idle_steps evs : Forall idle_ev evs -> steps evs = [].
Proof.
  intros Hi. unfold steps. induction Hi as [|e evs [_ He] _ IH]; [done|]. simpl. by rewrite He.
Qed.

Lemma yields_try {A} (m : M W A) : emits idle_ev m -> yields (attempt m) (fun _ _ => True).
Proof.
  intros Hi c h w evs w' r Hc E _. apply attempt_run in E as (r' & E & ->). apply Hi in E. exists r'.
  split_and!; [done..| |by apply idle_steps]. rewrite <- Hc. apply still_seen.
  eapply Forall_impl; [exact E|]. by intros e [? _].
Qed.
End Delivers.

Arguments gives_bind {W good A B m f c a c1 l Q}.

(** ** Single operations *)

Section Operations.
Context {W : Type} `{Env W} `{Wait W} `{!WaitLaws W} `{!WaitPrompt W} `{ControllerUtil}.
Context (n0 : Node) (k0 : KubeNode).
Implicit Types (n : Node) (k : KubeNode) (r : nodeReconciler) (c : option KubeNode).

Local Notation gives := (gives (W := W) (favourable n0 k0)).
Local Notation delivers := (delivers (W := W) (favourable n0 k0)).
Local Notation yields := (yields (W := W) (favourable n0 k0)).

(** The step of a status patch. *)
Definition status_step_of (n n' : Node) : list Step := option_list (step_of (ClientStatusPatchNode n n')).

Lemma status_patch_gives c n n' p :
  gives (res ← call (ClientStatusPatchNode n n'); wrap p (lift res)) c n' c (status_step_of n n').
Proof.
  eapply gives_bind; [by apply (gives_call _ (ClientStatusPatchNode n n')); intros h x ->|].
  apply delivers_wrap, delivers_ret. by rewrite app_nil_r.
Qed.

Lemma status_patch_moves c n n' p cur d b :
  ncurrent n' = cur -> ndrained n' = d -> BootID (Status n') = b -> life n' <> life n ->
  gives (res ← call (ClientStatusPatchNode n n'); wrap p (lift res)) c n' c [StatusIs cur d b].
Proof.
  intros <- <- <- Hne. eapply delivers_mono; [apply status_patch_gives|].
  intros a c' l (-> & -> & ->). unfold status_step_of. simpl. by rewrite decide_False.
Qed.

Lemma setCurrentState_gives c n s :
  ncurrent n <> s ->
  gives (setCurrentState n s) c (set_CurrentState n s) c
    [StatusIs s (ndrained n) (BootID (Status n))].
Proof.
  intros Hne. unfold setCurrentState. destruct (String.eqb_spec (ncurrent n) s) as [|_]; [done|].
  apply status_patch_moves; [done..|]. intros [= E]. by apply Hne.
Qed.

Lemma setCurrentState_same c n s : ncurrent n = s -> gives (setCurrentState n s) c n c [].
Proof. intros <-. unfold setCurrentState. rewrite String.eqb_refl. apply gives_ret. Qed.

Lemma setDrained_gives c n :
  ndrained n = true ->
  gives (setDrained n false) c (set_Drained n false) c
    [StatusIs (ncurrent n) false (BootID (Status n))].
Proof.
  intros Hd. apply status_patch_moves; [done..|]. unfold life. rewrite Hd. by intros [=].
Qed.

Lemma setState_gives c n s :
  nstate n <> s -> gives (setState n s) c (set_State n s) c [SpecIs s].
Proof.
  intros Hne. unfold setState. destruct (String.eqb_spec (nstate n) s) as [|_]; [done|]. cbv zeta.
  eapply gives_bind; [by apply (gives_call _ (ClientPatchNode n (set_State n s))); intros h x ->|].
  by apply delivers_wrap, delivers_ret.
Qed.

(** Setting the schedulability, with a step only if it changes. *)
Definition cordoning k (b : bool) : list Step :=
  if eqb (kn_Unschedulable k) b then [] else [CordonIs b].

Lemma set_same_Unschedulable k : set_Unschedulable k (kn_Unschedulable k) = k.
Proof. by destruct k. Qed.

Lemma setUnschedulable_gives k b :
  gives (setUnschedulable k b) (Some k) (set_Unschedulable k b) (Some (set_Unschedulable k b))
    (cordoning k b).
Proof.
  unfold setUnschedulable, cordoning. destruct (Bool.eqb_spec (kn_Unschedulable k) b) as [<-|Hne]; simpl.
  - rewrite set_same_Unschedulable. apply gives_ret.
  - eapply gives_bind;
      [by apply (gives_call _ (ClientPatchKubeNode k (set_Unschedulable k b))); intros h x ->|].
    by apply delivers_wrap, delivers_ret.
Qed.


(** The answers that matter no further. *)
Lemma eventf_gives c a t re me : gives (call (Eventf a t re me)) c tt c [].
Proof. apply (gives_call _ (Eventf a t re me)). by intros h []. Qed.


Lemma CleanupNode_gives rm name c : name <> EmptyString -> gives (CleanupNode rm name) c tt c [].
Proof.
  intros Hn. unfold CleanupNode. apply String.eqb_neq in Hn. rewrite Hn.
  apply (delivers_call_bind _ (LabelSelectorIn _ _)). intros h ? _ [s ->].
  eapply gives_bind; [apply gives_ret|].
  eapply gives_bind; [by apply (gives_call _ (PodsDeleteCollection _ _ _)); intros h' x ->|].
  eapply gives_bind; [apply delivers_wrap, gives_ret|]. by apply delivers_ret.
Qed.

(** *** Reboot checks *)

(** The poll for a pod to run ends at its first check. *)
Lemma poll_running_gives name ns c :
  gives (PollUntilContextTimeout Second (30 * Second) false (IsPodRunning name ns)) c tt c [].
Proof.
  intros h w evs w' res Hc E Hg. pose proof (poll_law Second (30 * Second)%Z (IsPodRunning name ns) w) as Hrun.
  rewrite E in Hrun.
  assert (Hcond : forall w1 evs' w2 x, IsPodRunning name ns w1 = (evs', w2, x) ->
    guarded (favourable n0 k0) (h ++ [mkEv (Sleep Second) tt]) evs' ->
    x = inr true /\ last_kube (h ++ mkEv (Sleep Second) tt :: evs') = c /\ steps evs' = []).
  { intros w1 evs' w2 x Ei Hg'.
    assert (Hi : gives (IsPodRunning name ns) c true c []).
    { apply (delivers_call_bind _ (PodsGet ns name)). intros ? a _ (p & -> & Hp).
      eapply gives_bind; [apply gives_ret|]. rewrite Hp. by apply delivers_ret. }
    destruct (Hi (h ++ [mkEv (Sleep Second) tt]) w1 evs' w2 x) as (b & -> & -> & Hl & Hs); try done.
    { by rewrite snoc_kube, Hc. }
    rewrite <- app_assoc in Hl. done. }
  inversion Hrun as [? ? Hs|? ? ? ? Hs Hx|? ? ? ? ? Hs Hx|? ? ? ? ? ? ? Hs Hx Hr]; subst; clear Hrun.
  - exfalso. eapply poll_checks; [| |exact E]; [unfold Second; lia|]. intros w1.
    unfold IsPodRunning, mbind, M_bind, call. destruct (handle (PodsGet ns name) w1) as [a w2].
    destruct (_ : M W bool) as [[? ?] [?|?]]; simpl; done.
  - destruct Hg as [_ Hg]. destruct (Hcond _ _ _ _ Hx Hg) as (_ & Hl & Hst). exists tt. by split_and!.
  - destruct Hg as [_ Hg]. by destruct (Hcond _ _ _ _ Hx Hg).
  - destruct Hg as [_ Hg]. apply guarded_app in Hg as [Hg _]. by destruct (Hcond _ _ _ _ Hx Hg).
Qed.

(** Reading the kube node again. *)
Lemma GetNode_yields name :
  yields (GetNode name) (fun c o => exists k', o = Some k' /\
    ((exists k, c = Some k /\ kn_Unschedulable k = true) -> kn_Unschedulable k' = true)).
Proof.
  intros c. apply (delivers_call_bind _ (NodesGet name)). intros h a Hc (k' & -> & Hk). apply delivers_ret.
  rewrite Hc in Hk. simpl. eauto.
Qed.

(** The test command succeeds where a reboot was required. *)
Lemma ExecCmd_yields ns name cmd i :
  yields (attempt (ExecCmd ns name cmd i))
    (fun _ x => RebootRequired (Status n0) = Some true -> x = inr tt).
Proof.
  destruct (decide (RebootRequired (Status n0) = Some true)) as [Hr|Hr].
  - intros c. apply delivers_attempt. unfold ExecCmd. cbv zeta.
    eapply gives_bind; [apply (gives_call _ (NewSPDYExecutor _ _ _) _ None); intros h x Hx; by apply Hx|].
    eapply gives_bind; [apply gives_ret|].
    eapply gives_bind; [apply (gives_call _ (StreamWithContext _ _ _) _ None); intros h x Hx; by apply Hx|].
    eapply gives_bind; [apply gives_ret|]. by apply delivers_ret.
  - intros c. eapply delivers_mono; [apply yields_try|]; [unfold ExecCmd; by emits_auto|].
    intros x c' l (_ & -> & ->). done.
Qed.

(** A check answers, and confirms a reboot that was required. *)
Lemma RM_IsRebootRequired_yields rm name :
  yields (RM_IsRebootRequired rm name)
    (fun _ b => RebootRequired (Status n0) = Some true -> b = true).
Proof.
  intros c. eapply yields_bind; [apply GetNode_yields|]. intros ? (k' & -> & _).
  apply (delivers_call_bind _ (PodsCreate _ _)). intros h a _ (p & ->).
  eapply gives_bind; [apply delivers_wrap, gives_ret|].
  eapply (yields_bind _ _ _ _ (fun _ x => exists b, x.2 = inr b /\
    (RebootRequired (Status n0) = Some true -> b = true))).
  - intros c'. unfold rebootRequiredBody. eapply yields_bind; [eapply yields_attempt|].
    { intros c''. eapply delivers_mono; [apply poll_running_gives|]. intros x ? ? (Hx & -> & ->).
      split_and!; [exact (conj Hx I)|done..]. }
    intros ? (x & -> & _). apply (delivers_call_bind _ (PodsGet _ _)). intros h' ? _ (p' & -> & _).
    eapply yields_bind; [apply ExecCmd_yields|]. intros x' Hx. apply delivers_ret. split_and!; [|done..].
    eexists. split; [done|]. intros Hr. by rewrite (Hx Hr).
  - intros [p' x] (b & Hb & Hreq). simpl in Hb. subst x.
    eapply gives_bind; [by apply (gives_call _ (PodsDelete _ _ _)); intros h' x ->|].
    by apply delivers_ret.
Qed.

(** A check leaves the rest of the node alone. *)
Definition checked (n n' : Node) : Prop :=
  Name n' = Name n /\ nstate n' = nstate n /\ life n' = life n /\
  (RebootRequired (Status n0) = Some true ->
   RebootRequired (Status n) = Some true -> RebootRequired (Status n') = Some true).

Lemma checked_refl n : checked n n.
Proof. by split_and!. Qed.


Lemma isRebootRequired_yields r n :
  yields (isRebootRequired r n) (fun _ '(b, n') => checked n n' /\
    (RebootRequired (Status n0) = Some true -> b = true)).
Proof.
  intros c. unfold isRebootRequired.
  eapply yields_bind; [apply yields_wrap, RM_IsRebootRequired_yields|]. intros b Hb. cbv zeta.
  apply (delivers_call_bind _ Now). intros h now _ _.
  apply (delivers_call_bind _ (ClientStatusPatchNode _ _)). intros h' x _ ->.
  eapply gives_bind; [apply delivers_wrap, gives_ret|].
  eapply gives_bind; [destruct b; [apply eventf_gives|apply gives_ret]|].
  apply delivers_ret. simpl. rewrite decide_True by done. split_and!; try done.
  split_and!; [done..|]. intros Hr _. simpl. by rewrite (Hb Hr).
Qed.

Lemma olderThan_yields t d : yields (olderThan t d) (fun _ _ => True).
Proof.
  intros c. unfold olderThan. destruct t as [t|]; [|by apply delivers_ret].
  destruct (IsZero t); [by apply delivers_ret|].
  apply (delivers_call_bind _ Now). intros h now _ _. by apply delivers_ret.
Qed.

Lemma checkRebootRequired_yields r n : yields (checkRebootRequired r n) (fun _ n' => checked n n').
Proof.
  intros c. unfold checkRebootRequired. pose proof (checked_refl n).
  destruct (WorkState _); [by apply delivers_ret|]. cbv zeta.
  eapply yields_bind; [apply olderThan_yields|]. intros due _. destruct due; [|by apply delivers_ret].
  eapply yields_bind; [apply isRebootRequired_yields|]. intros [b n'] [Hn' _]. by apply delivers_ret.
Qed.


(** *** Plugins *)

Lemma range_map_yields {V} (m : gmap string V) : yields (range_map m) (fun _ _ => True).
Proof.
  intros c. unfold range_map. cbv zeta. apply (delivers_call_bind _ (MapRange _)). intros. by apply delivers_ret.
Qed.

(** Every question is answered with yes. *)
Lemma supported_yields path : yields (IsSupported (DrainClient path)) (fun _ b => b = true).
Proof.
  intros c. apply (delivers_call_bind _ (PluginRpc path RpcIsSupported)). intros h a _ (x & -> & Hx).
  eapply gives_bind; [apply gives_ret|]. by apply delivers_ret.
Qed.



Lemma IsClusterNodesHealthy_yields : yields IsClusterNodesHealthy (fun _ b => b = true).
Proof.
  intros c. apply (delivers_call_bind _ NodesList). intros h a _ (items & -> & Hr).
  eapply gives_bind; [apply gives_ret|]. by apply delivers_ret.
Qed.



Lemma run_hooks_yields (hook : string -> string -> M W unit) what name l :
  (forall path, yields (hook path name) (fun _ _ => True)) -> yields (run_hooks hook what name l) (fun _ _ => True).
Proof.
  intros Hh. induction l as [|[id cl] l IH]; intros c; simpl; [by apply delivers_ret|].
  eapply yields_bind; [apply supported_yields|]. intros ? ->. simpl.
  eapply yields_bind; [apply yields_attempt, Hh|]. intros ? (u & -> & _). apply IH.
Qed.


Lemma RunPostDrain_yields d n : yields (RunPostDrain d n) (fun _ _ => True).
Proof.
  intros c. eapply yields_bind; [apply range_map_yields|]. intros l _.
  eapply yields_bind; [apply run_hooks_yields|intros _ _].
  - intros path c'. apply (delivers_call_bind _ (PluginRpc path (RpcPostDrain _))). intros h a _ (x & -> & _).
    by apply delivers_ret.
  - eapply delivers_mono; [apply eventf_gives|]. by intros ? ? ? (-> & -> & ->).
Qed.

(** *** Draining *)






(** *** Undraining *)

Lemma undrainUncordon_gives k :
  gives (undrainUncordon k) (Some k) (Some (set_Unschedulable k false))
    (Some (set_Unschedulable k false)) (cordoning k false).
Proof.
  unfold undrainUncordon. destruct (kn_Unschedulable k) eqn:Hu.
  - eapply yields_bind; [apply yields_attempt, IsClusterNodesHealthy_yields|]. intros ? (b & -> & ->).
    eapply gives_bind; [apply gives_attempt, setUnschedulable_gives|]. apply delivers_ret. by rewrite app_nil_r.
  - assert (Hk : set_Unschedulable k false = k) by (rewrite <- Hu; apply set_same_Unschedulable).
    rewrite Hk. unfold cordoning. rewrite Hu. apply gives_ret.
Qed.

(** The node back in service. *)
Definition restored_node n : Node :=
  set_CurrentState (if ndrained n then set_Drained n false else n) NodeCurrentStateOk.

Definition restore_steps n : list Step :=
  (if ndrained n then [StatusIs NodeCurrentStateUndraining false (BootID (Status n))] else []) ++
  [StatusIs NodeCurrentStateOk false (BootID (Status n))].

Lemma undrainFinish_gives r n k c :
  ncurrent n = NodeCurrentStateUndraining ->
  gives (undrainFinish r n k) c (true, Result0, restored_node n, k) c (restore_steps n).
Proof.
  intros Hc. unfold undrainFinish, restored_node, restore_steps.
  eapply yields_bind; [apply yields_attempt, RunPostDrain_yields|]. intros ? (u & -> & _).
  assert (Hok : forall n', ncurrent n' = NodeCurrentStateUndraining ->
    gives (node ← setCurrentState n' NodeCurrentStateOk;
           _ ← call (Eventf (Name node) EventTypeNormal "Undrain" "Undrained successfully");
           mret (true, Result0, node, k)) c
      (true, Result0, set_CurrentState n' NodeCurrentStateOk, k) c
      [StatusIs NodeCurrentStateOk (ndrained n') (BootID (Status n'))]).
  { intros n' Hc'. eapply gives_bind; [apply setCurrentState_gives; by rewrite Hc'|].
    eapply gives_bind; [apply eventf_gives|]. by apply delivers_ret. }
  destruct (ndrained n) eqn:Hd.
  - eapply gives_bind; [by apply gives_attempt, setDrained_gives|]. eapply delivers_mono; [by apply Hok|].
    intros x c' l (-> & -> & ->). by rewrite Hc.
  - eapply gives_bind; [apply gives_ret|]. eapply delivers_mono; [by apply Hok|].
    intros x c' l (-> & -> & ->). by rewrite Hd.
Qed.

(** ** Reconciliations *)

(** The part after the deletion check decides the run. *)
Lemma Reconcile_delivers r name Q :
  deleting n0 = false -> delivers (reconcileLive r n0 k0) (Some k0) Q ->
  delivers (Reconcile r name) None Q.
Proof.
  intros Hdel Hl. unfold Reconcile.
  apply (delivers_call_bind _ (ClientGetKubeNode name)). intros h a _ ->.
  eapply gives_bind; [apply gives_ret|].
  apply (delivers_call_bind _ (ClientGetNode name)). intros h' a _ ->. unfold deleting in Hdel.
  destruct (DeletionTimestamp n0) as [t|]; [rewrite Hdel|]; exact Hl.
Qed.


Lemma checked_fields n n' :
  checked n n' -> Name n' = Name n /\ nstate n' = nstate n /\ ncurrent n' = ncurrent n /\
  ndrained n' = ndrained n /\ BootID (Status n') = BootID (Status n).
Proof. by intros (? & ? & [= ? ? ?] & _). Qed.




(** A run for the two objects goes through and takes the steps [l]. *)
Definition takes r (res : Result) (l : list Step) : Prop :=
  forall (w : W) evs w' out, Reconcile r (Name n0) w = (evs, w', out) ->
    guarded (favourable n0 k0) [] evs -> out = inr res /\ steps evs = l.

Lemma delivers_takes r res l :
  deleting n0 = false ->
  delivers (reconcileLive r n0 k0) (Some k0) (fun a _ l' => a = res /\ l' = l) -> takes r res l.
Proof.
  intros Hdel Hl w evs w' out E Hg.
  destruct (Reconcile_delivers r (Name n0) _ Hdel Hl [] w evs w' out eq_refl E Hg) as (a & -> & -> & ->).
  done.
Qed.

Section DrainRuns.
Context (r : nodeReconciler) (Hdel : deleting n0 = false) (Hs : Drain (nstate n0) = true).




End DrainRuns.
End Operations.

(** ** One run after the other *)

(** What the two objects say about where the node is. *)
Record View := mkView {
  v_spec : NodeState;
  v_status : NodeCurrentState * bool * string;
  v_cordoned : bool
}.

Definition view (n : Node) (k : KubeNode) : View := mkView (nstate n) (life n) (kn_Unschedulable k).

Definition advance (v : View) (s : Step) : View :=
  match s with
  | StatusIs c d b => mkView (v_spec v) (c, d, b) (v_cordoned v)
  | SpecIs s => mkView s (v_status v) (v_cordoned v)
  | CordonIs u => mkView (v_spec v) (v_status v) u
  | Evicts _ _ | Creates _ => v
  end.

Section Rounds.
Context {W : Type} `{Env W} `{Wait W} `{ControllerUtil} (r : nodeReconciler) (x : string).

(** Runs for [x] that all go well, from one view to another: each finds the objects
    as the runs before it have left them, in any world and with anything in between
    that leaves the view alone.  [P] is what else is known of the objects read; the
    outcome and the steps of each run are listed. *)
Inductive rounds (P : Node -> KubeNode -> Prop) : View -> list ((error + Result) * list Step) -> View -> Prop :=
  | rounds_none v : rounds P v [] v
  | rounds_run n k (w : W) evs w' out v outs v' :
      Name n = x -> kn_Name k = x -> deleting n = false -> P n k -> v = view n k ->
      Reconcile r x w = (evs, w', out) -> guarded (favourable n k) [] evs ->
      rounds P (foldl advance v (steps evs)) outs v' ->
      rounds P v ((out, steps evs) :: outs) v'.

(** One more round, when its steps are known. *)
Lemma rounds_takes P v o outs v' :
  rounds P v (o :: outs) v' ->
  exists n k, Name n = x /\ kn_Name k = x /\ deleting n = false /\ P n k /\ v = view n k /\
    forall res l, takes (W := W) n k r res l -> o = (inr res, l) /\ rounds P (foldl advance v l) outs v'.
Proof.
  inversion 1 as [|n k w evs w' out v0 outs0 v1 Hn Hk Hdel HP Hv E Hg Hrest]; subst.
  exists n, k. split_and!; try done. intros res l Ht. rewrite <- Hn in E. destruct (Ht _ _ _ _ E Hg) as [-> <-]. done.
Qed.

Lemma rounds_nil P v v' : rounds P v [] v' -> v' = v.
Proof. by inversion 1. Qed.
End Rounds.

Lemma view_fields n k s c d b u :
  mkView s (c, d, b) u = view n k ->
  nstate n = s /\ ncurrent n = c /\ ndrained n = d /\ BootID (Status n) = b /\ kn_Unschedulable k = u.
Proof. by intros [= -> -> -> -> ->]. Qed.


(** The two halves of an undrain. *)
Lemma undrain_enter_takes {W} `{Env W} `{Wait W} `{ControllerUtil} n k r :
  deleting n = false -> nstate n = NodeStateActive ->
  ncurrent n = NodeCurrentStateDrained \/ ncurrent n = NodeCurrentStateDraining \/
    ncurrent n = NodeCurrentStateRebooting ->
  takes (W := W) n k r (mkResult 1)
    [StatusIs NodeCurrentStateUndraining (ndrained n) (BootID (Status n))].
Proof.
  intros Hdel Hs Hc. apply delivers_takes; [done|]. unfold reconcileLive.
  eapply (gives_bind (a := (false, mkResult 1, set_CurrentState n NodeCurrentStateUndraining, k))).
  - unfold undrain. rewrite Hs.
    assert (Hif : String.eqb (ncurrent n) NodeCurrentStateUndraining = false /\
      (String.eqb (ncurrent n) NodeCurrentStateDrained || String.eqb (ncurrent n) NodeCurrentStateDraining
       || String.eqb (ncurrent n) NodeCurrentStateRebooting) = true)
      by (by destruct Hc as [-> |[-> | ->]]). destruct Hif as [-> ->]. simpl.
    eapply gives_bind; [apply setCurrentState_gives; by destruct Hc as [-> |[-> | ->]]|]. by apply delivers_ret.
  - by apply delivers_ret.
Qed.

Lemma undrain_finish_takes {W} `{Env W} `{Wait W} `{!WaitLaws W} `{!WaitPrompt W} `{ControllerUtil} n k r :
  deleting n = false -> nstate n = NodeStateActive -> ncurrent n = NodeCurrentStateUndraining ->
  Name n <> EmptyString ->
  takes (W := W) n k r Result0 (cordoning k false ++ restore_steps n).
Proof.
  intros Hdel Hs Hc Hn. apply delivers_takes; [done|]. unfold reconcileLive.
  set (k' := set_Unschedulable k false).
  eapply (gives_bind (a := (true, Result0, restored_node n, k')) (c1 := Some k')).
  { unfold undrain. rewrite Hc. simpl. eapply gives_bind; [apply undrainUncordon_gives|].
    eapply delivers_mono; [by apply undrainFinish_gives|]. by intros a c l (-> & -> & ->). }
  assert (Hr : nstate (restored_node n) = NodeStateActive /\ ndrained (restored_node n) = false /\
    Name (restored_node n) = Name n /\ ncurrent (restored_node n) = NodeCurrentStateOk).
  { unfold restored_node. by destruct (ndrained n) eqn:Hd. }
  destruct Hr as (Hrs & Hrd & Hrn & Hrc). cbv iota zeta. rewrite Hrd, andb_false_r. simpl negb. cbv iota.
  eapply gives_bind; [apply gives_ret|].
  eapply yields_bind; [apply checkRebootRequired_yields|]. intros n' Hn'.
  apply checked_fields in Hn' as (Hn1 & Hs1 & Hc1 & _). rewrite Hrs in Hs1. rewrite Hrc in Hc1. rewrite Hrn in Hn1.
  unfold reconcileSpec. rewrite Hs1. simpl String.eqb. cbv iota zeta.
  destruct (_ && _).
  - eapply (gives_bind (a := inl Result0)).
    + eapply gives_bind; [apply eventf_gives|]. by apply delivers_ret.
    + apply delivers_ret. by rewrite !app_nil_r.
  - eapply (gives_bind (a := inr (n', k'))).
    + eapply gives_bind; [eapply (setUnschedulable_gives n k k')|].
      eapply gives_bind; [by apply setCurrentState_same|].
      eapply gives_bind; [apply gives_attempt, CleanupNode_gives; by rewrite Hn1|]. by apply delivers_ret.
    + cbv iota. rewrite Hc1. simpl. apply delivers_ret. by rewrite !app_nil_r.
Qed.

Lemma rounds_undrain {W} `{Env W} `{Wait W} `{!WaitLaws W} `{!WaitPrompt W} `{ControllerUtil}
    r x P c d b u o1 o2 v :
  c = NodeCurrentStateDrained \/ c = NodeCurrentStateDraining \/ c = NodeCurrentStateRebooting ->
  x <> EmptyString ->
  rounds (W := W) r x P (mkView NodeStateActive (c, d, b) u) [o1; o2] v ->
  o1 = (inr (mkResult 1), [StatusIs NodeCurrentStateUndraining d b]) /\
  o2 = (inr Result0,
    (if u then [CordonIs false] else []) ++
    (if d then [StatusIs NodeCurrentStateUndraining false b] else []) ++
    [StatusIs NodeCurrentStateOk false b]) /\
  v = mkView NodeStateActive (NodeCurrentStateOk, false, b) false.
Proof.
  intros Hc Hx Hr. apply rounds_takes in Hr as (n & k & Hn & _ & Hdel & _ & Hv & Hnext).
  apply view_fields in Hv as (Hs & <- & <- & <- & <-).
  destruct (Hnext _ _ (undrain_enter_takes n k r Hdel Hs Hc)) as [-> Hr].
  apply rounds_takes in Hr as (n2 & k2 & Hn2 & _ & Hdel2 & _ & Hv & Hnext2).
  simpl in Hv. apply view_fields in Hv as (Hs2 & Hc2 & Hd2 & Hb2 & Hu2). rewrite <- Hn2 in Hx.
  destruct (Hnext2 _ _ (undrain_finish_takes n2 k2 r Hdel2 Hs2 Hc2 Hx)) as [-> Hr2].
  apply rounds_nil in Hr2 as ->. unfold cordoning, restore_steps. rewrite Hb2, Hd2, Hu2. simpl.
  by destruct (kn_Unschedulable k), (ndrained n).
Qed.

(** ** Properties *)


(** C7. A drained node comes back, in any environment.  Two consecutive
    reconciliations for a node in Drained, Draining or Rebooting whose spec says
    Active, and whose interactions all go well, succeed: the first moves it to
    Undraining and asks for an immediate retry, the second makes the kube node
    schedulable if it was not, clears the drained flag if it was set, and records
    OK. *)
Theorem undrain_completes {W} `{Env W} `{Wait W} `{!WaitLaws W} `{!WaitPrompt W} `{ControllerUtil}
    r x c d b u o1 o2 v :
  c = NodeCurrentStateDrained \/ c = NodeCurrentStateDraining \/ c = NodeCurrentStateRebooting ->
  x <> EmptyString ->
  rounds (W := W) r x (fun _ _ => True) (mkView NodeStateActive (c, d, b) u) [o1; o2] v ->
  o1 = (inr (mkResult 1), [StatusIs NodeCurrentStateUndraining d b]) /\
  o2 = (inr Result0,
    (if u then [CordonIs false] else []) ++
    (if d then [StatusIs NodeCurrentStateUndraining false b] else []) ++
    [StatusIs NodeCurrentStateOk false b]) /\
  v = mkView NodeStateActive (NodeCurrentStateOk, false, b) false.
Proof. apply rounds_undrain. Qed.
