(* ===== verification/Rebooting.v ===== *)
(** * A requested reboot, end to end

    The liveness of the reboot cycle, over [Progress.v]: six reconciliations that go
    well drain the node, reboot it, notice that it is back, and undrain it.  For real
    machines: with [containerNode] set no machine is rebooted. *)

From stdpp Require Import base gmap strings list.
From S2P Require Import Prelude NodeTypes Json Requests Effects Plugins Config Utils DrainManager.
From S2P Require Import RebootManager NodeController Protocol Progress.

Local Open Scope list_scope.

Section Reboot.
Context {W : Type} `{Env W} `{Wait W} `{!WaitLaws W} `{!WaitPrompt W} `{ControllerUtil}.
Context (n0 : Node) (k0 : KubeNode) (r : nodeReconciler).
Context (Hreal : ContainerNode (rm_config (rebootManager r)) = false).
Implicit Types (n : Node) (k : KubeNode).

Local Notation gives := (gives (W := W) (favourable n0 k0)).
Local Notation delivers := (delivers (W := W) (favourable n0 k0)).






End Reboot.

(** ** The runs *)

Section Runs.
Context {W : Type} `{Env W} `{Wait W} `{!WaitLaws W} `{!WaitPrompt W} `{ControllerUtil}.
Context (n : Node) (k : KubeNode) (r : nodeReconciler).
Context (Hreal : ContainerNode (rm_config (rebootManager r)) = false).
Context (Hdel : deleting n = false) (Hs : nstate n = NodeStateRebootIfRequired).


End Runs.

(** ** Properties *)

