(* ===== verification/ApiServer.v ===== *)
(** * A model cluster

    A concrete, executable environment for the operator: an API server holding drain
    nodes, kube nodes and pods, a clock, and one plugin process running the example
    plugin.  No property of the operator is stated in it: the theorems are about any
    environment that satisfies their hypotheses.  It is the instance that shows that
    those hypotheses ([WaitLaws], [WaitPrompt], [PodsGetLaws], [ApiEcho], [ApiStore],
    [OwnerReferenceLaws], [RpcTransport], [ControllerUtilLaws]) can hold together, and
    the witnesses run the operator in it.

    It is one that goes well: evictions succeed, pods run at once, nobody edits an
    object during a reconciliation.  Status patches are merge patches onto the status
    the patch was made from; one made from another status is refused. *)

From stdpp Require Import base gmap strings list.
From S2P Require Import Prelude NodeTypes Json Requests Effects Plugins Config Utils DrainManager.
From S2P Require Import RebootManager NodeController Traces Protocol Exclusion Progress.

Local Open Scope string_scope.
Local Open Scope list_scope.

Record Cluster := mkCluster {
  c_nodes : gmap string Node;
  c_kube : gmap string KubeNode;
  c_pods : gmap string Pod;
  c_clock : Z;
  c_plugin : bool;              (* the example plugin's logger is set *)
  c_file : bool;                (* /var/run/reboot-required exists on the hosts *)
  c_pod_reads : option nat      (* how many more reads of pods succeed, if limited *)
}.

Definition with_nodes (c : Cluster) (v : gmap string Node) : Cluster :=
  mkCluster v (c_kube c) (c_pods c) (c_clock c) (c_plugin c) (c_file c) (c_pod_reads c).
Definition with_kube (c : Cluster) (v : gmap string KubeNode) : Cluster :=
  mkCluster (c_nodes c) v (c_pods c) (c_clock c) (c_plugin c) (c_file c) (c_pod_reads c).
Definition with_pods (c : Cluster) (v : gmap string Pod) : Cluster :=
  mkCluster (c_nodes c) (c_kube c) v (c_clock c) (c_plugin c) (c_file c) (c_pod_reads c).
Definition with_clock (c : Cluster) (t : Z) : Cluster :=
  mkCluster (c_nodes c) (c_kube c) (c_pods c) t (c_plugin c) (c_file c) (c_pod_reads c).
Definition with_plugin (c : Cluster) (p : bool) : Cluster :=
  mkCluster (c_nodes c) (c_kube c) (c_pods c) (c_clock c) p (c_file c) (c_pod_reads c).

Definition with_reads (c : Cluster) (r : option nat) : Cluster :=
  mkCluster (c_nodes c) (c_kube c) (c_pods c) (c_clock c) (c_plugin c) (c_file c) r.

Definition notFound : error := StatusError true "not found".
Definition conflict : error := StatusError false "already exists".
Definition denied : error := StatusError false "the request was denied".

(** Objects are read under the name they carry. *)
Definition find_node (c : Cluster) (name : string) : option Node :=
  n ← c_nodes c !! name; if Name n =? name then Some n else None.

Definition find_kube (c : Cluster) (name : string) : error + KubeNode :=
  match c_kube c !! name with
  | Some k => if kn_Name k =? name then inr k else inl notFound
  | None => inl notFound
  end.

Definition found {A} (o : option A) : error + A :=
  match o with Some a => inr a | None => inl notFound end.

(** Pod names are generated from the prefix and the clock. *)
Definition name_pod (c : Cluster) (p : Pod) : Pod :=
  {| pod_Name := pod_GenerateName p +:+ pretty.pretty (c_clock c);
     pod_GenerateName := pod_GenerateName p; pod_Namespace := pod_Namespace p;
     pod_Labels := pod_Labels p; pod_Volumes := pod_Volumes p;
     pod_Containers := pod_Containers p; pod_RestartPolicy := pod_RestartPolicy p;
     pod_TerminationGracePeriodSeconds := pod_TerminationGracePeriodSeconds p;
     pod_NodeName := pod_NodeName p; pod_HostPID := pod_HostPID p;
     pod_SecurityContext := pod_SecurityContext p; pod_Tolerations := pod_Tolerations p;
     pod_PriorityClassName := pod_PriorityClassName p; pod_Phase := PodRunning |}.

Definition get_pod (c : Cluster) (name : string) : Pod * option error :=
  match c_pods c !! name with
  | Some p => if pod_Name p =? name then (p, None) else (zeroPod, Some notFound)
  | None => (zeroPod, Some notFound)
  end.

Definition write_node (c : Cluster) (n : Node) : (error + Node) * Cluster :=
  (inr n, with_nodes c (<[Name n := n]> (c_nodes c))).

Global Instance Condition_eq_dec : EqDecision Condition.
Proof. solve_decision. Defined.
Global Instance NodeStatus_eq_dec : EqDecision NodeStatus.
Proof. solve_decision. Defined.

(** The pods outside a node, and those a deletion by selectors leaves: it takes the pods
    of the namespace that carry the label and run on the node. *)
Definition pods_outside (c : Cluster) (name : string) : gmap string Pod :=
  filter (fun p => pod_NodeName p.2 <> name) (c_pods c).

Definition selected (ns label fields : string) (p : Pod) : bool :=
  (pod_Namespace p =? ns) && existsb (fun l => l.1 =? label) (pod_Labels p) &&
  ("spec.nodeName=" +:+ pod_NodeName p =? fields).

Definition pods_unselected (c : Cluster) (ns label fields : string) : gmap string Pod :=
  filter (fun p => selected ns label fields p.2 = false) (c_pods c).

Definition answer (q : Req) (c : Cluster) : resp q * Cluster :=
  match q return resp q * Cluster with
  | ClientGetKubeNode name => (find_kube c name, c)
  | NodesGet name => (find_kube c name, c)
  | ClientGetNode name => (found (find_node c name), c)
  | ClientListNodes => (inr (map_to_list (c_nodes c)).*2, c)
  | NodesList => (inr (map_to_list (c_kube c)).*2, c)
  | ClientCreateNode n =>
      match c_nodes c !! Name n with
      | Some _ => (inl conflict, c)
      | None => write_node c (set_Status n zeroNodeStatus)
      end
  | ClientUpdateNode n =>
      match find_node c (Name n) with
      | Some cur =>
          match DeletionTimestamp cur, Finalizers n with
          | Some _, [] => (inr n, with_nodes c (delete (Name n) (c_nodes c)))
          | _, _ => write_node c (set_Finalizers cur (Finalizers n))
          end
      | None => (inl notFound, c)
      end
  | ClientPatchNode _ n =>
      match find_node c (Name n) with
      | Some cur => write_node c (set_Spec cur (Spec n))
      | None => (inl notFound, c)
      end
  | ClientStatusPatchNode base n =>
      match find_node c (Name n) with
      | Some cur =>
          if decide (Status cur = Status base) then write_node c (set_Status cur (Status n))
          else (inl conflict, c)
      | None => (inl notFound, c)
      end
  | ClientPatchKubeNode _ k =>
      match find_kube c (kn_Name k) with
      | inr cur =>
          let k' := set_Unschedulable cur (kn_Unschedulable k) in
          (inr k', with_kube c (<[kn_Name k := k']> (c_kube c)))
      | inl e => (inl e, c)
      end
  | SetOwnerReference k n =>
      (inr (mkNode (Name n) (DeletionTimestamp n) (Finalizers n)
              (OwnerReferences n ++ [kn_Name k]) (Spec n) (Status n)), c)
  | NewForConfig => (None, c)
  | PodsCreate _ p =>
      let p := name_pod c p in (inr p, with_pods c (<[pod_Name p := p]> (c_pods c)))
  | PodsGet _ name =>
      match c_pod_reads c with
      | Some O => ((zeroPod, Some denied), c)
      | reads => (get_pod c name, with_reads c (Nat.pred <$> reads))
      end
  | PodsDelete _ name _ => (None, with_pods c (delete name (c_pods c)))
  | PodsDeleteCollection ns label fields => (None, with_pods c (pods_unselected c ns label fields))
  | LabelSelectorIn key values => (inr key, c)
  | NewSPDYExecutor _ _ _ => (None, c)
  | StreamWithContext _ _ _ =>
      ((if c_file c then None else Some (ErrorString "command terminated with exit code 1")), c)
  | RunNodeDrain _ name => (None, with_pods c (pods_outside c name))
  | Eventf _ _ _ _ => (tt, c)
  | Now => (c_clock c, with_clock c (c_clock c + 1)%Z)
  | Sleep d => (tt, with_clock c (c_clock c + d)%Z)
  | Hostname => (inr "node-drain-0", c)
  | OsStat _ => (None, c)
  | OsReadDir _ => (inr [mkDirEntry "example.so" false; mkDirEntry "README.md" false], c)
  | KoanfCutMarshal _ _ => (inr "{}", c)
  | PluginClient _ => (None, c)
  | PluginPing _ => (None, c)
  | PluginDispense _ _ => (inr "*plugins.DrainClient", c)
  | PluginRpc _ m =>
      match DrainServer ExampleDrainPlugin m (c_plugin c) with
      | (_, p, r) => (r, with_plugin c p)
      end
  | MapRange keys => (keys, c)
  end.

(** Polling with the documented loop, as often as the timeout allows. *)
Section Poll.
Context {W : Type} `{Env W}.

Fixpoint poll_times (n : nat) (d : Z) (cond : M W bool) : M W unit :=
  _ ← call (Sleep d);
  match n with
  | O => raise errPollTimeout
  | S n' => ok ← cond; if (ok : bool) then mret tt else poll_times n' d cond
  end.

Lemma poll_times_run n d cond w : poll_run d cond w (poll_times n d cond w).
Proof.
  revert w. induction n as [|n IH]; intros w; simpl; unfold mbind, M_bind, call;
    destruct (handle (Sleep d) w) as [[] w1] eqn:Es; simpl.
  - by apply poll_timeout.
  - destruct (cond w1) as [[evs w2] [e|[]]] eqn:Ec.
    + by apply poll_error with w1.
    + simpl. rewrite app_nil_r. by apply poll_true with w1.
    + specialize (IH w2). destruct (poll_times n d cond w2) as [[evs' w3] r] eqn:Ep.
      by apply poll_false with w1 w2.
Qed.
End Poll.

(** ** The interfaces *)

#[export] Instance cluster_wait (E : Env Cluster) : Wait Cluster :=
  fun d timeout _ cond => poll_times (Z.to_nat (timeout / d)) d cond.

#[export] Instance cluster_wait_laws (E : Env Cluster) : WaitLaws Cluster.
Proof. intros d timeout cond w. apply poll_times_run. Qed.

#[export] Instance cluster_util : ControllerUtil := {
  ContainsFinalizer l f := existsb (String.eqb f) l;
  AddFinalizer l f := if existsb (String.eqb f) l then l else l ++ [f];
  RemoveFinalizer l f := List.filter (fun g => negb (String.eqb f g)) l
}.

#[export] Instance cluster_util_laws : ControllerUtilLaws.
Proof.
  split; simpl; intros l f.
  - destruct (existsb _ l) eqn:E; [done|]. rewrite existsb_app, E. simpl.
    by rewrite String.eqb_refl.
  - apply not_true_iff_false. intros (g & Hin & Hg)%existsb_exists.
    apply filter_In in Hin as [_ Hn]. by rewrite Hg in Hn.
  - intros g Hne. induction l as [|x l IH]; simpl; [done|].
    destruct (String.eqb_spec f x) as [<-|]; simpl; rewrite IH; [|done].
    by destruct (String.eqb_spec g f) as [->|].
Qed.

#[export] Instance cluster_env : Env Cluster := answer.

#[export] Instance cluster_wait_prompt : WaitPrompt Cluster.
Proof.
  intros d timeout cond w w' Hd Hcond. unfold PollUntilContextTimeout, cluster_wait.
  assert (Hn : Z.to_nat (timeout / d) <> O).
  { assert (1 <= timeout / d)%Z by (apply Z.div_le_lower_bound; lia). lia. }
  destruct (Z.to_nat (timeout / d)) as [|n]; [done|]. simpl. unfold mbind, M_bind, call.
  destruct (handle (Sleep d) w) as [[] w1]. specialize (Hcond w1).
  destruct (cond w1) as [[evs w2] [e|[]]]; simpl; intros E.
  - injection E as E _ _. by apply Hcond.
  - discriminate E.
  - destruct (poll_times n d cond w2) as [[evs' w3] r]. injection E as E _ _.
    apply app_eq_nil in E as [E _]. by apply Hcond.
Qed.

Lemma find_node_some c name n :
  find_node c name = Some n -> c_nodes c !! name = Some n /\ Name n = name.
Proof.
  unfold find_node. destruct (c_nodes c !! name) as [m|]; [|done]. simpl.
  destruct (String.eqb_spec (Name m) name); naive_solver.
Qed.

Lemma find_kube_some c name k : find_kube c name = inr k -> kn_Name k = name.
Proof.
  unfold find_kube. destruct (c_kube c !! name) as [m|]; [|done].
  destruct (String.eqb_spec (kn_Name m) name); naive_solver.
Qed.

Lemma write_node_rely c n a c' :
  (ncurrent n = EmptyString \/
   exists cur, c_nodes c !! Name n = Some cur /\ ncurrent cur = ncurrent n) ->
  write_node c n = (a, c') -> rely (c_nodes c) (c_nodes c').
Proof.
  unfold write_node, rely. intros Hn [= <- <-]. simpl.
  intros x m [[<- <-]|[_ Hm]]%lookup_insert_Some; [|eauto]. done.
Qed.

Lemma write_node_fresh c n a c' :
  (ncurrent n = EmptyString -> Drain (nstate n) = false) ->
  write_node c n = (a, c') -> fresh_ok (c_nodes c) -> fresh_ok (c_nodes c').
Proof.
  unfold write_node, fresh_ok. intros Hn [= <- <-] Hf x m. simpl. intros [[<- <-]|[_ Hm]]%lookup_insert_Some Hc; [auto|].
  by eapply Hf.
Qed.

(** A status patch that is taken. *)
Lemma status_patch_answer base n c n' c' :
  answer (ClientStatusPatchNode base n) c = (inr n', c') ->
  exists cur, c_nodes c !! Name n = Some cur /\ Name cur = Name n /\ Status cur = Status base /\
    n' = set_Status cur (Status n) /\ c' = with_nodes c (<[Name n := n']> (c_nodes c)).
Proof.
  simpl. destruct (find_node c (Name n)) as [cur|] eqn:Em; [|done].
  apply find_node_some in Em as [Hl Hm]. case_decide; [|done]. intros [= <- <-].
  exists cur. split_and!; [done..|]. simpl. by rewrite Hm.
Qed.

#[export] Instance cluster_echo : ApiEcho Cluster.
Proof.
  split; unfold handle, cluster_env.
  - intros name w k w' [= E <-]. by eapply find_kube_some.
  - intros name w n w' [= E <-]. destruct (find_node w name) as [m|] eqn:Em; [|done].
    injection E as <-. by apply find_node_some in Em as [_ ?].
  - intros base n w n' w' (cur & _ & Hm & _ & -> & _)%status_patch_answer. by split_and!.
  - intros base n w n' w' (cur & _ & Hm & Hs & -> & _)%status_patch_answer. by split_and!.
  - simpl. intros base k w k' w' E. destruct (find_kube w (kn_Name k)) as [e|m] eqn:Em; [done|].
    apply find_kube_some in Em. injection E as <- _. done.
Qed.

#[export] Instance cluster_owner : OwnerReferenceLaws Cluster.
Proof.
  intros k n w o w' [= <- _]. simpl. split_and!; try done. apply elem_of_app. right. apply list_elem_of_here.
Qed.

Lemma get_pod_laws c name p e :
  get_pod c name = (p, e) -> match e with None => pod_Name p = name | Some _ => p = zeroPod end.
Proof.
  unfold get_pod. destruct (c_pods c !! name) as [m|]; [|naive_solver].
  destruct (String.eqb_spec (pod_Name m) name); naive_solver.
Qed.

#[export] Instance cluster_pods_laws : PodsGetLaws Cluster.
Proof.
  split; unfold handle, cluster_env; simpl; intros ns name w p; [|intros e];
    intros w'; destruct (c_pod_reads w) as [[|n]|]; try naive_solver;
    intros E; injection E as E _; by apply get_pod_laws in E.
Qed.

Lemma rely_refl v : rely v v.
Proof. intros x n Hn. eauto. Qed.

#[export] Instance cluster_store : ApiStore Cluster c_nodes.
Proof.
  split; unfold handle, cluster_env.
  - simpl. intros base n w n' w' E. destruct (find_node w (Name n)) as [m|]; [|done].
    injection E as <- <-. apply lookup_insert_eq.
  - intros base n w n' w' (cur & _ & Hm & _ & -> & ->)%status_patch_answer. simpl.
    rewrite Hm. apply lookup_insert_eq.
  - intros base n w a w' E. simpl in E.
    destruct (find_node w (Name n)) as [m|] eqn:Em; [|injection E as _ <-; left; apply rely_refl].
    apply find_node_some in Em as [Hl Hm]. case_decide as Hs; [|injection E as _ <-; left; apply rely_refl].
    destruct (decide (ncurrent n = ncurrent base)) as [Hc|Hc].
    + left. eapply write_node_rely; [|exact E]. right. exists m. simpl. rewrite Hm. split; [done|].
      unfold ncurrent in *. simpl. congruence.
    + right. split; [done|]. exists (c_nodes w), (set_Status m (Status n)). injection E as _ <-.
      split_and!; [apply rely_refl|by simpl; rewrite Hm|done].
  - intros q w a w' Hq E. destruct q; try done; simpl in *; try (injection E as _ <-; apply rely_refl).
    + destruct (c_nodes w !! Name n); [injection E as _ <-; apply rely_refl|].
      eapply write_node_rely; [|exact E]. by left.
    + destruct (find_node w (Name n)) as [m|] eqn:Em; [|injection E as _ <-; apply rely_refl].
      apply find_node_some in Em as [Hm Hn].
      assert (Hw : write_node w (set_Finalizers m (Finalizers n)) = (a, w') ->
                   rely (c_nodes w) (c_nodes w')).
      { apply write_node_rely. right. exists m. simpl. by rewrite Hn. }
      destruct (DeletionTimestamp m), (Finalizers n); auto.
      injection E as _ <-. unfold rely. simpl. intros x y [_ ?]%lookup_delete_Some. eauto.
    + destruct (find_node w (Name n)) as [m|] eqn:Em; [|injection E as _ <-; apply rely_refl].
      apply find_node_some in Em as [Hm Hn]. eapply write_node_rely; [|exact E].
      right. exists m. simpl. by rewrite Hn.
    + destruct (find_kube w (kn_Name k)); injection E as _ <-; apply rely_refl.
    + destruct (c_pod_reads w) as [[|]|]; injection E as _ <-; apply rely_refl.
    + destruct (DrainServer _ _ _) as [[? ?] ?]. injection E as _ <-. apply rely_refl.
Qed.

(** Requests that ask for no drain of an object without a status. *)
Definition tame (q : Req) : bool :=
  match q with
  | ClientCreateNode n | ClientPatchNode _ n => negb (Drain (nstate n))
  | ClientStatusPatchNode _ n => negb (ncurrent n =? EmptyString)
  | _ => true
  end.

Lemma tame_observed q c a c' :
  tame q = true -> handle q c = (a, c') -> observed c_nodes c (mkEv q a) c'.
Proof.
  intros Ht E. unfold handle, cluster_env in E. split.
  - destruct q; try done; simpl in *.
    + injection E as <- <-. destruct (find_node c name) as [m|] eqn:Em; [|done].
      simpl. by apply find_node_some in Em as [? ->].
    + injection E as <- <-. intros name n Hn. apply list_elem_of_fmap. exists (name, n).
      by rewrite elem_of_map_to_list.
  - intros Hf. destruct q; simpl in *; try (injection E as _ <-; done).
    + destruct (c_nodes c !! Name n); [by injection E as _ <-|].
      eapply write_node_fresh; [|exact E|done]. intros _. by apply negb_true_iff in Ht.
    + destruct (find_node c (Name n)) as [m|] eqn:Em; [|by injection E as _ <-].
      apply find_node_some in Em as [Hl _].
      destruct (DeletionTimestamp m), (Finalizers n);
        try (eapply write_node_fresh; [|exact E|done]; intros Hc; eapply (Hf _ m); [exact Hl|exact Hc]).
      injection E as _ <-. unfold fresh_ok. simpl. intros x y [_ ?]%lookup_delete_Some. by eapply Hf.
    + destruct (find_node c (Name n)) as [m|] eqn:Em; [|by injection E as _ <-].
      eapply write_node_fresh; [|exact E|done]. intros _. by apply negb_true_iff in Ht.
    + destruct (find_node c (Name n)) as [m|]; [|by injection E as _ <-].
      case_decide; [|by injection E as _ <-]. eapply write_node_fresh; [|exact E|done].
      intros Hc. unfold ncurrent in *. simpl in Hc. rewrite Hc in Ht. done.
    + destruct (find_kube c (kn_Name k)); by injection E as _ <-.
    + destruct (c_pod_reads c) as [[|]|]; by injection E as _ <-.
    + destruct (DrainServer _ _ _) as [[? ?] ?]. by injection E as _ <-.
Qed.

(** A run of tame requests is observed. *)
Lemma tame_orun c evs c' :
  wrun c evs c' -> forallb (fun e => tame (ev_req e)) evs = true -> orun c_nodes c evs c'.
Proof.
  induction 1 as [|c evs c1 q a c2 _ IH E]; intros Ht; [constructor|].
  rewrite forallb_app in Ht. apply andb_true_iff in Ht as [Ht Hq]. simpl in Hq.
  rewrite andb_true_r in Hq. econstructor; eauto using tame_observed.
Qed.

#[export] Instance cluster_transport path :
  RpcTransport Cluster bool path ExampleDrainPlugin c_plugin.
Proof.
  intros m w a w' E. unfold handle, cluster_env in E. simpl in E.
  destruct (DrainServer ExampleDrainPlugin m (c_plugin w)) as [[evs p] r].
  injection E as -> <-. by exists evs.
Qed.
