(* ===== verification/WireModel.v ===== *)
(** * A model connection

    Concrete, executable instances of the libraries [Messages.v] and [Serving.v] are
    stated over: presence bits in a word, an encoding of messages as text, a gRPC
    server that looks methods up by name, and a go-plugin that picks the highest
    common version.  They satisfy the laws assumed there; the witnesses load the
    example plugin through them. *)

From Stdlib Require Import Ascii ZArith Lia.
From stdpp Require Import base gmap strings list countable.
From S2P Require Import Prelude NodeTypes Requests Effects Plugins Messages Config DrainManager.
From S2P Require Import Serving RebootManager NodeController Protocol Exclusion ApiServer.

Local Open Scope string_scope.
Local Open Scope list_scope.

(** ** Presence bits *)

#[global] Instance bit_impl : ProtoImpl := {
  Present w i := Z.testbit w i;
  SetPresent w i _ := Z.setbit w i;
  SetPresentNonAtomic w i _ := Z.lor w (Z.shiftl 1 i);
  ClearPresent w i := Z.clearbit w i
}.

Lemma below_width w n : (0 <= n)%Z ->
  (forall i, (n <= i)%Z -> Z.testbit w i = false) -> (w < 2 ^ n)%Z.
Proof.
  intros Hn Hb. replace w with (w mod 2 ^ n)%Z; [apply Z.mod_pos_bound; lia|].
  apply Z.bits_inj'. intros i Hi. destruct (Z.lt_ge_cases i n).
  - by rewrite Z.mod_pow2_bits_low by lia.
  - by rewrite Z.mod_pow2_bits_high, Hb by lia.
Qed.

Lemma above_width w j : uint32 w -> (32 <= j)%Z -> Z.testbit w j = false.
Proof.
  intros [? ?] Hj. rewrite <- (Z.mod_small w (2 ^ 32)) by lia. apply Z.mod_pow2_bits_high. lia.
Qed.

#[global] Instance bit_laws : ProtoImplLaws.
Proof.
  split; simpl; intros.
  - apply Z.bits_0.
  - rewrite Z.setbit_eqb by lia. done.
  - done.
  - by rewrite Z.clearbit_eqb, andb_comm.
  - split.
    + rewrite Z.setbit_spec'. apply Z.lor_nonneg. unfold uint32 in *. split; [lia|].
      apply Z.pow_nonneg. lia.
    + apply below_width; [lia|]. intros j Hj. rewrite Z.setbit_eqb by lia.
      rewrite above_width by done. by replace (i =? j)%Z with false by lia.
  - split.
    + rewrite Z.clearbit_spec'. apply Z.ldiff_nonneg. unfold uint32 in *. lia.
    + apply below_width; [lia|]. intros j Hj. rewrite Z.clearbit_eqb.
      by rewrite above_width by done.
Qed.

(** ** Encoding *)

Fixpoint pos_text (p : positive) : string :=
  match p with
  | xH => EmptyString
  | xO p => String "0"%char (pos_text p)
  | xI p => String "1"%char (pos_text p)
  end.

Fixpoint text_pos (s : string) : positive :=
  match s with
  | EmptyString => xH
  | String c s => if Ascii.eqb c "0"%char then xO (text_pos s) else xI (text_pos s)
  end.

Lemma text_pos_text p : text_pos (pos_text p) = p.
Proof. induction p; simpl; by rewrite ?IHp. Qed.

(** Messages are encoded by their fields. *)
Section Codec.
Context {X F : Type} `{Message X F} `{Countable F}.

Definition text_proto : Proto X := {|
  Marshal x := pos_text (encode (fields x));
  Unmarshal s := match decode (text_pos s) with
                 | Some f => inr (build f)
                 | None => inl (ErrorString "proto: cannot parse")
                 end
|}.

Lemma text_proto_laws : builds (M := X) -> @ProtoLaws X F _ text_proto.
Proof.
  intros Hb x _. simpl. rewrite text_pos_text, decode_encode.
  destruct (Hb (fields x)). eauto.
Qed.
End Codec.

Definition format_code (f : ConfigFormat) : nat + Z :=
  match f with
  | CONFIG_FORMAT_UNSPECIFIED => inl 0 | CONFIG_FORMAT_YAML => inl 1
  | CONFIG_FORMAT_JSON => inl 2 | CONFIG_FORMAT_other n => inr n
  end.

Definition format_of (c : nat + Z) : option ConfigFormat :=
  match c with
  | inl 0 => Some CONFIG_FORMAT_UNSPECIFIED | inl 1 => Some CONFIG_FORMAT_YAML
  | inl 2 => Some CONFIG_FORMAT_JSON | inl _ => None | inr n => Some (CONFIG_FORMAT_other n)
  end%nat.

#[global] Instance format_countable : Countable ConfigFormat.
Proof. apply (inj_countable format_code format_of). by intros []. Defined.

#[global] Instance info_eq_dec : EqDecision PluginInfoResponse.
Proof. solve_decision. Defined.

#[global] Instance info_countable : Countable PluginInfoResponse.
Proof.
  apply (inj_countable' (fun i => (pir_id i, pir_config_format i))
           (fun p => mkPluginInfoResponse p.1 p.2)). by intros [].
Defined.

#[global] Instance proto_unit : Proto unit := text_proto (F := unit).
#[global] Instance proto_info : Proto PluginInfoResponseMsg := text_proto (F := PluginInfoResponse).
#[global] Instance proto_init : Proto InitRequestMsg := text_proto (F := option string).
#[global] Instance proto_bool : Proto BoolMsg := text_proto (F := option bool).
#[global] Instance proto_name : Proto NodeNameMsg := text_proto (F := option string).

#[global] Instance proto_unit_laws : ProtoLaws unit unit.
Proof. apply text_proto_laws. done. Qed.
#[global] Instance proto_info_laws : ProtoLaws PluginInfoResponseMsg PluginInfoResponse.
Proof. apply text_proto_laws, builds_all. Qed.
#[global] Instance proto_init_laws : ProtoLaws InitRequestMsg (option string).
Proof. apply text_proto_laws, builds_all. Qed.
#[global] Instance proto_bool_laws : ProtoLaws BoolMsg (option bool).
Proof. apply text_proto_laws, builds_all. Qed.
#[global] Instance proto_name_laws : ProtoLaws NodeNameMsg (option string).
Proof. apply text_proto_laws, builds_all. Qed.

(** ** gRPC *)

Definition full_name {S} (desc : ServiceDesc S) (d : MethodDesc S) : string :=
  "/" +:+ ServiceName desc +:+ "/" +:+ MethodName d.

#[global] Instance lookup_grpc (S : Type) : Grpc S := {
  GrpcServer := option (ServiceDesc S * DrainPlugin S);
  DefaultGRPCServer := None;
  RegisterService _ desc srv := Some (desc, srv);
  serveCall server method bytes :=
    match server with
    | Some (desc, srv) =>
        match List.find (fun d => full_name desc d =? method) (Methods desc) with
        | Some d => msg ← Handler d srv (fun X P => Unmarshal bytes) None; mret (marshalAny msg)
        | None => raise (ErrorString "unknown method")
        end
    | None => raise (ErrorString "unknown service")
    end
}.

Lemma append_inj p s s' : p +:+ s = p +:+ s' -> s = s'.
Proof. induction p; simpl; [done|]. by intros [= ?%IHp]. Qed.

Lemma full_name_inj {S} (desc : ServiceDesc S) d d' :
  full_name desc d = full_name desc d' -> MethodName d = MethodName d'.
Proof. unfold full_name. by intros ?%append_inj%append_inj%append_inj. Qed.

Lemma find_unique {A} (key : A -> string) l d :
  NoDup (key <$> l) -> d ∈ l -> List.find (fun x => key x =? key d) l = Some d.
Proof.
  induction l as [|x l IH]; [by intros _ ?%not_elem_of_nil|].
  simpl. intros [Hx Hl]%list.NoDup_cons [->|Hd]%elem_of_cons; [by rewrite String.eqb_refl|].
  destruct (String.eqb_spec (key x) (key d)) as [E|]; [|auto].
  destruct Hx. rewrite E. by apply list_elem_of_fmap_2.
Qed.

#[global] Instance lookup_grpc_laws (S : Type) : GrpcLaws S.
Proof.
  intros desc srv d bytes s evs s' out Hnd Hd E. fold (full_name desc d) in E.
  cbn [serveCall lookup_grpc RegisterService] in E.
  rewrite (find_unique (full_name desc)) in E; [|..|done].
  - apply bind_run_ok in E as (msg & evs1 & s1 & evs2 & E1 & [= <- <- <-] & ->). eauto.
  - clear -Hnd. induction (Methods desc) as [|x l IH]; [apply NoDup_nil_2|].
    simpl in *. apply list.NoDup_cons in Hnd as [Hx Hl]. apply list.NoDup_cons. split; [|auto].
    intros (y & Hy & Hin)%list_elem_of_fmap_1. apply full_name_inj in Hy. apply Hx.
    rewrite Hy. by apply list_elem_of_fmap_2.
Qed.

(** ** go-plugin *)

Definition common {S} (cc : ClientConfig S) (sc : ServeConfig S) : list Z :=
  elements (dom (cc_VersionedPlugins cc) ∩ dom (sc_VersionedPlugins sc)).

#[global] Instance handshake_eq_dec : EqDecision HandshakeConfig.
Proof. solve_decision. Defined.

#[global] Instance highest_common (S : Type) : GoPlugin S := {
  negotiate cc sc :=
    if bool_decide (cc_HandshakeConfig cc = sc_HandshakeConfig sc) && sc_GRPCServer sc &&
       bool_decide (ProtocolGRPC ∈ cc_AllowedProtocols cc)
    then match List.find (fun v => forallb (fun v' => (v' <=? v)%Z) (common cc sc)) (common cc sc) with
         | Some v => inr v
         | None => inl (ErrorString "Incompatible API version with plugin")
         end
    else inl (ErrorString "Unrecognized remote plugin message");
  dispense cc v name :=
    match cc_VersionedPlugins cc !! v with
    | Some set => match (set : gmap string (GRPCDrainPlugin S)) !! name with
                  | Some p => inr (GRPCClient p)
                  | None => inl (ErrorString ("unknown plugin type: " +:+ name))
                  end
    | None => inl (ErrorString "unknown version")
    end;
  served sc v :=
    match sc_VersionedPlugins sc !! v with
    | Some set => map_fold (fun _ p s => GRPCServer p s) DefaultGRPCServer
                    (set : gmap string (GRPCDrainPlugin S))
    | None => DefaultGRPCServer
    end
}.

#[global] Instance highest_common_laws (S : Type) : GoPluginLaws S.
Proof.
  split.
  - intros cc sc v Hh Hs Hp Hc Hsc Hmax. simpl. rewrite Hs.
    rewrite !bool_decide_true by done. simpl.
    assert (Hv : v ∈ common cc sc) by (unfold common; set_solver).
    destruct (List.find _ _) as [u|] eqn:Ef.
    + apply find_some in Ef as [Hu Hall]. rewrite <- list_elem_of_In in Hu.
      rewrite forallb_forall in Hall. f_equal. apply Z.le_antisymm.
      * unfold common in Hu. set_solver.
      * apply Z.leb_le, Hall. by rewrite <- list_elem_of_In.
    + eapply find_none in Ef; [|by rewrite <- list_elem_of_In].
      apply not_true_iff_false in Ef. destruct Ef. apply forallb_forall. intros v' Hv'.
      apply Z.leb_le, Hmax; rewrite <- list_elem_of_In in Hv'; unfold common in Hv'; set_solver.
  - intros cc v set name p Hset Hn. simpl. unfold PluginSet in *. by rewrite Hset, Hn.
  - intros sc v name p Hset. simpl. unfold PluginSet in *. rewrite Hset.
    by rewrite map_fold_singleton.
Qed.

(** ** The process *)

Section Process.
Context (path : string).

(** The example plugin behind the model cluster: calls go through its server. *)
#[local] Instance example_conn : GrpcConn Cluster := fun X Y PX PY method x c =>
  match serveCall (served example_main 0) method (Marshal x) (c_plugin c) with
  | (_, s, r) => (match r with inl e => inl e | inr out => Unmarshal out end, with_plugin c s)
  end.

#[local] Instance wire_env : Env Cluster := fun q =>
  match q return Cluster -> resp q * Cluster with
  | PluginRpc _ m => wireCall m
  | PluginDispense _ name => fun c =>
      (match negotiate (pluginClientConfig path) example_main with
       | inl e => inl e
       | inr v => dispense (S := bool) (pluginClientConfig path) v name
       end, c)
  | q => answer q
  end.

#[local] Instance example_process :
  PluginProcess Cluster bool path (Serve ExampleDrainPlugin) c_plugin.
Proof.
  split.
  - intros name w ty w'. unfold handle, wire_env. change example_main with (Serve ExampleDrainPlugin).
    destruct (negotiate _ _) as [|v]; [done|]. intros [= ? <-]. eauto.
  - done.
  - intros X Y PX PY method x w y w' v Hv. rewrite versions_agree in Hv. injection Hv as <-.
    unfold Invoke, example_conn. change example_main with (Serve ExampleDrainPlugin).
    destruct (serveCall _ _ _ _) as [[evs s] [e|out]]; [done|]. intros [= E <-]. simpl. eauto.
Qed.

(** ** Witnesses *)

Lemma messages_implement_fields_witness :
  fields (PluginInfoResponse_Build (mkPluginInfoResponse (Some "example") None))
    = mkPluginInfoResponse (Some "example") None /\
  NodeNameMsg_GetNodeName (Some (NodeNameMsg_Build (Some "node-1"))) = "node-1".
Proof.
  destruct messages_implement_fields as ((Bp & _ & _ & Bn) & _ & _ & _ & _ & (_ & Hn)).
  split; [exact (proj2 (Bp (mkPluginInfoResponse (Some "example") None)))|].
  destruct (Bn (Some "node-1")) as [Hv Hf]. destruct (Hn _ Hv) as [Hg _].
  etrans; [exact Hg|]. by rewrite Hf.
Defined.
End Process.

Definition empty_cluster : Cluster := mkCluster ∅ ∅ ∅ 1 false false None.

Lemma plugin_served_witness :
  let p := "/plugins/example.so" in
  negotiate (pluginClientConfig p) (Serve ExampleDrainPlugin) = inr 0%Z /\
  exists evs w' info,
    initPlugin (H := wire_env p) "example.so" p empty_cluster = (evs, w', inr (info, p)) /\
    ID info <> EmptyString /\
    exists bytes w3 evs', Init ExampleDrainPlugin (mkDrainPluginSettings (Some bytes)) (c_plugin w3)
      = (evs', c_plugin w', inr tt).
Proof.
  intros p.
  destruct (plugin_served (H1 := wire_env p) (H2 := example_conn)
    (PluginProcess0 := example_process p) p ExampleDrainPlugin c_plugin) as (Hneg & _ & _ & Hinit).
  split; [exact Hneg|].
  destruct (initPlugin (H := wire_env p) "example.so" p empty_cluster) as [[evs w'] r] eqn:E.
  assert (Hr : exists info, r = inr (info, p)).
  { change r with (evs, w', r).2. rewrite <- E. eexists. vm_compute. reflexivity. }
  destruct Hr as [info ->]. exists evs, w', info.
  destruct (Hinit _ _ _ _ _ _ E) as (_ & Hid & _ & bytes & w3 & evs' & _ & Hi).
  split; [reflexivity|]. split; [exact Hid|]. exists bytes, w3, evs'. exact Hi.
Defined.
