(* ===== verification/Scenarios.v ===== *)
(** * Scenarios

    The operator run in the model cluster, as witnesses: each instantiates one theorem of
    the library at a concrete run where its hypotheses hold.  Two of the runs show what
    the conditions of mutual exclusion are for: a drain that bypasses the queue, and a
    queue read from a cache that lags behind; a third how a node gets into the dead end
    of [drained_next_is_stuck]. *)

From stdpp Require Import base gmap strings list.
From S2P Require Import Prelude NodeTypes Json Requests Effects Plugins Config Utils Webhook.
From S2P Require Import DrainManager RebootManager NodeController Protocol Safety Behaviour.
From S2P Require Import Traces Exclusion Progress ApiServer.

Local Open Scope string_scope.
Local Open Scope list_scope.

(** ** Clusters *)

Definition demo_config : Config :=
  mkConfig (mkLogConfig "info" "json" ∅) (12 * Hour)%Z
    (mkPodConfig "system-node-critical"
       (mkContainerResources (mkResourceList "16Mi" "10m") (mkResourceList "32Mi" "100m"))) false.

Definition demo_plugins : DrainManager :=
  mkDrainManager ["example"]
    {[ "example-plugin" :=
         mkDrainClientInfo "example" (mkDrainPluginInfo "example-plugin" CONFIG_FORMAT_YAML) ]}
    {[ "example" := "example-plugin" ]}.

Definition demo_rm : RebootManager := mkRebootManager "node-drain-system" demo_config.

(** The controller, running on node-9. *)
Definition demo : nodeReconciler :=
  mkNodeReconciler "node-drain-system" "node-9" demo_rm demo_plugins (fun _ => (12 * Hour)%Z).

Definition kube (name : string) (unschedulable : bool) : KubeNode :=
  mkKubeNode name [] unschedulable "boot-1" [mkNodeCondition NodeReady ConditionTrue].

Definition demo_time : Z := (1000 * Hour)%Z.

Definition dnode (name : string) (spec : NodeState) (c : NodeCurrentState) (drained : bool) : Node :=
  mkNode name None [nodeDrainFinalizer] [name] (mkNodeSpec spec)
    (mkNodeStatus [] (Some demo_time) (Some true) drained c EmptyString).

Definition cluster (ns : list Node) (ks : list KubeNode) : Cluster :=
  mkCluster (list_to_map ((fun n => (Name n, n)) <$> ns))
    (list_to_map ((fun k => (kn_Name k, k)) <$> ks)) ∅ (demo_time + 1)%Z true true None.

(** ** Managed fields as the API server sends them *)

(** JSON text with single quotes for double ones. *)
Definition json_text : string -> string :=
  map_string (fun c => if Ascii.eqb c (Ascii.ascii_of_nat 39) then Ascii.ascii_of_nat 34 else c).

Example kubectl_cordon_found :
  getManagerOfUnschedulable (mkKubeNode "node-1"
    [mkManagedFieldsEntry "kubelet" "status" (Some (json_text "{'f:spec':{'f:unschedulable':{}}}"));
     mkManagedFieldsEntry "kubelet" EmptyString (Some (json_text "{'f:metadata':{'f:labels':{'.':{}}}}"));
     mkManagedFieldsEntry "broken" EmptyString (Some (json_text "{'f:spec':{'f:unschedulable':{}}"));
     mkManagedFieldsEntry "kubectl-cordon" EmptyString
       (Some (json_text "{'f:spec': {'f:taints': [1, -2.5e3, null], 'f:unschedulable': {}}}"))]
    true "boot-1" []) = "kubectl-cordon".
Proof. vm_compute. reflexivity. Qed.

(** ** Deciding exclusion on a concrete store *)

Definition busy_nodes (v : gmap string Node) : list (string * Node) :=
  List.filter (fun p => busy (ncurrent p.2)) (map_to_list v).

Lemma exclusive_count v : (length (busy_nodes v) <= 1)%nat -> exclusive v.
Proof.
  intros Hl a b na nb Ha Hb Hba Hbb.
  assert (Hin : forall x n, v !! x = Some n -> busy (ncurrent n) = true -> In (x, n) (busy_nodes v)).
  { intros x n Hx Hn. apply filter_In. split; [|done].
    by apply list_elem_of_In, elem_of_map_to_list. }
  pose proof (Hin _ _ Ha Hba) as Ia. pose proof (Hin _ _ Hb Hbb) as Ib.
  destruct (busy_nodes v) as [|p [|]]; simpl in *; [done| |lia].
  destruct Ia as [->|[]], Ib as [E|[]]. by injection E.
Qed.

Lemma two_busy v a b :
  a <> b -> (n ← v !! a; Some (busy (ncurrent n))) = Some true ->
  (n ← v !! b; Some (busy (ncurrent n))) = Some true -> ~ exclusive v.
Proof.
  intros Hne (na & Ha & [= Hba])%bind_Some (nb & Hb & [= Hbb])%bind_Some Hex. apply Hne.
  by eapply Hex.
Qed.

(** ** A drain that bypasses the queue *)

(** node-1 is being drained; node-2 was just created by a user who asks for a
    drain, so it has no status yet. *)
Definition fresh_node : Node :=
  mkNode "node-2" None [nodeDrainFinalizer] [] (mkNodeSpec NodeStateDrained) zeroNodeStatus.

Definition fresh_cluster : Cluster :=
  cluster [dnode "node-1" NodeStateDrained NodeCurrentStateDraining false; fresh_node]
    [kube "node-1" true; kube "node-2" false].

(** ** A queue read from a cache that lags behind *)

(** A client that reads drain nodes from an informer's cache and writes to the API
    server; the cache follows when the server's notification arrives. *)
Record Cached := mkCached { backend : Cluster; informer : gmap string Node }.

#[local] Instance cached_env : Env Cached := fun q =>
  match q return Cached -> resp q * Cached with
  | ClientGetNode name => fun w =>
      (found (find_node (with_nodes (backend w) (informer w)) name), w)
  | ClientListNodes => fun w => (inr (map_to_list (informer w)).*2, w)
  | q => fun w => let '(a, c) := answer q (backend w) in (a, mkCached c (informer w))
  end.

(** The drain nodes really stored. *)
Definition cached_nodes (w : Cached) : gmap string Node := c_nodes (backend w).

(** Writes go to the server and behave as they do there. *)
Ltac through_backend law :=
  intros; match goal with E : handle ?q ?w = _ |- _ =>
    change (handle q w) with (let '(a, c) := answer q (backend w) in (a, mkCached c (informer w))) in E;
    let Ea := fresh "Ea" in destruct (answer q (backend w)) as [? ?] eqn:Ea;
    injection E as -> <-; exact (law _ _ _ _ _ Ea) end.

#[local] Instance cached_echo : ApiEcho Cached.
Proof.
  split.
  - intros name w k w' E. unfold handle, cached_env in E. simpl in E. injection E as E _.
    by eapply find_kube_some.
  - intros name w n w' E. unfold handle, cached_env in E. injection E as E _.
    destruct (find_node _ name) as [m|] eqn:Em; [|done]. injection E as <-. by apply find_node_some in Em as [_ ?].
  - through_backend (status_patch_echo (W := Cluster)).
  - through_backend (status_patch_rest (W := Cluster)).
  - through_backend (kube_patch_echo (W := Cluster)).
Qed.

#[local] Instance cached_store : ApiStore Cached cached_nodes.
Proof.
  split.
  - through_backend (store_patch (W := Cluster) (nodes := c_nodes)).
  - through_backend (store_status_patch (W := Cluster) (nodes := c_nodes)).
  - intros base n w a w' E.
    change (handle (ClientStatusPatchNode base n) w) with (let '(a, c) :=
      answer (ClientStatusPatchNode base n) (backend w) in (a, mkCached c (informer w))) in E.
    destruct (answer (ClientStatusPatchNode base n) (backend w)) as [a' c] eqn:Ea. injection E as <- <-.
    exact (store_status (W := Cluster) (nodes := c_nodes) _ _ _ _ _ Ea).
  - intros q w a w' Hq E. unfold handle, cached_env in E.
    destruct q; try done; try (injection E as _ <-; apply rely_refl);
      match type of E with context [answer ?q ?c] =>
        let Ea := fresh "Ea" in destruct (answer q c) as [? ?] eqn:Ea; injection E as _ <-;
        exact (store_other (W := Cluster) (nodes := c_nodes) q _ _ _ I Ea) end.
Qed.




(** ** Runs in the model cluster *)

(** What a run did, where it ended, and the interaction at a position. *)
Definition trace {A} (m : M Cluster A) (c : Cluster) : list Ev := (m c).1.1.
Definition after {A} (m : M Cluster A) (c : Cluster) : Cluster := (m c).1.2.
Definition outcome {A} (m : M Cluster A) (c : Cluster) : error + A := (m c).2.

Lemma run_eq {A} (m : M Cluster A) c : m c = (trace m c, after m c, outcome m c).
Proof. apply surjective_pairing_3. Qed.

Lemma run_at {A} (m : M Cluster A) c i e :
  trace m c !! i = Some e ->
  m c = (take i (trace m c) ++ e :: drop (S i) (trace m c), after m c, outcome m c).
Proof. intros Hi. rewrite take_drop_middle by done. apply run_eq. Qed.

(** [E]: the run of [m] from [c], split at its interaction [e] at position [i]. *)
Local Ltac run_event E m c i e :=
  assert (E : trace m c !! i = Some e) by (vm_compute; reflexivity);
  apply run_at in E.

(** A user edits the desired state. *)
Definition edit (c : Cluster) (name : string) (s : NodeState) : Cluster :=
  with_nodes c (alter (fun n => set_State n s) name (c_nodes c)).

(** node-1 is next, node-2 waits. *)
Definition next_cluster : Cluster :=
  cluster [dnode "node-1" NodeStateDrained NodeCurrentStateNext false;
           dnode "node-2" NodeStateDrained NodeCurrentStateQueued false]
    [kube "node-1" false; kube "node-2" false].

(** node-1 is drained and waits for its reboot. *)
Definition reboot_cluster : Cluster :=
  cluster [dnode "node-1" NodeStateRebootIfRequired NodeCurrentStateDrained true] [kube "node-1" true].

(** node-1 is being undrained. *)
Definition undrain_cluster : Cluster :=
  cluster [dnode "node-1" NodeStateActive NodeCurrentStateUndraining true] [kube "node-1" true].

(** ** Witnesses *)

Lemma mutual_exclusion_witness :
  exclusive (c_nodes (after (Reconcile demo "node-1") next_cluster)).
Proof.
  apply (mutual_exclusion c_nodes next_cluster).
  - apply exclusive_count. vm_compute. lia.
  - intros name n Hn Hc. unfold next_cluster in Hn. simpl in Hn.
    apply lookup_insert_Some in Hn as [[<- <-]|[_ Hn]]; [done|].
    apply lookup_insert_Some in Hn as [[<- <-]|[_ Hn]]; [done|]. done.
  - set (m := Reconcile demo "node-1").
    apply (reach_run _ next_cluster next_cluster demo "node-1" (trace m next_cluster)
      (after m next_cluster) (outcome m next_cluster) (trace m next_cluster) []).
    + apply reach_init.
    + exact (run_eq m next_cluster).
    + by rewrite app_nil_r.
    + apply tame_orun; [|vm_compute; reflexivity].
      exact (traced_Reconcile demo "node-1" _ _ _ _ (run_eq m next_cluster)).
Defined.

Lemma reconcile_drain_safety_witness :
  let tr := trace (Reconcile demo "node-1") next_cluster in
  "node-1" <> nodeName demo /\ predrain_done demo_plugins "node-1" (take 20 tr).
Proof.
  run_event E (Reconcile demo "node-1") next_cluster 20%nat
    (mkEv (RunNodeDrain drainHelper "node-1") None).
  apply reconcile_drain_safety in E
    as (f & node & k & _ & _ & _ & _ & _ & _ & _ & Hne & _ & _ & _ & _ & _ & _ & Hp & _).
  split; [exact Hne|exact Hp].
Defined.

Lemma reconcile_reboot_safety_witness :
  let tr := trace (Reconcile demo "node-1") reboot_cluster in
  exists k', mkEv (NodesGet "node-1") (inr k') ∈ take 6 tr /\ kn_Unschedulable k' = true.
Proof.
  run_event E (Reconcile demo "node-1") reboot_cluster 6%nat
    (mkEv (PodsCreate "node-drain-system" (rebootNodePod demo_rm "node-1"))
       (inr (name_pod (with_clock reboot_cluster (demo_time + 2)%Z) (rebootNodePod demo_rm "node-1")))).
  apply reconcile_reboot_safety in E
    as (node & k & k' & _ & _ & _ & _ & _ & _ & _ & _ & _ & _ & _ & Hin & Hu).
  exists k'. split; [exact Hin|exact Hu].
Defined.

(** node-1 before and after the step to Draining. *)
Definition next_node : Node := dnode "node-1" NodeStateDrained NodeCurrentStateNext false.
Definition draining_node : Node := set_CurrentState next_node NodeCurrentStateDraining.

Lemma reconcile_status_refines_witness :
  lifecycle (NodeCurrentStateNext, false) (NodeCurrentStateDraining, false).
Proof.
  run_event E (Reconcile demo "node-1") next_cluster 11%nat
    (mkEv (ClientStatusPatchNode next_node draining_node) (inr draining_node)).
  apply reconcile_status_refines in E as (_ & _ & _ & Hl). exact Hl.
Defined.

Lemma reconcile_states_declared_witness : NodeCurrentStateDraining <> EmptyString.
Proof.
  run_event E (Reconcile demo "node-1") next_cluster 11%nat
    (mkEv (ClientStatusPatchNode next_node draining_node) (inr draining_node)).
  apply reconcile_states_declared in E as [E|[_ Hne]]; [discriminate E|exact Hne].
Defined.

Lemma reconcile_cordon_ownership_witness :
  nodes_ready_in (take 3 (trace (Reconcile demo "node-1") undrain_cluster)).
Proof.
  run_event E (Reconcile demo "node-1") undrain_cluster 3%nat
    (mkEv (ClientPatchKubeNode (kube "node-1" true) (kube "node-1" false)) (inr (kube "node-1" false))).
  apply reconcile_cordon_ownership in E as (_ & _ & _ & f & node & _ & Hn & Ho).
  destruct Ho as [[_ Hr]|_]; [exact Hr|].
  exists [kube "node-1" true]. split; [|reflexivity].
  apply (list_elem_of_lookup_2 _ 2). vm_compute. reflexivity.
Defined.

Definition undraining_node : Node := dnode "node-1" NodeStateActive NodeCurrentStateUndraining false.

Lemma reconcile_undrained_witness :
  postdrain_done demo_plugins "node-1" (take 9 (trace (Reconcile demo "node-1") undrain_cluster)).
Proof.
  run_event E (Reconcile demo "node-1") undrain_cluster 9%nat
    (mkEv (ClientStatusPatchNode undraining_node (set_CurrentState undraining_node NodeCurrentStateOk))
       (inr (set_CurrentState undraining_node NodeCurrentStateOk))).
  apply reconcile_undrained in E as (_ & _ & _ & Hp); [exact Hp|reflexivity|discriminate].
Defined.

(** node-1 is back from its reboot: its boot id differs from the one on record. *)
Definition rebooted_cluster : Cluster :=
  cluster [dnode "node-1" NodeStateRebootIfRequired NodeCurrentStateRebooting true] [kube "node-1" true].

Definition rebooted_node : Node :=
  set_RebootRequiredLastChecked
    (set_RebootRequired (dnode "node-1" NodeStateRebootIfRequired NodeCurrentStateRebooting true)
       (Some false)) (Some (demo_time + 1)%Z).

Lemma reconcile_spec_write_witness :
  exists k, has_rebooted demo (take 6 (trace (Reconcile demo "node-1") rebooted_cluster)) k rebooted_node.
Proof.
  run_event E (Reconcile demo "node-1") rebooted_cluster 6%nat
    (mkEv (ClientPatchNode rebooted_node (set_State rebooted_node NodeStateActive))
       (inr (set_State rebooted_node NodeStateActive))).
  apply reconcile_spec_write in E as (_ & _ & _ & _ & _ & [[[Hc|Hc] _]|(_ & _ & k & _ & _ & Hr)]);
    [discriminate Hc|discriminate Hc|]. exists k. exact Hr.
Defined.

(** node-1 is being deleted. *)
Definition deleted_node : Node :=
  mkNode "node-1" (Some demo_time) [nodeDrainFinalizer; "other"] ["node-1"]
    (mkNodeSpec NodeStateActive) zeroNodeStatus.

Definition deleted_cluster : Cluster := cluster [deleted_node] [kube "node-1" false].

Lemma reconcile_deletion_witness :
  exists rest w' res, Reconcile demo "node-1" deleted_cluster =
    (mkEv (ClientGetKubeNode "node-1") (inr (kube "node-1" false)) ::
     mkEv (ClientGetNode "node-1") (inr deleted_node) :: rest, w', res).
Proof.
  destruct (reconcile_deletion demo "node-1" deleted_cluster (kube "node-1" false) deleted_cluster
    deleted_node deleted_cluster) as (rest & w' & res & E & _).
  - vm_compute. reflexivity.
  - vm_compute. reflexivity.
  - reflexivity.
  - exists rest, w', res. exact E.
Defined.

(** A cordoned kube node nobody manages yet. *)
Definition unmanaged_cluster : Cluster := cluster [] [kube "node-1" true].
Definition created_node : Node :=
  mkNode "node-1" None [nodeDrainFinalizer] ["node-1"] (mkNodeSpec NodeStateCordoned) zeroNodeStatus.

Lemma reconcile_creation_witness :
  exists rest w' n b, Reconcile demo "node-1" unmanaged_cluster =
      (mkEv (ClientGetKubeNode "node-1") (inr (kube "node-1" true)) ::
       mkEv (ClientGetNode "node-1") (inl notFound) :: rest, w', inr (mkResult (5 * Second))) /\
    mkEv (ClientCreateNode n) b ∈ rest /\ Name n = "node-1" /\ nstate n = NodeStateCordoned.
Proof.
  destruct (reconcile_creation demo "node-1" unmanaged_cluster (kube "node-1" true) unmanaged_cluster
    notFound unmanaged_cluster) as (rest & w' & res & E & Hc); [vm_compute; reflexivity..|].
  simpl in Hc. destruct Hc as ([err|o] & Hc).
  - exfalso. destruct Hc as [_ Hres]. subst res. apply (f_equal snd) in E. vm_compute in E. discriminate E.
  - destruct Hc as (n & b & Hrest & Hres & Hn & _ & _ & _ & _ & Hs).
    exists rest, w', n, b. split_and!; [|subst rest; set_solver|exact Hn|exact Hs].
    rewrite E. f_equal. subst res. destruct b as [err|b]; [|reflexivity]. exfalso.
    apply (f_equal snd) in E. vm_compute in E. discriminate E.
Defined.


(** node-2 is drained at once, without a look at node-1. *)
Lemma fresh_drain_skips_queue_witness :
  exclusive (c_nodes fresh_cluster) /\
  Forall (fun e => gate_request (ev_req e) = false) (trace (Reconcile demo "node-2") fresh_cluster) /\
  mkEv (RunNodeDrain drainHelper "node-2") None ∈ trace (Reconcile demo "node-2") fresh_cluster /\
  ~ exclusive (c_nodes (after (Reconcile demo "node-2") fresh_cluster)).
Proof.
  split; [apply exclusive_count; vm_compute; lia|].
  set (m := Reconcile demo "node-2").
  destruct (fresh_drain_skips_queue demo "node-2" fresh_cluster (kube "node-2" false) fresh_cluster
    fresh_node fresh_cluster (trace m fresh_cluster) (after m fresh_cluster) (outcome m fresh_cluster))
    as [Hg Hd]; [vm_compute; reflexivity..|discriminate|exact (run_eq m fresh_cluster)|].
  split; [exact Hg|]. split.
  - assert (Ho : outcome m fresh_cluster = inr Result0) by (vm_compute; reflexivity).
    rewrite Ho in Hd. exact Hd.
  - apply (two_busy _ "node-1" "node-2"); [discriminate|vm_compute; reflexivity..].
Defined.

(** The controller, running on the node to be drained. *)
Definition demo_self : nodeReconciler :=
  mkNodeReconciler "node-drain-system" "node-1" demo_rm demo_plugins (fun _ => (12 * Hour)%Z).

Lemma reconcile_self_eviction_witness : "node-1" = nodeName demo_self.
Proof.
  run_event E (Reconcile demo_self "node-1") next_cluster 15%nat
    (mkEv (PodsDelete "node-drain-system" "node-drain-0" true) None).
  apply reconcile_self_eviction in E as (_ & Hn & _). exact Hn.
Defined.

(** node-1 was drained, its spec was then set to Cordoned, and after a
    reconciliation back to Drained: two more reconciliations select it. *)
Definition stuck_cluster : Cluster :=
  let R := after (Reconcile demo "node-1") in
  R (R (edit (R (cluster [dnode "node-1" NodeStateCordoned NodeCurrentStateDrained true]
                   [kube "node-1" true])) "node-1" NodeStateDrained)).

Definition stuck_node : Node := dnode "node-1" NodeStateDrained NodeCurrentStateNext true.

Lemma drained_next_is_stuck_witness :
  after (Reconcile demo "node-1") stuck_cluster = stuck_cluster /\
  outcome (Reconcile demo "node-1") stuck_cluster = inr Result0.
Proof.
  unfold after, outcome.
  rewrite (drained_next_is_stuck demo "node-1" stuck_cluster (kube "node-1" true) stuck_cluster
    stuck_node stuck_cluster); [split; reflexivity|..]; vm_compute; reflexivity.
Defined.

Lemma is_next_node_spec_witness :
  let node := dnode "node-2" NodeStateDrained NodeCurrentStateQueued false in
  isNextNode node next_cluster =
    ([mkEv ClientListNodes (inr (map_to_list (c_nodes next_cluster)).*2)], next_cluster,
     inr (false, node)).
Proof.
  pose proof (is_next_node_spec (dnode "node-2" NodeStateDrained NodeCurrentStateQueued false)
    next_cluster (inr (map_to_list (c_nodes next_cluster)).*2) next_cluster eq_refl) as Hs.
  cbv beta iota in Hs. case_decide as Hd; [|exact Hs].
  assert (Hin : next_node ∈ (map_to_list (c_nodes next_cluster)).*2)
    by (apply (list_elem_of_lookup_2 _ 0); vm_compute; reflexivity).
  destruct Hd as [Hf _]. rewrite Forall_forall in Hf. discriminate (Hf _ Hin).
Defined.


Lemma is_reboot_required_cleanup_witness :
  Forall (fun e => pod_created e = false) (trace (RM_IsRebootRequired demo_rm "node-1") next_cluster) \/
  exists k p body name a,
    trace (RM_IsRebootRequired demo_rm "node-1") next_cluster =
      mkEv (NodesGet "node-1") (inr k) ::
      mkEv (PodsCreate "node-drain-system" (rebootRequiredPod demo_rm "node-1")) (inr p) ::
      body ++ [mkEv (PodsDelete "node-drain-system" name false) a].
Proof.
  destruct (is_reboot_required_cleanup demo_rm "node-1" next_cluster _ _ _
    (run_eq (RM_IsRebootRequired demo_rm "node-1") next_cluster))
    as [Hf|(k & p & body & name & a & E & _)]; [left; exact Hf|].
  right. exists k, p, body, name, a. exact E.
Defined.

(** The API server stops serving pods after one more read. *)
Definition broken_cluster : Cluster := with_reads next_cluster (Some 1%nat).

Lemma reboot_required_pod_leak_witness :
  exists p, mkEv (PodsCreate "node-drain-system" (rebootRequiredPod demo_rm "node-1")) (inr p) ∈
    trace (RM_IsRebootRequired demo_rm "node-1") broken_cluster.
Proof.
  assert (E := run_eq (RM_IsRebootRequired demo_rm "node-1") broken_cluster).
  assert (Ho : outcome (RM_IsRebootRequired demo_rm "node-1") broken_cluster =
    inl (WrapError "failed to get reboot-required pod: " denied)) by (vm_compute; reflexivity).
  rewrite Ho in E. apply reboot_required_pod_leak in E as (p & Hin & _).
  exists p. exact Hin.
Defined.

Lemma is_node_rebooted_spec_witness :
  outcome (IsNodeRebooted demo_rm (kube "node-1" true) "boot-0") next_cluster = inr true /\
  kn_BootID (kube "node-1" true) <> "boot-0".
Proof.
  assert (E := run_eq (IsNodeRebooted demo_rm (kube "node-1" true) "boot-0") next_cluster).
  assert (Ho : outcome (IsNodeRebooted demo_rm (kube "node-1" true) "boot-0") next_cluster = inr true)
    by (vm_compute; reflexivity).
  split; [exact Ho|]. rewrite Ho in E.
  apply is_node_rebooted_spec in E as [[Hne _] _]; [exact Hne|reflexivity].
Defined.

Lemma cluster_nodes_healthy_iff_witness :
  exists a, trace IsClusterNodesHealthy next_cluster = [mkEv NodesList a].
Proof.
  destruct (cluster_nodes_healthy_iff next_cluster _ _ _ (run_eq IsClusterNodesHealthy next_cluster))
    as (a & E & _).
  exists a. exact E.
Defined.

Lemma new_drain_manager_registry_witness :
  registry_ok (trace NewDrainManager next_cluster)
    (mkDrainManager ["/plugins/example.so"]
       {[ "example-plugin" := mkDrainClientInfo "/plugins/example.so"
            (mkDrainPluginInfo "example-plugin" CONFIG_FORMAT_YAML) ]}
       {[ "example.so" := "example-plugin" ]}).
Proof.
  assert (E := run_eq NewDrainManager next_cluster).
  assert (Ho : outcome NewDrainManager next_cluster = inr
    (mkDrainManager ["/plugins/example.so"]
       {[ "example-plugin" := mkDrainClientInfo "/plugins/example.so"
            (mkDrainPluginInfo "example-plugin" CONFIG_FORMAT_YAML) ]}
       {[ "example.so" := "example-plugin" ]})) by (vm_compute; reflexivity).
  rewrite Ho in E. exact (new_drain_manager_registry next_cluster _ _ _ E).
Defined.

Lemma drain_client_transparent_witness :
  exists evs, IsHealthy ExampleDrainPlugin true = (evs, true, inr true).
Proof.
  destruct (drain_client_transparent "example" ExampleDrainPlugin c_plugin)
    as (_ & _ & _ & Hh & _).
  apply (Hh next_cluster (trace (IsHealthy (DrainClient "example")) next_cluster) next_cluster true).
  vm_compute. reflexivity.
Defined.

Lemma default_webhook_witness :
  exists a, trace (Default (NodeObject created_node)) next_cluster =
    [mkEv (ClientGetNode "node-1") a].
Proof.
  destruct (default_webhook created_node next_cluster _ _ _
    (run_eq (Default (NodeObject created_node)) next_cluster)) as (a & E & _).
  exists a. exact E.
Defined.

Lemma is_drain_ok_verdict_witness :
  outcome (DM_IsDrainOk demo_plugins created_node) next_cluster = inr true /\
  polled (drainok_reply "node-1") demo_plugins "node-1" "DrainOK"
    (trace (DM_IsDrainOk demo_plugins created_node) next_cluster) (inr true).
Proof.
  assert (Ho : outcome (DM_IsDrainOk demo_plugins created_node) next_cluster = inr true)
    by (vm_compute; reflexivity).
  split; [exact Ho|]. rewrite <- Ho.
  exact (is_drain_ok_verdict demo_plugins created_node next_cluster _ _ _ (run_eq _ next_cluster)).
Defined.

Lemma is_healthy_verdict_witness :
  exists items rest, trace (DM_IsHealthy demo_plugins created_node) next_cluster =
      mkEv NodesList (inr items) :: rest /\
    polled healthy_reply demo_plugins "node-1" "Healthy" rest (inr true).
Proof.
  assert (Ho : outcome (DM_IsHealthy demo_plugins created_node) next_cluster = inr true)
    by (vm_compute; reflexivity).
  destruct (is_healthy_verdict demo_plugins created_node next_cluster _ _ _ (run_eq _ next_cluster))
    as ([e|items] & rest & E & Hr); rewrite Ho in Hr; [by destruct Hr|].
  exists items, rest. split; [exact E|]. destruct (nodes_ready items); [exact Hr|].
  destruct Hr as [Hr _]. discriminate Hr.
Defined.

(** ** Runs that go well *)

(** One more run in the model cluster that goes well. *)
Lemma run_round r x P c n k outs v v' :
  Name n = x -> kn_Name k = x -> deleting n = false -> P n k -> v = view n k ->
  guarded (favourable n k) [] (trace (Reconcile r x) c) ->
  rounds r x P (foldl advance v (steps (trace (Reconcile r x) c))) outs v' ->
  rounds r x P v ((outcome (Reconcile r x) c, steps (trace (Reconcile r x) c)) :: outs) v'.
Proof. intros. eapply rounds_run; [done..|apply run_eq|done|done]. Qed.

(** Shows that the interactions of a concrete run are favourable. *)
Ltac go_well :=
  match goal with |- guarded ?G ?h ?t =>
    let t' := eval vm_compute in t in
    replace t with t' by (vm_compute; reflexivity)
  end;
  repeat (split;
    [first [exact I | reflexivity | (eexists; reflexivity) | (intros _; reflexivity)
           | (eexists; split; [reflexivity|first [exact I | reflexivity | repeat constructor | intros _; reflexivity]])]|]);
  exact I.



Definition after_runs (i : nat) (c : Cluster) : Cluster := Nat.iter i (after (Reconcile demo "node-1")) c.


Definition to_undrain (c : NodeCurrentState) : Node := dnode "node-1" NodeStateActive c true.

Definition drained_cluster : Cluster :=
  cluster [to_undrain NodeCurrentStateDrained] [kube "node-1" true].

Lemma undrain_completes_witness :
  exists o1 o2 v,
    rounds demo "node-1" (fun _ _ => True)
      (mkView NodeStateActive (NodeCurrentStateDrained, true, EmptyString) true) [o1; o2] v /\
    o2.1 = inr Result0 /\ v = mkView NodeStateActive (NodeCurrentStateOk, false, EmptyString) false.
Proof.
  assert (Hr : exists o1 o2 v, rounds demo "node-1" (fun _ _ => True)
    (mkView NodeStateActive (NodeCurrentStateDrained, true, EmptyString) true) [o1; o2] v).
  { do 3 eexists.
    apply (run_round _ _ _ drained_cluster (to_undrain NodeCurrentStateDrained) (kube "node-1" true));
      [reflexivity..|exact I|reflexivity|go_well|].
    apply (run_round _ _ _ (after_runs 1 drained_cluster) (to_undrain NodeCurrentStateUndraining)
      (kube "node-1" true)); [reflexivity..|exact I|vm_compute; reflexivity|go_well|].
    apply rounds_none. }
  destruct Hr as (o1 & o2 & v & Hr). exists o1, o2, v. split; [exact Hr|].
  apply undrain_completes in Hr as (_ & -> & ->); [split; reflexivity|left; reflexivity|discriminate].
Defined.
