(* ===== verification/Samples.v ===== *)
(** * Samples

    Small concrete instances of the library interfaces of the logging, configuration,
    start-up and memory models, which show that the laws assumed of those libraries
    can hold, and runs in them: each witness instantiates one theorem at a concrete
    input where its hypotheses hold. *)

From Stdlib Require Import Ascii ZArith NArith Lia.
From stdpp Require Import base gmap strings list.
From S2P Require Import Prelude NodeTypes DeepCopy Json GoTime Requests Effects Plugins Config Logging HcLog LoadConfig Utils DrainManager Monitor RebootManager NodeController Startup Traces Protocol Behaviour Exclusion History Progress Rebooting ApiServer Scenarios.

Local Open Scope string_scope.
Local Open Scope list_scope.

(** ** A logger *)

Record logger := mkLogger { lg_name : string; lg_handle : nat; lg_level : Z; lg_fields : list (Field json) }.

#[local] Instance sample_zap : Zap logger := {
  parseLevel s :=
    if s =? "debug" then inr DebugLevel else if s =? "info" then inr InfoLevel
    else if s =? "warn" then inr WarnLevel else if s =? "error" then inr ErrorLevel
    else inl (ErrorString ("unrecognized level: " +:+ s));
  Build c := inr (mkLogger EmptyString (zc_Level c) InfoLevel []);
  Named l n := mkLogger n (lg_handle l) (lg_level l) (lg_fields l);
  atomicLevel := lg_handle;
  CapitalColorLevelEncoder _ := "LEVEL";
  LowercaseLevelEncoder _ := "level";
  CyanString s := s
}.

#[local] Instance sample_zap_laws : ZapLaws logger.
Proof. split; [|done]. by intros c l [= <-]. Qed.

#[local] Instance sample_logger : ZapLogger logger json := {
  zap_Level := lg_level;
  zap_Name := lg_name;
  zap_Check l lvl _ := (lg_level l <=? lvl)%Z;
  zap_With l fs := mkLogger (lg_name l) (lg_handle l) (lg_level l) (lg_fields l ++ fs);
  zap_WithOptions l _ := l
}.

#[local] Instance sample_logger_laws : ZapLoggerLaws logger json.
Proof. by split. Qed.

#[local] Instance sample_order : MapOrder := fun m => map_to_list m.

#[local] Instance sample_order_laws : MapOrderLaws.
Proof. intros m. reflexivity. Qed.

Definition info_logger : logger := mkLogger "plugin" 0 InfoLevel [].
Definition plugin_ids : gmap string string := {[ "example.so" := "example-plugin" ]}.

(** *** Lines *)

(** What a plugin's own hclog prints. *)
Definition hclog_line : string :=
  json_text " {'@level':'warn','@message':'slow','@timestamp':'2024-02-29T01:30:00.000001Z','took':3}".

(** A line without a string for its message. *)
Definition crash_line : string := json_text "{'@message': 1}".

Lemma monitor_line_logged_witness :
  exists es m' e, monitorLine plugin_ids "example.so" (mkMonitor false info_logger) hclog_line
      = (es, Some m') /\
    addedPluginId m' = true /\ es = [e] /\ e_message e = "slow" /\ e_level e = WarnLevel /\
    lg_fields (e_logger e) = [(LogPluginId, AString "example-plugin")].
Proof.
  destruct (monitorLine plugin_ids "example.so" (mkMonitor false info_logger) hclog_line)
    as [es [m'|]] eqn:E; [|vm_compute in E; discriminate E].
  destruct (monitor_line_logged plugin_ids "example.so" (mkMonitor false info_logger) m' hclog_line es)
    as (-> & e & Hes & Hl & Hwhat).
  - vm_compute. discriminate.
  - exact E.
  - exists es, (addPluginId plugin_ids "example.so" (mkMonitor false info_logger)), e.
    assert (Hes0 : exists e0, es = [e0] /\ e_level e0 = WarnLevel /\ e_message e0 = "slow").
    { vm_compute in E. injection E as <-. eexists. split_and!; reflexivity. }
    destruct Hes0 as (e0 & -> & Hlv & Hmsg).
    destruct (_ <=? _)%Z; [|discriminate Hes]. injection Hes as ->.
    split_and!; [reflexivity|vm_compute; reflexivity|reflexivity|exact Hmsg|exact Hlv|].
    rewrite Hl. vm_compute. reflexivity.
Defined.

Lemma monitor_crash_iff_witness :
  snd (monitorLine ∅ "example.so" (mkMonitor false info_logger) crash_line) = None.
Proof.
  apply (monitor_crash_iff ∅ "example.so" (mkMonitor false info_logger) crash_line).
  exists {[ "@message" := JNumber "1" ]}. split; [vm_compute; reflexivity|]. left. reflexivity.
Defined.

(** *** Streams *)

Fixpoint repeated (n : nat) : string :=
  match n with O => EmptyString | S n' => String "x" (repeated n') end.

Lemma repeated_length n : String.length (repeated n) = n.
Proof. induction n as [|n IH]; simpl; [done|by rewrite IH]. Qed.

Lemma repeated_no_newline n : no_newline (repeated n) = true.
Proof. by induction n as [|n IH]. Qed.

(** A line of a megabyte between two short ones: only the first is logged. *)
Lemma monitor_size_limit_witness :
  exists e, pluginOutputMonitor (fun _ => plugin_ids) "Stderr" info_logger "example.so"
    (unlines ["[WARN] one"] +:+ (repeated (N.to_nat maxTokenSize) +:+ unlines [EmptyString; "two"]))
    = ([e], TooLong) /\ e_message e = "[WARN] one".
Proof.
  destruct (monitor_size_limit (fun _ => plugin_ids) "Stderr" info_logger "example.so"
    ["[WARN] one"] (repeated (N.to_nat maxTokenSize)) (unlines [EmptyString; "two"]))
    as (es & r & Hrun & _ & Hout).
  - repeat constructor.
  - apply repeated_no_newline.
  - rewrite repeated_length, N2Nat.id. reflexivity.
  - assert (Hr : exists e m, es = [e] /\ r = Some m /\ e_message e = "[WARN] one").
    { vm_compute in Hrun. injection Hrun as <- <-. eexists _, _. split_and!; reflexivity. }
    destruct Hr as (e & m & -> & -> & He). exists e. split; [exact Hout|exact He].
Defined.

Lemma convert_reads_pairs_witness :
  convertToZapAny [AString "a"; AOther 1%Z; AString "b"; AOther 2%Z]
    = [("b", AOther 2%Z); ("a", AOther 1%Z)] /\
  convertToZapAny [AOther 0%Z; AString "a"; AOther 1%Z] = fieldsOf [AOther 0%Z; AString "a"; AOther 1%Z].
Proof.
  split.
  - apply (proj2 (convert_reads_pairs [AString "a"; AOther 1%Z; AString "b"; AOther 2%Z])
             [("a", AOther 1%Z); ("b", AOther 2%Z)]). reflexivity.
  - apply (proj1 (convert_reads_pairs [AOther 0%Z; AString "a"; AOther 1%Z])).
Defined.

(** ** Named loggers *)

Definition logged_config : Config :=
  mkConfig (mkLogConfig "info" "json" {[ "node" := Config.mkLogger "TRACE" ]}) (12 * Hour)%Z
    (PodCfg demo_config) false.

(** The state after [GetLogger]. *)
Definition logged_state : LogState :=
  fst (Logging.GetLogger (mkLogState [] None []) "info" "json").

Definition logged_zap : ZapConfig :=
  mkZapConfig 0 "json" (encodeLevel "json") "ISO8601" ["stdout"] ["stderr"] false.

(** The console format writes zap's own name for the trace level; a level of
    that name is refused. *)
Lemma get_logger_spec_witness :
  (exists c, _loggerConfig (fst (Logging.GetLogger (mkLogState [] None []) "info" "console")) = Some c /\
     zc_EncodeLevel c TraceLevel = CapitalColorLevelEncoder TraceLevel) /\
  Logging.GetLogger (mkLogState [] None []) "trace" "json" =
    (mkLogState [] None [],
     inl (WrapError "failed to parse log level: " (ErrorString "unrecognized level: trace"))).
Proof.
  split.
  - destruct (get_logger_spec (mkLogState [] None []) "info" "console")
      as (c & _ & _ & _ & He & _ & Hc & _).
    exists c. split; [exact Hc|exact He].
  - exact (get_logger_spec (mkLogState [] None []) "trace" "json").
Defined.

(** Asked for after [node], the webhook's logger does not inherit its level. *)
Lemma named_loggers_independent_witness :
  let st := fst (namedLoggers (Some logged_config) logged_state ["node"; "node-webhook"]) in
  levelOf st (mkLogger "node" 1 InfoLevel []) = Some TraceLevel /\
  levelOf st (mkLogger "node-webhook" 2 InfoLevel []) = Some InfoLevel.
Proof.
  assert (Hnode : wantedLevel logged_config "node" = TraceLevel) by (vm_compute; reflexivity).
  assert (Hweb : wantedLevel logged_config "node-webhook" = InfoLevel) by (vm_compute; reflexivity).
  split; [rewrite <- Hnode|rewrite <- Hweb].
  - apply (named_loggers_independent logged_config logged_state ["node"; "node-webhook"] logged_zap
      "node" (Returns (mkLogger "node" 1 InfoLevel []))); [reflexivity|].
    apply list_elem_of_here.
  - apply (named_loggers_independent logged_config logged_state ["node"; "node-webhook"] logged_zap
      "node-webhook" (Returns (mkLogger "node-webhook" 2 InfoLevel []))); [reflexivity|].
    apply list_elem_of_further, list_elem_of_here.
Defined.

(** ** Configuration *)

(** A flat store: a map from keys to texts. *)
#[local] Instance sample_koanf : Koanf (gmap string string) (gmap string string) string := {
  Read p :=
    match p with
    | YamlFile "/config/10-base.yaml" => inr {[ "log.level" := "info"; "log.format" := "json" ]}
    | YamlFile "/config/20-local.yml" => inr {[ "log.level" := "debug" ]}
    | YamlFile _ => inl (ErrorString "yaml: invalid")
    | EnvVars _ _ => inr {[ "log.level" := "warn"; "containernode" := "true" ]}
    | RawYaml _ => inr {[ "log.level" := "info" ]}
    end;
  Merge k d := d ∪ k;
  Unmarshal k := inr logged_config;
  Get k key := k !! key;
  value d key := d !! key;
  touches d key := match d !! key with Some _ => true | None => false end
}.

#[local] Instance sample_koanf_laws : KoanfLaws (gmap string string) (gmap string string) string.
Proof.
  split; simpl; intros k d key; [intros v Hv; by apply lookup_union_Some_l|].
  destruct (d !! key) eqn:E; [done|]. intros _. by apply lookup_union_r.
Qed.

Definition sample_fs : FileSystem :=
  mkFileSystem (fun _ => StatInfo "config" true)
    (fun _ => inr [mkDirEntry "20-local.yml" false; mkDirEntry "README" false;
                   mkDirEntry "15-broken.yaml" false; mkDirEntry "10-base.yaml" false]).

Definition empty_config : ConfigState (gmap string string) := mkConfigState ∅ None [].

(** The later file wins over the earlier one and both over the environment. *)
Lemma load_config_last_wins_witness :
  exists st', LoadConfig sample_fs empty_config = (st', inr logged_config) /\
    Get (GetKoanf st') "log.level" = Some "debug" /\
    Get (GetKoanf st') "containernode" = Some "true".
Proof.
  destruct (LoadConfig sample_fs empty_config) as [st' r] eqn:E.
  assert (Hr : r = inr logged_config)
    by (change r with (st', r).2; rewrite <- E; vm_compute; reflexivity). subst r.
  assert (Hlayers : fileLayers sample_fs =
    [("10-base.yaml", {[ "log.level" := "info"; "log.format" := "json" ]});
     ("20-local.yml", {[ "log.level" := "debug" ]})]) by (vm_compute; reflexivity).
  exists st'. split; [reflexivity|]. split.
  - destruct (load_config_last_wins sample_fs empty_config st' logged_config
      {[ "log.level" := "warn"; "containernode" := "true" ]} "log.level") as (_ & _ & _ & Hf & _);
      [reflexivity|exact E|].
    apply (Hf [("10-base.yaml", {[ "log.level" := "info"; "log.format" := "json" ]})]
             "20-local.yml" {[ "log.level" := "debug" ]} []); [exact Hlayers|constructor|reflexivity].
  - destruct (load_config_last_wins sample_fs empty_config st' logged_config
      {[ "log.level" := "warn"; "containernode" := "true" ]} "containernode") as (_ & _ & _ & _ & He);
      [reflexivity|exact E|].
    apply He; [rewrite Hlayers; repeat constructor|reflexivity].
Defined.

(** ** A start *)

#[local] Instance sample_grow : GrowSlice := fun n => n.

#[local] Instance sample_grow_laws : GrowSliceLaws.
Proof. split; [intros n; unfold growslice, sample_grow; lia|done]. Qed.

(** Everything succeeds but the registration of the health check. *)
#[local] Instance sample_start : StartEnv Cluster := fun q c =>
  (match q with AddHealthzCheck _ => Some (ErrorString "taken") | _ => None end, c).

Definition sample_flags (f : Flags) : Flags :=
  mkFlags (metricsAddr f) (probeAddr f) true (secureMetrics f) "/webhook" (webhookCertName f)
    (webhookCertKey f) "/metrics" (metricsCertName f) (metricsCertKey f) (enableHTTP2 f)
    (namespaceFlag f) (configMapName f).

Definition sample_getenv (name : string) : string :=
  if name =? "POD_NAMESPACE" then "node-drain-system" else EmptyString.

Definition sample_proc : proc Cluster (gmap string string) :=
  mkProc (cluster [] []) empty_config (mkLogState [] None []) [].

Definition sample_main : Boot Cluster (gmap string string) unit :=
  process (L := logger) sample_fs sample_getenv sample_flags (fun _ _ => (12 * Hour)%Z) EmptyString.

(** The start is cut off at the failing step, at the nineteenth request of the plan. *)
Lemma startup_follows_plan_witness :
  attempted (plan sample_getenv (sample_flags (defaultFlags sample_getenv)))
    (requests (sample_main sample_proc).1.1) /\
  length (requests (sample_main sample_proc).1.1) = 19 /\
  contents (arrays (sample_main sample_proc).1.2) (SliceOf 0 1 1) = [disableHTTP2].
Proof.
  split; [|split; vm_compute; reflexivity].
  destruct (startup_follows_plan (L := logger) sample_fs sample_getenv sample_flags
    (fun _ _ => (12 * Hour)%Z) EmptyString sample_proc) as [Hrun _].
  assert (Hx : match (sample_main sample_proc).2 with inr _ => False | inl _ => True end)
    by (vm_compute; exact I).
  revert Hrun Hx. unfold sample_main. cbv zeta.
  destruct (process _ _ _ _ _ _) as [[evs p'] [e|x]]; intros Hrun Hx; [exact Hrun|destruct Hx].
Defined.

(** ** A reboot *)

Definition wants_reboot : Node :=
  dnode "node-1" NodeStateRebootIfRequired NodeCurrentStateOk false.

Definition reboot_cluster : Cluster := cluster [wants_reboot] [kube "node-1" false].


(** Reconciliations of node-1. *)
Definition third_state : Cluster := after_runs 3 reboot_cluster.


(** node-1's objects as each run reads them. *)
Definition reads_node (c : Cluster) : Node :=
  match find_node c "node-1" with Some n => n | None => wants_reboot end.



(** A reconciliation of node-1 in the model cluster, recorded. *)
Lemma history_run_node1 w0 t c :
  forallb (fun e => tame (ev_req e)) (trace (Reconcile demo "node-1") c) = true ->
  history c_nodes w0 t c -> exists t', history c_nodes w0 t' (after (Reconcile demo "node-1") c).
Proof.
  intros Ht. eapply history_Reconcile; [apply run_eq|]. apply tame_orun; [|exact Ht].
  exact (traced_Reconcile demo "node-1" _ _ _ _ (run_eq _ c)).
Qed.

Lemma stage_history_witness :
  exists t, history c_nodes reboot_cluster t third_state /\
    since c_nodes past_gate admitted "node-1" t /\ since c_nodes emptied evicted "node-1" t /\
    since c_nodes is_rebooting reboot_wanted "node-1" t.
Proof.
  destruct (history_run_node1 reboot_cluster [] reboot_cluster) as [t1 H1];
    [vm_compute; reflexivity|apply history_init|].
  apply history_run_node1 in H1 as [t2 H2]; [|vm_compute; reflexivity].
  apply history_run_node1 in H2 as [t3 H3]; [|vm_compute; reflexivity].
  exists t3. split; [exact H3|].
  assert (Hn : exists n, c_nodes third_state !! "node-1" = Some n /\
    ncurrent n = NodeCurrentStateRebooting).
  { let n := eval vm_compute in (reads_node third_state) in exists n. split; vm_compute; reflexivity. }
  destruct Hn as (n & Hn & Hc).
  destruct (stage_history c_nodes reboot_cluster t3 third_state "node-1" n) as (_ & Hg & He & Hb).
  - intros x m Hm. simpl in Hm.
    apply lookup_insert_Some in Hm as [[<- <-]|[_ Hm]]; [reflexivity|discriminate Hm].
  - intros x m Hm Hc0. simpl in Hm.
    apply lookup_insert_Some in Hm as [[<- <-]|[_ Hm]]; [discriminate Hc0|discriminate Hm].
  - exact H3.
  - exact Hn.
  - rewrite Hc in Hg, He, Hb. split_and!; [by apply Hg|by apply He|by apply Hb].
Defined.

(** ** Memory *)

(** Times are library cells behind addresses, the other library structs are flat. *)
Definition sample_cell : Type := cell (TimeP := nat) (MetaC := metaCondition) (ObjM := string)
  (ListM := unit) (F := Time).

#[local] Instance sample_time : DeepCopy sample_cell nat Time := {
  read h a := match h !! a with Some (LibraryCell t) => Some t | _ => None end;
  copy h a := match h !! a with
              | Some (LibraryCell t) => Some (alloc h (LibraryCell t))
              | _ => None end
}.

#[local] Instance sample_time_laws : DeepCopyLaws sample_cell nat Time.
Proof.
  split; simpl.
  - intros h h' a t Hs. destruct (h !! a) as [x|] eqn:Ea; [|done].
    assert (h' !! a = Some x) as -> by exact (lookup_weaken _ _ _ _ Ea Hs). done.
  - intros h a t. destruct (h !! a) as [[]|] eqn:Ea; try done. intros [= ->].
    eexists _, _. split; [reflexivity|].
    pose proof (eq_refl : alloc h (LibraryCell t : sample_cell) =
      (<[fresh (dom h) := LibraryCell t]> h, fresh (dom h))) as E.
    destruct (alloc_fill _ _ (LibraryCell t) _ _ _ E (reflexivity _)) as (Hs & _ & Hout & _).
    split; [exact Hs|]. rewrite insert_insert_eq in Hout.
    match goal with |- context [?m !! ?b] => assert (m !! b = Some (LibraryCell t)) as -> by exact Hout end.
    reflexivity.
Qed.

(** A flat struct is its own copy. *)
#[local] Instance flat_copy (X : Type) : DeepCopy sample_cell X X | 10 :=
  {| read h x := Some x; copy h x := Some (h, x) |}.

#[local] Instance flat_laws (X : Type) : DeepCopyLaws sample_cell X X | 10.
Proof. split; [done|]. intros h r v [= <-]. by exists h, r. Qed.

Definition sample_memory : gmap nat sample_cell :=
  {[ 1 := NodeCell (mkNodeRep ("Node", "drain.k8s.slyng.dk/v1") "node-1" (mkNodeSpec NodeStateDrained)
            (mkNodeStatusRep (Some 2) (Some 3) (Some 4) false NodeCurrentStateNext EmptyString));
     2 := ConditionArray [mkConditionRep (mkMetaCondition "Ready" "True" 1%Z 7%Z "ok" "fine") (Some 5)];
     3 := LibraryCell 11%Z; 4 := BoolCell true; 5 := LibraryCell 13%Z ]}.

(** The copy survives a write to the original's flag. *)
Lemma node_deepcopy_independent_witness :
  exists v h' p', NodePtr_read (MetaV := string) sample_memory (Some 1) = Some (Some v) /\
    val_RebootRequired (val_Status v) = Some true /\
    NodePtr_DeepCopy (MetaV := string) sample_memory (Some 1) = Some (h', p') /\
    NodePtr_read (MetaV := string) (<[4 := BoolCell false]> h') p' = Some (Some v).
Proof.
  assert (Hread : exists v, NodePtr_read (MetaV := string) sample_memory (Some 1) = Some (Some v) /\
    val_RebootRequired (val_Status v) = Some true)
    by (eexists; split; vm_compute; reflexivity).
  destruct Hread as (v & Hread & Hv). exists v.
  destruct (proj1 (node_deepcopy_independent (MetaV := string) (ListV := unit)) sample_memory (Some 1) (Some v))
    as (h' & p' & Hc & _ & Hw & _).
  - exact Hread.
  - exists h', p'. split; [exact Hread|]. split; [exact Hv|]. split; [exact Hc|].
    apply Hw. intros a Ha. rewrite lookup_insert_ne; [reflexivity|].
    intros <-. vm_compute in Ha. discriminate Ha.
Defined.
